(** * A shallow embedding of the MTB key-value store (mtb_kvstore.c)

    The development follows the C sources function by function.  Unsigned
    machine integers are integers of [Z] with their wrap-around written out
    ([u8], [u16], [u32]); byte buffers are lists of [Z]; the block device,
    which the library only reaches through a table of function pointers, is a
    record of functions over an abstract device state.  A function of the C
    code that may loop forever or run into undefined behaviour returns in the
    option monad, [None] standing for "no defined result". *)

From stdpp Require Import base tactics numbers list list_numbers option.
From Stdlib Require Import ZArith Lia.

Local Open Scope Z_scope.
#[global] Set Warnings "-clear-no-such-hyp".


(** ** Machine integers *)

Definition u8 (z : Z) : Z := z mod 2 ^ 8.
Definition u16 (z : Z) : Z := z mod 2 ^ 16.
Definition u32 (z : Z) : Z := z mod 2 ^ 32.

(** ** Result codes (cy_result.h, mtb_kvstore.h)

    [cy_rslt_t] is a 32-bit code.  The library only ever compares results
    with [CY_RSLT_SUCCESS] and with its own seven error codes, which are
    pairwise distinct; every other value (the block device's own errors) is
    [CY_RSLT_OTHER]. *)

Inductive cy_rslt_t : Type :=
  | CY_RSLT_SUCCESS
  | MTB_KVSTORE_BAD_PARAM_ERROR
  | MTB_KVSTORE_ALIGNMENT_ERROR
  | MTB_KVSTORE_MEM_ALLOC_ERROR
  | MTB_KVSTORE_INVALID_DATA_ERROR
  | MTB_KVSTORE_ERASED_DATA_ERROR
  | MTB_KVSTORE_ITEM_NOT_FOUND_ERROR
  | MTB_KVSTORE_STORAGE_FULL_ERROR
  | CY_RSLT_OTHER (code : Z).

#[global] Instance cy_rslt_eq_dec : EqDecision cy_rslt_t.
Proof. solve_decision. Defined.

Definition is_success (r : cy_rslt_t) : bool := bool_decide (r = CY_RSLT_SUCCESS).

(** ** Constants of mtb_kvstore.c and mtb_kvstore.h *)

Definition _MTB_KVSTORE_MIN_BUFF_SIZE : Z := 128.
Definition _MTB_KVSTORE_HEADER_MAGIC : Z := 0xFACEFACE.
Definition _MTB_KVSTORE_FORMAT_VERSION : Z := 0.
Definition _MTB_KVSTORE_INITIAL_AREA_VERSION : Z := 1.
Definition _MTB_KVSTORE_DELETE_FLAG : Z := Z.shiftl 1 7.
Definition _MTB_KVSTORE_NO_FLAG : Z := 0.
Definition _MTB_KVSTORE_INIT_MAX_KEYS : Z := 32.
Definition _MTB_KVSTORE_AREA_HEADER_OFFSET : Z := 0.
Definition _MTB_KVSTORE_CRC_INIT_VAL : Z := 0xFFFF.
Definition MTB_KVSTORE_MAX_KEY_SIZE : Z := 64.

(** The key of the area record, "MTBAREAIDX". *)
Definition _mtb_kvstore_area_rec_key : list Z :=
  [77; 84; 66; 65; 82; 69; 65; 73; 68; 88].

(** ** Layout of C structures

    [sizeof] follows the C rule for a structure of scalar members: each
    member is placed at the next multiple of its alignment and the size is
    rounded up to the largest alignment.  With [packed = false] a scalar is
    aligned to its size (the ABI of the 32-bit targets of the library and of
    every mainstream ABI); [packed = true] is the layout without padding. *)

Definition round_up (off align : Z) : Z := ((off + align - 1) / align) * align.

Definition member_align (packed : bool) (size : Z) : Z := if packed then 1 else size.

Fixpoint c_offsets (packed : bool) (off : Z) (sizes : list Z) : list Z :=
  match sizes with
  | [] => []
  | s :: rest =>
      let o := round_up off (member_align packed s) in
      o :: c_offsets packed (o + s) rest
  end.

Fixpoint c_end (packed : bool) (off : Z) (sizes : list Z) : Z :=
  match sizes with
  | [] => off
  | s :: rest => c_end packed (round_up off (member_align packed s) + s) rest
  end.

Definition c_sizeof (packed : bool) (sizes : list Z) : Z :=
  round_up (c_end packed 0 sizes)
           (foldr Z.max 1 (member_align packed <$> sizes)).

(** [_mtb_kvstore_record_header_t]: magic (uint32), format_version (uint8),
    flags (uint8), header_size (uint16), key_size (uint16), data_size
    (uint32), crc (uint32). *)
Definition record_header_members : list Z := [4; 1; 1; 2; 2; 4; 4].

(** [_mtb_kvstore_area_record_data_t]: version, format_version (uint16). *)
Definition area_record_data_members : list Z := [2; 2].

(** [mtb_kvstore_ram_table_entry_t]: hash (uint16), offset (uint32). *)
Definition ram_table_entry_members : list Z := [2; 4].

Definition sizeof_record_header : Z := Eval cbv in c_sizeof false record_header_members.
Definition sizeof_area_record_data : Z := Eval cbv in c_sizeof false area_record_data_members.
Definition sizeof_ram_table_entry : Z := Eval cbv in c_sizeof false ram_table_entry_members.

(** Little-endian image of an unsigned integer on [n] bytes, and back. *)
Fixpoint le_bytes (n : nat) (v : Z) : list Z :=
  match n with
  | O => []
  | S n' => v mod 256 :: le_bytes n' (v / 256)
  end.

Fixpoint le_value (bs : list Z) : Z :=
  match bs with
  | [] => 0
  | b :: rest => b + 256 * le_value rest
  end.

(** The bytes [off, off + n) of a buffer. *)
Definition slice (off n : Z) (bs : list Z) : list Z :=
  take (Z.to_nat n) (drop (Z.to_nat off) bs).

Record _mtb_kvstore_record_header_t : Type := {
  magic : Z;
  format_version : Z;
  flags : Z;
  header_size : Z;
  key_size : Z;
  data_size : Z;
  crc : Z
}.

(** The object representation of a header: the members at their offsets
    (0, 4, 5, 6, 8, 12, 16), the two padding bytes at offset 10 zero as
    [memset] in [_mtb_kvstore_setup_record_header] leaves them. *)
Definition header_bytes (h : _mtb_kvstore_record_header_t) : list Z :=
  le_bytes 4 (magic h) ++ le_bytes 1 (format_version h) ++ le_bytes 1 (flags h)
  ++ le_bytes 2 (header_size h) ++ le_bytes 2 (key_size h) ++ [0; 0]
  ++ le_bytes 4 (data_size h) ++ le_bytes 4 (crc h).

Definition header_of_bytes (bs : list Z) : _mtb_kvstore_record_header_t :=
  {| magic := le_value (slice 0 4 bs);
     format_version := le_value (slice 4 1 bs);
     flags := le_value (slice 5 1 bs);
     header_size := le_value (slice 6 2 bs);
     key_size := le_value (slice 8 2 bs);
     data_size := le_value (slice 12 4 bs);
     crc := le_value (slice 16 4 bs) |}.

(** [_mtb_kvstore_area_record_data_t] as bytes. *)
Definition area_record_data_bytes (version fmt : Z) : list Z :=
  le_bytes 2 version ++ le_bytes 2 fmt.

(** ** Helper functions *)

(** [_mtb_kvstore_align_up]; division by [size = 0] is undefined in C and 0
    here. *)
Definition _mtb_kvstore_align_up (val size : Z) : Z :=
  u32 ((u32 (u32 (val - 1) / size + 1)) * size).

(** [_mtb_kvstore_is_aligned] *)
Definition _mtb_kvstore_is_aligned (val size : Z) : bool :=
  Z.land val (u32 (size - 1)) =? 0.

(** [_mtb_kvstore_crc16]: CRC-16/CCITT-0 on a 32-bit accumulator. *)
Definition crc16_shift (crc : Z) : Z :=
  if Z.testbit crc 15 then Z.lxor (u32 (Z.shiftl crc 1)) 0x1021
  else u32 (Z.shiftl crc 1).

Definition crc16_byte (crc b : Z) : Z :=
  Nat.iter 8 crc16_shift (Z.lxor crc (Z.shiftl b 8)).

Definition _mtb_kvstore_crc16 (data : list Z) (init_crc : Z) : Z :=
  Z.land (fold_left crc16_byte data init_crc) 0xffff.

(** [_mtb_kvstore_get_header_crc]: the members except [crc], in memory
    order. *)
Definition _mtb_kvstore_get_header_crc (h : _mtb_kvstore_record_header_t) (init_crc : Z) : Z :=
  let crc := _mtb_kvstore_crc16 (le_bytes 4 (magic h)) init_crc in
  let crc := _mtb_kvstore_crc16 (le_bytes 1 (format_version h)) crc in
  let crc := _mtb_kvstore_crc16 (le_bytes 1 (flags h)) crc in
  let crc := _mtb_kvstore_crc16 (le_bytes 2 (header_size h)) crc in
  let crc := _mtb_kvstore_crc16 (le_bytes 2 (key_size h)) crc in
  let crc := _mtb_kvstore_crc16 (le_bytes 4 (data_size h)) crc in
  crc.

(** [strlen] of a C string, given as the list of its characters. *)
Definition strlen (s : list Z) : Z := Z.of_nat (length s).

(** [_mtb_kvstore_get_record_crc]; [data] is [None] for a null pointer. *)
Definition _mtb_kvstore_get_record_crc (h : _mtb_kvstore_record_header_t)
    (key : list Z) (data : option (list Z)) : Z :=
  let crc := _MTB_KVSTORE_CRC_INIT_VAL in
  let crc := _mtb_kvstore_get_header_crc h crc in
  let crc := _mtb_kvstore_crc16 (take (Z.to_nat (key_size h)) key) crc in
  match data with
  | Some bytes =>
      if negb (data_size h =? 0)
      then _mtb_kvstore_crc16 (take (Z.to_nat (data_size h)) bytes) crc
      else crc
  | None => crc
  end.

Inductive _mtb_kvstore_operation_t : Type :=
  | _MTB_KVSTORE_OPER_ADD
  | _MTB_KVSTORE_OPER_DELETE
  | _MTB_KVSTORE_OPER_UPDATE.

#[global] Instance operation_eq_dec : EqDecision _mtb_kvstore_operation_t.
Proof. solve_decision. Defined.

(** [_mtb_kvstore_setup_record_header] *)
Definition _mtb_kvstore_setup_record_header (key : list Z) (data : option (list Z))
    (dsize : Z) (fmt : Z) (operation : _mtb_kvstore_operation_t)
    : _mtb_kvstore_record_header_t :=
  let h := {| magic := _MTB_KVSTORE_HEADER_MAGIC;
              format_version := u8 fmt;
              flags := if decide (operation = _MTB_KVSTORE_OPER_DELETE)
                       then _MTB_KVSTORE_DELETE_FLAG else _MTB_KVSTORE_NO_FLAG;
              header_size := u16 sizeof_record_header;
              key_size := u16 (strlen key);
              data_size := u32 dsize;
              crc := 0 |} in
  {| magic := magic h; format_version := format_version h; flags := flags h;
     header_size := header_size h; key_size := key_size h;
     data_size := data_size h;
     crc := _mtb_kvstore_get_record_crc h key data |}.

(** ** The store object (mtb_kvstore.h) *)

Record mtb_kvstore_ram_table_entry_t : Type := {
  hash : Z;
  offset : Z
}.

(** [mtb_kvstore_t].  The RAM table is the list of its [num_entries] live
    entries (the slots between [num_entries] and [max_entries] are never
    read by the code); [obj_length] is the member [length].  The pointer
    [bd] is the block device the functions below take as a section
    variable. *)
Record mtb_kvstore_t : Type := {
  start_addr : Z;
  obj_length : Z;
  ram_table : list mtb_kvstore_ram_table_entry_t;
  max_entries : Z;
  transaction_buffer : list Z;
  transaction_buffer_size : Z;
  key_buffer : list Z;
  active_area_addr : Z;
  gc_area_addr : Z;
  free_space_offset : Z;
  active_area_version : Z;
  consumed_size : Z
}.

Definition num_entries (obj : mtb_kvstore_t) : Z := Z.of_nat (length (ram_table obj)).

Definition _MTB_KVSTORE_AREA_SIZE (obj : mtb_kvstore_t) : Z := obj_length obj / 2.

Definition set_ram_table (v : list mtb_kvstore_ram_table_entry_t) (o : mtb_kvstore_t) :=
  {| start_addr := start_addr o; obj_length := obj_length o; ram_table := v;
     max_entries := max_entries o; transaction_buffer := transaction_buffer o;
     transaction_buffer_size := transaction_buffer_size o; key_buffer := key_buffer o;
     active_area_addr := active_area_addr o; gc_area_addr := gc_area_addr o;
     free_space_offset := free_space_offset o;
     active_area_version := active_area_version o; consumed_size := consumed_size o |}.

Definition set_max_entries (v : Z) (o : mtb_kvstore_t) :=
  {| start_addr := start_addr o; obj_length := obj_length o; ram_table := ram_table o;
     max_entries := v; transaction_buffer := transaction_buffer o;
     transaction_buffer_size := transaction_buffer_size o; key_buffer := key_buffer o;
     active_area_addr := active_area_addr o; gc_area_addr := gc_area_addr o;
     free_space_offset := free_space_offset o;
     active_area_version := active_area_version o; consumed_size := consumed_size o |}.

Definition set_transaction_buffer (v : list Z) (o : mtb_kvstore_t) :=
  {| start_addr := start_addr o; obj_length := obj_length o; ram_table := ram_table o;
     max_entries := max_entries o; transaction_buffer := v;
     transaction_buffer_size := transaction_buffer_size o; key_buffer := key_buffer o;
     active_area_addr := active_area_addr o; gc_area_addr := gc_area_addr o;
     free_space_offset := free_space_offset o;
     active_area_version := active_area_version o; consumed_size := consumed_size o |}.

Definition set_key_buffer (v : list Z) (o : mtb_kvstore_t) :=
  {| start_addr := start_addr o; obj_length := obj_length o; ram_table := ram_table o;
     max_entries := max_entries o; transaction_buffer := transaction_buffer o;
     transaction_buffer_size := transaction_buffer_size o; key_buffer := v;
     active_area_addr := active_area_addr o; gc_area_addr := gc_area_addr o;
     free_space_offset := free_space_offset o;
     active_area_version := active_area_version o; consumed_size := consumed_size o |}.

Definition set_areas (active gc : Z) (o : mtb_kvstore_t) :=
  {| start_addr := start_addr o; obj_length := obj_length o; ram_table := ram_table o;
     max_entries := max_entries o; transaction_buffer := transaction_buffer o;
     transaction_buffer_size := transaction_buffer_size o; key_buffer := key_buffer o;
     active_area_addr := active; gc_area_addr := gc;
     free_space_offset := free_space_offset o;
     active_area_version := active_area_version o; consumed_size := consumed_size o |}.

Definition set_free_space_offset (v : Z) (o : mtb_kvstore_t) :=
  {| start_addr := start_addr o; obj_length := obj_length o; ram_table := ram_table o;
     max_entries := max_entries o; transaction_buffer := transaction_buffer o;
     transaction_buffer_size := transaction_buffer_size o; key_buffer := key_buffer o;
     active_area_addr := active_area_addr o; gc_area_addr := gc_area_addr o;
     free_space_offset := v;
     active_area_version := active_area_version o; consumed_size := consumed_size o |}.

Definition set_active_area_version (v : Z) (o : mtb_kvstore_t) :=
  {| start_addr := start_addr o; obj_length := obj_length o; ram_table := ram_table o;
     max_entries := max_entries o; transaction_buffer := transaction_buffer o;
     transaction_buffer_size := transaction_buffer_size o; key_buffer := key_buffer o;
     active_area_addr := active_area_addr o; gc_area_addr := gc_area_addr o;
     free_space_offset := free_space_offset o;
     active_area_version := v; consumed_size := consumed_size o |}.

Definition set_consumed_size (v : Z) (o : mtb_kvstore_t) :=
  {| start_addr := start_addr o; obj_length := obj_length o; ram_table := ram_table o;
     max_entries := max_entries o; transaction_buffer := transaction_buffer o;
     transaction_buffer_size := transaction_buffer_size o; key_buffer := key_buffer o;
     active_area_addr := active_area_addr o; gc_area_addr := gc_area_addr o;
     free_space_offset := free_space_offset o;
     active_area_version := active_area_version o; consumed_size := v |}.

(** ** Internal data structures of mtb_kvstore.c *)

Record _mtb_kvstore_update_ram_table_info_t : Type := {
  ram_tbl_idx : Z;
  entry : mtb_kvstore_ram_table_entry_t
}.

Record _mtb_kvstore_update_consumed_size_info_t : Type := {
  old_record_size : Z;
  new_record_size : Z
}.

Record _mtb_kvstore_update_record_info_t : Type := {
  upd_key : list Z;
  upd_data : option (list Z);
  upd_data_size : Z;
  upd_key_hash : Z
}.

Record _mtb_kvstore_record_info_t : Type := {
  ri_ram_tbl_idx : Z;
  ri_consumed_size_info : _mtb_kvstore_update_consumed_size_info_t;
  ri_update_rec_info : option _mtb_kvstore_update_record_info_t
}.

(** ** Buffers *)

(** Exactly [n] bytes out of what a callee delivered (zero where it
    delivered less). *)
Definition exactly (n : Z) (bytes : list Z) : list Z :=
  take (Z.to_nat n) (bytes ++ replicate (Z.to_nat n) 0).

(** A callee fills the first [n] bytes of [buf]. *)
Definition read_into (n : Z) (bytes buf : list Z) : list Z :=
  exactly n bytes ++ drop (Z.to_nat n) buf.

(** [memcpy (buf + pos, src, n)] *)
Definition memcpy_at (pos n : Z) (src buf : list Z) : list Z :=
  take (Z.to_nat pos) buf ++ exactly n src ++ drop (Z.to_nat (pos + n)) buf.

(** ** The block device (mtb_kvstore_bd_t)

    The table of function pointers the library is given.  [D] is the state
    of the device (its medium and whatever decides whether an operation
    fails).  [bd_read] delivers the bytes it stores into the caller's
    buffer and leaves the device as it is; [bd_program] and [bd_erase]
    return the new device.  The three size queries depend on the address
    only. *)
Record mtb_kvstore_bd_t (D : Type) : Type := {
  bd_read : D → Z → Z → cy_rslt_t * list Z;
  bd_program : D → Z → Z → list Z → cy_rslt_t * D;
  bd_erase : D → Z → Z → cy_rslt_t * D;
  bd_read_size : Z → Z;
  bd_program_size : Z → Z;
  bd_erase_size : Z → Z
}.
Arguments bd_read {D}.
Arguments bd_program {D}.
Arguments bd_erase {D}.
Arguments bd_read_size {D}.
Arguments bd_program_size {D}.
Arguments bd_erase_size {D}.

Section KVStore.
Context {D : Type}.
Variable bd : mtb_kvstore_bd_t D.

(** Whether a [malloc] of that many bytes succeeds. *)
Variable heap_alloc : Z → bool.

(** A device read into a caller's buffer. *)
Definition bd_read_buf (d : D) (addr len : Z) (buf : list Z) : cy_rslt_t * list Z :=
  let '(result, bytes) := bd_read bd d addr len in
  (result, read_into len bytes buf).

(** [_mtb_kvstore_is_valid_key]: [strlen] is applied to the key before the
    key is compared with [NULL], so that a null key has no defined
    result. *)
Definition _mtb_kvstore_is_valid_key (key : option (list Z)) : option bool :=
  match key with
  | None => None
  | Some k =>
      let key_size := u32 (strlen k) in
      Some ((0 <? key_size) && (key_size <? MTB_KVSTORE_MAX_KEY_SIZE))
  end.

(** [_mtb_kvstore_get_record_size] *)
Definition _mtb_kvstore_get_record_size (record_offset ksize dsize : Z) : Z :=
  let prog_size := bd_program_size bd record_offset in
  _mtb_kvstore_align_up (u32 (u32 (sizeof_record_header + ksize) + dsize)) prog_size.

(** [_mtb_kvstore_get_area_header_record_size] *)
Definition _mtb_kvstore_get_area_header_record_size (area_address : Z) : Z :=
  _mtb_kvstore_get_record_size area_address (strlen _mtb_kvstore_area_rec_key)
                               sizeof_area_record_data.

(** [_mtb_kvstore_increment_max_keys] *)
Definition _mtb_kvstore_increment_max_keys (obj : mtb_kvstore_t) : cy_rslt_t * mtb_kvstore_t :=
  let new_entry_count := u32 (max_entries obj * 2) in
  if heap_alloc (u32 (new_entry_count * sizeof_ram_table_entry))
  then (CY_RSLT_SUCCESS, set_max_entries new_entry_count obj)
  else (MTB_KVSTORE_MEM_ALLOC_ERROR, obj).

(** [_mtb_kvstore_update_ram_table].  The assertions of the C code
    ([ram_tbl_idx < num_entries] for a deletion, [ram_tbl_idx <=
    num_entries < max_entries] for an addition) are its preconditions. *)
Definition _mtb_kvstore_update_ram_table (obj : mtb_kvstore_t)
    (operation : _mtb_kvstore_operation_t)
    (info : _mtb_kvstore_update_ram_table_info_t) : mtb_kvstore_t :=
  let idx := Z.to_nat (ram_tbl_idx info) in
  match operation with
  | _MTB_KVSTORE_OPER_DELETE =>
      let n := u32 (num_entries obj - 1) in
      if ram_tbl_idx info <? n
      then set_ram_table (take idx (ram_table obj) ++ drop (S idx) (ram_table obj)) obj
      else set_ram_table (take (Z.to_nat n) (ram_table obj)) obj
  | _MTB_KVSTORE_OPER_ADD =>
      set_ram_table (take idx (ram_table obj) ++ entry info :: drop idx (ram_table obj)) obj
  | _MTB_KVSTORE_OPER_UPDATE =>
      set_ram_table (<[idx := entry info]> (ram_table obj)) obj
  end.

(** [_mtb_kvstore_update_consumed_size] *)
Definition _mtb_kvstore_update_consumed_size (obj : mtb_kvstore_t)
    (operation : _mtb_kvstore_operation_t)
    (info : _mtb_kvstore_update_consumed_size_info_t) : mtb_kvstore_t :=
  match operation with
  | _MTB_KVSTORE_OPER_DELETE =>
      set_consumed_size (u32 (consumed_size obj - old_record_size info)) obj
  | _MTB_KVSTORE_OPER_UPDATE =>
      set_consumed_size
        (u32 (u32 (consumed_size obj - old_record_size info) + new_record_size info)) obj
  | _MTB_KVSTORE_OPER_ADD =>
      set_consumed_size (u32 (consumed_size obj + new_record_size info)) obj
  end.

(** [_mtb_kvstore_erase_area] *)
Definition _mtb_kvstore_erase_area (d : D) (obj : mtb_kvstore_t) (area_address : Z)
    : cy_rslt_t * D :=
  let erase_size := bd_erase_size bd area_address in
  let '(result, d) :=
    if erase_size <? _MTB_KVSTORE_AREA_SIZE obj
    then bd_erase bd d (u32 (area_address + erase_size))
                  (u32 (_MTB_KVSTORE_AREA_SIZE obj - erase_size))
    else (CY_RSLT_SUCCESS, d) in
  if is_success result then bd_erase bd d area_address erase_size
  else (result, d).

(** The loop of [_mtb_kvstore_buffered_crc_compute]. *)
Fixpoint buffered_crc_loop (fuel : nat) (d : D) (obj : mtb_kvstore_t)
    (address remaining_size crc_acc : Z) : option (cy_rslt_t * mtb_kvstore_t * Z) :=
  if 0 <? remaining_size then
    match fuel with
    | O => None
    | S fuel' =>
        let transfer_size :=
          if transaction_buffer_size obj >=? remaining_size
          then remaining_size else transaction_buffer_size obj in
        let '(result, tb) :=
          bd_read_buf d address transfer_size (transaction_buffer obj) in
        let obj := set_transaction_buffer tb obj in
        if negb (is_success result) then Some (result, obj, crc_acc)
        else
          let crc_acc :=
            _mtb_kvstore_crc16 (take (Z.to_nat transfer_size) tb) crc_acc in
          buffered_crc_loop fuel' d obj (u32 (address + transfer_size))
                            (u32 (remaining_size - transfer_size)) crc_acc
    end
  else Some (CY_RSLT_SUCCESS, obj, crc_acc).

(** [_mtb_kvstore_buffered_crc_compute] *)
Definition _mtb_kvstore_buffered_crc_compute (d : D) (obj : mtb_kvstore_t)
    (address size crc_acc : Z) : option (cy_rslt_t * mtb_kvstore_t * Z) :=
  buffered_crc_loop (Z.to_nat size) d obj address size crc_acc.

(** The loop of [_mtb_kvstore_validate_key]; every chunk is compared with
    the start of [user_key], as [memcmp (user_key, ...)] does. *)
Fixpoint validate_key_loop (fuel : nat) (d : D) (obj : mtb_kvstore_t)
    (key_addr : Z) (user_key : list Z) (remaining_size : Z)
    : option (cy_rslt_t * mtb_kvstore_t) :=
  if 0 <? remaining_size then
    match fuel with
    | O => None
    | S fuel' =>
        let transfer_size :=
          if transaction_buffer_size obj >=? remaining_size
          then remaining_size else transaction_buffer_size obj in
        let '(result, tb) :=
          bd_read_buf d key_addr transfer_size (transaction_buffer obj) in
        let obj := set_transaction_buffer tb obj in
        if negb (is_success result) then Some (result, obj)
        else if negb (bool_decide (take (Z.to_nat transfer_size) user_key
                                   = take (Z.to_nat transfer_size) tb))
        then Some (MTB_KVSTORE_ITEM_NOT_FOUND_ERROR, obj)
        else validate_key_loop fuel' d obj (u32 (key_addr + transfer_size)) user_key
                               (u32 (remaining_size - transfer_size))
    end
  else Some (CY_RSLT_SUCCESS, obj).

(** [_mtb_kvstore_validate_key] *)
Definition _mtb_kvstore_validate_key (d : D) (obj : mtb_kvstore_t) (key_addr : Z)
    (user_key : list Z) (ksize : Z) : option (cy_rslt_t * mtb_kvstore_t) :=
  if negb (u32 (strlen user_key) =? ksize)
  then Some (MTB_KVSTORE_ITEM_NOT_FOUND_ERROR, obj)
  else validate_key_loop (Z.to_nat ksize) d obj key_addr user_key ksize.

(** What [_mtb_kvstore_read_record] leaves: its result, the object (the
    transaction buffer is scratch), the header it read, and the caller's
    key buffer, data buffer and [*data_size]. *)
Record read_record_t : Type := {
  rr_result : cy_rslt_t;
  rr_obj : mtb_kvstore_t;
  rr_header : _mtb_kvstore_record_header_t;
  rr_key : option (list Z);
  rr_data : option (list Z);
  rr_data_size : option Z
}.

(** The part of [_mtb_kvstore_read_record] that checks or fetches the key
    and feeds it to the CRC. *)
Definition read_record_key (d : D) (obj : mtb_kvstore_t) (key_addr ksize : Z)
    (key : option (list Z)) (validate_key : bool) (crc_acc : Z)
    : option (cy_rslt_t * mtb_kvstore_t * option (list Z) * Z) :=
  match key with
  | Some k =>
      if validate_key then
        '(result, obj) ← _mtb_kvstore_validate_key d obj key_addr k ksize;
        Some (result, obj, Some k,
              _mtb_kvstore_crc16 (take (Z.to_nat ksize) k) crc_acc)
      else
        let '(result, k) := bd_read_buf d key_addr ksize k in
        Some (result, obj, Some k,
              _mtb_kvstore_crc16 (take (Z.to_nat ksize) k) crc_acc)
  | None =>
      '(result, obj, crc_acc) ←
        _mtb_kvstore_buffered_crc_compute d obj key_addr ksize crc_acc;
      Some (result, obj, None, crc_acc)
  end.

(** The part of [_mtb_kvstore_read_record] that fetches the data, or
    streams it through the transaction buffer, and feeds it to the CRC. *)
Definition read_record_data (d : D) (obj : mtb_kvstore_t) (data_addr dlen : Z)
    (data : option (list Z)) (dsize : option Z) (crc_acc : Z)
    : option (cy_rslt_t * mtb_kvstore_t * option (list Z) * Z) :=
  match data, dsize with
  | Some buf, Some _ =>
      let '(result, buf) := bd_read_buf d data_addr dlen buf in
      Some (result, obj, Some buf,
            _mtb_kvstore_crc16 (take (Z.to_nat dlen) buf) crc_acc)
  | _, _ =>
      '(result, obj, crc_acc) ←
        _mtb_kvstore_buffered_crc_compute d obj data_addr dlen crc_acc;
      Some (result, obj, data, crc_acc)
  end.

(** [_mtb_kvstore_read_record].  [key], [data] and [data_size] are [None]
    for null pointers. *)
Definition _mtb_kvstore_read_record (d : D) (obj : mtb_kvstore_t)
    (area_address off : Z) (key : option (list Z)) (validate_key : bool)
    (data : option (list Z)) (dsize : option Z) : option read_record_t :=
  let crc_acc := _MTB_KVSTORE_CRC_INIT_VAL in
  let record_start_addr := u32 (area_address + off) in
  let hsize := u8 sizeof_record_header in
  let '(result, hbytes) := bd_read bd d record_start_addr hsize in
  let record_header := header_of_bytes (exactly hsize hbytes) in
  let ret result obj key data dsize :=
    Some {| rr_result := result; rr_obj := obj; rr_header := record_header;
            rr_key := key; rr_data := data; rr_data_size := dsize |} in
  if negb (is_success result) then ret result obj key data dsize
  else if (magic record_header =? 0xFFFFFFFF) || (magic record_header =? 0)
  then ret MTB_KVSTORE_ERASED_DATA_ERROR obj key data dsize
  else if negb (magic record_header =? _MTB_KVSTORE_HEADER_MAGIC)
  then ret MTB_KVSTORE_INVALID_DATA_ERROR obj key data dsize
  else if (key_size record_header =? 0)
          || (key_size record_header >=? MTB_KVSTORE_MAX_KEY_SIZE)
  then ret MTB_KVSTORE_INVALID_DATA_ERROR obj key data dsize
  else if match data, dsize with
          | Some _, Some sz => sz <? data_size record_header
          | _, _ => false
          end
  then ret MTB_KVSTORE_INVALID_DATA_ERROR obj key data (Some (data_size record_header))
  else
    let crc_acc := _mtb_kvstore_get_header_crc record_header crc_acc in
    let key_addr := u32 (record_start_addr + header_size record_header) in
    '(result, obj, key, crc_acc) ←
      read_record_key d obj key_addr (key_size record_header) key validate_key crc_acc;
    if negb (is_success result) then ret result obj key data dsize
    else
      let data_addr := u32 (key_addr + key_size record_header) in
      '(result, obj, data, crc_acc) ←
        read_record_data d obj data_addr (data_size record_header) data dsize crc_acc;
      if negb (is_success result) then ret result obj key data dsize
      else if negb (crc record_header =? crc_acc)
      then ret MTB_KVSTORE_INVALID_DATA_ERROR obj key data dsize
      else
        ret result obj key data
            (match dsize with
             | Some _ => Some (data_size record_header)
             | None => None
             end).

(** The loop of [_mtb_kvstore_buffered_write].  [buffer_offset_ptr] is
    always [transaction_buffer + (transaction_buffer_size -
    buffer_space_left)]. *)
Fixpoint buffered_write_loop (fuel : nat) (d : D) (obj : mtb_kvstore_t)
    (current_data : list Z) (remaining_size write_address buffer_space_left : Z)
    : option (cy_rslt_t * D * mtb_kvstore_t * Z * Z) :=
  if 0 <? remaining_size then
    match fuel with
    | O => None
    | S fuel' =>
        let transfer_size :=
          if buffer_space_left >=? remaining_size
          then remaining_size else buffer_space_left in
        let tb :=
          memcpy_at (transaction_buffer_size obj - buffer_space_left) transfer_size
                    current_data (transaction_buffer obj) in
        let obj := set_transaction_buffer tb obj in
        let buffer_space_left := u32 (buffer_space_left - transfer_size) in
        let remaining_size := u32 (remaining_size - transfer_size) in
        let current_data := drop (Z.to_nat transfer_size) current_data in
        if buffer_space_left =? 0 then
          let '(result, d) :=
            bd_program bd d write_address (transaction_buffer_size obj) tb in
          if negb (is_success result)
          then Some (result, d, obj, write_address, buffer_space_left)
          else buffered_write_loop fuel' d obj current_data remaining_size
                 (u32 (write_address + transaction_buffer_size obj))
                 (transaction_buffer_size obj)
        else buffered_write_loop fuel' d obj current_data remaining_size
               write_address buffer_space_left
    end
  else Some (CY_RSLT_SUCCESS, d, obj, write_address, buffer_space_left).

(** [_mtb_kvstore_buffered_write]; returns the result, the device, the
    object, [*write_address] and [*buffer_space_left]. *)
Definition _mtb_kvstore_buffered_write (d : D) (obj : mtb_kvstore_t)
    (data : list Z) (dsize write_address buffer_space_left : Z) (flush : bool)
    : option (cy_rslt_t * D * mtb_kvstore_t * Z * Z) :=
  '(result, d, obj, write_address, buffer_space_left) ←
    buffered_write_loop (S (Z.to_nat dsize)) d obj data dsize write_address
                        buffer_space_left;
  if negb (is_success result)
  then Some (result, d, obj, write_address, buffer_space_left)
  else if negb (buffer_space_left =? transaction_buffer_size obj) && flush then
    let prog_size := bd_program_size bd write_address in
    let size :=
      _mtb_kvstore_align_up (u32 (transaction_buffer_size obj - buffer_space_left))
                            prog_size in
    let '(result, d) := bd_program bd d write_address size (transaction_buffer obj) in
    if negb (is_success result)
    then Some (result, d, obj, write_address, buffer_space_left)
    else Some (result, d, obj, write_address, transaction_buffer_size obj)
  else Some (result, d, obj, write_address, buffer_space_left).

(** [_mtb_kvstore_write_record].  [data] must point to [dsize] bytes (a
    null [data] to none), and a record that is not the area record needs
    both info structures; otherwise the C code reads through a bad
    pointer and there is no defined result. *)
Definition _mtb_kvstore_write_record (d : D) (obj : mtb_kvstore_t)
    (area_address off : Z) (key : list Z) (data : option (list Z)) (dsize : Z)
    (operation : _mtb_kvstore_operation_t)
    (ram_tbl_info : option _mtb_kvstore_update_ram_table_info_t)
    (size_info : option _mtb_kvstore_update_consumed_size_info_t)
    : option (cy_rslt_t * D * mtb_kvstore_t) :=
  if match data with
     | Some bytes => strlen bytes <? dsize
     | None => negb (dsize =? 0)
     end
  then None
  else
    let record_address := u32 (area_address + off) in
    let hsize := sizeof_record_header in
    let record_header :=
      _mtb_kvstore_setup_record_header key data dsize _MTB_KVSTORE_FORMAT_VERSION
                                       operation in
    let buffer_space_left := transaction_buffer_size obj in
    '(result, d, obj, record_address, buffer_space_left) ←
      _mtb_kvstore_buffered_write d obj (header_bytes record_header) hsize
                                  record_address buffer_space_left false;
    if negb (is_success result) then Some (result, d, obj)
    else
      '(result, d, obj, record_address, buffer_space_left) ←
        _mtb_kvstore_buffered_write d obj key (key_size record_header)
                                    record_address buffer_space_left false;
      if negb (is_success result) then Some (result, d, obj)
      else
        '(result, d, obj, record_address, buffer_space_left) ←
          _mtb_kvstore_buffered_write d obj (default [] data) (data_size record_header)
                                      record_address buffer_space_left true;
        if negb (is_success result) then Some (result, d, obj)
        else if negb (off =? _MTB_KVSTORE_AREA_HEADER_OFFSET) then
          match ram_tbl_info, size_info with
          | Some rti, Some si =>
              let obj := _mtb_kvstore_update_ram_table obj operation rti in
              let obj := _mtb_kvstore_update_consumed_size obj operation si in
              Some (result, d, obj)
          | _, _ => None
          end
        else Some (result, d, obj).

(** [_mtb_kvstore_check_area_valid]; the version is meaningful when the
    result is success. *)
Definition _mtb_kvstore_check_area_valid (d : D) (obj : mtb_kvstore_t)
    (area_address : Z) : option (cy_rslt_t * mtb_kvstore_t * Z) :=
  let area_header_data := replicate (Z.to_nat sizeof_area_record_data) 0 in
  rr ← _mtb_kvstore_read_record d obj area_address 0
         (Some _mtb_kvstore_area_rec_key) true
         (Some area_header_data) (Some sizeof_area_record_data);
  Some (rr_result rr, rr_obj rr, le_value (slice 0 2 (default [] (rr_data rr)))).

(** [_mtb_kvstore_write_area_record] *)
Definition _mtb_kvstore_write_area_record (d : D) (obj : mtb_kvstore_t)
    (area_address area_version : Z) : option (cy_rslt_t * D * mtb_kvstore_t) :=
  let area_header_data :=
    area_record_data_bytes (u16 area_version) _MTB_KVSTORE_FORMAT_VERSION in
  _mtb_kvstore_write_record d obj area_address _MTB_KVSTORE_AREA_HEADER_OFFSET
    _mtb_kvstore_area_rec_key (Some area_header_data) sizeof_area_record_data
    _MTB_KVSTORE_OPER_ADD None None.

(** The loop of [_mtb_kvstore_find_record_in_ram_table] over the entries
    from [idx] on. *)
Fixpoint find_record_loop (d : D) (obj : mtb_kvstore_t) (key : list Z) (key_hash : Z)
    (entries : list mtb_kvstore_ram_table_entry_t) (idx : Z)
    (result : cy_rslt_t) (dsize : option Z)
    : option (cy_rslt_t * mtb_kvstore_t * Z * option Z) :=
  match entries with
  | [] => Some (result, obj, idx, dsize)
  | e :: rest =>
      if key_hash <? hash e
      then find_record_loop d obj key key_hash rest (idx + 1) result dsize
      else if key_hash >? hash e
      then Some (MTB_KVSTORE_ITEM_NOT_FOUND_ERROR, obj, idx, dsize)
      else
        rr ← _mtb_kvstore_read_record d obj (active_area_addr obj) (offset e)
               (Some key) true None dsize;
        if negb (bool_decide (rr_result rr = MTB_KVSTORE_ITEM_NOT_FOUND_ERROR))
        then Some (rr_result rr, rr_obj rr, idx, rr_data_size rr)
        else find_record_loop d (rr_obj rr) key key_hash rest (idx + 1)
                              (rr_result rr) (rr_data_size rr)
  end.

(** [_mtb_kvstore_find_record_in_ram_table]; returns the result, the
    object, [*ram_table_idx], [*key_hash] and [*data_size]. *)
Definition _mtb_kvstore_find_record_in_ram_table (d : D) (obj : mtb_kvstore_t)
    (key : list Z) (dsize : option Z)
    : option (cy_rslt_t * mtb_kvstore_t * Z * Z * option Z) :=
  let key_hash := _mtb_kvstore_crc16 key _MTB_KVSTORE_CRC_INIT_VAL in
  '(result, obj, idx, dsize) ←
    find_record_loop d obj key key_hash (ram_table obj) 0
                     MTB_KVSTORE_ITEM_NOT_FOUND_ERROR dsize;
  Some (result, obj, idx, key_hash, dsize).

(** The loop of [_mtb_kvstore_copy_record]. *)
Fixpoint copy_record_loop (fuel : nat) (d : D) (obj : mtb_kvstore_t)
    (read_addr write_addr remaining_size : Z)
    : option (cy_rslt_t * D * mtb_kvstore_t) :=
  if 0 <? remaining_size then
    match fuel with
    | O => None
    | S fuel' =>
        let transfer_size :=
          if transaction_buffer_size obj >=? remaining_size
          then remaining_size else transaction_buffer_size obj in
        let '(result, tb) :=
          bd_read_buf d read_addr transfer_size (transaction_buffer obj) in
        let obj := set_transaction_buffer tb obj in
        if negb (is_success result) then Some (result, d, obj)
        else
          let '(result, d) := bd_program bd d write_addr transfer_size tb in
          if negb (is_success result) then Some (result, d, obj)
          else copy_record_loop fuel' d obj (u32 (read_addr + transfer_size))
                                (u32 (write_addr + transfer_size))
                                (u32 (remaining_size - transfer_size))
    end
  else Some (CY_RSLT_SUCCESS, d, obj).

(** [_mtb_kvstore_copy_record]; the last component is
    [*next_dst_offset], meaningful when the result is success. *)
Definition _mtb_kvstore_copy_record (d : D) (obj : mtb_kvstore_t)
    (src_area_addr src_offset dst_area_addr dst_offset : Z)
    : option (cy_rslt_t * D * mtb_kvstore_t * Z) :=
  let src_record_addr := u32 (src_area_addr + src_offset) in
  let dst_record_addr := u32 (dst_area_addr + dst_offset) in
  let hsize := sizeof_record_header in
  let '(result, hbytes) := bd_read bd d src_record_addr hsize in
  let header := header_of_bytes (exactly hsize hbytes) in
  if negb (is_success result) then Some (result, d, obj, dst_offset)
  else
    let record_size :=
      _mtb_kvstore_get_record_size src_record_addr (key_size header)
                                   (data_size header) in
    if u32 (dst_offset + record_size) >? _MTB_KVSTORE_AREA_SIZE obj
    then Some (MTB_KVSTORE_STORAGE_FULL_ERROR, d, obj, dst_offset)
    else
      '(result, d, obj) ←
        copy_record_loop (Z.to_nat record_size) d obj src_record_addr
                         dst_record_addr record_size;
      if negb (is_success result) then Some (result, d, obj, dst_offset)
      else Some (result, d, obj, u32 (dst_offset + record_size)).

(** The copy loop of [_mtb_kvstore_garbage_collection], [n] entries from
    [idx] on. *)
Fixpoint gc_copy_loop (n : nat) (idx : Z) (d : D) (obj : mtb_kvstore_t)
    (dst_offset : Z) (record_info : option _mtb_kvstore_record_info_t)
    : option (cy_rslt_t * D * mtb_kvstore_t * Z) :=
  match n with
  | O => Some (CY_RSLT_SUCCESS, d, obj, dst_offset)
  | S n' =>
      if match record_info with
         | Some ri => idx =? ri_ram_tbl_idx ri
         | None => false
         end
      then gc_copy_loop n' (idx + 1) d obj dst_offset record_info
      else
        e ← ram_table obj !! Z.to_nat idx;
        '(result, d, obj, dst_next_offset) ←
          _mtb_kvstore_copy_record d obj (active_area_addr obj) (offset e)
                                   (gc_area_addr obj) dst_offset;
        if negb (is_success result) then Some (result, d, obj, dst_offset)
        else
          let obj :=
            set_ram_table
              (<[Z.to_nat idx := {| hash := hash e; offset := dst_offset |}]>
                 (ram_table obj)) obj in
          gc_copy_loop n' (idx + 1) d obj dst_next_offset record_info
  end.

(** [_mtb_kvstore_garbage_collection] *)
Definition _mtb_kvstore_garbage_collection (d : D) (obj : mtb_kvstore_t)
    (record_info : option _mtb_kvstore_record_info_t)
    : option (cy_rslt_t * D * mtb_kvstore_t) :=
  if match record_info with
     | Some ri =>
         match ri_update_rec_info ri with
         | Some _ =>
             let total_size :=
               u32 (u32 (consumed_size obj
                         - old_record_size (ri_consumed_size_info ri))
                    + new_record_size (ri_consumed_size_info ri)) in
             total_size >? _MTB_KVSTORE_AREA_SIZE obj
         | None => false
         end
     | None => false
     end
  then Some (MTB_KVSTORE_STORAGE_FULL_ERROR, d, obj)
  else
    let '(result, d) := _mtb_kvstore_erase_area d obj (gc_area_addr obj) in
    if negb (is_success result) then Some (result, d, obj)
    else
      let dst_offset := _mtb_kvstore_get_area_header_record_size (gc_area_addr obj) in
      '(result, d, obj, dst_offset) ←
        gc_copy_loop (length (ram_table obj)) 0 d obj dst_offset record_info;
      if negb (is_success result) then Some (result, d, obj)
      else
        '(result, d, obj, dst_offset) ←
          match record_info with
          | Some ri =>
              match ri_update_rec_info ri with
              | Some u =>
                  let ram_tbl_info :=
                    {| ram_tbl_idx := ri_ram_tbl_idx ri;
                       entry := {| hash := upd_key_hash u; offset := dst_offset |} |} in
                  '(result, d, obj) ←
                    _mtb_kvstore_write_record d obj (gc_area_addr obj) dst_offset
                      (upd_key u) (upd_data u) (upd_data_size u)
                      _MTB_KVSTORE_OPER_UPDATE (Some ram_tbl_info)
                      (Some (ri_consumed_size_info ri));
                  if negb (is_success result) then Some (result, d, obj, dst_offset)
                  else Some (result, d, obj,
                             u32 (dst_offset
                                  + new_record_size (ri_consumed_size_info ri)))
              | None =>
                  let ram_tbl_info :=
                    {| ram_tbl_idx := ri_ram_tbl_idx ri;
                       entry := {| hash := 0; offset := 0 |} |} in
                  let obj :=
                    _mtb_kvstore_update_ram_table obj _MTB_KVSTORE_OPER_DELETE
                                                  ram_tbl_info in
                  let obj :=
                    _mtb_kvstore_update_consumed_size obj _MTB_KVSTORE_OPER_DELETE
                                                      (ri_consumed_size_info ri) in
                  Some (result, d, obj, dst_offset)
              end
          | None => Some (result, d, obj, dst_offset)
          end;
        if negb (is_success result) then Some (result, d, obj)
        else
          let obj := set_active_area_version (u16 (active_area_version obj + 1)) obj in
          '(result, d, obj) ←
            _mtb_kvstore_write_area_record d obj (gc_area_addr obj)
                                           (active_area_version obj);
          if negb (is_success result) then Some (result, d, obj)
          else
            let obj := set_free_space_offset dst_offset obj in
            let new_gc_area_addr := active_area_addr obj in
            let obj := set_areas (gc_area_addr obj) new_gc_area_addr obj in
            Some (result, d, obj).

(** The C string a character buffer holds: what precedes its first zero. *)
Fixpoint cstring (buf : list Z) : list Z :=
  match buf with
  | [] => []
  | c :: rest => if c =? 0 then [] else c :: cstring rest
  end.

(** The loop of [_mtb_kvstore_build_ram_table].  The last component tells
    whether the function returned from inside the loop (after a garbage
    collection), in which case [free_space_offset] is not assigned. *)
Fixpoint build_ram_table_loop (fuel : nat) (d : D) (obj : mtb_kvstore_t)
    (off : Z) (result : cy_rslt_t)
    : option (cy_rslt_t * D * mtb_kvstore_t * Z * bool) :=
  if u32 (off + sizeof_record_header) <? free_space_offset obj then
    match fuel with
    | O => None
    | S fuel' =>
        rr ← _mtb_kvstore_read_record d obj (active_area_addr obj) off
               (Some (key_buffer obj)) false None None;
        let obj := set_key_buffer (default [] (rr_key rr)) (rr_obj rr) in
        let header := rr_header rr in
        let result := rr_result rr in
        if negb (is_success result) then
          if bool_decide (result = MTB_KVSTORE_ERASED_DATA_ERROR)
          then Some (CY_RSLT_SUCCESS, d, obj, off, false)
          else if bool_decide (result = MTB_KVSTORE_INVALID_DATA_ERROR) then
            '(result, d, obj) ← _mtb_kvstore_garbage_collection d obj None;
            Some (result, d, obj, off, true)
          else Some (result, d, obj, off, false)
        else
          let obj :=
            set_key_buffer (<[Z.to_nat (key_size header) := 0]> (key_buffer obj)) obj in
          let key := cstring (key_buffer obj) in
          '(result, obj, ram_tbl_idx, hash, old_record_data_size) ←
            _mtb_kvstore_find_record_in_ram_table d obj key (Some 0);
          let old_record_data_size := default 0 old_record_data_size in
          if negb (is_success result)
             && negb (bool_decide (result = MTB_KVSTORE_ITEM_NOT_FOUND_ERROR))
          then Some (result, d, obj, off, false)
          else
            let curr_offset := off in
            let record_size :=
              _mtb_kvstore_get_record_size (u32 (active_area_addr obj + curr_offset))
                                           (key_size header) (data_size header) in
            let off := u32 (off + record_size) in
            let delete := negb (Z.land (flags header) _MTB_KVSTORE_DELETE_FLAG =? 0) in
            let found_in_table :=
              negb (bool_decide (result = MTB_KVSTORE_ITEM_NOT_FOUND_ERROR)) in
            if delete && negb found_in_table
            then build_ram_table_loop fuel' d obj off result
            else
              let operation :=
                if delete then _MTB_KVSTORE_OPER_DELETE
                else if found_in_table then _MTB_KVSTORE_OPER_UPDATE
                else _MTB_KVSTORE_OPER_ADD in
              let '(result, obj, failed) :=
                if bool_decide (operation = _MTB_KVSTORE_OPER_ADD)
                   && (num_entries obj >=? max_entries obj)
                then
                  let '(result, obj) := _mtb_kvstore_increment_max_keys obj in
                  (result, obj, negb (is_success result))
                else (result, obj, false) in
              if failed then Some (result, d, obj, off, false)
              else
                let ram_tbl_info :=
                  {| ram_tbl_idx := ram_tbl_idx;
                     entry := {| hash := hash; offset := curr_offset |} |} in
                let obj := _mtb_kvstore_update_ram_table obj operation ram_tbl_info in
                let old_record_size :=
                  if bool_decide (operation = _MTB_KVSTORE_OPER_ADD) then 0
                  else _mtb_kvstore_get_record_size (active_area_addr obj)
                         (u32 (strlen key)) old_record_data_size in
                let size_info :=
                  {| old_record_size := old_record_size;
                     new_record_size := record_size |} in
                let obj := _mtb_kvstore_update_consumed_size obj operation size_info in
                build_ram_table_loop fuel' d obj off CY_RSLT_SUCCESS
    end
  else Some (result, d, obj, off, false).

(** [_mtb_kvstore_build_ram_table].  The scan is given one iteration per
    byte of the area; it needs more only when a record size wraps around
    to zero, where the C loop does not advance. *)
Definition _mtb_kvstore_build_ram_table (d : D) (obj : mtb_kvstore_t)
    : option (cy_rslt_t * D * mtb_kvstore_t) :=
  let obj := set_ram_table [] obj in
  let obj := set_max_entries _MTB_KVSTORE_INIT_MAX_KEYS obj in
  let obj := set_free_space_offset (_MTB_KVSTORE_AREA_SIZE obj) obj in
  if negb (heap_alloc (u32 (max_entries obj * sizeof_ram_table_entry)))
  then Some (MTB_KVSTORE_MEM_ALLOC_ERROR, d, obj)
  else
    let record_size := _mtb_kvstore_get_area_header_record_size (active_area_addr obj) in
    let obj := set_consumed_size record_size obj in
    '(result, d, obj, off, returned) ←
      build_ram_table_loop (Z.to_nat (_MTB_KVSTORE_AREA_SIZE obj)) d obj record_size
                           CY_RSLT_SUCCESS;
    if (returned : bool) then Some (result, d, obj)
    else Some (result, d, set_free_space_offset off obj).

(** The choice of the active area in [_mtb_kvstore_setup_areas] when both
    areas are valid: [true] for area 1. *)
Definition area1_is_active (area1_version area2_version : Z) : bool :=
  (area1_version >? area2_version) || (area1_version =? 0).

(** Whether [_mtb_kvstore_setup_areas] gives up on the result of
    [_mtb_kvstore_check_area_valid]. *)
Definition area_check_fatal (r : cy_rslt_t) : bool :=
  negb (bool_decide (r = CY_RSLT_SUCCESS))
  && negb (bool_decide (r = MTB_KVSTORE_ERASED_DATA_ERROR))
  && negb (bool_decide (r = MTB_KVSTORE_INVALID_DATA_ERROR))
  && negb (bool_decide (r = MTB_KVSTORE_ITEM_NOT_FOUND_ERROR)).

(** [_mtb_kvstore_setup_areas] *)
Definition _mtb_kvstore_setup_areas (d : D) (obj : mtb_kvstore_t)
    : option (cy_rslt_t * D * mtb_kvstore_t) :=
  let area1_start_addr := start_addr obj in
  let area2_start_addr := u32 (start_addr obj + _MTB_KVSTORE_AREA_SIZE obj) in
  '(area_valid_result, obj, area1_version) ←
    _mtb_kvstore_check_area_valid d obj area1_start_addr;
  if area_check_fatal area_valid_result then Some (area_valid_result, d, obj)
  else
    let area1_valid := is_success area_valid_result in
    '(area_valid_result, obj, area2_version) ←
      _mtb_kvstore_check_area_valid d obj area2_start_addr;
    if area_check_fatal area_valid_result then Some (area_valid_result, d, obj)
    else
      let area2_valid := is_success area_valid_result in
      if area1_valid && area2_valid then
        if area1_is_active area1_version area2_version
        then Some (CY_RSLT_SUCCESS, d,
                   set_active_area_version area1_version
                     (set_areas area1_start_addr area2_start_addr obj))
        else Some (CY_RSLT_SUCCESS, d,
                   set_active_area_version area2_version
                     (set_areas area2_start_addr area1_start_addr obj))
      else if area1_valid
      then Some (CY_RSLT_SUCCESS, d,
                 set_active_area_version area1_version
                   (set_areas area1_start_addr area2_start_addr obj))
      else if area2_valid
      then Some (CY_RSLT_SUCCESS, d,
                 set_active_area_version area2_version
                   (set_areas area2_start_addr area1_start_addr obj))
      else
        let '(result, d) := _mtb_kvstore_erase_area d obj area1_start_addr in
        if negb (is_success result) then Some (result, d, obj)
        else
          '(result, d, obj) ←
            _mtb_kvstore_write_area_record d obj area1_start_addr
                                           _MTB_KVSTORE_INITIAL_AREA_VERSION;
          if negb (is_success result) then Some (result, d, obj)
          else Some (result, d,
                     set_active_area_version _MTB_KVSTORE_INITIAL_AREA_VERSION
                       (set_areas area1_start_addr area2_start_addr obj)).

(** The second half of [_mtb_kvstore_write_with_flags], from the growth of
    the RAM table on: the operation is known, the lookup has left
    [ram_tbl_idx], [hash], [old_record_data_size], [result] and
    [found_in_table]. *)
Definition write_operation (d : D) (obj : mtb_kvstore_t)
    (key : list Z) (data : option (list Z)) (size : Z)
    (operation : _mtb_kvstore_operation_t)
    (ram_tbl_idx hash old_record_data_size : Z)
    (result : cy_rslt_t) (found_in_table : bool)
    : option (cy_rslt_t * D * mtb_kvstore_t) :=
  let '(result, obj, failed) :=
    if bool_decide (operation = _MTB_KVSTORE_OPER_ADD)
       && (num_entries obj >=? max_entries obj)
    then
      let '(result, obj) := _mtb_kvstore_increment_max_keys obj in
      (result, obj, negb (is_success result))
    else (result, obj, false) in
  if failed then Some (result, d, obj)
  else
    let record_size :=
      _mtb_kvstore_get_record_size (active_area_addr obj) (u32 (strlen key)) size in
    let old_record_size :=
      if bool_decide (operation = _MTB_KVSTORE_OPER_ADD) then 0
      else _mtb_kvstore_get_record_size (active_area_addr obj) (u32 (strlen key))
                                        old_record_data_size in
    if (bool_decide (operation = _MTB_KVSTORE_OPER_UPDATE)
        || bool_decide (operation = _MTB_KVSTORE_OPER_ADD))
       && (u32 (u32 (consumed_size obj - old_record_size) + record_size)
           >? _MTB_KVSTORE_AREA_SIZE obj)
    then Some (MTB_KVSTORE_STORAGE_FULL_ERROR, d, obj)
    else
      (* the garbage collection, when the record does not fit *)
      '(result, d, obj, done) ←
        (if u32 (free_space_offset obj + record_size) >? _MTB_KVSTORE_AREA_SIZE obj
         then
           let record_info :=
             match operation with
             | _MTB_KVSTORE_OPER_ADD => None
             | _MTB_KVSTORE_OPER_DELETE =>
                 Some {| ri_ram_tbl_idx := ram_tbl_idx;
                         ri_consumed_size_info :=
                           {| old_record_size := old_record_size;
                              new_record_size := record_size |};
                         ri_update_rec_info := None |}
             | _MTB_KVSTORE_OPER_UPDATE =>
                 Some {| ri_ram_tbl_idx := ram_tbl_idx;
                         ri_consumed_size_info :=
                           {| old_record_size := old_record_size;
                              new_record_size := record_size |};
                         ri_update_rec_info :=
                           Some {| upd_key := key; upd_data := data;
                                   upd_data_size := size;
                                   upd_key_hash := hash |} |}
             end in
           '(result, d, obj) ← _mtb_kvstore_garbage_collection d obj record_info;
           Some (result, d, obj, negb (is_success result) || found_in_table)
         else Some (result, d, obj, false));
      if (done : bool) then Some (result, d, obj)
      else
        let ram_tbl_info :=
          {| ram_tbl_idx := ram_tbl_idx;
             entry := {| hash := hash; offset := free_space_offset obj |} |} in
        let size_info :=
          {| old_record_size := old_record_size;
             new_record_size := record_size |} in
        '(result, d, obj) ←
          _mtb_kvstore_write_record d obj (active_area_addr obj)
            (free_space_offset obj) key data size operation
            (Some ram_tbl_info) (Some size_info);
        if is_success result
        then Some (result, d,
                   set_free_space_offset
                     (u32 (free_space_offset obj + record_size)) obj)
        else Some (result, d, obj).

(** [_mtb_kvstore_write_with_flags]: the lookup and the choice of the
    operation, then [write_operation]. *)
Definition _mtb_kvstore_write_with_flags (d : D) (obj : mtb_kvstore_t)
    (key : list Z) (data : option (list Z)) (size : Z) (delete : bool)
    : option (cy_rslt_t * D * mtb_kvstore_t) :=
  '(result, obj, ram_tbl_idx, hash, old_record_data_size) ←
    _mtb_kvstore_find_record_in_ram_table d obj key (Some 0);
  let old_record_data_size := default 0 old_record_data_size in
  if negb (is_success result)
     && negb (bool_decide (result = MTB_KVSTORE_ITEM_NOT_FOUND_ERROR))
  then Some (result, d, obj)
  else
    let found_in_table :=
      negb (bool_decide (result = MTB_KVSTORE_ITEM_NOT_FOUND_ERROR)) in
    if delete && negb found_in_table then Some (CY_RSLT_SUCCESS, d, obj)
    else
      let operation :=
        if delete then _MTB_KVSTORE_OPER_DELETE
        else if found_in_table then _MTB_KVSTORE_OPER_UPDATE
        else _MTB_KVSTORE_OPER_ADD in
      write_operation d obj key data size operation ram_tbl_idx hash
                      old_record_data_size result found_in_table.

(** ** Public API *)

(** The object [memset] to zero. *)
Definition zero_obj : mtb_kvstore_t :=
  {| start_addr := 0; obj_length := 0; ram_table := []; max_entries := 0;
     transaction_buffer := []; transaction_buffer_size := 0;
     key_buffer := replicate (Z.to_nat MTB_KVSTORE_MAX_KEY_SIZE) 0;
     active_area_addr := 0; gc_area_addr := 0; free_space_offset := 0;
     active_area_version := 0; consumed_size := 0 |}.

(** [mtb_kvstore_init] (without an RTOS the lock functions do nothing).
    [obj] is the caller's object, which the early exits leave as it is;
    the allocated transaction buffer starts as zeros.  An erase size of 0
    makes the C code divide by zero. *)
Definition mtb_kvstore_init (d : D) (obj : mtb_kvstore_t) (start length : Z)
    : option (cy_rslt_t * D * mtb_kvstore_t) :=
  if length =? 0 then Some (MTB_KVSTORE_BAD_PARAM_ERROR, d, obj)
  else
    let erase_size := bd_erase_size bd start in
    if negb (_mtb_kvstore_is_aligned start erase_size)
       || negb (_mtb_kvstore_is_aligned (u32 (start + length)) erase_size)
    then Some (MTB_KVSTORE_ALIGNMENT_ERROR, d, obj)
    else if erase_size =? 0 then None
    else
      let num_erase_sectors := length / erase_size in
      if (num_erase_sectors =? 0)
         || ((0 <? num_erase_sectors) && negb (Z.land num_erase_sectors 1 =? 0))
      then Some (MTB_KVSTORE_ALIGNMENT_ERROR, d, obj)
      else
        let obj := zero_obj in
        let prog_size := bd_program_size bd start in
        let read_size := bd_read_size bd start in
        let buffer_size := if prog_size >=? read_size then prog_size else read_size in
        let buffer_size :=
          if buffer_size <? _MTB_KVSTORE_MIN_BUFF_SIZE
          then _mtb_kvstore_align_up _MTB_KVSTORE_MIN_BUFF_SIZE prog_size
          else buffer_size in
        if heap_alloc buffer_size then
          let obj := set_transaction_buffer (replicate (Z.to_nat buffer_size) 0) obj in
          let obj :=
            {| start_addr := start; obj_length := length;
               ram_table := ram_table obj; max_entries := max_entries obj;
               transaction_buffer := transaction_buffer obj;
               transaction_buffer_size := buffer_size;
               key_buffer := key_buffer obj;
               active_area_addr := active_area_addr obj;
               gc_area_addr := gc_area_addr obj;
               free_space_offset := free_space_offset obj;
               active_area_version := active_area_version obj;
               consumed_size := consumed_size obj |} in
          '(result, d, obj) ← _mtb_kvstore_setup_areas d obj;
          if is_success result then _mtb_kvstore_build_ram_table d obj
          else Some (result, d, obj)
        else Some (MTB_KVSTORE_MEM_ALLOC_ERROR, d, obj).

(** [mtb_kvstore_write] *)
Definition mtb_kvstore_write (d : D) (obj : mtb_kvstore_t) (key : option (list Z))
    (data : option (list Z)) (size : Z) : option (cy_rslt_t * D * mtb_kvstore_t) :=
  valid ← _mtb_kvstore_is_valid_key key;
  if negb (valid : bool) || (bool_decide (data = None) && negb (size =? 0))
  then Some (MTB_KVSTORE_BAD_PARAM_ERROR, d, obj)
  else
    k ← key;
    _mtb_kvstore_write_with_flags d obj k data size false.

(** [mtb_kvstore_read]; returns the result, the object, the caller's data
    buffer and [*size]. *)
Definition mtb_kvstore_read (d : D) (obj : mtb_kvstore_t) (key : option (list Z))
    (data : option (list Z)) (size : option Z)
    : option (cy_rslt_t * mtb_kvstore_t * option (list Z) * option Z) :=
  valid ← _mtb_kvstore_is_valid_key key;
  if negb (valid : bool) then Some (MTB_KVSTORE_BAD_PARAM_ERROR, obj, data, size)
  else if negb (bool_decide (data = None))
          && match size with
             | None => true
             | Some sz => sz =? 0
             end
  then Some (MTB_KVSTORE_BAD_PARAM_ERROR, obj, data, size)
  else
    k ← key;
    '(result, obj, ram_tbl_idx, hash, _) ←
      _mtb_kvstore_find_record_in_ram_table d obj k None;
    if is_success result then
      e ← ram_table obj !! Z.to_nat ram_tbl_idx;
      rr ← _mtb_kvstore_read_record d obj (active_area_addr obj) (offset e)
             (Some k) true data size;
      Some (rr_result rr, rr_obj rr, rr_data rr, rr_data_size rr)
    else Some (result, obj, data, size).

(** [mtb_kvstore_delete]; a null key is handed to [strlen]. *)
Definition mtb_kvstore_delete (d : D) (obj : mtb_kvstore_t) (key : option (list Z))
    : option (cy_rslt_t * D * mtb_kvstore_t) :=
  k ← key;
  _mtb_kvstore_write_with_flags d obj k None 0 true.

(** [mtb_kvstore_reset] *)
Definition mtb_kvstore_reset (d : D) (obj : mtb_kvstore_t)
    : option (cy_rslt_t * D * mtb_kvstore_t) :=
  let obj := set_ram_table [] obj in
  '(result, d, obj) ← _mtb_kvstore_garbage_collection d obj None;
  if is_success result
  then Some (result, d, set_consumed_size (free_space_offset obj) obj)
  else Some (result, d, obj).

(** [mtb_kvstore_size] *)
Definition mtb_kvstore_size (obj : mtb_kvstore_t) : Z := consumed_size obj.

(** [mtb_kvstore_remaining_size] *)
Definition mtb_kvstore_remaining_size (obj : mtb_kvstore_t) : Z :=
  u32 (_MTB_KVSTORE_AREA_SIZE obj - consumed_size obj).

End KVStore.

Arguments _mtb_kvstore_get_record_size {D} bd record_offset ksize dsize.
Arguments _mtb_kvstore_get_area_header_record_size {D} bd area_address.

(** ** A simulated flash

    A block device for running the code: a medium of bytes addressed from 0,
    uniform read, program and erase sizes, and a budget of program and erase
    operations after which the next one fails ([None]: they never fail).
    Reads always succeed; an erased byte reads as 0xFF. *)

Record sim_flash : Type := {
  cells : Z → Z;
  budget : option nat
}.

Definition sim_error : cy_rslt_t := CY_RSLT_OTHER 1.

Definition sim_read (d : sim_flash) (addr len : Z) : cy_rslt_t * list Z :=
  (CY_RSLT_SUCCESS, cells d <$> seqZ addr len).

Definition spend (b : option nat) : option (option nat) :=
  match b with
  | None => Some None
  | Some O => None
  | Some (S n) => Some (Some n)
  end.

Definition sim_program (d : sim_flash) (addr len : Z) (buf : list Z) : cy_rslt_t * sim_flash :=
  match spend (budget d) with
  | None => (sim_error, d)
  | Some b =>
      (CY_RSLT_SUCCESS,
       {| cells := λ x, if (addr <=? x) && (x <? addr + len)
                        then nth (Z.to_nat (x - addr)) buf 0 else cells d x;
          budget := b |})
  end.

Definition sim_erase (d : sim_flash) (addr len : Z) : cy_rslt_t * sim_flash :=
  match spend (budget d) with
  | None => (sim_error, d)
  | Some b =>
      (CY_RSLT_SUCCESS,
       {| cells := λ x, if (addr <=? x) && (x <? addr + len) then 0xFF else cells d x;
          budget := b |})
  end.

Definition sim_bd (read_size program_size erase_size : Z) : mtb_kvstore_bd_t sim_flash :=
  {| bd_read := sim_read; bd_program := sim_program; bd_erase := sim_erase;
     bd_read_size := λ _, read_size; bd_program_size := λ _, program_size;
     bd_erase_size := λ _, erase_size |}.

(** A blank medium, and an allocator that never fails. *)
Definition blank_flash : sim_flash := {| cells := λ _, 0xFF; budget := None |}.
Definition alloc_ok : Z → bool := λ _, true.


(** * Vocabulary of the specification *)

(** The low 16 bits of the CRC accumulator. *)
Definition low16 (x : Z) : Z := x mod 2 ^ 16.

(** The members of a header fit their C types. *)
Record header_in_range (h : _mtb_kvstore_record_header_t) : Prop := {
  magic_range : 0 ≤ magic h < 2 ^ 32;
  format_version_range : 0 ≤ format_version h < 2 ^ 8;
  flags_range : 0 ≤ flags h < 2 ^ 8;
  header_size_range : 0 ≤ header_size h < 2 ^ 16;
  key_size_range : 0 ≤ key_size h < 2 ^ 16;
  data_size_range : 0 ≤ data_size h < 2 ^ 32;
  crc_range : 0 ≤ crc h < 2 ^ 32
}.

(** An object without its transaction buffer, which is scratch memory:
    every function fills it before reading it. *)
Definition forget_tb (obj : mtb_kvstore_t) : mtb_kvstore_t :=
  set_transaction_buffer [] obj.

(** Two objects that differ in their transaction buffers at most. *)
Definition obj_rel (o1 o2 : mtb_kvstore_t) : Prop := forget_tb o1 = forget_tb o2.

(** Two results of [_mtb_kvstore_read_record] that differ in the
    transaction buffer at most. *)
Definition rr_rel (r1 r2 : read_record_t) : Prop :=
  rr_result r1 = rr_result r2 ∧ obj_rel (rr_obj r1) (rr_obj r2)
  ∧ rr_header r1 = rr_header r2 ∧ rr_key r1 = rr_key r2
  ∧ rr_data r1 = rr_data r2 ∧ rr_data_size r1 = rr_data_size r2.

(** What the lookup learns from one entry of the RAM table: the result of
    reading the record it points to against the key, and the header read. *)
Definition probe {D : Type} (bd : mtb_kvstore_bd_t D) (d : D) (obj : mtb_kvstore_t)
    (key : list Z) (e : mtb_kvstore_ram_table_entry_t)
    : option (cy_rslt_t * _mtb_kvstore_record_header_t) :=
  (λ rr, (rr_result rr, rr_header rr))
  <$> _mtb_kvstore_read_record bd d obj (active_area_addr obj) (offset e)
                               (Some key) true None None.

(** What a read without a data buffer leaves in [*data_size]. *)
Definition size_out (dsz : option Z) (result : cy_rslt_t)
    (h : _mtb_kvstore_record_header_t) : option Z :=
  if is_success result
  then match dsz with Some _ => Some (data_size h) | None => None end
  else dsz.

(** The RAM table is sorted by falling hash. *)
Definition sorted_desc (t : list mtb_kvstore_ram_table_entry_t) : Prop :=
  ∀ (i j : nat) ei ej, (i ≤ j)%nat → t !! i = Some ei → t !! j = Some ej →
    hash ej ≤ hash ei.

(** The position the specification describes: the first slot whose hash is
    at least [h], or the number of entries. *)
Fixpoint spec_first_ge (t : list mtb_kvstore_ram_table_entry_t) (h : Z) : Z :=
  match t with
  | [] => 0
  | e :: rest => if hash e >=? h then 0 else 1 + spec_first_ge rest h
  end.

(** ** A store to run the code on

    The simulated flash with 1-byte reads, 8-byte programs and 128-byte
    sectors, two sectors long, so that each area is one sector. *)

Definition demo_bd : mtb_kvstore_bd_t sim_flash := sim_bd 1 8 128.

Definition demo_state : Type := sim_flash * mtb_kvstore_t.

(** The device and the object a call leaves. *)
Definition after (r : option (cy_rslt_t * sim_flash * mtb_kvstore_t)) : demo_state :=
  match r with
  | Some (_, d, o) => (d, o)
  | None => (blank_flash, zero_obj)
  end.

Definition demo_write (key data : list Z) (s : demo_state) : demo_state :=
  after (mtb_kvstore_write demo_bd alloc_ok s.1 s.2 (Some key) (Some data)
                           (Z.of_nat (length data))).

(** A fresh store on a blank medium. *)
Definition demo_fresh : demo_state :=
  after (mtb_kvstore_init demo_bd alloc_ok blank_flash zero_obj 0 256).

(** The keys "k", "l" and "m" with two bytes of data each. *)
Definition demo_store : demo_state :=
  demo_write [109] [6; 6] (demo_write [108] [5; 5] (demo_write [107] [1; 1] demo_fresh)).

(** The key "k" alone, and the store after an update of it through
    [_mtb_kvstore_write_with_flags]. *)
Definition demo_one : demo_state := demo_write [107] [1; 1] demo_fresh.

Definition demo_updated : demo_state :=
  after (_mtb_kvstore_write_with_flags demo_bd alloc_ok demo_one.1 demo_one.2 [107]
           (Some [2; 2]) 2 false).

(** A larger flash, with areas of 1024 bytes, and on it the store the code
    builds from a blank medium by writing the 32 one-character keys 33 to
    64 with one byte of data each: the RAM table, which starts with room
    for 32 entries, is full. *)
Definition demo_big_bd : mtb_kvstore_bd_t sim_flash := sim_bd 1 8 1024.

Definition demo_full : demo_state :=
  foldl (λ s k, after (mtb_kvstore_write demo_big_bd alloc_ok s.1 s.2 (Some [k])
                         (Some [k]) 1))
        (after (mtb_kvstore_init demo_big_bd alloc_ok blank_flash zero_obj 0 2048))
        (seqZ 33 32).


(** What a test reads back: the result, the data buffer and [*size] of a
    read with a buffer of two bytes. *)
Definition demo_read (key : list Z) (s : demo_state)
    : option (cy_rslt_t * option (list Z) * option Z) :=
  (λ '(r, _, data, size), (r, data, size))
  <$> mtb_kvstore_read demo_bd s.1 s.2 (Some key) (Some [0; 0]) (Some 2).

(** The device left with [n] program and erase operations before one
    fails. *)
Definition with_budget (n : nat) (s : demo_state) : demo_state :=
  ({| cells := cells s.1; budget := Some n |}, s.2).

(** "k" written three times on a fresh store whose device will fail its
    sixth program or erase operation from now on; the fourth write of "k"
    needs a garbage collection. *)
Definition gc_fault_before : demo_state :=
  demo_write [107] [3; 3]
    (demo_write [107] [2; 2] (demo_write [107] [1; 1] (with_budget 5 demo_fresh))).

Definition gc_fault_write : option (cy_rslt_t * sim_flash * mtb_kvstore_t) :=
  mtb_kvstore_write demo_bd alloc_ok gc_fault_before.1 gc_fault_before.2
                    (Some [107]) (Some [4; 4]) 2.

(** A medium whose area 1 carries the area record of version 65535: the
    state after 65534 garbage collections. *)
Definition wrap_flash : sim_flash :=
  (after (_mtb_kvstore_write_area_record demo_bd blank_flash demo_fresh.2 0 65535)).1.

(** On it: init, "k" := 1 1, a reset (the garbage collection that takes the
    version to 0, in area 2), "k" := 2 2. *)
Definition wrap_store : demo_state :=
  let s := after (mtb_kvstore_init demo_bd alloc_ok wrap_flash zero_obj 0 256) in
  let s := demo_write [107] [1; 1] s in
  let s := after (mtb_kvstore_reset demo_bd s.1 s.2) in
  demo_write [107] [2; 2] s.

(** The same medium after a restart. *)
Definition wrap_restart : demo_state :=
  after (mtb_kvstore_init demo_bd alloc_ok wrap_store.1 zero_obj 0 256).

(** The order of versions the specification describes: 0 is newer than any
    other version, otherwise the greater version is the newer one. *)
Definition spec_version_newer (v w : Z) : bool :=
  if v =? 0 then negb (w =? 0)
  else if w =? 0 then false
  else v >? w.

(** ** The medium

    A reliable flash shows its medium through [peek]: a read succeeds and
    delivers the bytes of the medium; a program that succeeds stores the
    buffer and a successful erase leaves the bytes outside its range. *)

Definition bytes_at (f : Z → Z) (a n : Z) : list Z := f <$> seqZ a n.

Record reliable_flash {D : Type} (bd : mtb_kvstore_bd_t D) (peek : D → Z → Z) : Prop := {
  rf_read : ∀ d a n, bd_read bd d a n = (CY_RSLT_SUCCESS, bytes_at (peek d) a n);
  rf_program : ∀ d a n buf d',
    bd_program bd d a n buf = (CY_RSLT_SUCCESS, d') →
    ∀ x, peek d' x = if decide (a ≤ x < a + n) then nth (Z.to_nat (x - a)) buf 0
                     else peek d x;
  rf_erase : ∀ d a n d',
    bd_erase bd d a n = (CY_RSLT_SUCCESS, d') →
    ∀ x, ¬ (a ≤ x < a + n) → peek d' x = peek d x
}.

(** A device whose erase leaves 0xFF in every byte of its range. *)
Definition erases_to_ff {D : Type} (bd : mtb_kvstore_bd_t D) (peek : D → Z → Z) : Prop :=
  ∀ d a n d', bd_erase bd d a n = (CY_RSLT_SUCCESS, d') →
              ∀ x, a ≤ x < a + n → peek d' x = 0xFF.

(** At address [a] the medium holds a record: its header [h], as
    [_mtb_kvstore_setup_record_header] lays it out, then the key, then the
    data. *)
Record record_at (f : Z → Z) (a : Z) (h : _mtb_kvstore_record_header_t)
    (key data : list Z) : Prop := {
  ra_header : bytes_at f a sizeof_record_header = header_bytes h;
  ra_key : bytes_at f (a + sizeof_record_header) (strlen key) = key;
  ra_data : bytes_at f (a + sizeof_record_header + strlen key) (strlen data) = data;
  ra_range : header_in_range h;
  ra_magic : magic h = _MTB_KVSTORE_HEADER_MAGIC;
  ra_header_size : header_size h = sizeof_record_header;
  ra_key_size : key_size h = strlen key;
  ra_data_size : data_size h = strlen data;
  ra_key_len : 0 < strlen key < MTB_KVSTORE_MAX_KEY_SIZE;
  ra_addr : 0 ≤ a ∧ a + sizeof_record_header + strlen key + strlen data < 2 ^ 32
}.

(** The CRC stored in the header is the CRC of the record. *)
Definition crc_ok (h : _mtb_kvstore_record_header_t) (key data : list Z) : Prop :=
  crc h = _mtb_kvstore_crc16 data
            (_mtb_kvstore_crc16 key
               (_mtb_kvstore_get_header_crc h _MTB_KVSTORE_CRC_INIT_VAL)).

(** The header, key and data that the bytes at [a] spell. *)
Definition hdr_at (f : Z → Z) (a : Z) : _mtb_kvstore_record_header_t :=
  header_of_bytes (bytes_at f a sizeof_record_header).

Definition key_at (f : Z → Z) (a : Z) : list Z :=
  bytes_at f (a + sizeof_record_header) (key_size (hdr_at f a)).

Definition data_at (f : Z → Z) (a : Z) : list Z :=
  bytes_at f (a + sizeof_record_header + key_size (hdr_at f a)) (data_size (hdr_at f a)).

(** The state of [_mtb_kvstore_buffered_write] between two calls, for a
    record that starts at [base] and of which the bytes [s] have been
    handed over: whole buffers are on the medium, the rest waits at the
    start of the transaction buffer, and the medium is as [f0] outside. *)
Record bw_state (tbs base : Z) (f0 f : Z → Z) (tb : list Z) (s : list Z)
    (write_address buffer_space_left : Z) : Prop := {
  bw_left : 0 < buffer_space_left ≤ tbs;
  bw_base : base ≤ write_address;
  bw_address : write_address = base + strlen s - (tbs - buffer_space_left);
  bw_whole : (write_address - base) mod tbs = 0;
  bw_pending : take (Z.to_nat (tbs - buffer_space_left)) tb
               = drop (Z.to_nat (write_address - base)) s;
  bw_flushed : bytes_at f base (write_address - base)
               = take (Z.to_nat (write_address - base)) s;
  bw_frame : ∀ x, ¬ (base ≤ x < write_address) → f x = f0 x;
  bw_length : strlen tb = tbs
}.

(** The bytes of the caller's data that a record takes. *)
Definition payload (data : option (list Z)) (dsize : Z) : list Z :=
  take (Z.to_nat dsize) (default [] data).

(** The geometry the library is told to assume, and the transaction buffer
    [mtb_kvstore_init] allocates: one program size [p] everywhere, a buffer
    of whole program units that holds any key. *)
Record buffer_ok {D : Type} (bd : mtb_kvstore_bd_t D) (p : Z) (obj : mtb_kvstore_t)
    : Prop := {
  bo_uniform : ∀ a, bd_program_size bd a = p;
  bo_prog : 0 < p;
  bo_tbs : MTB_KVSTORE_MAX_KEY_SIZE ≤ transaction_buffer_size obj < 2 ^ 32;
  bo_whole : transaction_buffer_size obj mod p = 0;
  bo_length : strlen (transaction_buffer obj) = transaction_buffer_size obj
}.

(** The object [_mtb_kvstore_write_record] leaves when it succeeds, up to
    the transaction buffer. *)
Definition write_record_post (obj : mtb_kvstore_t) (off : Z)
    (operation : _mtb_kvstore_operation_t)
    (rti : option _mtb_kvstore_update_ram_table_info_t)
    (si : option _mtb_kvstore_update_consumed_size_info_t) : option mtb_kvstore_t :=
  if negb (off =? _MTB_KVSTORE_AREA_HEADER_OFFSET) then
    match rti, si with
    | Some rti, Some si =>
        Some (_mtb_kvstore_update_consumed_size
                (_mtb_kvstore_update_ram_table obj operation rti) operation si)
    | _, _ => None
    end
  else Some obj.

(** Whether the caller's buffer is too small for [n] bytes of data. *)
Definition too_small (data : option (list Z)) (dsz : option Z) (n : Z) : bool :=
  match data, dsz with
  | Some _, Some sz => sz <? n
  | _, _ => false
  end.

(** What a read that checks the key against [key] makes of an intact
    record with the key [K] and the data [Dat]: the result, the caller's
    data buffer and [*data_size]. *)
Definition read_outcome (K Dat key : list Z) (data : option (list Z)) (dsz : option Z)
    : cy_rslt_t * option (list Z) * option Z :=
  if too_small data dsz (strlen Dat)
  then (MTB_KVSTORE_INVALID_DATA_ERROR, data, Some (strlen Dat))
  else if decide (key = K) then
    (CY_RSLT_SUCCESS,
     match data, dsz with
     | Some buf, Some _ => Some (Dat ++ drop (length Dat) buf)
     | _, _ => data
     end,
     match dsz with Some _ => Some (strlen Dat) | None => None end)
  else (MTB_KVSTORE_ITEM_NOT_FOUND_ERROR, data, dsz).

(** ** The store invariant

    The contents of a store are a list [m] of keys with their data, one
    pair for each entry of the RAM table, in the order of the table. *)

Definition key_hash (K : list Z) : Z := _mtb_kvstore_crc16 K _MTB_KVSTORE_CRC_INIT_VAL.

(** The padded size of the record of a key with its data, and of the area
    record, where the program size is [p]. *)
Definition rec_size (p : Z) (kv : list Z * list Z) : Z :=
  _mtb_kvstore_align_up (sizeof_record_header + strlen kv.1 + strlen kv.2) p.

Definition anchor_size (p : Z) : Z :=
  _mtb_kvstore_align_up
    (sizeof_record_header + strlen _mtb_kvstore_area_rec_key + sizeof_area_record_data) p.

Fixpoint live_size (p : Z) (m : list (list Z * list Z)) : Z :=
  match m with
  | [] => 0
  | kv :: m' => rec_size p kv + live_size p m'
  end.

(** The entry [e] points to an intact record of the pair [kv] in the area
    at [area], between the offsets [lo] and [hi]. *)
Record entry_ok (f : Z → Z) (p area lo hi : Z) (e : mtb_kvstore_ram_table_entry_t)
    (kv : list Z * list Z) : Prop := {
  eo_record : ∃ h, record_at f (area + offset e) h kv.1 kv.2 ∧ crc_ok h kv.1 kv.2;
  eo_hash : hash e = key_hash kv.1;
  eo_bound : sizeof_record_header + strlen kv.1 + strlen kv.2 + p ≤ 2 ^ 32;
  eo_low : lo ≤ offset e;
  eo_high : offset e + rec_size p kv ≤ hi
}.

(** The two areas are the halves of the store. *)
Definition areas_ok (obj : mtb_kvstore_t) : Prop :=
  (active_area_addr obj = start_addr obj
   ∧ gc_area_addr obj = start_addr obj + _MTB_KVSTORE_AREA_SIZE obj)
  ∨ (active_area_addr obj = start_addr obj + _MTB_KVSTORE_AREA_SIZE obj
     ∧ gc_area_addr obj = start_addr obj).

(** The geometry of a store: the transaction buffer, sectors no larger
    than an area, the two areas within the 32-bit address space, and room
    for the area record. *)
Record geometry {D : Type} (bd : mtb_kvstore_bd_t D) (p : Z) (obj : mtb_kvstore_t)
    : Prop := {
  ge_buffer : buffer_ok bd p obj;
  ge_erase : ∀ a, 0 < bd_erase_size bd a ≤ _MTB_KVSTORE_AREA_SIZE obj;
  ge_start : 0 ≤ start_addr obj;
  ge_length : 2 * _MTB_KVSTORE_AREA_SIZE obj ≤ obj_length obj;
  ge_top : start_addr obj + obj_length obj + p < 2 ^ 32;
  ge_areas : areas_ok obj;
  ge_anchor : anchor_size p ≤ _MTB_KVSTORE_AREA_SIZE obj
}.

(** The store invariant: the geometry, the entries of the RAM table and
    the two counters [consumed_size] and [free_space_offset]. *)
Record store_ok {D : Type} (bd : mtb_kvstore_bd_t D) (p : Z) (f : Z → Z)
    (obj : mtb_kvstore_t) (m : list (list Z * list Z)) : Prop := {
  so_geometry : geometry bd p obj;
  so_entries : Forall2 (entry_ok f p (active_area_addr obj) (anchor_size p)
                                 (free_space_offset obj))
                       (ram_table obj) m;
  so_sorted : sorted_desc (ram_table obj);
  so_keys : NoDup m.*1;
  so_consumed : consumed_size obj = anchor_size p + live_size p m;
  so_free : consumed_size obj ≤ free_space_offset obj ≤ _MTB_KVSTORE_AREA_SIZE obj
}.

(** What the lookup of [key], of hash [h], finds in a table whose entries
    point to the pairs [m]: the result, the position and [*data_size]. *)
Fixpoint find_spec (key : list Z) (h : Z) (es : list mtb_kvstore_ram_table_entry_t)
    (m : list (list Z * list Z)) (idx : Z) (dsz : option Z)
    : cy_rslt_t * Z * option Z :=
  match es, m with
  | e :: es', kv :: m' =>
      if h <? hash e then find_spec key h es' m' (idx + 1) dsz
      else if h >? hash e then (MTB_KVSTORE_ITEM_NOT_FOUND_ERROR, idx, dsz)
      else if decide (key = kv.1)
      then (CY_RSLT_SUCCESS, idx,
            match dsz with Some _ => Some (strlen kv.2) | None => None end)
      else find_spec key h es' m' (idx + 1) dsz
  | _, _ => (MTB_KVSTORE_ITEM_NOT_FOUND_ERROR, idx, dsz)
  end.

(** A device that does not fail while it is in a state [ok]. *)
Record faultless {D : Type} (bd : mtb_kvstore_bd_t D) (ok : D → Prop) : Prop := {
  fl_program : ∀ d a n buf, ok d →
    ∃ d', bd_program bd d a n buf = (CY_RSLT_SUCCESS, d') ∧ ok d';
  fl_erase : ∀ d a n, ok d →
    ∃ d', bd_erase bd d a n = (CY_RSLT_SUCCESS, d') ∧ ok d'
}.

(** What [_mtb_kvstore_update_ram_table] does to the list of entries, and
    to the contents of the store beside it. *)
Definition table_op {A : Type} (op : _mtb_kvstore_operation_t) (idx : nat) (x : A)
    (l : list A) : list A :=
  match op with
  | _MTB_KVSTORE_OPER_ADD => take idx l ++ x :: drop idx l
  | _MTB_KVSTORE_OPER_UPDATE => <[idx := x]> l
  | _MTB_KVSTORE_OPER_DELETE => delete idx l
  end.

(** ** The garbage collection *)

(** The stage of [_mtb_kvstore_garbage_collection] that follows the copy
    loop, which has left [result]: the pending update is written behind
    the copies, or the pending deletion is applied to the RAM table. *)
Definition gc_apply_pending {D : Type} (bd : mtb_kvstore_bd_t D) (result : cy_rslt_t)
    (d : D) (obj : mtb_kvstore_t) (dst_offset : Z)
    (record_info : option _mtb_kvstore_record_info_t)
    : option (cy_rslt_t * D * mtb_kvstore_t * Z) :=
  match record_info with
  | Some ri =>
      match ri_update_rec_info ri with
      | Some u =>
          let ram_tbl_info :=
            {| ram_tbl_idx := ri_ram_tbl_idx ri;
               entry := {| hash := upd_key_hash u; offset := dst_offset |} |} in
          '(result, d, obj) ←
            _mtb_kvstore_write_record bd d obj (gc_area_addr obj) dst_offset
              (upd_key u) (upd_data u) (upd_data_size u)
              _MTB_KVSTORE_OPER_UPDATE (Some ram_tbl_info)
              (Some (ri_consumed_size_info ri));
          if negb (is_success result) then Some (result, d, obj, dst_offset)
          else Some (result, d, obj,
                     u32 (dst_offset + new_record_size (ri_consumed_size_info ri)))
      | None =>
          let ram_tbl_info :=
            {| ram_tbl_idx := ri_ram_tbl_idx ri;
               entry := {| hash := 0; offset := 0 |} |} in
          let obj :=
            _mtb_kvstore_update_ram_table obj _MTB_KVSTORE_OPER_DELETE ram_tbl_info in
          let obj :=
            _mtb_kvstore_update_consumed_size obj _MTB_KVSTORE_OPER_DELETE
                                              (ri_consumed_size_info ri) in
          Some (result, d, obj, dst_offset)
      end
  | None => Some (result, d, obj, dst_offset)
  end.

(** Its last stage: the new version, the area record, and the swap of the
    two areas. *)
Definition gc_commit {D : Type} (bd : mtb_kvstore_bd_t D) (d : D) (obj : mtb_kvstore_t)
    (dst_offset : Z) : option (cy_rslt_t * D * mtb_kvstore_t) :=
  let obj := set_active_area_version (u16 (active_area_version obj + 1)) obj in
  '(result, d, obj) ←
    _mtb_kvstore_write_area_record bd d obj (gc_area_addr obj) (active_area_version obj);
  if negb (is_success result) then Some (result, d, obj)
  else
    let obj := set_free_space_offset dst_offset obj in
    let new_gc_area_addr := active_area_addr obj in
    let obj := set_areas (gc_area_addr obj) new_gc_area_addr obj in
    Some (result, d, obj).

(** Whether the copy loop of [_mtb_kvstore_garbage_collection] passes
    over the entry at [idx]. *)
Definition skipped (record_info : option _mtb_kvstore_record_info_t) (idx : Z) : bool :=
  match record_info with
  | Some ri => idx =? ri_ram_tbl_idx ri
  | None => false
  end.

(** The size of the records it copies, out of those of the pairs [m] that
    the entries from [idx] on point to. *)
Fixpoint copied_size (p : Z) (record_info : option _mtb_kvstore_record_info_t) (idx : Z)
    (m : list (list Z * list Z)) : Z :=
  match m with
  | [] => 0
  | kv :: m' =>
      (if skipped record_info idx then 0 else rec_size p kv)
      + copied_size p record_info (idx + 1) m'
  end.

(** The entry [e'] that the copy loop leaves for the entry [e] at [idx]:
    [e] itself where it passes over it, otherwise an entry for the copy. *)
Definition copied_entry (f : Z → Z) (p area lo hi : Z)
    (record_info : option _mtb_kvstore_record_info_t) (idx : Z)
    (e e' : mtb_kvstore_ram_table_entry_t) (kv : list Z * list Z) : Prop :=
  if skipped record_info idx then e' = e
  else hash e' = hash e ∧ entry_ok f p area lo hi e' kv.

(** The data a caller hands over is as long as the size says. *)
Definition payload_ok (data : option (list Z)) (dsize : Z) : Prop :=
  0 ≤ dsize
  ∧ match data with
    | Some bytes => dsize ≤ strlen bytes
    | None => dsize = 0
    end.

(** The contents a garbage collection leaves, with the pending update or
    deletion applied. *)
Definition gc_contents (record_info : option _mtb_kvstore_record_info_t)
    (m : list (list Z * list Z)) : list (list Z * list Z) :=
  match record_info with
  | None => m
  | Some ri =>
      match ri_update_rec_info ri with
      | Some u =>
          <[Z.to_nat (ri_ram_tbl_idx ri) :=
              (upd_key u, payload (upd_data u) (upd_data_size u))]> m
      | None => delete (Z.to_nat (ri_ram_tbl_idx ri)) m
      end
  end.

(** The pending operation names an entry of the table, the size of its
    record, and for an update the same key with data that fit. *)
Definition info_ok (p : Z) (m : list (list Z * list Z))
    (ri : _mtb_kvstore_record_info_t) : Prop :=
  ∃ old, 0 ≤ ri_ram_tbl_idx ri
    ∧ m !! Z.to_nat (ri_ram_tbl_idx ri) = Some old
    ∧ old_record_size (ri_consumed_size_info ri) = rec_size p old
    ∧ match ri_update_rec_info ri with
      | Some u =>
          upd_key u = old.1
          ∧ 0 < strlen (upd_key u) < MTB_KVSTORE_MAX_KEY_SIZE
          ∧ upd_key_hash u = key_hash (upd_key u)
          ∧ payload_ok (upd_data u) (upd_data_size u)
          ∧ sizeof_record_header + strlen (upd_key u) + upd_data_size u + p ≤ 2 ^ 32
          ∧ new_record_size (ri_consumed_size_info ri)
            = rec_size p (upd_key u, payload (upd_data u) (upd_data_size u))
      | None => True
      end.

(** What the garbage collection needs of a pending operation: it names an
    entry, the counter [consumed_size] is exact and within the area, and
    the record of an update fits an area. *)
Definition pending_ok (p : Z) (obj : mtb_kvstore_t) (m : list (list Z * list Z))
    (record_info : option _mtb_kvstore_record_info_t) : Prop :=
  match record_info with
  | Some ri =>
      info_ok p m ri
      ∧ consumed_size obj = anchor_size p + live_size p m
      ∧ consumed_size obj ≤ _MTB_KVSTORE_AREA_SIZE obj
      ∧ ∀ u, ri_update_rec_info ri = Some u →
             sizeof_record_header + strlen (upd_key u) + upd_data_size u
             ≤ _MTB_KVSTORE_AREA_SIZE obj
  | None => True
  end.

(** What [write_operation] is told by the lookup: for an addition the
    position where the key belongs in a table of falling hashes, for an
    update or a deletion the entry of the key and the size of its
    record. *)
Definition op_ok (p : Z) (op : _mtb_kvstore_operation_t) (key : list Z) (idx : Z)
    (old_size : Z) (m : list (list Z * list Z)) : Prop :=
  0 ≤ idx
  ∧ match op with
    | _MTB_KVSTORE_OPER_ADD =>
        (key ∉ m.*1) ∧ idx ≤ Z.of_nat (length m) ∧ old_size = 0
        ∧ ∀ (i : nat) kv, m !! i = Some kv →
            (Z.of_nat i < idx ↔ key_hash key ≤ key_hash kv.1)
    | _ => ∃ old, m !! Z.to_nat idx = Some (key, old) ∧ old_size = rec_size p (key, old)
    end.

(** How a write of [dat] under [key], or a deletion of [key], changes the
    contents of a store: the key gets the data, or goes; every other key
    keeps its data. *)
Definition updated (delete : bool) (key dat : list Z) (m m' : list (list Z * list Z))
    : Prop :=
  (if delete then key ∉ m'.*1 else (key, dat) ∈ m')
  ∧ ∀ K D, K ≠ key → ((K, D) ∈ m' ↔ (K, D) ∈ m).

(** ** The log of an area

    The records an area holds behind its area record, in the order of
    their offsets: header, key and data of each. *)

Definition log_entry : Type := _mtb_kvstore_record_header_t * list Z * list Z.

(** Whether a record marks its key as deleted. *)
Definition is_tombstone (h : _mtb_kvstore_record_header_t) : bool :=
  negb (Z.land (flags h) _MTB_KVSTORE_DELETE_FLAG =? 0).

(** From the offset [off] on, the area at [area] holds the records [log],
    intact, one behind the other at their padded sizes, each within the
    area of size [size]; the keys are C strings. *)
Fixpoint log_at (f : Z → Z) (p area size off : Z) (log : list log_entry) : Prop :=
  match log with
  | [] => True
  | (h, key, dat) :: log' =>
      record_at f (area + off) h key dat ∧ crc_ok h key dat ∧ (0 ∉ key)
      ∧ off + sizeof_record_header + strlen key + strlen dat ≤ size
      ∧ log_at f p area size (off + rec_size p (key, dat)) log'
  end.

(** The offset behind the records. *)
Fixpoint log_end (p off : Z) (log : list log_entry) : Z :=
  match log with
  | [] => off
  | (h, key, dat) :: log' => log_end p (off + rec_size p (key, dat)) log'
  end.

(** The data the log gives a key: that of its last record, unless that
    record is a tombstone. *)
Fixpoint log_get (K : list Z) (log : list log_entry) (before : option (list Z))
    : option (list Z) :=
  match log with
  | [] => before
  | (h, key, dat) :: log' =>
      log_get K log'
        (if decide (key = K) then (if is_tombstone h then None else Some dat) else before)
  end.

(** The area at [a] starts with an intact area record of the version
    [v]. *)
Definition anchor_at (f : Z → Z) (a v : Z) : Prop :=
  ∃ h fmt, record_at f a h _mtb_kvstore_area_rec_key (area_record_data_bytes v fmt)
           ∧ crc_ok h _mtb_kvstore_area_rec_key (area_record_data_bytes v fmt)
           ∧ 0 ≤ v < 2 ^ 16 ∧ 0 ≤ fmt < 2 ^ 16.

(** What [_mtb_kvstore_setup_areas] needs to find in the other area to
    take the area with the version [v] as the active one, the second area
    if [second]: no area record, or an area record whose version loses
    against [v] by the rule of the code. *)
Definition spare_ok (f : Z → Z) (spare : Z) (second : bool) (v : Z) : Prop :=
  (∀ x, spare ≤ x < spare + sizeof_record_header → f x = 0xFF)
  ∨ ∃ w, anchor_at f spare w
         ∧ (if second then area1_is_active w v = false else area1_is_active v w = true).

(** ** The store on the medium

    What a restart finds of the store [obj] with the contents [m]: the
    active area, the second half of the store if [second], starts with
    its area record of the version [v], holds the log [log] behind it up
    to [free_space_offset] and is erased from there on; the other area
    loses against it; and the contents are what the log gives. *)
Record medium_ok {D : Type} (bd : mtb_kvstore_bd_t D) (p : Z) (f : Z → Z)
    (obj : mtb_kvstore_t) (m : list (list Z * list Z)) (second : bool) (v : Z)
    (log : list log_entry) : Prop := {
  mo_store : store_ok bd p f obj m;
  mo_active : active_area_addr obj
              = if second then start_addr obj + _MTB_KVSTORE_AREA_SIZE obj
                else start_addr obj;
  mo_anchor : anchor_at f (active_area_addr obj) v;
  mo_spare : spare_ok f (gc_area_addr obj) second v;
  mo_log : log_at f p (active_area_addr obj) (_MTB_KVSTORE_AREA_SIZE obj) (anchor_size p)
             log;
  mo_end : log_end p (anchor_size p) log = free_space_offset obj;
  mo_contents : ∀ K Dat, (K, Dat) ∈ m ↔ log_get K log None = Some Dat;
  mo_erased : ∀ x, active_area_addr obj + free_space_offset obj ≤ x
                   < active_area_addr obj + _MTB_KVSTORE_AREA_SIZE obj → f x = 0xFF
}.

(** * Arithmetic of machine integers *)

Lemma u32_small z : 0 ≤ z < 2 ^ 32 → u32 z = z.
Proof. intros. unfold u32. by apply Z.mod_small. Qed.

Lemma u16_small z : 0 ≤ z < 2 ^ 16 → u16 z = z.
Proof. intros. unfold u16. by apply Z.mod_small. Qed.

Lemma u32_range z : 0 ≤ u32 z < 2 ^ 32.
Proof. unfold u32. apply Z.mod_pos_bound. lia. Qed.

Lemma u16_range z : 0 ≤ u16 z < 2 ^ 16.
Proof. unfold u16. apply Z.mod_pos_bound. lia. Qed.

(** [_mtb_kvstore_align_up] without wrap-around: the least multiple of
    [size] that is at least [val]. *)
Lemma align_up_exact val size :
  0 < val → 0 < size → val + size ≤ 2 ^ 32 →
  _mtb_kvstore_align_up val size = ((val - 1) / size + 1) * size.
Proof.
  intros Hv Hs Hb. unfold _mtb_kvstore_align_up.
  assert (0 ≤ (val - 1) / size) by (apply Z.div_pos; lia).
  assert ((val - 1) / size * size ≤ val - 1)
    by (rewrite Z.mul_comm; apply Z.mul_div_le; lia).
  assert ((val - 1) / size ≤ val - 1) by nia.
  rewrite (u32_small (val - 1)) by lia.
  rewrite (u32_small ((val - 1) / size + 1)) by lia.
  apply u32_small. nia.
Qed.

Lemma align_up_bounds val size :
  0 < val → 0 < size → val + size ≤ 2 ^ 32 →
  val ≤ _mtb_kvstore_align_up val size < val + size
  ∧ _mtb_kvstore_align_up val size mod size = 0.
Proof.
  intros Hv Hs Hb. rewrite align_up_exact by done.
  pose proof (Z.div_mod (val - 1) size ltac:(lia)) as Hdm.
  pose proof (Z.mod_pos_bound (val - 1) size Hs) as Hm.
  split; [nia|]. apply Z.mod_mul. lia.
Qed.

Lemma align_up_least val size m :
  0 < val → 0 < size → val + size ≤ 2 ^ 32 →
  val ≤ m → m mod size = 0 → _mtb_kvstore_align_up val size ≤ m.
Proof.
  intros Hv Hs Hb Hm Hd. rewrite align_up_exact by done.
  apply Z.mod_divide in Hd; [|lia]. destruct Hd as [k ->].
  assert ((val - 1) / size < k); [|nia].
  apply Z.div_lt_upper_bound; lia.
Qed.

(** Adding whole buffers in front does not change the padding. *)
Lemma align_up_add_multiple k val size :
  0 ≤ k → 0 < val → 0 < size → k mod size = 0 → k + val + size ≤ 2 ^ 32 →
  k + _mtb_kvstore_align_up val size = _mtb_kvstore_align_up (k + val) size.
Proof.
  intros Hk Hv Hs Hd Hb. rewrite !align_up_exact by lia.
  apply Z.mod_divide in Hd; [|lia]. destruct Hd as [q ->].
  replace (q * size + val - 1) with (val - 1 + q * size) by lia.
  rewrite Z.div_add by lia. lia.
Qed.

(** * Little-endian members *)

Lemma le_bytes_length n v : length (le_bytes n v) = n.
Proof. revert v. induction n; intros; simpl; [done|]. by rewrite IHn. Qed.

Lemma le_value_le_bytes n v : le_value (le_bytes n v) = v mod 256 ^ Z.of_nat n.
Proof.
  revert v. induction n as [|n IH]; intros v.
  - simpl. by rewrite Z.mod_1_r.
  - cbn [le_bytes le_value]. rewrite IH.
    rewrite Nat2Z.inj_succ, Z.pow_succ_r by lia.
    rewrite Z.rem_mul_r by lia. lia.
Qed.

Lemma header_bytes_length h : length (header_bytes h) = 20%nat.
Proof. reflexivity. Qed.


Lemma header_of_header_bytes h :
  header_in_range h → header_of_bytes (header_bytes h) = h.
Proof.
  intros []. destruct h as [m fv fl hs ks ds c]; simpl in *.
  unfold header_of_bytes, header_bytes, slice; cbn [magic format_version flags header_size key_size data_size crc].
  change (le_bytes 4 m ++ le_bytes 1 fv ++ le_bytes 1 fl ++ le_bytes 2 hs ++ le_bytes 2 ks ++ [0; 0] ++ le_bytes 4 ds ++ le_bytes 4 c)
    with (le_bytes 4 m ++ (le_bytes 1 fv ++ (le_bytes 1 fl ++ (le_bytes 2 hs ++ (le_bytes 2 ks ++ ([0; 0] ++ (le_bytes 4 ds ++ le_bytes 4 c))))))).
  f_equal.
  all: cbn [Z.to_nat Pos.to_nat Pos.iter_op Nat.add le_bytes app drop take].
  all: match goal with |- le_value ?l = ?v =>
         first [ change l with (le_bytes 4 v) | change l with (le_bytes 2 v) | change l with (le_bytes 1 v) ] end.
  all: rewrite le_value_le_bytes; apply Z.mod_small; simpl; lia.
Qed.

(** * The CRC *)


Lemma land_ffff x : Z.land x 0xffff = low16 x.
Proof. change 0xffff with (Z.ones 16). apply Z.land_ones. lia. Qed.

Lemma low16_lxor a b : low16 (Z.lxor a b) = Z.lxor (low16 a) (low16 b).
Proof.
  unfold low16. rewrite <- !Z.land_ones by lia.
  apply Z.bits_inj'. intros n Hn.
  rewrite Z.land_spec, !Z.lxor_spec, !Z.land_spec.
  by destruct (Z.testbit a n), (Z.testbit b n), (Z.testbit (Z.ones 16) n).
Qed.

Lemma low16_u32_double x : low16 (u32 (Z.shiftl x 1)) = low16 (2 * low16 x).
Proof.
  unfold low16, u32. rewrite Z.shiftl_mul_pow2 by lia.
  change (2 ^ 32) with (2 ^ 16 * 2 ^ 16).
  rewrite Z.rem_mul_r by lia.
  rewrite (Z.mul_comm (2 ^ 16)), Z_mod_plus_full, Zmod_mod.
  change (2 ^ 1) with 2. rewrite (Z.mul_comm x 2).
  by rewrite Z.mul_mod_idemp_r by lia.
Qed.

Lemma crc16_shift_low x y : low16 x = low16 y → low16 (crc16_shift x) = low16 (crc16_shift y).
Proof.
  intros Hxy. unfold crc16_shift.
  assert (Z.testbit x 15 = Z.testbit y 15) as ->.
  { rewrite <- (Z.mod_pow2_bits_low x 16 15), <- (Z.mod_pow2_bits_low y 16 15) by lia.
    unfold low16 in Hxy. by rewrite Hxy. }
  destruct (Z.testbit y 15).
  - rewrite !low16_lxor, !low16_u32_double. by rewrite Hxy.
  - rewrite !low16_u32_double. by rewrite Hxy.
Qed.

Lemma crc16_byte_low x y b : low16 x = low16 y → low16 (crc16_byte x b) = low16 (crc16_byte y b).
Proof.
  intros Hxy. unfold crc16_byte.
  assert (low16 (Z.lxor x (Z.shiftl b 8)) = low16 (Z.lxor y (Z.shiftl b 8))) as H0
    by (rewrite !low16_lxor; by rewrite Hxy).
  revert H0. generalize (Z.lxor x (Z.shiftl b 8)) (Z.lxor y (Z.shiftl b 8)).
  generalize 8%nat. intros n. induction n as [|n IH]; intros u v Huv; simpl; [done|].
  apply crc16_shift_low. by apply IH.
Qed.

Lemma crc16_fold_low data x y :
  low16 x = low16 y → low16 (fold_left crc16_byte data x) = low16 (fold_left crc16_byte data y).
Proof.
  revert x y. induction data as [|b data IH]; intros x y Hxy; simpl; [done|].
  apply IH. by apply crc16_byte_low.
Qed.

Lemma crc16_range data init : 0 ≤ _mtb_kvstore_crc16 data init < 2 ^ 16.
Proof.
  unfold _mtb_kvstore_crc16. rewrite land_ffff. unfold low16.
  apply Z.mod_pos_bound. lia.
Qed.

Lemma crc16_nil init : 0 ≤ init < 2 ^ 16 → _mtb_kvstore_crc16 [] init = init.
Proof.
  intros. unfold _mtb_kvstore_crc16. simpl. rewrite land_ffff.
  unfold low16. by apply Z.mod_small.
Qed.

(** Feeding a buffer in pieces, each piece from the CRC of the one before,
    gives the CRC of the whole. *)
Lemma crc16_app a b init :
  _mtb_kvstore_crc16 (a ++ b) init = _mtb_kvstore_crc16 b (_mtb_kvstore_crc16 a init).
Proof.
  unfold _mtb_kvstore_crc16. rewrite fold_left_app, !land_ffff.
  apply crc16_fold_low. unfold low16. by rewrite Z.mod_mod by lia.
Qed.

Lemma header_crc_range h init : 0 ≤ _mtb_kvstore_get_header_crc h init < 2 ^ 16.
Proof. unfold _mtb_kvstore_get_header_crc. apply crc16_range. Qed.

#[global] Arguments read_record_key : simpl never.
#[global] Arguments read_record_data : simpl never.
#[global] Arguments _mtb_kvstore_validate_key : simpl never.
#[global] Arguments _mtb_kvstore_buffered_crc_compute : simpl never.
#[global] Arguments _mtb_kvstore_read_record : simpl never.
#[global] Arguments _mtb_kvstore_buffered_write : simpl never.
#[global] Arguments _mtb_kvstore_write_record : simpl never.
#[global] Arguments _mtb_kvstore_write_area_record : simpl never.
#[global] Arguments _mtb_kvstore_find_record_in_ram_table : simpl never.
#[global] Arguments _mtb_kvstore_copy_record : simpl never.
#[global] Arguments _mtb_kvstore_garbage_collection : simpl never.
#[global] Arguments _mtb_kvstore_write_with_flags : simpl never.
#[global] Arguments _mtb_kvstore_get_record_size : simpl never.
#[global] Arguments _mtb_kvstore_align_up : simpl never.
#[global] Arguments _mtb_kvstore_crc16 : simpl never.
#[global] Arguments _mtb_kvstore_get_header_crc : simpl never.
#[global] Arguments u32 : simpl never.
#[global] Arguments u16 : simpl never.
#[global] Arguments u8 : simpl never.
#[global] Arguments exactly : simpl never.
#[global] Arguments read_into : simpl never.
#[global] Arguments memcpy_at : simpl never.
#[global] Arguments header_of_bytes : simpl never.
#[global] Arguments header_bytes : simpl never.

(** * The transaction buffer is scratch memory *)

Lemma exactly_length n bytes : length (exactly n bytes) = Z.to_nat n.
Proof.
  unfold exactly. rewrite length_take, length_app, length_replicate. lia.
Qed.

Lemma take_read_into n bytes buf :
  take (Z.to_nat n) (read_into n bytes buf) = exactly n bytes.
Proof.
  unfold read_into. rewrite take_app_length'; [done|]. by rewrite exactly_length.
Qed.

Lemma exactly_id n bytes : length bytes = Z.to_nat n → exactly n bytes = bytes.
Proof.
  intros Hl. unfold exactly. rewrite take_app_length'; done.
Qed.

Lemma obj_rel_refl o : obj_rel o o.
Proof. done. Qed.

Lemma obj_rel_sym o1 o2 : obj_rel o1 o2 → obj_rel o2 o1.
Proof. unfold obj_rel. by intros ->. Qed.

Lemma obj_rel_trans o1 o2 o3 : obj_rel o1 o2 → obj_rel o2 o3 → obj_rel o1 o3.
Proof. unfold obj_rel. by intros -> ->. Qed.

Lemma obj_rel_set_tb tb o : obj_rel (set_transaction_buffer tb o) o.
Proof. done. Qed.

Lemma obj_rel_set_tb_both tb1 tb2 o1 o2 :
  obj_rel o1 o2 → obj_rel (set_transaction_buffer tb1 o1) (set_transaction_buffer tb2 o2).
Proof. done. Qed.

Lemma obj_rel_fields o1 o2 :
  obj_rel o1 o2 →
  start_addr o1 = start_addr o2 ∧ obj_length o1 = obj_length o2
  ∧ ram_table o1 = ram_table o2 ∧ max_entries o1 = max_entries o2
  ∧ transaction_buffer_size o1 = transaction_buffer_size o2
  ∧ key_buffer o1 = key_buffer o2
  ∧ active_area_addr o1 = active_area_addr o2 ∧ gc_area_addr o1 = gc_area_addr o2
  ∧ free_space_offset o1 = free_space_offset o2
  ∧ active_area_version o1 = active_area_version o2
  ∧ consumed_size o1 = consumed_size o2.
Proof.
  unfold obj_rel, forget_tb, set_transaction_buffer. intros H.
  injection H. intros. repeat split; congruence.
Qed.

Lemma obj_rel_tbs o1 o2 :
  obj_rel o1 o2 → transaction_buffer_size o1 = transaction_buffer_size o2.
Proof. intros H. apply obj_rel_fields in H. tauto. Qed.

Lemma obj_rel_active o1 o2 : obj_rel o1 o2 → active_area_addr o1 = active_area_addr o2.
Proof. intros H. apply obj_rel_fields in H. tauto. Qed.

Lemma obj_rel_table o1 o2 : obj_rel o1 o2 → ram_table o1 = ram_table o2.
Proof. intros H. apply obj_rel_fields in H. tauto. Qed.

Lemma obj_rel_eq o1 o2 :
  obj_rel o1 o2 → o2 = set_transaction_buffer (transaction_buffer o2) o1.
Proof.
  intros H. apply obj_rel_fields in H. destruct o1, o2; simpl in *.
  unfold set_transaction_buffer; simpl.
  destruct H as (-> & -> & -> & -> & -> & -> & -> & -> & -> & -> & ->). done.
Qed.

Lemma update_ram_table_tb o op rti :
  transaction_buffer (_mtb_kvstore_update_ram_table o op rti) = transaction_buffer o.
Proof. unfold _mtb_kvstore_update_ram_table. destruct op; [done| |done]. by case_match. Qed.

Lemma update_consumed_size_tb o op si :
  transaction_buffer (_mtb_kvstore_update_consumed_size o op si) = transaction_buffer o.
Proof. by destruct op. Qed.

Lemma update_ram_table_rel o1 o2 op rti :
  obj_rel o1 o2 →
  obj_rel (_mtb_kvstore_update_ram_table o1 op rti) (_mtb_kvstore_update_ram_table o2 op rti).
Proof.
  intros H. rewrite (obj_rel_eq _ _ H).
  unfold _mtb_kvstore_update_ram_table, num_entries. destruct op; [done| |done].
  cbn [ram_table set_transaction_buffer]. by case_match.
Qed.

Lemma update_consumed_size_rel o1 o2 op si :
  obj_rel o1 o2 →
  obj_rel (_mtb_kvstore_update_consumed_size o1 op si)
          (_mtb_kvstore_update_consumed_size o2 op si).
Proof. intros H. rewrite (obj_rel_eq _ _ H). by destruct op. Qed.

(** The three checks [_mtb_kvstore_read_record] makes on a header. *)
Ltac header_checks h :=
  destruct ((magic h =? 4294967295) || (magic h =? 0)) eqn:?; [try done|];
  destruct (negb (magic h =? _MTB_KVSTORE_HEADER_MAGIC)) eqn:?; [try done|];
  destruct ((key_size h =? 0) || (key_size h >=? MTB_KVSTORE_MAX_KEY_SIZE)) eqn:?;
    [try done|].

Section Scratch.
Context {D : Type} (bd : mtb_kvstore_bd_t D).

(** Two runs of the CRC loop from related objects agree. *)
Lemma buffered_crc_loop_rel fuel d o1 o2 addr n c :
  obj_rel o1 o2 →
  match buffered_crc_loop bd fuel d o1 addr n c,
        buffered_crc_loop bd fuel d o2 addr n c with
  | Some (r1, o1', c1), Some (r2, o2', c2) =>
      r1 = r2 ∧ c1 = c2 ∧ obj_rel o1' o2' ∧ obj_rel o1' o1
  | None, None => True
  | _, _ => False
  end.
Proof.
  revert o1 o2 addr n c. induction fuel as [|fuel IH]; intros o1 o2 addr n c Hrel;
    simpl; destruct (0 <? n) eqn:Hn; try done.
  pose proof (obj_rel_tbs _ _ Hrel) as Htbs. rewrite <- Htbs.
  set (t := if transaction_buffer_size o1 >=? n then n else transaction_buffer_size o1).
  unfold bd_read_buf. destruct (bd_read bd d addr t) as [r bytes].
  destruct (is_success r); simpl; [|done].
  rewrite !take_read_into.
  specialize (IH (set_transaction_buffer (read_into t bytes (transaction_buffer o1)) o1)
                 (set_transaction_buffer (read_into t bytes (transaction_buffer o2)) o2)
                 (u32 (addr + t)) (u32 (n - t))
                 (_mtb_kvstore_crc16 (exactly t bytes) c) Hrel).
  repeat case_match; naive_solver.
Qed.

Lemma validate_key_loop_rel fuel d o1 o2 addr key n :
  obj_rel o1 o2 →
  match validate_key_loop bd fuel d o1 addr key n,
        validate_key_loop bd fuel d o2 addr key n with
  | Some (r1, o1'), Some (r2, o2') => r1 = r2 ∧ obj_rel o1' o2' ∧ obj_rel o1' o1
  | None, None => True
  | _, _ => False
  end.
Proof.
  revert o1 o2 addr n. induction fuel as [|fuel IH]; intros o1 o2 addr n Hrel;
    simpl; destruct (0 <? n) eqn:Hn; try done.
  pose proof (obj_rel_tbs _ _ Hrel) as Htbs. rewrite <- Htbs.
  set (t := if transaction_buffer_size o1 >=? n then n else transaction_buffer_size o1).
  unfold bd_read_buf. destruct (bd_read bd d addr t) as [r bytes].
  destruct (is_success r); simpl; [|done].
  rewrite !take_read_into.
  destruct (bool_decide (take (Z.to_nat t) key = exactly t bytes)); simpl; [|done].
  specialize (IH (set_transaction_buffer (read_into t bytes (transaction_buffer o1)) o1)
                 (set_transaction_buffer (read_into t bytes (transaction_buffer o2)) o2)
                 (u32 (addr + t)) (u32 (n - t)) Hrel).
  repeat case_match; naive_solver.
Qed.

Lemma validate_key_rel d o1 o2 addr key n :
  obj_rel o1 o2 →
  match _mtb_kvstore_validate_key bd d o1 addr key n,
        _mtb_kvstore_validate_key bd d o2 addr key n with
  | Some (r1, o1'), Some (r2, o2') => r1 = r2 ∧ obj_rel o1' o2' ∧ obj_rel o1' o1
  | None, None => True
  | _, _ => False
  end.
Proof.
  intros Hrel. unfold _mtb_kvstore_validate_key.
  destruct (negb (u32 (strlen key) =? n)); [done|].
  by apply validate_key_loop_rel.
Qed.

(** The chunked loops end as soon as the transaction buffer is not empty. *)
Lemma u32_le z : 0 ≤ z → 0 ≤ u32 z ≤ z.
Proof.
  intros. unfold u32. split; [apply Z.mod_pos_bound; lia|].
  apply Z.mod_le; lia.
Qed.

Lemma buffered_crc_loop_total fuel d o addr n c :
  0 < transaction_buffer_size o → (Z.to_nat n ≤ fuel)%nat →
  is_Some (buffered_crc_loop bd fuel d o addr n c).
Proof.
  revert o addr n c. induction fuel as [|fuel IH]; intros o addr n c Htbs Hfuel;
    simpl; destruct (0 <? n) eqn:Hn; try done; try lia.
  set (t := if transaction_buffer_size o >=? n then n else transaction_buffer_size o).
  assert (1 ≤ t ≤ n) by (subst t; case_match; lia).
  unfold bd_read_buf. destruct (bd_read bd d addr t) as [r bytes].
  destruct (is_success r); simpl; [|done].
  apply IH; [done|]. pose proof (u32_le (n - t)). lia.
Qed.

Lemma validate_key_loop_total fuel d o addr key n :
  0 < transaction_buffer_size o → (Z.to_nat n ≤ fuel)%nat →
  is_Some (validate_key_loop bd fuel d o addr key n).
Proof.
  revert o addr n. induction fuel as [|fuel IH]; intros o addr n Htbs Hfuel;
    simpl; destruct (0 <? n) eqn:Hn; try done; try lia.
  set (t := if transaction_buffer_size o >=? n then n else transaction_buffer_size o).
  assert (1 ≤ t ≤ n) by (subst t; case_match; lia).
  unfold bd_read_buf. destruct (bd_read bd d addr t) as [r bytes].
  destruct (is_success r); simpl; [|done].
  destruct (bool_decide _); simpl; [|done].
  apply IH; [done|]. pose proof (u32_le (n - t)). lia.
Qed.

Lemma buffered_crc_compute_rel d o1 o2 addr n c :
  obj_rel o1 o2 →
  match _mtb_kvstore_buffered_crc_compute bd d o1 addr n c,
        _mtb_kvstore_buffered_crc_compute bd d o2 addr n c with
  | Some (r1, o1', c1), Some (r2, o2', c2) =>
      r1 = r2 ∧ c1 = c2 ∧ obj_rel o1' o2' ∧ obj_rel o1' o1
  | None, None => True
  | _, _ => False
  end.
Proof. apply buffered_crc_loop_rel. Qed.

Lemma read_record_key_total d o addr n key v c :
  0 < transaction_buffer_size o → is_Some (read_record_key bd d o addr n key v c).
Proof.
  intros Htbs. unfold read_record_key, _mtb_kvstore_validate_key,
    _mtb_kvstore_buffered_crc_compute.
  destruct key as [k|].
  - destruct v.
    + destruct (negb _); [done|].
      destruct (validate_key_loop_total (Z.to_nat n) d o addr k n Htbs) as [[r o'] ->];
        [lia|done].
    + by destruct (bd_read_buf bd d addr n k).
  - destruct (buffered_crc_loop_total (Z.to_nat n) d o addr n c Htbs)
      as [[[r o'] c'] ->]; [lia|done].
Qed.

Lemma read_record_data_total d o addr n data dsz c :
  0 < transaction_buffer_size o → is_Some (read_record_data bd d o addr n data dsz c).
Proof.
  intros Htbs. unfold read_record_data, _mtb_kvstore_buffered_crc_compute.
  destruct (buffered_crc_loop_total (Z.to_nat n) d o addr n c Htbs)
    as [[[r o'] c'] Hc]; [lia|].
  destruct data as [buf|], dsz as [sz|]; rewrite ?Hc; try done.
  by destruct (bd_read_buf bd d addr n buf).
Qed.

Lemma read_record_key_rel d o1 o2 addr n key v c :
  obj_rel o1 o2 →
  match read_record_key bd d o1 addr n key v c,
        read_record_key bd d o2 addr n key v c with
  | Some (r1, o1', k1, c1), Some (r2, o2', k2, c2) =>
      r1 = r2 ∧ k1 = k2 ∧ c1 = c2 ∧ obj_rel o1' o2' ∧ obj_rel o1' o1
  | None, None => True
  | _, _ => False
  end.
Proof.
  intros Hrel. unfold read_record_key. destruct key as [k|].
  - destruct v.
    + pose proof (validate_key_rel d o1 o2 addr k n Hrel) as H.
      destruct (_mtb_kvstore_validate_key bd d o1 addr k n) as [[r1 o1']|],
               (_mtb_kvstore_validate_key bd d o2 addr k n) as [[r2 o2']|];
        simpl; naive_solver.
    + destruct (bd_read_buf bd d addr n k). naive_solver.
  - pose proof (buffered_crc_compute_rel d o1 o2 addr n c Hrel) as H.
    destruct (_mtb_kvstore_buffered_crc_compute bd d o1 addr n c) as [[[r1 o1'] c1]|],
             (_mtb_kvstore_buffered_crc_compute bd d o2 addr n c) as [[[r2 o2'] c2]|];
      simpl; naive_solver.
Qed.

Lemma read_record_data_rel d o1 o2 addr n data dsz c :
  obj_rel o1 o2 →
  match read_record_data bd d o1 addr n data dsz c,
        read_record_data bd d o2 addr n data dsz c with
  | Some (r1, o1', k1, c1), Some (r2, o2', k2, c2) =>
      r1 = r2 ∧ k1 = k2 ∧ c1 = c2 ∧ obj_rel o1' o2' ∧ obj_rel o1' o1
  | None, None => True
  | _, _ => False
  end.
Proof.
  intros Hrel. unfold read_record_data.
  pose proof (buffered_crc_compute_rel d o1 o2 addr n c Hrel) as H.
  destruct data as [buf|], dsz as [sz|];
    try (destruct (_mtb_kvstore_buffered_crc_compute bd d o1 addr n c) as [[[r1 o1'] c1]|],
                  (_mtb_kvstore_buffered_crc_compute bd d o2 addr n c) as [[[r2 o2'] c2]|];
         simpl; naive_solver).
  destruct (bd_read_buf bd d addr n buf). naive_solver.
Qed.

(** Without a data buffer the size pointer does not steer the data part. *)
Lemma read_record_data_none d o addr n dsz c :
  read_record_data bd d o addr n None dsz c = read_record_data bd d o addr n None None c.
Proof. unfold read_record_data. by destruct dsz. Qed.

Lemma read_record_key_obj d o addr n key v c r o' k c' :
  read_record_key bd d o addr n key v c = Some (r, o', k, c') → obj_rel o' o.
Proof.
  intros H. pose proof (read_record_key_rel d o o addr n key v c (obj_rel_refl o)) as Hr.
  rewrite H in Hr. tauto.
Qed.

Lemma read_record_data_obj d o addr n data dsz c r o' k c' :
  read_record_data bd d o addr n data dsz c = Some (r, o', k, c') → obj_rel o' o.
Proof.
  intros H.
  pose proof (read_record_data_rel d o o addr n data dsz c (obj_rel_refl o)) as Hr.
  rewrite H in Hr. tauto.
Qed.

(** [_mtb_kvstore_read_record] returns whenever the transaction buffer is
    not empty. *)
Lemma read_record_total d o area off key v data dsz :
  0 < transaction_buffer_size o →
  is_Some (_mtb_kvstore_read_record bd d o area off key v data dsz).
Proof.
  intros Htbs. unfold _mtb_kvstore_read_record.
  destruct (bd_read bd d _ _) as [r hbytes].
  set (h := header_of_bytes _).
  repeat (case_match; try done);
    (match goal with |- context [read_record_key bd d o ?a ?n ?k ?v ?c] =>
       destruct (read_record_key_total d o a n k v c Htbs) as [[[[r1 o1] k1] c1] Hk];
       rewrite Hk; simpl; apply read_record_key_obj, obj_rel_tbs in Hk end);
    (match goal with |- context [negb (is_success ?r)] =>
       destruct (negb (is_success r)); [done|] end);
    (match goal with |- context [read_record_data bd d ?p ?a ?n ?k ?v ?c] =>
       destruct (read_record_data_total d p a n k v c ltac:(lia)) as [[[[r2 o2] k2] c2] Hd];
       rewrite Hd; simpl end);
    repeat (case_match; try done).
Qed.

(** Its result does not depend on what the transaction buffer held. *)
Lemma read_record_rel d o1 o2 area off key v data dsz :
  obj_rel o1 o2 →
  match _mtb_kvstore_read_record bd d o1 area off key v data dsz,
        _mtb_kvstore_read_record bd d o2 area off key v data dsz with
  | Some rr1, Some rr2 => rr_rel rr1 rr2 ∧ obj_rel (rr_obj rr1) o1
  | None, None => True
  | _, _ => False
  end.
Proof.
  intros Hrel. unfold _mtb_kvstore_read_record.
  destruct (bd_read bd d _ _) as [r hbytes].
  generalize (header_of_bytes (exactly (u8 sizeof_record_header) hbytes)). intros h.
  destruct (negb (is_success r)); [done|].
  header_checks h.
  destruct (match data with Some _ => _ | None => _ end); [done|].
  match goal with |- context [read_record_key bd d o1 ?a ?n ?k ?v ?c] =>
    pose proof (read_record_key_rel d o1 o2 a n k v c Hrel) as Hk;
    destruct (read_record_key bd d o1 a n k v c) as [[[[r1 p1] k1] c1]|],
             (read_record_key bd d o2 a n k v c) as [[[[r2 p2] k2] c2]|];
    simpl; try done end.
  destruct Hk as (<- & <- & <- & Hp & Hp1).
  destruct (negb (is_success r1)); [done|].
  match goal with |- context [read_record_data bd d p1 ?a ?n ?k ?v ?c] =>
    pose proof (read_record_data_rel d p1 p2 a n k v c Hp) as Hd;
    destruct (read_record_data bd d p1 a n k v c) as [[[[r3 q1] k3] c3]|],
             (read_record_data bd d p2 a n k v c) as [[[[r4 q2] k4] c4]|];
    simpl; try done end.
  destruct Hd as (<- & <- & <- & Hq & Hq1).
  assert (obj_rel q1 o1) by (by eapply obj_rel_trans).
  destruct (negb (is_success r3)); [done|].
  destruct (negb (crc h =? c3)); (split; [by repeat split|done]).
Qed.

Lemma read_record_obj d o area off key v data dsz rr :
  _mtb_kvstore_read_record bd d o area off key v data dsz = Some rr →
  obj_rel (rr_obj rr) o.
Proof.
  intros H.
  pose proof (read_record_rel d o o area off key v data dsz (obj_rel_refl o)) as Hr.
  rewrite H in Hr. tauto.
Qed.

Lemma read_record_no_data d o area off key v dsz :
  _mtb_kvstore_read_record bd d o area off key v None dsz
  = (λ rr, {| rr_result := rr_result rr; rr_obj := rr_obj rr;
              rr_header := rr_header rr; rr_key := rr_key rr;
              rr_data := None;
              rr_data_size := size_out dsz (rr_result rr) (rr_header rr) |})
    <$> _mtb_kvstore_read_record bd d o area off key v None None.
Proof.
  unfold _mtb_kvstore_read_record, size_out.
  destruct (bd_read bd d _ _) as [r hbytes].
  generalize (header_of_bytes (exactly (u8 sizeof_record_header) hbytes)). intros h.
  destruct (negb (is_success r)) eqn:Hr.
  { rewrite negb_true_iff in Hr. simpl. by rewrite Hr. }
  header_checks h.
  cbn match.
  destruct (read_record_key _ _ _ _ _ _ _ _) as [[[[r1 p1] k1] c1]|]; simpl; [|done].
  destruct (negb (is_success r1)) eqn:Hr1; simpl.
  { rewrite negb_true_iff in Hr1. by rewrite Hr1. }
  rewrite read_record_data_none.
  destruct (read_record_data _ _ _ _ _ _ _ _) as [[[[r2 p2] k2] c2]|] eqn:Hd; simpl; [|done].
  assert (k2 = None) as ->.
  { unfold read_record_data in Hd.
    destruct (_mtb_kvstore_buffered_crc_compute _ _ _ _ _ _) as [[[? ?] ?]|];
      simpl in Hd; congruence. }
  destruct (negb (is_success r2)) eqn:Hr2; simpl.
  { rewrite negb_true_iff in Hr2. by rewrite Hr2. }
  rewrite negb_false_iff in Hr2.
  destruct (negb (crc h =? c2)); simpl; [done|]. by rewrite Hr2.
Qed.

End Scratch.

(** * The lookup in the RAM table *)

Section Find.
Context {D : Type} (bd : mtb_kvstore_bd_t D).

Lemma probe_rel d o1 o2 key e : obj_rel o1 o2 → probe bd d o1 key e = probe bd d o2 key e.
Proof.
  intros Hrel. unfold probe. rewrite (obj_rel_active _ _ Hrel).
  pose proof (read_record_rel bd d o1 o2 (active_area_addr o2) (offset e) (Some key)
                true None None Hrel) as H.
  destruct (_mtb_kvstore_read_record bd d o1 _ _ _ _ _ _) as [rr1|],
           (_mtb_kvstore_read_record bd d o2 _ _ _ _ _ _) as [rr2|]; simpl; try done.
  destruct H as [(-> & _ & -> & _) _]. done.
Qed.

(** One visit of the loop to an entry whose hash equals the key's, in terms
    of [probe]. *)
Lemma read_record_probe d o key e dsz :
  _mtb_kvstore_read_record bd d o (active_area_addr o) (offset e) (Some key) true None dsz
  = None ∧ probe bd d o key e = None
  ∨ ∃ rr, _mtb_kvstore_read_record bd d o (active_area_addr o) (offset e) (Some key)
            true None dsz = Some rr
          ∧ probe bd d o key e = Some (rr_result rr, rr_header rr)
          ∧ rr_data_size rr = size_out dsz (rr_result rr) (rr_header rr)
          ∧ obj_rel (rr_obj rr) o.
Proof.
  rewrite read_record_no_data. unfold probe.
  destruct (_mtb_kvstore_read_record bd d o _ _ _ _ None None) as [rr|] eqn:Hrr; simpl.
  - right. eexists. split; [done|]. simpl. repeat split.
    by eapply read_record_obj.
  - by left.
Qed.

Lemma find_record_loop_total d o key h es idx r0 dsz :
  0 < transaction_buffer_size o →
  is_Some (find_record_loop bd d o key h es idx r0 dsz).
Proof.
  revert o idx r0 dsz. induction es as [|e es IH]; intros o idx r0 dsz Htbs; simpl; [done|].
  destruct (h <? hash e); [by apply IH|].
  destruct (h >? hash e); [done|].
  destruct (read_record_total bd d o (active_area_addr o) (offset e) (Some key) true None
              dsz Htbs) as [rr Hrr].
  rewrite Hrr. simpl. destruct (negb _); [done|].
  apply IH. apply read_record_obj, obj_rel_tbs in Hrr. lia.
Qed.

(** Where the loop stops and what it has passed on the way. *)
Lemma find_record_loop_spec d o key h es idx r0 dsz r o' idx' dsz' :
  find_record_loop bd d o key h es idx r0 dsz = Some (r, o', idx', dsz') →
  obj_rel o' o
  ∧ ∃ n : nat,
      idx' = idx + Z.of_nat n ∧ (n ≤ length es)%nat
      ∧ (∀ (j : nat) e, (j < n)%nat → es !! j = Some e →
           h < hash e
           ∨ (hash e = h
              ∧ ∃ hd, probe bd d o key e = Some (MTB_KVSTORE_ITEM_NOT_FOUND_ERROR, hd)))
      ∧ ((n = length es ∧ (r = r0 ∨ r = MTB_KVSTORE_ITEM_NOT_FOUND_ERROR) ∧ dsz' = dsz)
         ∨ (∃ e, es !! n = Some e ∧ hash e < h
                 ∧ r = MTB_KVSTORE_ITEM_NOT_FOUND_ERROR ∧ dsz' = dsz)
         ∨ (∃ e hd, es !! n = Some e ∧ hash e = h
                    ∧ probe bd d o key e = Some (r, hd)
                    ∧ r ≠ MTB_KVSTORE_ITEM_NOT_FOUND_ERROR
                    ∧ dsz' = size_out dsz r hd)).
Proof.
  revert o idx r0 dsz. induction es as [|e es IH]; intros o idx r0 dsz Hf; simpl in Hf.
  - injection Hf as <- <- <- <-. split; [done|]. exists 0%nat.
    split; [lia|]. split; [done|]. split; [intros; lia|]. left. eauto.
  - destruct (h <? hash e) eqn:Hlt.
    { apply IH in Hf as (Hrel & n & -> & Hn & Hpass & Hstop).
      split; [done|]. exists (S n). split; [lia|]. split; [simpl; lia|]. split.
      - intros [|j] e' Hj He'; simpl in He'.
        + injection He' as <-. left. lia.
        + apply (Hpass j); [lia|done].
      - destruct Hstop as [(-> & ?)|[(e' & ? & ?)|(e' & hd & ? & ?)]].
        + by left.
        + right. left. by exists e'.
        + right. right. by exists e', hd. }
    destruct (h >? hash e) eqn:Hgt.
    { injection Hf as <- <- <- <-. split; [done|]. exists 0%nat.
      split; [lia|]. split; [simpl; lia|]. split; [intros; lia|].
      right. left. exists e. repeat split; [lia]. }
    assert (hash e = h) as Heq by lia.
    destruct (read_record_probe d o key e dsz) as [[Hn _]|(rr & Hrr & Hp & Hsz & Hobj)].
    { rewrite Hn in Hf. done. }
    rewrite Hrr in Hf. simpl in Hf.
    destruct (bool_decide (rr_result rr = MTB_KVSTORE_ITEM_NOT_FOUND_ERROR)) eqn:Hnf;
      simpl in Hf.
    + apply bool_decide_eq_true in Hnf.
      apply IH in Hf as (Hrel & n & -> & Hn & Hpass & Hstop).
      assert (rr_data_size rr = dsz) as Hd.
      { rewrite Hsz, Hnf. done. }
      split; [by eapply obj_rel_trans|]. exists (S n).
      split; [lia|]. split; [simpl; lia|]. split.
      * intros [|j] e' Hj He'; simpl in He'.
        -- injection He' as <-. right. split; [done|]. rewrite Hp, Hnf. eauto.
        -- destruct (Hpass j e' ltac:(lia) He') as [?|[? [hd Hpr]]]; [by left|].
           right. split; [done|]. exists hd.
           by rewrite <- (probe_rel d _ _ key e' Hobj).
      * rewrite Hd, Hnf in Hstop.
        destruct Hstop as [(-> & Hr & ->)|[(e' & ? & ? & ? & ->)|(e' & hd & ? & ? & Hpr & ? & ->)]].
        -- left. split; [done|]. split; [|done]. right. by destruct Hr.
        -- right. left. exists e'. done.
        -- right. right. exists e', hd. repeat split; try done.
           by rewrite <- (probe_rel d _ _ key e' Hobj).
    + apply bool_decide_eq_false in Hnf. injection Hf as <- <- <- <-.
      split; [done|]. exists 0%nat. split; [lia|]. split; [simpl; lia|].
      split; [intros; lia|]. right. right. exists e, (rr_header rr). done.
Qed.

End Find.

(** * Claims about the lookup *)

Section FindWrapper.
Context {D : Type} (bd : mtb_kvstore_bd_t D).

Lemma find_record_hash d o key dsz r o' idx h dsz' :
  _mtb_kvstore_find_record_in_ram_table bd d o key dsz = Some (r, o', idx, h, dsz') →
  h = _mtb_kvstore_crc16 key _MTB_KVSTORE_CRC_INIT_VAL
  ∧ find_record_loop bd d o key h (ram_table o) 0 MTB_KVSTORE_ITEM_NOT_FOUND_ERROR dsz
    = Some (r, o', idx, dsz').
Proof.
  unfold _mtb_kvstore_find_record_in_ram_table. intros H.
  destruct (find_record_loop _ _ _ _ _ _ _ _ _) as [[[[r1 o1] i1] d1]|] eqn:Hl;
    simpl in H; [|done].
  injection H as <- <- <- <- <-. by split.
Qed.

Lemma find_record_obj d o key dsz r o' idx h dsz' :
  _mtb_kvstore_find_record_in_ram_table bd d o key dsz = Some (r, o', idx, h, dsz') →
  obj_rel o' o.
Proof.
  intros H. apply find_record_hash in H as [_ H].
  by apply find_record_loop_spec in H as [? _].
Qed.

Lemma find_record_total d o key dsz :
  0 < transaction_buffer_size o →
  is_Some (_mtb_kvstore_find_record_in_ram_table bd d o key dsz).
Proof.
  intros Htbs. unfold _mtb_kvstore_find_record_in_ram_table.
  destruct (find_record_loop_total bd d o key
              (_mtb_kvstore_crc16 key _MTB_KVSTORE_CRC_INIT_VAL) (ram_table o) 0
              MTB_KVSTORE_ITEM_NOT_FOUND_ERROR dsz Htbs) as [[[[r1 o1] i1] d1] ->].
  done.
Qed.

End FindWrapper.

(** C5, as amended.  The lookup computes the CRC-16 of the key and walks the
    RAM table from position 0: it passes every entry whose hash is greater
    than the key's, and every entry of equal hash whose record does not
    carry the key; it stops with item-not-found at the first entry whose
    hash is smaller, or at the end of the table; it stops with the result
    of the read at an entry of equal hash whose record carries the key.  In
    a table sorted by falling hash the position returned for an absent key
    is therefore the first slot whose hash is smaller than the key's (or
    the number of entries), the insertion point of a hash-descending
    table.  The lookup returns whenever the transaction buffer is not
    empty. *)
Theorem ram_table_lookup_descending {D : Type} (bd : mtb_kvstore_bd_t D)
    (d : D) (obj : mtb_kvstore_t) (key : list Z) (dsz : option Z) :
  0 < transaction_buffer_size obj →
  let h := _mtb_kvstore_crc16 key _MTB_KVSTORE_CRC_INIT_VAL in
  ∃ r obj' idx dsz',
    _mtb_kvstore_find_record_in_ram_table bd d obj key dsz = Some (r, obj', idx, h, dsz')
    ∧ obj_rel obj' obj
    ∧ 0 ≤ idx ≤ num_entries obj
    ∧ (∀ i e, 0 ≤ i < idx → ram_table obj !! Z.to_nat i = Some e →
         h < hash e
         ∨ (hash e = h
            ∧ ∃ hd, probe bd d obj key e = Some (MTB_KVSTORE_ITEM_NOT_FOUND_ERROR, hd)))
    ∧ (r = MTB_KVSTORE_ITEM_NOT_FOUND_ERROR →
         idx = num_entries obj
         ∨ ∃ e, ram_table obj !! Z.to_nat idx = Some e ∧ hash e < h)
    ∧ (r ≠ MTB_KVSTORE_ITEM_NOT_FOUND_ERROR →
         ∃ e hd, ram_table obj !! Z.to_nat idx = Some e ∧ hash e = h
                 ∧ probe bd d obj key e = Some (r, hd))
    ∧ (sorted_desc (ram_table obj) → r = MTB_KVSTORE_ITEM_NOT_FOUND_ERROR →
         ∀ (i : nat) e, ram_table obj !! i = Some e → (Z.of_nat i < idx ↔ h ≤ hash e)).
Proof.
  intros Htbs h.
  destruct (find_record_total bd d obj key dsz Htbs) as [[[[[r o'] idx] h'] dsz'] Hf].
  exists r, o', idx, dsz'.
  pose proof (find_record_hash bd _ _ _ _ _ _ _ _ _ Hf) as [-> Hloop].
  split; [done|]. fold h in Hloop.
  apply find_record_loop_spec in Hloop as (Hrel & n & -> & Hn & Hpass & Hstop).
  split; [done|]. unfold num_entries.
  split; [lia|]. split.
  { intros i e Hi He. apply (Hpass (Z.to_nat i)); [lia|done]. }
  replace (Z.to_nat (0 + Z.of_nat n)) with n by lia.
  split; [|split].
  - intros ->. destruct Hstop as [(-> & _)|[(e & He & Hlt & _)|(e & hd & _ & _ & _ & Hne & _)]].
    + left. lia.
    + right. eauto.
    + done.
  - intros Hne. destruct Hstop as [(_ & [Hr|Hr] & _)|[(e & _ & _ & Hr & _)|(e & hd & He & Hh & Hp & _)]];
      try done. eauto.
  - intros Hsorted ->. intros i e He. split.
    + intros Hi. destruct (Hpass i e ltac:(lia) He) as [?|[? _]]; lia.
    + intros Hle. destruct (decide (i < n)%nat); [lia|]. exfalso.
      destruct Hstop as [(-> & _)|[(e' & He' & Hlt & _)|(e' & hd & _ & _ & _ & Hne & _)]].
      * apply lookup_lt_Some in He. lia.
      * pose proof (Hsorted n i e' e ltac:(lia) He' He). lia.
      * done.
Qed.

(** The lookup of "k" in the store of three keys. *)
Lemma ram_table_lookup_descending_witness :
  let h := _mtb_kvstore_crc16 [107] _MTB_KVSTORE_CRC_INIT_VAL in
  ∃ r obj' idx dsz',
    _mtb_kvstore_find_record_in_ram_table demo_bd demo_store.1 demo_store.2 [107] None
    = Some (r, obj', idx, h, dsz')
    ∧ obj_rel obj' demo_store.2
    ∧ 0 ≤ idx ≤ num_entries demo_store.2
    ∧ (∀ i e, 0 ≤ i < idx → ram_table demo_store.2 !! Z.to_nat i = Some e →
         h < hash e
         ∨ (hash e = h
            ∧ ∃ hd, probe demo_bd demo_store.1 demo_store.2 [107] e
                    = Some (MTB_KVSTORE_ITEM_NOT_FOUND_ERROR, hd)))
    ∧ (r = MTB_KVSTORE_ITEM_NOT_FOUND_ERROR →
         idx = num_entries demo_store.2
         ∨ ∃ e, ram_table demo_store.2 !! Z.to_nat idx = Some e ∧ hash e < h)
    ∧ (r ≠ MTB_KVSTORE_ITEM_NOT_FOUND_ERROR →
         ∃ e hd, ram_table demo_store.2 !! Z.to_nat idx = Some e ∧ hash e = h
                 ∧ probe demo_bd demo_store.1 demo_store.2 [107] e = Some (r, hd))
    ∧ (sorted_desc (ram_table demo_store.2) → r = MTB_KVSTORE_ITEM_NOT_FOUND_ERROR →
         ∀ (i : nat) e, ram_table demo_store.2 !! i = Some e →
           (Z.of_nat i < idx ↔ h ≤ hash e)).
Proof.
  apply (ram_table_lookup_descending demo_bd demo_store.1 demo_store.2 [107] None).
  vm_compute. reflexivity.
Defined.

(** C5, as stated, fails on a table the code itself built.  The store of
    three keys has the hashes 23803, 19674 and 15421 in this order.  For the
    absent key "o", of hash 31929, the first slot whose hash is at least
    31929 does not exist, so that the position of the claim is the number of
    entries, 3; the lookup stops at position 0, whose hash is smaller. *)
Lemma lookup_ascending_counterexample :
  hash <$> ram_table demo_store.2 = [23803; 19674; 15421]
  ∧ (λ '(r, _, idx, h, _), (r, idx, h))
    <$> _mtb_kvstore_find_record_in_ram_table demo_bd demo_store.1 demo_store.2 [111] None
    = Some (MTB_KVSTORE_ITEM_NOT_FOUND_ERROR, 0, 31929)
  ∧ spec_first_ge (ram_table demo_store.2) 31929 = 3.
Proof. vm_compute. done. Qed.

(** * The public functions are unfolded by hand *)

#[global] Arguments mtb_kvstore_read : simpl never.
#[global] Arguments mtb_kvstore_write : simpl never.
#[global] Arguments mtb_kvstore_delete : simpl never.
#[global] Arguments _mtb_kvstore_is_valid_key : simpl never.

(** * Key validation *)

#[global] Arguments _mtb_kvstore_increment_max_keys : simpl never.

Lemma valid_key_strlen key :
  0 < strlen key < MTB_KVSTORE_MAX_KEY_SIZE →
  _mtb_kvstore_is_valid_key (Some key) = Some true ∧ u32 (strlen key) = strlen key.
Proof.
  unfold _mtb_kvstore_is_valid_key, MTB_KVSTORE_MAX_KEY_SIZE. intros H.
  rewrite u32_small by lia. split; [|done]. f_equal.
  apply andb_true_iff. lia.
Qed.


(** * Where the code falls short of the claims *)

(** C4.  The test of [_mtb_kvstore_setup_areas] lets version 0 win only
    when it is area 1 that carries it: with 65535 in area 1 and 0 in area
    2, area 1 is chosen, against the order of the specification.  Versions
    start at 1 in area 1 and alternate, so that version 0 is always met in
    area 2.  On a medium that has come to version 65535, a garbage
    collection takes the store to version 0 in area 2; "k" written there
    reads back as 2 2; after a restart both area records are valid, area 1
    is chosen again, and "k" reads back as the stale 1 1. *)
Theorem version_wraparound_picks_stale_area :
  area1_is_active 65535 0 = true
  ∧ spec_version_newer 65535 0 = false
  ∧ (∀ v, 0 < v < 2 ^ 16 → area1_is_active 0 v = true ∧ area1_is_active v 0 = true)
  ∧ (active_area_addr wrap_store.2, active_area_version wrap_store.2) = (128, 0)
  ∧ demo_read [107] wrap_store = Some (CY_RSLT_SUCCESS, Some [2; 2], Some 2)
  ∧ (λ '(r, _, v), (r, v))
    <$> _mtb_kvstore_check_area_valid demo_bd wrap_store.1 wrap_store.2 0
    = Some (CY_RSLT_SUCCESS, 65535)
  ∧ (λ '(r, _, v), (r, v))
    <$> _mtb_kvstore_check_area_valid demo_bd wrap_store.1 wrap_store.2 128
    = Some (CY_RSLT_SUCCESS, 0)
  ∧ (active_area_addr wrap_restart.2, active_area_version wrap_restart.2) = (0, 65535)
  ∧ demo_read [107] wrap_restart = Some (CY_RSLT_SUCCESS, Some [1; 1], Some 2).
Proof.
  split; [reflexivity|]. split; [reflexivity|]. split.
  { intros v Hv. unfold area1_is_active. split.
    - apply orb_true_iff. right. reflexivity.
    - apply orb_true_iff. left. lia. }
  vm_compute. repeat split; reflexivity.
Qed.

(** C3.  The garbage collector rewrites the offsets of the RAM table while
    it copies, and applies the pending update to the table and to
    [consumed_size], before the area record is programmed.  "k" holds 3 3 at
    offset 88 of area 1; its fourth write runs the collector, which
    programs the new record into area 2 and then fails to program the area
    record.  The write returns the device's error and the areas are not
    swapped, but the entry of "k" now says offset 40, [consumed_size] and
    the version have moved, and "k" reads back, successfully, as 1 1: the
    first record, which offset 40 of the old active area holds. *)
Theorem failed_collection_corrupts_ram_table :
  (ram_table gc_fault_before.2, consumed_size gc_fault_before.2,
   active_area_addr gc_fault_before.2, active_area_version gc_fault_before.2)
  = ([{| hash := 15421; offset := 88 |}], 64, 0, 1)
  ∧ demo_read [107] gc_fault_before = Some (CY_RSLT_SUCCESS, Some [3; 3], Some 2)
  ∧ (λ '(r, _, _), r) <$> gc_fault_write = Some sim_error
  ∧ (ram_table (after gc_fault_write).2, consumed_size (after gc_fault_write).2,
     active_area_addr (after gc_fault_write).2,
     active_area_version (after gc_fault_write).2)
    = ([{| hash := 15421; offset := 40 |}], 64, 0, 2)
  ∧ demo_read [107] (after gc_fault_write) = Some (CY_RSLT_SUCCESS, Some [1; 1], Some 2).
Proof. vm_compute. repeat split; reflexivity. Qed.

(** C7.  [mtb_kvstore_write] rejects an empty key and a key of 64
    characters with bad-param and changes nothing; [mtb_kvstore_delete]
    never calls [_mtb_kvstore_is_valid_key]: it looks the same keys up and
    returns success.  A null key reaches [strlen] in both. *)
Theorem delete_skips_key_validation :
  let d := demo_store.1 in
  let obj := demo_store.2 in
  let long := replicate 64 65 in
  _mtb_kvstore_is_valid_key (Some []) = Some false
  ∧ _mtb_kvstore_is_valid_key (Some long) = Some false
  ∧ mtb_kvstore_write demo_bd alloc_ok d obj (Some []) (Some [1]) 1
    = Some (MTB_KVSTORE_BAD_PARAM_ERROR, d, obj)
  ∧ mtb_kvstore_write demo_bd alloc_ok d obj (Some long) (Some [1]) 1
    = Some (MTB_KVSTORE_BAD_PARAM_ERROR, d, obj)
  ∧ mtb_kvstore_delete demo_bd alloc_ok d obj (Some []) = Some (CY_RSLT_SUCCESS, d, obj)
  ∧ mtb_kvstore_delete demo_bd alloc_ok d obj (Some long) = Some (CY_RSLT_SUCCESS, d, obj)
  ∧ mtb_kvstore_write demo_bd alloc_ok d obj None (Some [1]) 1 = None
  ∧ mtb_kvstore_delete demo_bd alloc_ok d obj None = None.
Proof.
  intros d obj long.
  split; [reflexivity|]. split; [reflexivity|].
  split; [reflexivity|]. split; [reflexivity|].
  split; [vm_compute; reflexivity|]. split; [vm_compute; reflexivity|].
  split; reflexivity.
Qed.

(** * Bytes on the medium *)

Lemma bytes_at_length f a n : length (bytes_at f a n) = Z.to_nat n.
Proof. unfold bytes_at. by rewrite length_fmap, length_seqZ. Qed.

Lemma bytes_at_lookup f a n (i : nat) :
  (i < Z.to_nat n)%nat → bytes_at f a n !! i = Some (f (a + Z.of_nat i)).
Proof.
  intros Hi. unfold bytes_at. rewrite list_lookup_fmap, lookup_seqZ_lt by lia. done.
Qed.

Lemma bytes_at_ext f g a n :
  (∀ x, a ≤ x < a + n → f x = g x) → bytes_at f a n = bytes_at g a n.
Proof.
  intros H. apply list_eq. intros i.
  destruct (decide (i < Z.to_nat n)%nat).
  - rewrite !bytes_at_lookup by done. f_equal. apply H. lia.
  - rewrite !lookup_ge_None_2; [done|rewrite bytes_at_length; lia..].
Qed.

Lemma bytes_at_app f a n m :
  0 ≤ n → 0 ≤ m → bytes_at f a (n + m) = bytes_at f a n ++ bytes_at f (a + n) m.
Proof.
  intros Hn Hm. unfold bytes_at. rewrite seqZ_app by done. by rewrite fmap_app.
Qed.

Lemma bytes_at_take f a n m :
  0 ≤ m ≤ n → take (Z.to_nat m) (bytes_at f a n) = bytes_at f a m.
Proof.
  intros H. replace n with (m + (n - m)) by lia.
  rewrite bytes_at_app by lia. rewrite take_app_length'; [done|].
  by rewrite bytes_at_length.
Qed.

Lemma bytes_at_drop f a n m :
  0 ≤ m ≤ n → drop (Z.to_nat m) (bytes_at f a n) = bytes_at f (a + m) (n - m).
Proof.
  intros H. replace n with (m + (n - m)) at 1 by lia.
  rewrite bytes_at_app by lia. rewrite drop_app_length'; [done|].
  by rewrite bytes_at_length.
Qed.

Lemma bytes_at_app_inv f a n m l1 l2 :
  0 ≤ n → 0 ≤ m → strlen l1 = n →
  bytes_at f a (n + m) = l1 ++ l2 →
  bytes_at f a n = l1 ∧ bytes_at f (a + n) m = l2.
Proof.
  intros Hn Hm Hl H. rewrite bytes_at_app in H by done.
  apply app_inj_1 in H; [done|]. rewrite bytes_at_length. unfold strlen in Hl. lia.
Qed.

Lemma bytes_at_eq_inv f g a b n :
  0 ≤ n → bytes_at f a n = bytes_at g b n → ∀ i, 0 ≤ i < n → f (a + i) = g (b + i).
Proof.
  intros Hn Heq i Hi.
  assert (bytes_at f a n !! Z.to_nat i = bytes_at g b n !! Z.to_nat i) as H
    by (by rewrite Heq).
  rewrite !bytes_at_lookup in H by lia. injection H as H.
  by rewrite Z2Nat.id in H by lia.
Qed.

Lemma bytes_at_shift f g a b n :
  (∀ i, 0 ≤ i < n → f (a + i) = g (b + i)) → bytes_at f a n = bytes_at g b n.
Proof.
  intros H. apply list_eq. intros i.
  destruct (decide (i < Z.to_nat n)%nat).
  - rewrite !bytes_at_lookup by done. f_equal. apply H. lia.
  - rewrite !lookup_ge_None_2; [done|rewrite bytes_at_length; lia..].
Qed.

Lemma exactly_bytes_at f a n : exactly n (bytes_at f a n) = bytes_at f a n.
Proof. apply exactly_id. apply bytes_at_length. Qed.

Lemma exactly_take n l : (Z.to_nat n ≤ length l)%nat → exactly n l = take (Z.to_nat n) l.
Proof. intros H. unfold exactly. by rewrite take_app_le. Qed.

Section Reliable.
Context {D : Type} (bd : mtb_kvstore_bd_t D) (peek : D → Z → Z).
Hypothesis Hrf : reliable_flash bd peek.

(** A program that succeeds leaves the buffer on the medium. *)
Lemma program_bytes d a n buf d' :
  bd_program bd d a n buf = (CY_RSLT_SUCCESS, d') → 0 ≤ n → (Z.to_nat n ≤ length buf)%nat →
  bytes_at (peek d') a n = take (Z.to_nat n) buf
  ∧ ∀ x, ¬ (a ≤ x < a + n) → peek d' x = peek d x.
Proof.
  intros Hp Hn Hlen. pose proof (rf_program _ _ Hrf _ _ _ _ _ Hp) as Hspec. split.
  - apply list_eq. intros i. destruct (decide (i < Z.to_nat n)%nat).
    + rewrite bytes_at_lookup by done. rewrite lookup_take_lt by done.
      rewrite Hspec. rewrite decide_True by lia.
      replace (Z.to_nat (a + Z.of_nat i - a)) with i by lia.
      destruct (lookup_lt_is_Some_2 buf i ltac:(lia)) as [x Hx].
      rewrite Hx. f_equal. by apply nth_lookup_Some.
    + rewrite !lookup_ge_None_2; [done| |rewrite bytes_at_length; lia].
      rewrite length_take. lia.
  - intros x Hx. rewrite Hspec. by rewrite decide_False.
Qed.

End Reliable.

(** * What [_mtb_kvstore_write_record] leaves on the medium *)

Lemma memcpy_at_length pos n src buf :
  0 ≤ pos → 0 ≤ n → (Z.to_nat (pos + n) ≤ length buf)%nat →
  length (memcpy_at pos n src buf) = length buf.
Proof.
  intros. unfold memcpy_at.
  rewrite !length_app, length_take, exactly_length, length_drop. lia.
Qed.

Lemma memcpy_at_take pos n src buf :
  0 ≤ pos → 0 ≤ n → (Z.to_nat (pos + n) ≤ length buf)%nat →
  (Z.to_nat n ≤ length src)%nat →
  take (Z.to_nat (pos + n)) (memcpy_at pos n src buf)
  = take (Z.to_nat pos) buf ++ take (Z.to_nat n) src.
Proof.
  intros. unfold memcpy_at. rewrite exactly_take by done.
  rewrite app_assoc. rewrite take_app_length'; [done|].
  rewrite length_app, !length_take. lia.
Qed.

Section BufferedWrite.
Context {D : Type} (bd : mtb_kvstore_bd_t D) (peek : D → Z → Z).
Hypothesis Hrf : reliable_flash bd peek.

Lemma buffered_write_loop_ok fuel :
  ∀ d obj cur n wa left base f0 s d' obj' wa' left',
  let tbs := transaction_buffer_size obj in
  0 < tbs < 2 ^ 32 →
  bw_state tbs base f0 (peek d) (transaction_buffer obj) s wa left →
  0 ≤ n → (Z.to_nat n ≤ length cur)%nat → (Z.to_nat n ≤ fuel)%nat →
  0 ≤ base → base + strlen s + n < 2 ^ 32 →
  buffered_write_loop bd fuel d obj cur n wa left
  = Some (CY_RSLT_SUCCESS, d', obj', wa', left') →
  obj_rel obj' obj
  ∧ bw_state tbs base f0 (peek d') (transaction_buffer obj') (s ++ take (Z.to_nat n) cur)
             wa' left'.
Proof.
  induction fuel as [|fuel IH]; intros d obj cur n wa left base f0 s d' obj' wa' left' tbs
    Htbs Hst Hn Hcur Hfuel Hbase Hend Hrun; simpl in Hrun;
    destruct (0 <? n) eqn:Hpos.
  - lia.
  - injection Hrun as <- <- <- <-. assert (n = 0) as -> by lia.
    split; [done|]. simpl. by rewrite app_nil_r.
  - destruct Hst as [Hleft Hb Haddr Hwhole Hpend Hflush Hframe Hlen].
    fold tbs in Hrun.
    set (t := if left >=? n then n else left) in *.
    assert (1 ≤ t ≤ n ∧ t ≤ left) as (Ht1 & Ht2)
      by (unfold t; destruct (left >=? n) eqn:?; lia).
    unfold strlen in *.
    set (tb1 := memcpy_at (tbs - left) t cur (transaction_buffer obj)) in *.
    assert (length tb1 = length (transaction_buffer obj)) as Hlen1
      by (apply memcpy_at_length; lia).
    assert (take (Z.to_nat (tbs - left + t)) tb1
            = take (Z.to_nat (tbs - left)) (transaction_buffer obj) ++ take (Z.to_nat t) cur)
      as Htake1 by (apply memcpy_at_take; lia).
    rewrite (u32_small (left - t)) in Hrun by lia.
    rewrite (u32_small (n - t)) in Hrun by lia.
    assert (take (Z.to_nat n) cur
            = take (Z.to_nat t) cur ++ take (Z.to_nat (n - t)) (drop (Z.to_nat t) cur))
      as Hsplit.
    { rewrite <- (take_drop (Z.to_nat t) (take (Z.to_nat n) cur)).
      rewrite take_take, skipn_firstn_comm. f_equal; f_equal; lia. }
    destruct (left - t =? 0) eqn:Hfull.
    + (* the buffer is full: it is programmed *)
      destruct (bd_program bd d wa tbs tb1) as [r d1] eqn:Hp.
      destruct (is_success r) eqn:Hr; simpl in Hrun; [|by injection Hrun as ->].
      apply bool_decide_eq_true in Hr as ->.
      rewrite (u32_small (wa + tbs)) in Hrun by lia.
      destruct (program_bytes bd peek Hrf _ _ _ _ _ Hp ltac:(lia) ltac:(lia))
        as [Hnew Hold].
      assert (bw_state tbs base f0 (peek d1) tb1 (s ++ take (Z.to_nat t) cur)
                       (wa + tbs) tbs) as Hst1.
      { constructor; unfold strlen.
        - lia.
        - lia.
        - rewrite length_app, length_take. lia.
        - replace (wa + tbs - base) with (wa - base + 1 * tbs) by lia.
          by rewrite Z.mod_add by lia.
        - replace (Z.to_nat (tbs - tbs)) with 0%nat by lia. simpl.
          rewrite drop_ge; [done|]. rewrite length_app, length_take. lia.
        - replace (wa + tbs - base) with ((wa - base) + tbs) by lia.
          rewrite bytes_at_app by lia.
          rewrite (bytes_at_ext _ (peek d) base (wa - base)) by (intros; apply Hold; lia).
          rewrite Hflush. replace (base + (wa - base)) with wa by lia.
          rewrite Hnew.
          replace (Z.to_nat tbs) with (Z.to_nat (tbs - left + t)) by lia.
          rewrite Htake1, Hpend.
          rewrite (take_ge (s ++ take (Z.to_nat t) cur))
            by (rewrite length_app, length_take; lia).
          by rewrite app_assoc, take_drop.
        - intros x Hx. rewrite Hold by lia. apply Hframe. lia.
        - lia. }
      apply (IH _ _ _ _ _ _ base f0 (s ++ take (Z.to_nat t) cur)) in Hrun
        as [Hrel Hst']; simpl; try done; try lia.
      * split; [done|]. simpl in Hst'. rewrite Hsplit, app_assoc. exact Hst'.
      * rewrite length_drop. lia.
      * unfold strlen. rewrite length_app, length_take. lia.
    + assert (bw_state tbs base f0 (peek d) tb1 (s ++ take (Z.to_nat t) cur)
                       wa (left - t)) as Hst1.
      { constructor; unfold strlen.
        - lia.
        - lia.
        - rewrite length_app, length_take. lia.
        - done.
        - replace (tbs - (left - t)) with (tbs - left + t) by lia.
          rewrite Htake1, Hpend. rewrite drop_app_le by lia. done.
        - rewrite Hflush. rewrite take_app_le by lia. done.
        - done.
        - lia. }
      apply (IH _ _ _ _ _ _ base f0 (s ++ take (Z.to_nat t) cur)) in Hrun
        as [Hrel Hst']; simpl; try done; try lia.
      * split; [done|]. simpl in Hst'. rewrite Hsplit, app_assoc. exact Hst'.
      * rewrite length_drop. lia.
      * unfold strlen. rewrite length_app, length_take. lia.
  - injection Hrun as <- <- <- <-. assert (n = 0) as -> by lia.
    split; [done|]. simpl. by rewrite app_nil_r.
Qed.

Lemma buffered_write_noflush d obj data n wa left base f0 s d' obj' wa' left' :
  let tbs := transaction_buffer_size obj in
  0 < tbs < 2 ^ 32 →
  bw_state tbs base f0 (peek d) (transaction_buffer obj) s wa left →
  0 ≤ n → (Z.to_nat n ≤ length data)%nat →
  0 ≤ base → base + strlen s + n < 2 ^ 32 →
  _mtb_kvstore_buffered_write bd d obj data n wa left false
  = Some (CY_RSLT_SUCCESS, d', obj', wa', left') →
  obj_rel obj' obj
  ∧ bw_state tbs base f0 (peek d') (transaction_buffer obj') (s ++ take (Z.to_nat n) data)
             wa' left'.
Proof.
  intros tbs Htbs Hst Hn Hdata Hbase Hend Hrun. unfold _mtb_kvstore_buffered_write in Hrun.
  destruct (buffered_write_loop bd (S (Z.to_nat n)) d obj data n wa left)
    as [[[[[r d1] o1] wa1] left1]|] eqn:Hloop; simpl in Hrun; [|done].
  destruct (is_success r) eqn:Hr; simpl in Hrun.
  - apply bool_decide_eq_true in Hr as ->. rewrite andb_false_r in Hrun.
    injection Hrun as <- <- <- <-.
    eapply buffered_write_loop_ok in Hloop; try done. lia.
  - injection Hrun as -> _ _ _ _. done.
Qed.

(** The last call for a record flushes what waits in the buffer, padded to
    the program size. *)
Lemma buffered_write_flush d obj data n wa left base f0 s p d' obj' wa' left' :
  let tbs := transaction_buffer_size obj in
  let s' := s ++ take (Z.to_nat n) data in
  0 < tbs < 2 ^ 32 →
  (∀ a, bd_program_size bd a = p) → 0 < p → tbs mod p = 0 →
  bw_state tbs base f0 (peek d) (transaction_buffer obj) s wa left →
  0 ≤ n → (Z.to_nat n ≤ length data)%nat →
  0 ≤ base → 0 < strlen s' → base + strlen s' + p < 2 ^ 32 →
  _mtb_kvstore_buffered_write bd d obj data n wa left true
  = Some (CY_RSLT_SUCCESS, d', obj', wa', left') →
  obj_rel obj' obj
  ∧ strlen (transaction_buffer obj') = tbs
  ∧ bytes_at (peek d') base (strlen s') = s'
  ∧ ∀ x, ¬ (base ≤ x < base + _mtb_kvstore_align_up (strlen s') p) → peek d' x = f0 x.
Proof.
  intros tbs s' Htbs Hp Hp0 Hdiv Hst Hn Hdata Hbase Hpos Hend Hrun.
  unfold _mtb_kvstore_buffered_write in Hrun.
  destruct (buffered_write_loop bd (S (Z.to_nat n)) d obj data n wa left)
    as [[[[[r d1] o1] wa1] left1]|] eqn:Hloop; simpl in Hrun; [|done].
  destruct (is_success r) eqn:Hr; simpl in Hrun; [|by injection Hrun as -> _ _ _ _].
  apply bool_decide_eq_true in Hr as ->.
  assert (strlen s' = strlen s + n) as Hlen'.
  { unfold s', strlen. rewrite length_app, length_take. lia. }
  eapply buffered_write_loop_ok in Hloop as [Hrel Hst1]; try done; try lia.
  fold tbs s' in Hst1.
  pose proof (obj_rel_tbs _ _ Hrel) as Htbs1. fold tbs in Htbs1. rewrite Htbs1 in Hrun.
  destruct Hst1 as [Hleft Hb Haddr Hwhole Hpend Hflush Hframe Hlen].
  rewrite andb_true_r in Hrun.
  destruct (left1 =? tbs) eqn:Hfull; simpl in Hrun.
  - injection Hrun as <- <- <- <-. assert (left1 = tbs) as -> by lia.
    split; [done|]. split; [done|].
    assert (wa1 - base = strlen s') as Hall by lia.
    rewrite Hall in *. split.
    + rewrite Hflush. apply take_ge. unfold strlen. lia.
    + intros x Hx. apply Hframe.
      destruct (align_up_bounds (strlen s') p) as [Hbd _]; lia.
  - rewrite Hp in Hrun.
    assert (0 < tbs - left1 ≤ tbs) as Hused by lia.
    rewrite (u32_small (tbs - left1)) in Hrun by lia.
    set (size := _mtb_kvstore_align_up (tbs - left1) p) in *.
    destruct (align_up_bounds (tbs - left1) p) as [Hsz Hszm]; try lia. fold size in Hsz, Hszm.
    assert (size ≤ tbs) as Hszle.
    { apply align_up_least; try lia. }
    destruct (bd_program bd d1 wa1 size (transaction_buffer o1)) as [r2 d2] eqn:Hprog.
    destruct (is_success r2) eqn:Hr2; simpl in Hrun; [|by injection Hrun as -> _ _ _ _].
    apply bool_decide_eq_true in Hr2 as ->. injection Hrun as <- <- <- <-.
    destruct (program_bytes bd peek Hrf _ _ _ _ _ Hprog ltac:(lia) ltac:(unfold strlen in *; lia))
      as [Hnew Hold].
    split; [done|]. split; [done|].
    assert (base + _mtb_kvstore_align_up (strlen s') p = wa1 + size) as Htotal.
    { replace (strlen s') with ((wa1 - base) + (tbs - left1)) by lia.
      rewrite <- align_up_add_multiple; try lia.
      apply Z.mod_divide in Hwhole; [|lia]. apply Z.mod_divide in Hdiv; [|lia].
      apply Z.mod_divide; [lia|]. by etrans. }
    split.
    + replace (strlen s') with ((wa1 - base) + (tbs - left1)) by lia.
      rewrite bytes_at_app by lia.
      rewrite (bytes_at_ext _ (peek d1) base (wa1 - base)) by (intros; apply Hold; lia).
      rewrite Hflush. replace (base + (wa1 - base)) with wa1 by lia.
      rewrite <- (bytes_at_take _ wa1 size (tbs - left1)) by lia.
      rewrite Hnew, take_take.
      replace (Z.to_nat (tbs - left1) `min` Z.to_nat size)%nat
        with (Z.to_nat (tbs - left1)) by lia.
      rewrite Hpend. by rewrite take_drop.
    + intros x Hx. rewrite Hold by lia. apply Hframe. lia.
Qed.

End BufferedWrite.

Lemma payload_length data dsize :
  0 ≤ dsize →
  match data with Some bytes => strlen bytes <? dsize | None => negb (dsize =? 0) end = false →
  strlen (payload data dsize) = dsize.
Proof.
  intros Hd Hg. unfold payload, strlen in *. rewrite length_take.
  destruct data as [bytes|]; simpl in *; lia.
Qed.

(** The header [_mtb_kvstore_setup_record_header] builds. *)
Lemma setup_record_header_ok key data dsize op :
  0 ≤ strlen key < 2 ^ 16 → 0 ≤ dsize < 2 ^ 32 →
  let h := _mtb_kvstore_setup_record_header key data dsize _MTB_KVSTORE_FORMAT_VERSION op in
  magic h = _MTB_KVSTORE_HEADER_MAGIC ∧ header_size h = sizeof_record_header
  ∧ key_size h = strlen key ∧ data_size h = dsize
  ∧ flags h = (if decide (op = _MTB_KVSTORE_OPER_DELETE)
               then _MTB_KVSTORE_DELETE_FLAG else _MTB_KVSTORE_NO_FLAG)
  ∧ header_in_range h ∧ crc_ok h key (payload data dsize).
Proof.
  intros Hk Hd h. subst h. unfold _mtb_kvstore_setup_record_header.
  cbn [magic header_size key_size data_size flags crc format_version].
  rewrite (u16_small (strlen key)), (u32_small dsize) by lia.
  do 5 (split; [reflexivity|]).
  assert (∀ h0, 0 ≤ _mtb_kvstore_get_record_crc h0 key data < 2 ^ 16) as Hcrc.
  { intros h0. unfold _mtb_kvstore_get_record_crc.
    destruct data as [bytes|]; [destruct (negb _)|]; apply crc16_range. }
  split.
  - constructor; cbn [magic header_size key_size data_size flags crc format_version].
    + vm_compute. split; [discriminate|reflexivity].
    + vm_compute. split; [discriminate|reflexivity].
    + destruct (decide _); vm_compute; (split; [discriminate|reflexivity]).
    + vm_compute. split; [discriminate|reflexivity].
    + exact Hk.
    + exact Hd.
    + specialize (Hcrc {| magic := _MTB_KVSTORE_HEADER_MAGIC;
                 format_version := u8 _MTB_KVSTORE_FORMAT_VERSION;
                 flags := if decide (op = _MTB_KVSTORE_OPER_DELETE)
                          then _MTB_KVSTORE_DELETE_FLAG else _MTB_KVSTORE_NO_FLAG;
                 header_size := u16 sizeof_record_header;
                 key_size := strlen key; data_size := dsize; crc := 0 |}). lia.
  - unfold crc_ok, _mtb_kvstore_get_record_crc, payload, _mtb_kvstore_get_header_crc.
    cbn [magic header_size key_size data_size flags crc format_version].
    unfold strlen. rewrite Nat2Z.id, firstn_all.
    match goal with |- context [_mtb_kvstore_crc16 key ?x] =>
      generalize (crc16_range key x); generalize (_mtb_kvstore_crc16 key x) end.
    intros c Hc.
    destruct data as [bytes|]; cbn [default].
    + destruct (dsize =? 0) eqn:Hz; cbn [negb]; [|reflexivity].
      assert (dsize = 0) as -> by lia. cbn [Z.to_nat take]. by rewrite crc16_nil.
    + rewrite take_nil. by rewrite crc16_nil.
Qed.

Lemma bw_state_start tbs base f tb :
  0 < tbs → strlen tb = tbs → bw_state tbs base f f tb [] base tbs.
Proof.
  intros Htbs Hlen. constructor; rewrite ?Z.sub_diag; try done; try lia.
  unfold strlen. simpl. lia.
Qed.

Lemma record_size_exact {D} (bd : mtb_kvstore_bd_t D) p a ks ds :
  (∀ x, bd_program_size bd x = p) → 0 ≤ ks → 0 ≤ ds →
  sizeof_record_header + ks + ds < 2 ^ 32 →
  _mtb_kvstore_get_record_size bd a ks ds
  = _mtb_kvstore_align_up (sizeof_record_header + ks + ds) p.
Proof.
  intros Hp Hks Hds Hb. unfold _mtb_kvstore_get_record_size. rewrite Hp.
  assert (0 < sizeof_record_header) by done.
  rewrite (u32_small (sizeof_record_header + ks)) by lia.
  by rewrite u32_small by lia.
Qed.

Section WriteRecord.
Context {D : Type} (bd : mtb_kvstore_bd_t D) (peek : D → Z → Z).
Hypothesis Hrf : reliable_flash bd peek.

Lemma write_record_ok d obj area off key data dsize op rti si p d' obj' :
  buffer_ok bd p obj →
  0 < strlen key < MTB_KVSTORE_MAX_KEY_SIZE → 0 ≤ dsize →
  0 ≤ area → 0 ≤ off →
  area + off + sizeof_record_header + strlen key + dsize + p < 2 ^ 32 →
  _mtb_kvstore_write_record bd d obj area off key data dsize op rti si
  = Some (CY_RSLT_SUCCESS, d', obj') →
  let a := area + off in
  let h := _mtb_kvstore_setup_record_header key data dsize _MTB_KVSTORE_FORMAT_VERSION op in
  record_at (peek d') a h key (payload data dsize)
  ∧ crc_ok h key (payload data dsize)
  ∧ (∀ x, ¬ (a ≤ x < a + _mtb_kvstore_get_record_size bd a (strlen key) dsize) →
          peek d' x = peek d x)
  ∧ strlen (transaction_buffer obj') = transaction_buffer_size obj
  ∧ ∃ o, write_record_post obj off op rti si = Some o ∧ obj_rel obj' o.
Proof.
  intros [Hp Hp0 Htbs Hdiv Hlen] Hkey Hds Harea Hoff Hend Hrun a h.
  unfold _mtb_kvstore_write_record in Hrun.
  destruct (match data with Some bytes => strlen bytes <? dsize
                       | None => negb (dsize =? 0) end) eqn:Hguard; [done|].
  assert (MTB_KVSTORE_MAX_KEY_SIZE = 64) as Hmax by done.
  assert (sizeof_record_header = 20) as Hhs by done.
  destruct (setup_record_header_ok key data dsize op ltac:(lia) ltac:(lia))
    as (Hmagic & Hhsize & Hksize & Hdsize & Hflags & Hrange & Hcrc).
  fold h in Hmagic, Hhsize, Hksize, Hdsize, Hflags, Hrange, Hcrc, Hrun.
  rewrite Hksize, Hdsize in Hrun.
  rewrite (u32_small (area + off)) in Hrun by lia. fold a in Hrun.
  pose proof (payload_length data dsize Hds Hguard) as Hpl.
  pose proof (header_bytes_length h) as Hhl.
  set (tbs := transaction_buffer_size obj) in *.
  (* the header *)
  destruct (_mtb_kvstore_buffered_write bd d obj (header_bytes h) sizeof_record_header
              a tbs false) as [[[[[r1 d1] o1] wa1] left1]|] eqn:Hw1;
    cbn [mbind option_bind] in Hrun; [|done].
  destruct (is_success r1) eqn:Hr1; cbn [negb] in Hrun; [|by injection Hrun as -> _ _].
  apply bool_decide_eq_true in Hr1 as ->.
  eapply (buffered_write_noflush bd peek Hrf) with (base := a) (f0 := peek d) (s := [])
    in Hw1 as [Hrel1 Hst1];
    [|fold tbs; lia|by apply bw_state_start; [lia|done]|lia|lia|lia|unfold strlen in *; simpl; lia].
  rewrite app_nil_l in Hst1. fold tbs in Hst1.
  rewrite take_ge in Hst1 by lia.
  pose proof (obj_rel_tbs _ _ Hrel1) as Htbs1. fold tbs in Htbs1.
  (* the key *)
  destruct (_mtb_kvstore_buffered_write bd d1 o1 key (strlen key) wa1 left1 false)
    as [[[[[r2 d2] o2] wa2] left2]|] eqn:Hw2;
    cbn [mbind option_bind] in Hrun; [|done].
  destruct (is_success r2) eqn:Hr2; cbn [negb] in Hrun; [|by injection Hrun as -> _ _].
  apply bool_decide_eq_true in Hr2 as ->.
  eapply (buffered_write_noflush bd peek Hrf) with (base := a) (f0 := peek d)
    (s := header_bytes h) in Hw2 as [Hrel2 Hst2];
    [|rewrite Htbs1; lia|by rewrite Htbs1|lia|unfold strlen; lia|lia|unfold strlen in *; lia].
  rewrite Htbs1 in Hst2.
  rewrite take_ge in Hst2 by (unfold strlen; lia).
  pose proof (obj_rel_tbs _ _ Hrel2) as Htbs2. rewrite Htbs1 in Htbs2.
  (* the data *)
  destruct (_mtb_kvstore_buffered_write bd d2 o2 (default [] data) dsize wa2 left2 true)
    as [[[[[r3 d3] o3] wa3] left3]|] eqn:Hw3;
    cbn [mbind option_bind] in Hrun; [|done].
  destruct (is_success r3) eqn:Hr3; cbn [negb] in Hrun; [|by injection Hrun as -> _ _].
  apply bool_decide_eq_true in Hr3 as ->.
  assert (Z.to_nat dsize ≤ length (default [] data))%nat as Hdlen.
  { destruct data as [bytes|]; simpl in *; unfold strlen in *; lia. }
  eapply (buffered_write_flush bd peek Hrf) with (base := a) (f0 := peek d)
    (s := header_bytes h ++ key) (p := p) in Hw3 as (Hrel3 & Hlen3 & Hbytes & Hframe);
    [|rewrite Htbs2; lia|done|done|by rewrite Htbs2|by rewrite Htbs2|lia|done|lia
     |unfold strlen; rewrite !length_app; lia
     |unfold strlen in *; rewrite !length_app, length_take; lia].
  rewrite Htbs2 in Hlen3.
  fold (payload data dsize) in Hbytes, Hframe.
  assert (strlen ((header_bytes h ++ key) ++ payload data dsize)
          = sizeof_record_header + strlen key + dsize) as Htotal.
  { unfold strlen in *. rewrite !length_app. lia. }
  rewrite Htotal in Hbytes, Hframe.
  assert (d' = d3 ∧ ∃ o, write_record_post obj off op rti si = Some o ∧ obj_rel obj' o
          ∧ transaction_buffer obj' = transaction_buffer o3) as (-> & Hpost).
  { assert (obj_rel o3 obj) as Hrel by (by repeat (etrans; [eassumption|])).
    unfold write_record_post.
    destruct (off =? _MTB_KVSTORE_AREA_HEADER_OFFSET) eqn:Hz; cbn [negb] in Hrun |- *.
    - injection Hrun as <- <-. split; [done|]. by exists obj.
    - destruct rti as [rti|]; [|done]. destruct si as [si|]; [|done].
      injection Hrun as <- <-. split; [done|]. eexists. split; [done|].
      split; [|by rewrite update_consumed_size_tb, update_ram_table_tb].
      by apply update_consumed_size_rel, update_ram_table_rel. }
  destruct Hpost as (o & Hpost & Hrelo & Htb).
  split; [|split; [done|split; [|split]]].
  - rewrite <- app_assoc in Hbytes.
    replace (sizeof_record_header + strlen key + dsize)
      with (sizeof_record_header + (strlen key + dsize)) in Hbytes by lia.
    apply bytes_at_app_inv in Hbytes as [Hb1 Hb2]; [|lia|lia|unfold strlen; lia].
    apply bytes_at_app_inv in Hb2 as [Hb2 Hb3]; [|lia|lia|done].
    constructor; try done; try lia. by rewrite Hpl.
  - intros x Hx. apply Hframe.
    by rewrite (record_size_exact bd p) in Hx by (done || lia).
  - by rewrite Htb.
  - by exists o.
Qed.

End WriteRecord.

(** * What [_mtb_kvstore_read_record] finds on a reliable medium *)

Lemma read_into_length n bytes buf :
  0 ≤ n → (Z.to_nat n ≤ length buf)%nat → length (read_into n bytes buf) = length buf.
Proof.
  intros. unfold read_into. rewrite length_app, exactly_length, length_drop. lia.
Qed.

Lemma strlen_nonneg (l : list Z) : 0 ≤ strlen l.
Proof. unfold strlen. lia. Qed.

Lemma is_success_true : is_success CY_RSLT_SUCCESS = true.
Proof. done. Qed.

Section ReadRecord.
Context {D : Type} (bd : mtb_kvstore_bd_t D) (peek : D → Z → Z).
Hypothesis Hrf : reliable_flash bd peek.

Lemma bd_read_buf_ok d a n buf :
  bd_read_buf bd d a n buf = (CY_RSLT_SUCCESS, read_into n (bytes_at (peek d) a n) buf).
Proof. unfold bd_read_buf. by rewrite (rf_read _ _ Hrf). Qed.

Lemma buffered_crc_loop_ok fuel : ∀ d obj addr n c,
  0 < transaction_buffer_size obj →
  strlen (transaction_buffer obj) = transaction_buffer_size obj →
  0 ≤ n → (Z.to_nat n ≤ fuel)%nat → 0 ≤ addr → addr + n < 2 ^ 32 →
  0 ≤ c < 2 ^ 16 →
  ∃ obj', buffered_crc_loop bd fuel d obj addr n c
          = Some (CY_RSLT_SUCCESS, obj', _mtb_kvstore_crc16 (bytes_at (peek d) addr n) c)
        ∧ obj_rel obj' obj
        ∧ strlen (transaction_buffer obj') = transaction_buffer_size obj.
Proof.
  induction fuel as [|fuel IH]; intros d obj addr n c Htbs Hlen Hn Hfuel Haddr Hend Hc;
    simpl; destruct (0 <? n) eqn:Hpos.
  - lia.
  - assert (n = 0) as -> by lia. exists obj. by rewrite crc16_nil.
  - set (t := if transaction_buffer_size obj >=? n then n else transaction_buffer_size obj).
    assert (1 ≤ t ≤ n ∧ t ≤ transaction_buffer_size obj) as (Ht1 & Ht2)
      by (unfold t; destruct (transaction_buffer_size obj >=? n) eqn:?; lia).
    rewrite bd_read_buf_ok. rewrite is_success_true. cbn [negb].
    rewrite take_read_into, exactly_bytes_at.
    rewrite (u32_small (addr + t)), (u32_small (n - t)) by lia.
    set (o1 := set_transaction_buffer _ obj).
    destruct (IH d o1 (addr + t) (n - t)
                (_mtb_kvstore_crc16 (bytes_at (peek d) addr t) c)) as (o' & -> & Hrel & Hl);
      try done; try lia.
    + unfold o1. cbn [transaction_buffer transaction_buffer_size set_transaction_buffer].
      unfold strlen in *. rewrite read_into_length; lia.
    + apply crc16_range.
    + exists o'. split; [|split; [by etrans|done]].
      rewrite <- crc16_app. rewrite <- bytes_at_app by lia.
      by replace (t + (n - t)) with n by lia.
  - assert (n = 0) as -> by lia. exists obj. by rewrite crc16_nil.
Qed.

Lemma buffered_crc_compute_ok d obj addr n c :
  0 < transaction_buffer_size obj →
  strlen (transaction_buffer obj) = transaction_buffer_size obj →
  0 ≤ n → 0 ≤ addr → addr + n < 2 ^ 32 → 0 ≤ c < 2 ^ 16 →
  ∃ obj', _mtb_kvstore_buffered_crc_compute bd d obj addr n c
          = Some (CY_RSLT_SUCCESS, obj', _mtb_kvstore_crc16 (bytes_at (peek d) addr n) c)
        ∧ obj_rel obj' obj
        ∧ strlen (transaction_buffer obj') = transaction_buffer_size obj.
Proof. intros. by apply buffered_crc_loop_ok. Qed.

Lemma validate_key_ok d obj addr key K :
  strlen K ≤ transaction_buffer_size obj →
  strlen (transaction_buffer obj) = transaction_buffer_size obj →
  0 ≤ addr → addr + strlen K < 2 ^ 32 → strlen key < 2 ^ 32 →
  bytes_at (peek d) addr (strlen K) = K →
  ∃ obj', _mtb_kvstore_validate_key bd d obj addr key (strlen K)
          = Some (if decide (key = K) then CY_RSLT_SUCCESS
                  else MTB_KVSTORE_ITEM_NOT_FOUND_ERROR, obj')
        ∧ obj_rel obj' obj
        ∧ strlen (transaction_buffer obj') = transaction_buffer_size obj.
Proof.
  intros Htbs Hlen Haddr Hend Hkey HK. unfold _mtb_kvstore_validate_key.
  rewrite u32_small by (unfold strlen in *; lia).
  destruct (strlen key =? strlen K) eqn:Hl; cbn [negb].
  - apply Z.eqb_eq in Hl.
    destruct (Z.to_nat (strlen K)) as [|fuel] eqn:Hfuel.
    + assert (K = []) as -> by (apply length_zero_iff_nil; unfold strlen in *; lia).
      assert (key = []) as ->
        by (apply length_zero_iff_nil; unfold strlen in *; cbn [length] in *; lia).
      simpl. by exists obj.
    + simpl. assert ((0 <? strlen K) = true) as -> by lia.
      assert ((transaction_buffer_size obj >=? strlen K) = true) as -> by lia.
      rewrite bd_read_buf_ok, is_success_true. cbn [negb].
      rewrite take_read_into, exactly_bytes_at, HK.
      rewrite (take_ge key) by (unfold strlen in *; lia).
      assert (strlen (read_into (strlen K) K (transaction_buffer obj))
              = transaction_buffer_size obj) as Hl'.
      { unfold strlen in *. rewrite read_into_length; lia. }
      destruct (decide (key = K)) as [->|Hne].
      * rewrite bool_decide_eq_true_2 by done. cbn [negb].
        rewrite Z.sub_diag. change (u32 0) with 0.
        eexists. split; [by destruct fuel|]. done.
      * rewrite bool_decide_eq_false_2 by done. cbn [negb].
        eexists. split; [done|]. done.
  - apply Z.eqb_neq in Hl. destruct (decide (key = K)) as [->|Hne]; [done|]. by exists obj.
Qed.

Lemma read_record_at d obj area off h K Dat key data dsz :
  MTB_KVSTORE_MAX_KEY_SIZE ≤ transaction_buffer_size obj →
  strlen (transaction_buffer obj) = transaction_buffer_size obj →
  0 ≤ area → 0 ≤ off →
  record_at (peek d) (area + off) h K Dat → crc_ok h K Dat →
  strlen key < 2 ^ 32 →
  ∃ obj',
    _mtb_kvstore_read_record bd d obj area off (Some key) true data dsz
    = Some {| rr_result := (read_outcome K Dat key data dsz).1.1; rr_obj := obj';
              rr_header := h; rr_key := Some key;
              rr_data := (read_outcome K Dat key data dsz).1.2;
              rr_data_size := (read_outcome K Dat key data dsz).2 |}
    ∧ obj_rel obj' obj
    ∧ strlen (transaction_buffer obj') = transaction_buffer_size obj.
Proof.
  intros Htbs Hlen Harea Hoff Hrec Hcrc Hkey.
  destruct Hrec as [Hh Hk Hd Hrange Hmagic Hhsize Hksize Hdsize Hklen Haddr].
  assert (MTB_KVSTORE_MAX_KEY_SIZE = 64) as Hmax by done.
  assert (sizeof_record_header = 20) as Hhs by done.
  pose proof (strlen_nonneg K). pose proof (strlen_nonneg Dat). pose proof (strlen_nonneg key).
  unfold _mtb_kvstore_read_record.
  rewrite (u32_small (area + off)) by lia.
  change (u8 sizeof_record_header) with sizeof_record_header.
  rewrite (rf_read _ _ Hrf), exactly_bytes_at, Hh, header_of_header_bytes by done.
  cbv beta iota zeta. rewrite is_success_true. cbn [negb].
  rewrite Hmagic, Hhsize, Hksize, Hdsize.
  change ((_MTB_KVSTORE_HEADER_MAGIC =? 4294967295) || (_MTB_KVSTORE_HEADER_MAGIC =? 0))
    with false. cbv iota.
  rewrite Z.eqb_refl. cbn [negb].
  assert (((strlen K =? 0) || (strlen K >=? MTB_KVSTORE_MAX_KEY_SIZE)) = false) as ->
    by (apply orb_false_intro; lia).
  fold (too_small data dsz (strlen Dat)). unfold read_outcome.
  destruct (too_small data dsz (strlen Dat)) eqn:Hsmall.
  { by exists obj. }
  rewrite (u32_small (area + off + sizeof_record_header)) by lia.
  rewrite (u32_small (area + off + sizeof_record_header + strlen K)) by lia.
  unfold read_record_key.
  destruct (validate_key_ok d obj (area + off + sizeof_record_header) key K)
    as (o1 & -> & Hrel1 & Hl1); try done; try lia.

  cbn [mbind option_bind].
  destruct (decide (key = K)) as [->|Hne]; [|by exists o1].
  rewrite is_success_true. cbn [negb].
  rewrite (take_ge K) by (unfold strlen; lia).
  pose proof (obj_rel_tbs _ _ Hrel1) as Htbs1.
  pose proof (crc16_range K (_mtb_kvstore_get_header_crc h _MTB_KVSTORE_CRC_INIT_VAL)) as Hc.
  unfold read_record_data.
  assert (∀ o2 : mtb_kvstore_t, obj_rel o2 o1 →
            strlen (transaction_buffer o2) = transaction_buffer_size o1 →
            obj_rel o2 obj ∧ strlen (transaction_buffer o2) = transaction_buffer_size obj)
    as Hfin by (intros o2 ? ?; split; [by etrans|by rewrite <- Htbs1]).
  assert (∃ o2, _mtb_kvstore_buffered_crc_compute bd d o1
                  (area + off + sizeof_record_header + strlen K) (strlen Dat)
                  (_mtb_kvstore_crc16 K
                     (_mtb_kvstore_get_header_crc h _MTB_KVSTORE_CRC_INIT_VAL))
                = Some (CY_RSLT_SUCCESS, o2, crc h)
                ∧ obj_rel o2 obj
                ∧ strlen (transaction_buffer o2) = transaction_buffer_size obj)
    as (o2 & Hstream & Hrel2 & Hl2).
  { destruct (buffered_crc_compute_ok d o1
                (area + off + sizeof_record_header + strlen K) (strlen Dat)
                (_mtb_kvstore_crc16 K
                   (_mtb_kvstore_get_header_crc h _MTB_KVSTORE_CRC_INIT_VAL)))
      as (o2 & Hs & Hr & Hl); try done; try lia.
    exists o2. rewrite Hs, Hd. rewrite <- Hcrc. by destruct (Hfin o2). }
  destruct data as [buf|]; [destruct dsz as [sz|]|].
  - rewrite bd_read_buf_ok, Hd. cbn [mbind option_bind].
    rewrite is_success_true. cbn [negb].
    rewrite take_read_into, exactly_id by (unfold strlen; lia).
    rewrite <- Hcrc, Z.eqb_refl. cbn [negb].
    exists o1. split; [|done].
    cbn [fst snd]. do 3 f_equal. unfold read_into.
    rewrite exactly_id by (unfold strlen; lia).
    by unfold strlen; rewrite Nat2Z.id.
  - rewrite Hstream. cbn [mbind option_bind]. rewrite is_success_true. cbn [negb].
    rewrite Z.eqb_refl. cbn [negb]. by exists o2.
  - rewrite Hstream. cbn [mbind option_bind]. rewrite is_success_true. cbn [negb].
    rewrite Z.eqb_refl. cbn [negb]. by exists o2.
Qed.

End ReadRecord.

(** * The lookup in a store that satisfies the invariant *)

Lemma sorted_desc_cons e es :
  sorted_desc (e :: es) → sorted_desc es ∧ ∀ e', e' ∈ es → hash e' ≤ hash e.
Proof.
  intros H. split.
  - intros i j ei ej Hij Hi Hj. apply (H (S i) (S j)); [lia|done..].
  - intros e' [j Hj]%list_elem_of_lookup. apply (H 0%nat (S j)); [lia|done..].
Qed.

Section FindOk.
Context {D : Type} (bd : mtb_kvstore_bd_t D) (peek : D → Z → Z).
Hypothesis Hrf : reliable_flash bd peek.

Lemma find_record_loop_ok d key h p area lo hi es m :
  Forall2 (entry_ok (peek d) p area lo hi) es m →
  ∀ obj idx dsz,
  MTB_KVSTORE_MAX_KEY_SIZE ≤ transaction_buffer_size obj →
  strlen (transaction_buffer obj) = transaction_buffer_size obj →
  active_area_addr obj = area → 0 ≤ area → 0 ≤ lo → strlen key < 2 ^ 32 →
  ∃ obj',
    find_record_loop bd d obj key h es idx MTB_KVSTORE_ITEM_NOT_FOUND_ERROR dsz
    = Some ((find_spec key h es m idx dsz).1.1, obj',
            (find_spec key h es m idx dsz).1.2, (find_spec key h es m idx dsz).2)
    ∧ obj_rel obj' obj
    ∧ strlen (transaction_buffer obj') = transaction_buffer_size obj.
Proof.
  induction 1 as [|e kv es m He Hes IH]; intros obj idx dsz Htbs Hlen Hact Harea Hlo Hkey.
  { by exists obj. }
  cbn [find_record_loop find_spec].
  destruct (h <? hash e) eqn:Hlt; [by apply IH|].
  destruct (h >? hash e) eqn:Hgt; [by exists obj|].
  destruct He as [(hd & Hrec & Hcrc) Hhash Hbound Hlow Hhigh].
  rewrite Hact.
  destruct (read_record_at bd peek Hrf d obj area (offset e) hd kv.1 kv.2 key None dsz)
    as (o1 & -> & Hrel1 & Hl1); try done; try lia.
  cbn [mbind option_bind rr_result rr_obj rr_data_size].
  unfold read_outcome. cbn [too_small].
  destruct (decide (key = kv.1)) as [Heq|Hne]; cbn [fst snd].
  - by exists o1.
  - rewrite bool_decide_eq_true_2 by done. cbn [negb].
    destruct (IH o1 (idx + 1) dsz) as (o2 & -> & Hrel2 & Hl2); try done.
    + by rewrite (obj_rel_tbs _ _ Hrel1).
    + by rewrite (obj_rel_tbs _ _ Hrel1).
    + by rewrite (obj_rel_active _ _ Hrel1).
    + exists o2. split; [done|]. split; [by etrans|].
      by rewrite Hl2, (obj_rel_tbs _ _ Hrel1).
Qed.

End FindOk.

(** The lookup finds a key that is in the store, at its position. *)
Lemma find_spec_present key es m :
  Forall2 (λ e kv, hash e = key_hash kv.1) es m →
  sorted_desc es → NoDup m.*1 →
  ∀ (i : nat) Dat idx dsz, m !! i = Some (key, Dat) →
  find_spec key (key_hash key) es m idx dsz
  = (CY_RSLT_SUCCESS, idx + Z.of_nat i,
     match dsz with Some _ => Some (strlen Dat) | None => None end).
Proof.
  induction 1 as [|e kv es m He Hes IH]; intros Hsort Hnd i Dat idx dsz Hi; [done|].
  apply sorted_desc_cons in Hsort as [Hsort Hmax].
  rewrite fmap_cons in Hnd.
  pose proof (NoDup_cons_1_1 _ _ Hnd) as Hnotin. apply NoDup_cons_1_2 in Hnd.
  cbn [find_spec]. destruct i as [|i]; simpl in Hi.
  - injection Hi as ->. rewrite He. cbn [fst snd].
    rewrite Z.ltb_irrefl. assert ((key_hash key >? key_hash key) = false) as -> by lia.
    rewrite decide_True by done. by rewrite Z.add_0_r.
  - assert (kv.1 ≠ key) as Hne.
    { intros <-. apply Hnotin. apply list_elem_of_fmap. exists (kv.1, Dat).
      split; [done|]. by eapply list_elem_of_lookup_2. }
    assert (key_hash key ≤ hash e) as Hle.
    { destruct (Forall2_lookup_r _ _ _ _ _ Hes Hi) as (e' & He' & Hh).
      cbn [fst] in Hh. rewrite <- Hh. apply Hmax. by eapply list_elem_of_lookup_2. }
    rewrite (IH Hsort Hnd i Dat (idx + 1) dsz Hi).
    replace (idx + 1 + Z.of_nat i) with (idx + Z.of_nat (S i)) by lia.
    destruct (key_hash key <? hash e); [done|].
    assert ((key_hash key >? hash e) = false) as -> by lia.
    by rewrite decide_False by done.
Qed.

(** For a key that is not in the store it returns item-not-found and the
    position of the first entry of smaller hash. *)
Lemma find_spec_absent key es m :
  Forall2 (λ e kv, hash e = key_hash kv.1) es m →
  sorted_desc es → key ∉ m.*1 →
  ∀ idx dsz, ∃ n : nat,
    find_spec key (key_hash key) es m idx dsz
    = (MTB_KVSTORE_ITEM_NOT_FOUND_ERROR, idx + Z.of_nat n, dsz)
    ∧ (n ≤ length es)%nat
    ∧ ∀ (i : nat) e, es !! i = Some e → ((i < n)%nat ↔ key_hash key ≤ hash e).
Proof.
  induction 1 as [|e kv es m He Hes IH]; intros Hsort Hnotin idx dsz.
  { exists 0%nat. by rewrite Z.add_0_r. }
  apply sorted_desc_cons in Hsort as [Hsort Hmax].
  apply not_elem_of_cons in Hnotin as [Hne Hnotin].
  cbn [find_spec].
  assert (∀ n : nat, (n ≤ length es)%nat →
            (∀ (i : nat) e0, es !! i = Some e0 → (i < n)%nat ↔ key_hash key ≤ hash e0) →
            key_hash key ≤ hash e →
            (S n ≤ length (e :: es))%nat
            ∧ ∀ (i : nat) e0, (e :: es) !! i = Some e0 →
                (i < S n)%nat ↔ key_hash key ≤ hash e0) as Hstep.
  { intros n Hn Hall Hle. split; [simpl; lia|]. intros [|i] e0 Hi; simpl in Hi.
    - injection Hi as <-. split; [done|lia].
    - rewrite <- (Hall i e0 Hi). lia. }
  destruct (key_hash key <? hash e) eqn:Hlt.
  - destruct (IH Hsort Hnotin (idx + 1) dsz) as (n & -> & Hn & Hall).
    exists (S n). split; [f_equal; f_equal; lia|]. apply Hstep; [done..|lia].
  - destruct (key_hash key >? hash e) eqn:Hgt.
    + exists 0%nat. rewrite Z.add_0_r. split; [done|]. split; [lia|].
      intros i e0 Hi. split; [lia|]. intros Hle.
      destruct i as [|i]; simpl in Hi.
      * injection Hi as <-. lia.
      * assert (hash e0 ≤ hash e) by (apply Hmax; by eapply list_elem_of_lookup_2). lia.
    + rewrite decide_False by done.
      destruct (IH Hsort Hnotin (idx + 1) dsz) as (n & -> & Hn & Hall).
      exists (S n). split; [f_equal; f_equal; lia|]. apply Hstep; [done..|lia].
Qed.

(** * The RAM table as a list *)

Lemma update_ram_table_op obj op rti :
  0 ≤ ram_tbl_idx rti → num_entries obj < 2 ^ 32 →
  (op = _MTB_KVSTORE_OPER_DELETE → ram_tbl_idx rti < num_entries obj) →
  _mtb_kvstore_update_ram_table obj op rti
  = set_ram_table (table_op op (Z.to_nat (ram_tbl_idx rti)) (entry rti) (ram_table obj)) obj.
Proof.
  intros Hidx Hnum Hdel. unfold _mtb_kvstore_update_ram_table, table_op, num_entries in *.
  destruct op; [done| |done]. specialize (Hdel eq_refl).
  rewrite u32_small by lia. rewrite delete_take_drop.
  destruct (ram_tbl_idx rti <? Z.of_nat (length (ram_table obj)) - 1) eqn:Hlt; [done|].
  f_equal. rewrite (drop_ge _ (S _)) by lia. rewrite app_nil_r. f_equal. lia.
Qed.

Lemma insert_at_lookup {A : Type} (l : list A) (n i : nat) (x : A) :
  (n ≤ length l)%nat →
  (take n l ++ x :: drop n l) !! i
  = if decide (i < n)%nat then l !! i
    else if decide (i = n) then Some x else l !! (i - 1)%nat.
Proof.
  intros Hn. destruct (decide (i < n)%nat).
  - rewrite lookup_app_l by (rewrite length_take; lia). by rewrite lookup_take_lt.
  - rewrite lookup_app_r by (rewrite length_take; lia). rewrite length_take.
    replace (n `min` length l)%nat with n by lia.
    destruct (decide (i = n)) as [->|].
    + by rewrite Nat.sub_diag.
    + rewrite lookup_cons_ne_0 by lia. rewrite lookup_drop. f_equal. lia.
Qed.

Lemma sorted_desc_add es n x :
  sorted_desc es → (n ≤ length es)%nat →
  (∀ (i : nat) e, es !! i = Some e → ((i < n)%nat ↔ hash x ≤ hash e)) →
  sorted_desc (table_op _MTB_KVSTORE_OPER_ADD n x es).
Proof.
  intros Hs Hn Hpos i j ei ej Hij. unfold table_op.
  rewrite !insert_at_lookup by done. intros Hi Hj.
  repeat case_decide; simplify_eq; try lia.
  - by eapply (Hs i j).
  - by apply (Hpos i).
  - eapply (Hs i (j - 1)%nat); [lia|done..].
  - assert (¬ hash ei ≤ hash ej); [|lia].
    intros Hle. apply (Hpos (j - 1)%nat) in Hle; [lia|done].
  - eapply (Hs (i - 1)%nat (j - 1)%nat); [lia|done..].
Qed.

Lemma sorted_desc_update es n x e :
  sorted_desc es → es !! n = Some e → hash x = hash e →
  sorted_desc (table_op _MTB_KVSTORE_OPER_UPDATE n x es).
Proof.
  intros Hs Hn Hh i j ei ej Hij. unfold table_op.
  intros [(Hni & Hxi & _)|[_ Hi]]%list_lookup_insert_Some
         [(Hnj & Hxj & _)|[_ Hj]]%list_lookup_insert_Some; subst.
  - lia.
  - rewrite Hh. by eapply (Hs i j).
  - rewrite Hh. by eapply (Hs i j).
  - by eapply (Hs i j).
Qed.

Lemma sorted_desc_delete es n :
  sorted_desc es → ∀ x : mtb_kvstore_ram_table_entry_t,
  sorted_desc (table_op _MTB_KVSTORE_OPER_DELETE n x es).
Proof.
  intros Hs x i j ei ej Hij. unfold table_op. rewrite !list_lookup_delete.
  intros Hi Hj.
  repeat case_decide; try lia; (eapply Hs; [|eassumption|eassumption]; lia).
Qed.

(** A sorted table depends on the hashes only. *)
Lemma sorted_desc_hashes es es' :
  hash <$> es' = hash <$> es → sorted_desc es → sorted_desc es'.
Proof.
  intros Hh Hs i j ei ej Hij Hi Hj.
  assert ((hash <$> es) !! i = Some (hash ei)) as Hi'
    by (rewrite <- Hh, list_lookup_fmap, Hi; done).
  assert ((hash <$> es) !! j = Some (hash ej)) as Hj'
    by (rewrite <- Hh, list_lookup_fmap, Hj; done).
  rewrite list_lookup_fmap in Hi', Hj'.
  destruct (es !! i) as [ei'|] eqn:Hei; [|done].
  destruct (es !! j) as [ej'|] eqn:Hej; [|done].
  injection Hi' as <-. injection Hj' as <-. by eapply (Hs i j).
Qed.

Lemma Forall2_table_op {A B : Type} (R : A → B → Prop) op n x y l m :
  Forall2 R l m → R x y → Forall2 R (table_op op n x l) (table_op op n y m).
Proof.
  intros Hlm Hxy. destruct op; unfold table_op.
  - apply Forall2_app; [by apply Forall2_take|].
    constructor; [done|by apply Forall2_drop].
  - by apply Forall2_delete.
  - by apply Forall2_insert.
Qed.

Lemma live_size_app p m1 m2 : live_size p (m1 ++ m2) = live_size p m1 + live_size p m2.
Proof. induction m1 as [|kv m1 IH]; simpl; lia. Qed.

Lemma live_size_split p m (i : nat) kv :
  m !! i = Some kv →
  live_size p m = live_size p (take i m) + rec_size p kv + live_size p (drop (S i) m).
Proof.
  intros Hi. rewrite <- (take_drop_middle m i kv Hi) at 1.
  rewrite live_size_app. simpl. lia.
Qed.

Lemma live_size_add p m (n : nat) kv :
  live_size p (table_op _MTB_KVSTORE_OPER_ADD n kv m) = live_size p m + rec_size p kv.
Proof.
  unfold table_op. rewrite live_size_app. simpl.
  rewrite <- (take_drop n m) at 3. rewrite live_size_app. lia.
Qed.

Lemma live_size_update p m (n : nat) kv old :
  m !! n = Some old →
  live_size p (table_op _MTB_KVSTORE_OPER_UPDATE n kv m)
  = live_size p m - rec_size p old + rec_size p kv.
Proof.
  intros Hn. unfold table_op. rewrite (live_size_split p m n old Hn).
  assert (<[n := kv]> m !! n = Some kv) as Hn'
    by (apply list_lookup_insert_eq; by eapply lookup_lt_Some).
  rewrite (live_size_split p _ n kv Hn').
  rewrite take_insert_ge by lia. rewrite drop_insert_lt by lia. lia.
Qed.

Lemma live_size_delete p m (n : nat) kv old :
  m !! n = Some old →
  live_size p (table_op _MTB_KVSTORE_OPER_DELETE n kv m) = live_size p m - rec_size p old.
Proof.
  intros Hn. unfold table_op. rewrite (live_size_split p m n old Hn).
  rewrite delete_take_drop, live_size_app. lia.
Qed.

Lemma keys_add (m : list (list Z * list Z)) (n : nat) kv :
  NoDup m.*1 → kv.1 ∉ m.*1 → NoDup (table_op _MTB_KVSTORE_OPER_ADD n kv m).*1.
Proof.
  intros Hnd Hnotin. unfold table_op. rewrite fmap_app, fmap_cons.
  rewrite <- (take_drop n m), fmap_app in Hnd, Hnotin.
  apply list.NoDup_app in Hnd as (Hnd1 & Hdisj & Hnd2).
  apply not_elem_of_app in Hnotin as [Hn1 Hn2].
  apply list.NoDup_app. split; [done|]. split.
  - intros x Hx [->|Hx']%elem_of_cons; [done|]. by eapply Hdisj.
  - by constructor.
Qed.

Lemma keys_update (m : list (list Z * list Z)) (n : nat) kv old :
  m !! n = Some old → kv.1 = old.1 →
  (table_op _MTB_KVSTORE_OPER_UPDATE n kv m).*1 = m.*1.
Proof.
  intros Hn Hk. unfold table_op. rewrite list_fmap_insert, Hk.
  apply list_insert_id. by rewrite list_lookup_fmap, Hn.
Qed.

Lemma keys_delete (m : list (list Z * list Z)) (n : nat) kv old :
  NoDup m.*1 → m !! n = Some old →
  NoDup (table_op _MTB_KVSTORE_OPER_DELETE n kv m).*1
  ∧ old.1 ∉ (table_op _MTB_KVSTORE_OPER_DELETE n kv m).*1.
Proof.
  intros Hnd Hn. unfold table_op. rewrite list_fmap_delete. split.
  - eapply sublist_NoDup; [done|apply sublist_delete].
  - rewrite delete_take_drop.
    assert (m.*1 !! n = Some old.1) as Hn' by (by rewrite list_lookup_fmap, Hn).
    rewrite <- (take_drop_middle _ n _ Hn') in Hnd.
    apply list.NoDup_app in Hnd as (_ & Hdisj & Hnd2).
    apply NoDup_cons_1_1 in Hnd2 as Hnot.
    intros [Hin|Hin]%elem_of_app; [|done].
    apply (Hdisj _ Hin). by left.
Qed.

(** The other keys of a store keep their data. *)
Lemma table_op_others (m : list (list Z * list Z)) op (i : nat) (key dat : list Z) :
  (op ≠ _MTB_KVSTORE_OPER_ADD → ∃ old, m !! i = Some (key, old)) →
  ∀ K D, K ≠ key → ((K, D) ∈ table_op op i (key, dat) m ↔ (K, D) ∈ m).
Proof.
  intros Hi K D Hne. destruct op; unfold table_op.
  - rewrite <- (take_drop i m) at 3. rewrite !elem_of_app, elem_of_cons.
    split; [intros [?|[[= ? ?]|?]]|intros [?|?]]; tauto.
  - destruct Hi as [old Hi]; [done|]. rewrite delete_take_drop.
    rewrite <- (take_drop_middle m i _ Hi) at 3. rewrite !elem_of_app, elem_of_cons.
    split; [intros [?|?]|intros [?|[[= ? ?]|?]]]; tauto.
  - destruct Hi as [old Hi]; [done|].
    rewrite insert_take_drop by (by eapply lookup_lt_Some).
    rewrite <- (take_drop_middle m i _ Hi) at 3. rewrite !elem_of_app, !elem_of_cons.
    split; (intros [?|[[= ? ?]|?]]; [tauto|done|tauto]).
Qed.

Lemma table_op_new (m : list (list Z * list Z)) op (i : nat) kv :
  op ≠ _MTB_KVSTORE_OPER_DELETE → (i < length m)%nat ∨ op = _MTB_KVSTORE_OPER_ADD →
  kv ∈ table_op op i kv m.
Proof.
  intros Hop Hi. destruct op; unfold table_op; [|done|].
  - rewrite elem_of_app, elem_of_cons. tauto.
  - destruct Hi as [Hi|]; [|done]. apply (list_elem_of_lookup_2 _ i).
    by apply list_lookup_insert_eq.
Qed.

(** * Records under changes of the medium *)

Lemma rec_size_bounds p kv :
  0 < p → sizeof_record_header + strlen kv.1 + strlen kv.2 + p ≤ 2 ^ 32 →
  sizeof_record_header + strlen kv.1 + strlen kv.2 ≤ rec_size p kv
  ∧ rec_size p kv < sizeof_record_header + strlen kv.1 + strlen kv.2 + p
  ∧ rec_size p kv mod p = 0.
Proof.
  intros Hp Hb. unfold rec_size.
  pose proof (strlen_nonneg kv.1). pose proof (strlen_nonneg kv.2).
  assert (0 < sizeof_record_header) by done.
  destruct (align_up_bounds (sizeof_record_header + strlen kv.1 + strlen kv.2) p)
    as [[? ?] ?]; [lia..|done].
Qed.

Lemma record_size_rec {D : Type} (bd : mtb_kvstore_bd_t D) p a kv :
  (∀ x, bd_program_size bd x = p) →
  sizeof_record_header + strlen kv.1 + strlen kv.2 < 2 ^ 32 →
  _mtb_kvstore_get_record_size bd a (strlen kv.1) (strlen kv.2) = rec_size p kv.
Proof.
  intros Hp Hb. apply record_size_exact; [done|apply strlen_nonneg..|done].
Qed.

Lemma record_at_shift f g a b h K Dat :
  record_at f a h K Dat → 0 ≤ b →
  b + sizeof_record_header + strlen K + strlen Dat < 2 ^ 32 →
  (∀ i, 0 ≤ i < sizeof_record_header + strlen K + strlen Dat → g (b + i) = f (a + i)) →
  record_at g b h K Dat.
Proof.
  intros [Hh Hk Hd Hrange Hmagic Hhsize Hksize Hdsize Hklen Haddr] Hb Hend Hfg.
  pose proof (strlen_nonneg K). pose proof (strlen_nonneg Dat).
  assert (0 < sizeof_record_header) by done.
  constructor; try done.
  - etrans; [|exact Hh]. apply bytes_at_shift. intros i Hi. apply Hfg. lia.
  - etrans; [|exact Hk]. apply bytes_at_shift. intros i Hi.
    rewrite <- !Z.add_assoc. apply Hfg. lia.
  - etrans; [|exact Hd]. apply bytes_at_shift. intros i Hi.
    rewrite <- !Z.add_assoc. apply Hfg. lia.
Qed.

Lemma record_at_ext f g a h K Dat :
  record_at f a h K Dat →
  (∀ x, a ≤ x < a + sizeof_record_header + strlen K + strlen Dat → g x = f x) →
  record_at g a h K Dat.
Proof.
  intros Hrec Hfg. eapply record_at_shift; [done| | |].
  - by destruct Hrec as [_ _ _ _ _ _ _ _ _ [? _]].
  - by destruct Hrec as [_ _ _ _ _ _ _ _ _ [_ ?]].
  - intros i Hi. apply Hfg. lia.
Qed.

Lemma entry_ok_frame f g p area lo hi hi' e kv :
  entry_ok f p area lo hi e kv → 0 < p → 0 ≤ lo → hi ≤ hi' →
  (∀ x, area + lo ≤ x < area + hi → g x = f x) →
  entry_ok g p area lo hi' e kv.
Proof.
  intros [(h & Hrec & Hcrc) Hhash Hbound Hlow Hhigh] Hp Hlo Hhi Hfg.
  destruct (rec_size_bounds p kv Hp Hbound) as (Hsz & _ & _).
  constructor; try done; [|lia].
  exists h. split; [|done]. eapply record_at_ext; [done|].
  intros x Hx. apply Hfg. lia.
Qed.

(** An entry moved with its record to another area. *)
Lemma entry_ok_move f g p area area' lo lo' hi hi' e off kv :
  entry_ok f p area lo hi e kv → 0 < p →
  0 ≤ area' → lo' ≤ off → off + rec_size p kv ≤ hi' → 0 ≤ off →
  area' + off + rec_size p kv < 2 ^ 32 →
  (∀ i, 0 ≤ i < rec_size p kv → g (area' + off + i) = f (area + offset e + i)) →
  entry_ok g p area' lo' hi' {| hash := hash e; offset := off |} kv.
Proof.
  intros [(h & Hrec & Hcrc) Hhash Hbound Hlow Hhigh] Hp Harea Hlo Hhi Hoff Htop Hfg.
  destruct (rec_size_bounds p kv Hp Hbound) as (Hsz & _ & _).
  constructor; try done.
  exists h. split; [|done]. cbn [offset].
  eapply record_at_shift; [done|lia|lia|].
  intros i Hi. apply Hfg. lia.
Qed.

Lemma entries_length f p area lo hi es m :
  Forall2 (entry_ok f p area lo hi) es m → 0 < p →
  Z.of_nat (length m) ≤ live_size p m.
Proof.
  intros H Hp. induction H as [|e kv es m He Hes IH]; simpl; [lia|].
  destruct He as [_ _ Hbound _ _].
  destruct (rec_size_bounds p kv Hp Hbound) as (Hsz & _ & _).
  pose proof (strlen_nonneg kv.1). pose proof (strlen_nonneg kv.2).
  assert (0 < sizeof_record_header) by done. lia.
Qed.

Lemma live_size_nonneg f p area lo hi es m :
  Forall2 (entry_ok f p area lo hi) es m → 0 < p → 0 ≤ live_size p m.
Proof. intros H Hp. pose proof (entries_length _ _ _ _ _ _ _ H Hp). lia. Qed.

(** * Copying a record to the other area *)

Section Copy.
Context {D : Type} (bd : mtb_kvstore_bd_t D) (peek : D → Z → Z).
Hypothesis Hrf : reliable_flash bd peek.

Lemma copy_record_loop_ok fuel : ∀ d obj ra wa n d' obj',
  0 < transaction_buffer_size obj →
  strlen (transaction_buffer obj) = transaction_buffer_size obj →
  0 ≤ n → (Z.to_nat n ≤ fuel)%nat →
  0 ≤ ra → ra + n < 2 ^ 32 → 0 ≤ wa → wa + n < 2 ^ 32 →
  ra + n ≤ wa ∨ wa + n ≤ ra →
  copy_record_loop bd fuel d obj ra wa n = Some (CY_RSLT_SUCCESS, d', obj') →
  (∀ i, 0 ≤ i < n → peek d' (wa + i) = peek d (ra + i))
  ∧ (∀ x, ¬ (wa ≤ x < wa + n) → peek d' x = peek d x)
  ∧ obj_rel obj' obj
  ∧ strlen (transaction_buffer obj') = transaction_buffer_size obj.
Proof.
  induction fuel as [|fuel IH];
    intros d obj ra wa n d' obj' Htbs Hlen Hn Hfuel Hra Hraend Hwa Hwaend Hdisj Hrun;
    simpl in Hrun; destruct (0 <? n) eqn:Hpos.
  - lia.
  - injection Hrun as <- <-. split; [intros; lia|done].
  - set (t := if transaction_buffer_size obj >=? n then n else transaction_buffer_size obj)
      in *.
    assert (1 ≤ t ≤ n ∧ t ≤ transaction_buffer_size obj) as (Ht1 & Ht2)
      by (unfold t; destruct (transaction_buffer_size obj >=? n) eqn:?; lia).
    rewrite (bd_read_buf_ok bd peek Hrf) in Hrun.
    rewrite is_success_true in Hrun. cbn [negb] in Hrun.
    set (tb1 := read_into t (bytes_at (peek d) ra t) (transaction_buffer obj)) in *.
    assert (length tb1 = length (transaction_buffer obj)) as Hlen1
      by (apply read_into_length; unfold strlen in *; lia).
    destruct (bd_program bd d wa t tb1) as [r1 d1] eqn:Hprog.
    destruct (is_success r1) eqn:Hr1; cbn [negb] in Hrun;
      [|injection Hrun as -> _ _; done].
    apply bool_decide_eq_true in Hr1 as ->.
    destruct (program_bytes bd peek Hrf _ _ _ _ _ Hprog ltac:(lia)
                ltac:(unfold strlen in *; lia)) as [Hnew Hold].
    unfold tb1 in Hnew. rewrite take_read_into, exactly_bytes_at in Hnew.
    rewrite (u32_small (ra + t)), (u32_small (wa + t)), (u32_small (n - t)) in Hrun by lia.
    apply IH in Hrun as (Hcopy & Hframe & Hrel & Hl); try done; try lia;
      [|cbn [transaction_buffer set_transaction_buffer transaction_buffer_size];
        unfold strlen in *; lia].
    split; [|split; [|split; [by etrans|done]]].
    + intros i Hi. destruct (decide (i < t)).
      * rewrite Hframe by lia.
        apply (bytes_at_eq_inv _ _ _ _ t); [lia|done|lia].
      * replace (wa + i) with (wa + t + (i - t)) by lia.
        rewrite Hcopy by lia. rewrite Hold by lia. f_equal. lia.
    + intros x Hx. rewrite Hframe by lia. apply Hold. lia.
  - injection Hrun as <- <-. split; [intros; lia|done].
Qed.

Lemma copy_record_ok d obj p src src_off dst dst_off h K Dat d' obj' next :
  (∀ x, bd_program_size bd x = p) → 0 < p →
  0 < transaction_buffer_size obj →
  strlen (transaction_buffer obj) = transaction_buffer_size obj →
  record_at (peek d) (src + src_off) h K Dat →
  sizeof_record_header + strlen K + strlen Dat + p ≤ 2 ^ 32 →
  0 ≤ src → 0 ≤ src_off → src + src_off + rec_size p (K, Dat) < 2 ^ 32 →
  0 ≤ dst → 0 ≤ dst_off ≤ _MTB_KVSTORE_AREA_SIZE obj →
  dst + _MTB_KVSTORE_AREA_SIZE obj < 2 ^ 32 →
  dst_off + rec_size p (K, Dat) < 2 ^ 32 →
  src + src_off + rec_size p (K, Dat) ≤ dst
  ∨ dst + _MTB_KVSTORE_AREA_SIZE obj ≤ src + src_off →
  _mtb_kvstore_copy_record bd d obj src src_off dst dst_off
  = Some (CY_RSLT_SUCCESS, d', obj', next) →
  next = dst_off + rec_size p (K, Dat)
  ∧ next ≤ _MTB_KVSTORE_AREA_SIZE obj
  ∧ (∀ i, 0 ≤ i < rec_size p (K, Dat) →
       peek d' (dst + dst_off + i) = peek d (src + src_off + i))
  ∧ (∀ x, ¬ (dst + dst_off ≤ x < dst + dst_off + rec_size p (K, Dat)) →
       peek d' x = peek d x)
  ∧ obj_rel obj' obj
  ∧ strlen (transaction_buffer obj') = transaction_buffer_size obj.
Proof.
  intros Hp Hp0 Htbs Hlen Hrec Hbound Hsrc Hsoff Hsend Hdst Hdoff Hdarea Hdend Hdisj Hrun.
  destruct (rec_size_bounds p (K, Dat) Hp0 Hbound) as (Hsz1 & Hsz2 & _).
  cbn [fst snd] in Hsz1, Hsz2.
  pose proof (strlen_nonneg K). pose proof (strlen_nonneg Dat).
  assert (0 < sizeof_record_header) by done.
  unfold _mtb_kvstore_copy_record in Hrun.
  rewrite (u32_small (src + src_off)), (u32_small (dst + dst_off)) in Hrun by lia.
  rewrite (rf_read _ _ Hrf), exactly_bytes_at in Hrun.
  rewrite is_success_true in Hrun. cbn [negb] in Hrun.
  destruct Hrec as [Hh _ _ Hrange _ _ Hksize Hdsize _ _].
  rewrite Hh, header_of_header_bytes in Hrun by done.
  rewrite Hksize, Hdsize in Hrun.
  rewrite (record_size_rec bd p _ (K, Dat)) in Hrun by (done || (cbn [fst snd]; lia)).
  rewrite (u32_small (dst_off + _)) in Hrun by lia.
  destruct (dst_off + rec_size p (K, Dat) >? _MTB_KVSTORE_AREA_SIZE obj) eqn:Hfit; [done|].
  destruct (copy_record_loop bd _ d obj (src + src_off) (dst + dst_off) _)
    as [[[r1 d1] o1]|] eqn:Hloop; cbn [mbind option_bind] in Hrun; [|done].
  destruct (is_success r1) eqn:Hr1; cbn [negb] in Hrun; [|by injection Hrun as -> _ _ _].
  apply bool_decide_eq_true in Hr1 as ->. injection Hrun as <- <- <-.
  apply copy_record_loop_ok in Hloop as (Hcopy & Hframe & Hrel & Hl); try done; try lia.
  split; [done|]. split; [lia|]. done.
Qed.

End Copy.

(** * The copy loop of the garbage collection *)

Lemma copied_size_nonneg f p area lo hi es m ri idx :
  Forall2 (entry_ok f p area lo hi) es m → 0 < p → 0 ≤ copied_size p ri idx m.
Proof.
  intros H Hp. revert idx. induction H as [|e kv es m He Hes IH]; intros idx; simpl; [lia|].
  destruct He as [_ _ Hbound _ _].
  destruct (rec_size_bounds p kv Hp Hbound) as (Hsz & _ & _).
  pose proof (strlen_nonneg kv.1). pose proof (strlen_nonneg kv.2).
  assert (0 < sizeof_record_header) by done.
  specialize (IH (idx + 1)). destruct (skipped ri idx); lia.
Qed.

Lemma set_ram_table_id obj : set_ram_table (ram_table obj) obj = obj.
Proof. by destruct obj. Qed.

Section CopyLoop.
Context {D : Type} (bd : mtb_kvstore_bd_t D) (peek : D → Z → Z).
Hypothesis Hrf : reliable_flash bd peek.

Lemma gc_copy_loop_ok p ri act gc A lo hi f0 suf msuf :
  Forall2 (entry_ok f0 p act lo hi) suf msuf →
  (∀ x, bd_program_size bd x = p) → 0 < p →
  0 ≤ act → 0 ≤ gc → 0 ≤ lo → hi ≤ A →
  act + A < 2 ^ 32 → gc + A < 2 ^ 32 → act + A ≤ gc ∨ gc + A ≤ act →
  ∀ d obj pre idx dst d' obj' dst',
  0 < transaction_buffer_size obj →
  strlen (transaction_buffer obj) = transaction_buffer_size obj →
  ram_table obj = pre ++ suf → idx = Z.of_nat (length pre) →
  active_area_addr obj = act → gc_area_addr obj = gc → _MTB_KVSTORE_AREA_SIZE obj = A →
  0 ≤ dst ≤ A →
  (∀ x, act + lo ≤ x < act + hi → peek d x = f0 x) →
  gc_copy_loop bd (length suf) idx d obj dst ri = Some (CY_RSLT_SUCCESS, d', obj', dst') →
  ∃ suf',
    obj_rel obj' (set_ram_table (pre ++ suf') obj)
    ∧ strlen (transaction_buffer obj') = transaction_buffer_size obj
    ∧ length suf' = length suf
    ∧ dst' = dst + copied_size p ri idx msuf ∧ dst' ≤ A
    ∧ (∀ x, ¬ (gc + dst ≤ x < gc + dst') → peek d' x = peek d x)
    ∧ ∀ (j : nat) e kv, suf !! j = Some e → msuf !! j = Some kv →
        ∃ e', suf' !! j = Some e'
              ∧ copied_entry (peek d') p gc dst dst' ri (idx + Z.of_nat j) e e' kv.
Proof.
  intros Hall Hp Hp0 Hact Hgc Hlo Hhi Hacttop Hgctop Hdisj.
  induction Hall as [|e kv suf msuf He Hsuf IH];
    intros d obj pre idx dst d' obj' dst' Htbs Hlen Htab Hidx Hoa Hog HA Hdst Hf0 Hrun.
  { simpl in Hrun. injection Hrun as <- <- <-. exists []. simpl.
    rewrite <- Htab, set_ram_table_id. split; [done|]. split; [done|]. split; [done|].
    split; [lia|]. split; [lia|]. split; [done|]. intros j e kv Hj. done. }
  cbn [length gc_copy_loop] in Hrun. cbn [copied_size].
  fold (skipped ri idx) in Hrun.
  assert (Hnext : ∀ pre1 (e1 : mtb_kvstore_ram_table_entry_t), length pre1 = length pre →
            idx + 1 = Z.of_nat (length (pre1 ++ [e1])))
    by (intros pre1 e1 Hl; rewrite length_app, Hl; simpl; lia).
  destruct (skipped ri idx) eqn:Hskip.
  - eapply (IH d obj (pre ++ [e]) (idx + 1)) in Hrun
      as (suf' & Hrel & Hl & Hlen' & Hdst' & HdA & Hframe & Hents); try done.
    + exists (e :: suf'). rewrite <- app_assoc in Hrel. split; [done|]. split; [done|].
      split; [simpl; lia|]. split; [lia|]. split; [done|]. split; [done|].
      intros [|j] e0 kv0 Hj Hm; simpl in Hj, Hm.
      * injection Hj as <-. injection Hm as <-. exists e. split; [done|].
        unfold copied_entry. by rewrite Z.add_0_r, Hskip.
      * destruct (Hents j e0 kv0 Hj Hm) as (e' & He' & Hce). exists e'. split; [done|].
        by replace (idx + Z.of_nat (S j)) with (idx + 1 + Z.of_nat j) by lia.
    + by rewrite <- app_assoc.
    + by apply Hnext.
  - assert (ram_table obj !! Z.to_nat idx = Some e) as Hlook.
    { rewrite Htab, Hidx, Nat2Z.id. by rewrite list_lookup_middle. }
    rewrite Hlook in Hrun. cbn [mbind option_bind] in Hrun.
    rewrite Hoa, Hog in Hrun.
    destruct (_mtb_kvstore_copy_record bd d obj act (offset e) gc dst)
      as [[[[r1 d1] o1] next]|] eqn:Hcopy; cbn [mbind option_bind] in Hrun; [|done].
    destruct (is_success r1) eqn:Hr1; cbn [negb] in Hrun; [|by injection Hrun as -> _ _ _].
    apply bool_decide_eq_true in Hr1 as ->.
    pose proof He as [(h & Hrec & Hcrc) Hhash Hbound Hlow Hhigh].
    destruct (rec_size_bounds p kv Hp0 Hbound) as (Hsz1 & Hsz2 & _).
    pose proof (strlen_nonneg kv.1). pose proof (strlen_nonneg kv.2).
    assert (0 < sizeof_record_header) by done.
    eapply (copy_record_ok bd peek Hrf) with (h := h) (K := kv.1) (Dat := kv.2) (p := p)
      in Hcopy as (Hnx & HnA & Hbytes & Hframe1 & Hrel1 & Hl1); try done; try lia;
      rewrite <- ?surjective_pairing; try lia.
    2:{ eapply record_at_ext; [done|]. intros x Hx. apply Hf0. lia. }
    rewrite <- surjective_pairing in Hbytes, Hframe1, Hnx.
    set (e1 := {| hash := hash e; offset := dst |}) in *.
    set (o2 := set_ram_table (<[Z.to_nat idx := e1]> (ram_table o1)) o1) in *.
    assert (ram_table o2 = (pre ++ [e1]) ++ suf) as Htab2.
    { unfold o2. cbn [ram_table set_ram_table]. rewrite (obj_rel_table _ _ Hrel1), Htab.
      rewrite Hidx, Nat2Z.id. rewrite <- app_assoc.
      replace (length pre) with (length pre + 0)%nat at 1 by lia.
      by rewrite insert_app_r. }
    pose proof (obj_rel_fields _ _ Hrel1) as (_ & Hol & _ & _ & Htbs1 & _ & Hoa1 & Hog1 & _).
    eapply (IH d1 o2 (pre ++ [e1]) (idx + 1)) in Hrun
      as (suf' & Hrel & Hl & Hlen' & Hdst' & HdA & Hframe & Hents); try done.
    + exists (e1 :: suf').
      pose proof (copied_size_nonneg _ _ _ _ _ _ _ ri (idx + 1) Hsuf Hp0) as Hcs.
      split; [|split; [|split; [|split; [|split; [|split]]]]].
      * rewrite <- app_assoc in Hrel. etrans; [exact Hrel|].
        unfold o2. apply (obj_rel_eq) in Hrel1. rewrite Hrel1. by destruct obj.
      * rewrite Hl. unfold o2. cbn [transaction_buffer_size set_ram_table]. done.
      * simpl. lia.
      * lia.
      * done.
      * intros x Hx. rewrite Hframe by lia. apply Hframe1. lia.
      * intros [|j] e0 kv0 Hj Hm; simpl in Hj, Hm.
        -- injection Hj as <-. injection Hm as <-. exists e1. split; [done|].
           unfold copied_entry. rewrite Z.add_0_r, Hskip. split; [done|].
           eapply (entry_ok_frame (peek d1) (peek d') p gc dst next dst'); [|done|lia|lia|].
           ++ eapply (entry_ok_move f0 (peek d1) p act gc lo dst hi next e dst kv);
                try done; try lia.
              intros i Hi. rewrite Hbytes by done. apply Hf0. lia.
           ++ intros x Hx. apply Hframe. lia.
        -- destruct (Hents j e0 kv0 Hj Hm) as (e' & He' & Hce). exists e'. split; [done|].
           replace (idx + Z.of_nat (S j)) with (idx + 1 + Z.of_nat j) by lia.
           unfold copied_entry in *. destruct (skipped ri (idx + 1 + Z.of_nat j)); [done|].
           destruct Hce as [Hh' Hok]. split; [done|].
           destruct Hok as [Hr' Hh'' Hb' Hlo' Hhi']. constructor; try done. lia.
    + unfold o2. cbn [transaction_buffer_size set_ram_table]. lia.
    + unfold o2. cbn [transaction_buffer transaction_buffer_size set_ram_table]. lia.
    + by apply Hnext.
    + unfold o2. cbn [active_area_addr set_ram_table]. lia.
    + unfold o2. cbn [gc_area_addr set_ram_table]. lia.
    + unfold o2, _MTB_KVSTORE_AREA_SIZE in *. cbn [obj_length set_ram_table]. by rewrite Hol.
    + lia.
    + intros x Hx. rewrite Hframe1 by lia. by apply Hf0.
Qed.

End CopyLoop.

(** * The garbage collection *)

Lemma anchor_ge p :
  0 < p < 2 ^ 32 →
  sizeof_record_header + strlen _mtb_kvstore_area_rec_key + sizeof_area_record_data
  ≤ anchor_size p.
Proof.
  intros Hp. unfold anchor_size.
  change (sizeof_record_header + strlen _mtb_kvstore_area_rec_key + sizeof_area_record_data)
    with 34.
  destruct (decide (34 + p ≤ 2 ^ 32)) as [Hs|Hl].
  - destruct (align_up_bounds 34 p) as [[? ?] ?]; lia.
  - unfold _mtb_kvstore_align_up. change (u32 (34 - 1)) with 33.
    rewrite Z.div_small by lia. change (u32 (0 + 1)) with 1.
    rewrite Z.mul_1_l, u32_small; lia.
Qed.

Lemma area_header_record_size {D : Type} (bd : mtb_kvstore_bd_t D) p a :
  (∀ x, bd_program_size bd x = p) →
  _mtb_kvstore_get_area_header_record_size bd a = anchor_size p.
Proof.
  intros Hp. unfold _mtb_kvstore_get_area_header_record_size, anchor_size.
  by apply record_size_exact.
Qed.

Lemma copied_size_none p idx m : copied_size p None idx m = live_size p m.
Proof. revert idx. induction m as [|kv m IH]; intros idx; simpl; [done|]. by rewrite IH. Qed.

Lemma copied_size_after p ri idx m :
  ri_ram_tbl_idx ri < idx → copied_size p (Some ri) idx m = live_size p m.
Proof.
  revert idx. induction m as [|kv m IH]; intros idx Hlt; simpl; [done|].
  rewrite IH by lia. assert ((idx =? ri_ram_tbl_idx ri) = false) as -> by lia. done.
Qed.

Lemma copied_size_skip p ri idx m (k : nat) old :
  m !! k = Some old → idx + Z.of_nat k = ri_ram_tbl_idx ri →
  copied_size p (Some ri) idx m = live_size p m - rec_size p old.
Proof.
  revert idx k. induction m as [|kv m IH]; intros idx k Hk Hidx; [done|].
  simpl. destruct k as [|k]; simpl in Hk.
  - injection Hk as ->. assert ((idx =? ri_ram_tbl_idx ri) = true) as -> by lia.
    rewrite copied_size_after by lia. lia.
  - assert ((idx =? ri_ram_tbl_idx ri) = false) as -> by lia.
    rewrite (IH (idx + 1) k) by (done || lia). lia.
Qed.

Lemma live_size_nonneg' p m : 0 ≤ live_size p m.
Proof.
  induction m as [|kv m IH]; simpl; [done|].
  assert (0 ≤ rec_size p kv) by (unfold rec_size, _mtb_kvstore_align_up; apply u32_range).
  lia.
Qed.

Lemma some4_inj {A B C E : Type} (a a' : A) (b b' : B) (c c' : C) (e e' : E) :
  Some (a, b, c, e) = Some (a', b', c', e') → a = a' ∧ b = b' ∧ c = c' ∧ e = e'.
Proof. by intros [= -> -> -> ->]. Qed.

Lemma some3_inj {A B C : Type} (a a' : A) (b b' : B) (c c' : C) :
  Some (a, b, c) = Some (a', b', c') → a = a' ∧ b = b' ∧ c = c'.
Proof. by intros [= -> -> ->]. Qed.

Lemma payload_ok_length data n : payload_ok data n → strlen (payload data n) = n.
Proof.
  intros [Hn Hd]. unfold payload, strlen in *. rewrite length_take.
  destruct data as [bytes|]; simpl in *; lia.
Qed.

Lemma geometry_areas {D : Type} (bd : mtb_kvstore_bd_t D) p obj :
  geometry bd p obj →
  0 < p < 2 ^ 32
  ∧ 0 ≤ active_area_addr obj ∧ 0 ≤ gc_area_addr obj
  ∧ active_area_addr obj + _MTB_KVSTORE_AREA_SIZE obj + p < 2 ^ 32
  ∧ gc_area_addr obj + _MTB_KVSTORE_AREA_SIZE obj + p < 2 ^ 32
  ∧ (active_area_addr obj + _MTB_KVSTORE_AREA_SIZE obj ≤ gc_area_addr obj
     ∨ gc_area_addr obj + _MTB_KVSTORE_AREA_SIZE obj ≤ active_area_addr obj)
  ∧ sizeof_record_header + strlen _mtb_kvstore_area_rec_key + sizeof_area_record_data
    ≤ anchor_size p
  ∧ anchor_size p ≤ _MTB_KVSTORE_AREA_SIZE obj.
Proof.
  intros [[_ Hp0 _ _ _] _ Hstart Hlength Htop Hareas Hanchor].
  assert (0 < p < 2 ^ 32) as Hp.
  { split; [done|]. assert (0 ≤ obj_length obj); [|lia].
    pose proof (anchor_ge 1 ltac:(lia)).
    assert (0 ≤ _MTB_KVSTORE_AREA_SIZE obj); [|lia].
    unfold _MTB_KVSTORE_AREA_SIZE in *.
    destruct (decide (0 ≤ obj_length obj / 2)); [done|].
    assert (0 ≤ anchor_size p); [|lia]. unfold anchor_size, _mtb_kvstore_align_up.
    apply u32_range. }
  pose proof (anchor_ge p Hp) as Hge.
  assert (sizeof_record_header + strlen _mtb_kvstore_area_rec_key + sizeof_area_record_data
          = 34) as H34 by done.
  rewrite H34 in *.
  destruct Hareas as [[-> ->]|[-> ->]]; repeat split; lia.
Qed.

Lemma geometry_fields {D : Type} (bd : mtb_kvstore_bd_t D) p obj obj' :
  geometry bd p obj →
  start_addr obj' = start_addr obj → obj_length obj' = obj_length obj →
  transaction_buffer_size obj' = transaction_buffer_size obj →
  strlen (transaction_buffer obj') = transaction_buffer_size obj →
  areas_ok obj' →
  geometry bd p obj'.
Proof.
  intros [[Hu Hp0 Htbs Hw Hl] Her Hstart Hlength Htop Hareas Hanchor] Hs Hol Ht Hl' Ha.
  unfold _MTB_KVSTORE_AREA_SIZE in *.
  constructor; unfold _MTB_KVSTORE_AREA_SIZE; rewrite ?Hs, ?Hol; try done.
  constructor; rewrite ?Ht; done.
Qed.

Lemma geometry_rel {D : Type} (bd : mtb_kvstore_bd_t D) p obj obj' :
  geometry bd p obj → obj_rel obj' obj →
  strlen (transaction_buffer obj') = transaction_buffer_size obj →
  geometry bd p obj'.
Proof.
  intros Hg Hrel Hl.
  pose proof (obj_rel_fields _ _ Hrel) as (Hs & Hol & _ & _ & Ht & _ & Ha & Hgc & _).
  eapply geometry_fields; try done.
  destruct Hg as [_ _ _ _ _ Hareas _]. unfold areas_ok, _MTB_KVSTORE_AREA_SIZE in *.
  by rewrite Hs, Hol, Ha, Hgc.
Qed.

Section Erase.
Context {D : Type} (bd : mtb_kvstore_bd_t D) (peek : D → Z → Z).
Hypothesis Hrf : reliable_flash bd peek.

Lemma erase_area_ok d obj area d' :
  0 ≤ area → area + _MTB_KVSTORE_AREA_SIZE obj < 2 ^ 32 →
  0 < bd_erase_size bd area ≤ _MTB_KVSTORE_AREA_SIZE obj →
  _mtb_kvstore_erase_area bd d obj area = (CY_RSLT_SUCCESS, d') →
  ∀ x, ¬ (area ≤ x < area + _MTB_KVSTORE_AREA_SIZE obj) → peek d' x = peek d x.
Proof.
  intros Harea Htop Hes Hrun x Hx. unfold _mtb_kvstore_erase_area in Hrun.
  set (es := bd_erase_size bd area) in *. set (A := _MTB_KVSTORE_AREA_SIZE obj) in *.
  destruct (es <? A) eqn:Hlt.
  - rewrite (u32_small (area + es)), (u32_small (A - es)) in Hrun by lia.
    destruct (bd_erase bd d (area + es) (A - es)) as [r1 d1] eqn:He1.
    destruct (is_success r1) eqn:Hr1; [|by injection Hrun as -> _].
    apply bool_decide_eq_true in Hr1 as ->.
    rewrite (rf_erase _ _ Hrf _ _ _ _ Hrun) by lia.
    rewrite (rf_erase _ _ Hrf _ _ _ _ He1) by lia. done.
  - rewrite is_success_true in Hrun.
    rewrite (rf_erase _ _ Hrf _ _ _ _ Hrun) by lia. done.
Qed.

End Erase.

#[global] Arguments gc_apply_pending : simpl never.
#[global] Arguments gc_commit : simpl never.
#[global] Arguments gc_copy_loop : simpl never.
#[global] Arguments _mtb_kvstore_erase_area : simpl never.

Lemma areas_ok_swap obj obj' :
  areas_ok obj → 0 ≤ _MTB_KVSTORE_AREA_SIZE obj →
  start_addr obj' = start_addr obj → obj_length obj' = obj_length obj →
  active_area_addr obj' = gc_area_addr obj → gc_area_addr obj' = active_area_addr obj →
  areas_ok obj'.
Proof.
  unfold areas_ok, _MTB_KVSTORE_AREA_SIZE. intros H HA -> -> -> ->. tauto.
Qed.

Lemma copied_hashes f p area lo hi ri idx es es' m :
  length es' = length es → length es = length m →
  (∀ (j : nat) e kv, es !! j = Some e → m !! j = Some kv →
     ∃ e', es' !! j = Some e'
           ∧ copied_entry f p area lo hi ri (idx + Z.of_nat j) e e' kv) →
  hash <$> es' = hash <$> es.
Proof.
  intros Hl Hlm Hall. apply list_eq. intros j. rewrite !list_lookup_fmap.
  destruct (es !! j) as [e|] eqn:He.
  - destruct (lookup_lt_is_Some_2 m j) as [kv Hkv].
    { rewrite <- Hlm. by eapply lookup_lt_Some. }
    destruct (Hall j e kv He Hkv) as (e' & -> & Hc). simpl. f_equal.
    unfold copied_entry in Hc. destruct (skipped ri (idx + Z.of_nat j)).
    + by subst.
    + by destruct Hc.
  - rewrite lookup_ge_None_2; [done|]. rewrite Hl. by apply lookup_ge_None_1.
Qed.

(** The stages of the garbage collection. *)
Lemma garbage_collection_stages {D : Type} (bd : mtb_kvstore_bd_t D) d obj record_info :
  _mtb_kvstore_garbage_collection bd d obj record_info
  = if match record_info with
       | Some ri =>
           match ri_update_rec_info ri with
           | Some _ =>
               u32 (u32 (consumed_size obj - old_record_size (ri_consumed_size_info ri))
                    + new_record_size (ri_consumed_size_info ri))
               >? _MTB_KVSTORE_AREA_SIZE obj
           | None => false
           end
       | None => false
       end
    then Some (MTB_KVSTORE_STORAGE_FULL_ERROR, d, obj)
    else
      let '(result, d) := _mtb_kvstore_erase_area bd d obj (gc_area_addr obj) in
      if negb (is_success result) then Some (result, d, obj)
      else
        '(result, d, obj, dst_offset) ←
          gc_copy_loop bd (length (ram_table obj)) 0 d obj
            (_mtb_kvstore_get_area_header_record_size bd (gc_area_addr obj)) record_info;
        if negb (is_success result) then Some (result, d, obj)
        else
          '(result, d, obj, dst_offset) ←
            gc_apply_pending bd result d obj dst_offset record_info;
          if negb (is_success result) then Some (result, d, obj)
          else gc_commit bd d obj dst_offset.
Proof. reflexivity. Qed.

Section Collection.
Context {D : Type} (bd : mtb_kvstore_bd_t D) (peek : D → Z → Z).
Hypothesis Hrf : reliable_flash bd peek.

Lemma gc_commit_ok p d obj dst m d' obj' :
  geometry bd p obj →
  Forall2 (entry_ok (peek d) p (gc_area_addr obj) (anchor_size p) dst) (ram_table obj) m →
  dst ≤ _MTB_KVSTORE_AREA_SIZE obj →
  gc_commit bd d obj dst = Some (CY_RSLT_SUCCESS, d', obj') →
  geometry bd p obj'
  ∧ active_area_addr obj' = gc_area_addr obj ∧ gc_area_addr obj' = active_area_addr obj
  ∧ _MTB_KVSTORE_AREA_SIZE obj' = _MTB_KVSTORE_AREA_SIZE obj
  ∧ ram_table obj' = ram_table obj ∧ consumed_size obj' = consumed_size obj
  ∧ free_space_offset obj' = dst
  ∧ Forall2 (entry_ok (peek d') p (gc_area_addr obj) (anchor_size p) dst) (ram_table obj) m
  ∧ ∀ x, ¬ (gc_area_addr obj ≤ x < gc_area_addr obj + anchor_size p) → peek d' x = peek d x.
Proof.
  intros Hgeo Hents Hdst Hrun.
  pose proof (geometry_areas bd p obj Hgeo)
    as (Hp & Hact & Hgc & Hacttop & Hgctop & Hdisj & H34 & HanchA).
  pose proof Hgeo as [Hbuf _ _ _ _ Hareas _].
  pose proof Hbuf as [Hu _ _ _ _].
  unfold gc_commit in Hrun.
  set (o1 := set_active_area_version _ obj) in *.
  change (gc_area_addr o1) with (gc_area_addr obj) in Hrun.
  destruct (_mtb_kvstore_write_area_record bd d o1 (gc_area_addr obj) (active_area_version o1))
    as [[[r2 d2] o2]|] eqn:Hw; cbn [mbind option_bind] in Hrun; [|done].
  destruct (is_success r2) eqn:Hr2; cbn [negb] in Hrun; [|by injection Hrun as -> _ _].
  apply bool_decide_eq_true in Hr2 as ->. injection Hrun as <- <-.
  unfold _mtb_kvstore_write_area_record in Hw.
  assert (sizeof_record_header + strlen _mtb_kvstore_area_rec_key + sizeof_area_record_data
          = 34) as E34 by done.
  assert (sizeof_record_header = 20) as Ehs by done.
  assert (strlen _mtb_kvstore_area_rec_key = 10) as Ekey by done.
  assert (sizeof_area_record_data = 4) as Edat by done.
  eapply (write_record_ok bd peek Hrf) with (p := p) in Hw
    as (_ & _ & Hframe & Hl & o & Hpost & Hrel);
    [|by destruct Hbuf|by rewrite Ekey|by rewrite Edat|done|done
     |unfold _MTB_KVSTORE_AREA_HEADER_OFFSET; lia].
  rewrite Z.add_0_r in Hframe.
  unfold _mtb_kvstore_get_record_size in Hframe. rewrite Hu in Hframe.
  rewrite Ekey, Ehs, Edat in Hframe. change (u32 (u32 (20 + 10) + 4)) with 34 in Hframe.
  fold (anchor_size p) in Hframe.
  replace (_mtb_kvstore_align_up 34 p) with (anchor_size p) in Hframe by done.
  unfold write_record_post in Hpost. cbn in Hpost. injection Hpost as <-.
  pose proof (obj_rel_fields _ _ Hrel)
    as (Hs & Hol & Htab & _ & Ht & _ & Ha & Hg & Hfso & _ & Hcons).
  cbn [transaction_buffer_size set_active_area_version o1] in Hl.
  split.
  { eapply geometry_fields; [exact Hgeo|done..|].
    eapply areas_ok_swap; [exact Hareas| |done..].
    unfold _MTB_KVSTORE_AREA_SIZE in *. lia. }
  split; [done|]. split; [done|].
  split; [unfold _MTB_KVSTORE_AREA_SIZE;
          cbn [obj_length set_areas set_free_space_offset]; by rewrite Hol|].
  split; [done|]. split; [done|]. split; [done|]. split; [|done].
  eapply list.Forall2_impl; [exact Hents|]. intros e kv He.
  eapply entry_ok_frame; [exact He|lia|lia|lia|].
  intros x Hx. apply Hframe. lia.
Qed.

Lemma gc_apply_pending_ok p d obj dst m ri d' obj' dst' :
  geometry bd p obj →
  length (ram_table obj) = length m → Z.of_nat (length m) < 2 ^ 32 →
  (∀ (j : nat) e kv, ram_table obj !! j = Some e → m !! j = Some kv →
     skipped ri (Z.of_nat j) = false →
     entry_ok (peek d) p (gc_area_addr obj) (anchor_size p) dst e kv) →
  Forall2 (λ e kv, hash e = key_hash kv.1) (ram_table obj) m →
  sorted_desc (ram_table obj) →
  dst = anchor_size p + copied_size p ri 0 m → dst ≤ _MTB_KVSTORE_AREA_SIZE obj →
  match ri with
  | Some ri =>
      info_ok p m ri ∧ consumed_size obj = anchor_size p + live_size p m
      ∧ (is_Some (ri_update_rec_info ri) →
         dst + new_record_size (ri_consumed_size_info ri) ≤ _MTB_KVSTORE_AREA_SIZE obj)
  | None => True
  end →
  gc_apply_pending bd CY_RSLT_SUCCESS d obj dst ri = Some (CY_RSLT_SUCCESS, d', obj', dst') →
  geometry bd p obj'
  ∧ active_area_addr obj' = active_area_addr obj ∧ gc_area_addr obj' = gc_area_addr obj
  ∧ _MTB_KVSTORE_AREA_SIZE obj' = _MTB_KVSTORE_AREA_SIZE obj
  ∧ Forall2 (entry_ok (peek d') p (gc_area_addr obj) (anchor_size p) dst')
            (ram_table obj') (gc_contents ri m)
  ∧ sorted_desc (ram_table obj')
  ∧ dst' = anchor_size p + live_size p (gc_contents ri m)
  ∧ dst' ≤ _MTB_KVSTORE_AREA_SIZE obj
  ∧ consumed_size obj' = match ri with
                         | Some _ => anchor_size p + live_size p (gc_contents ri m)
                         | None => consumed_size obj
                         end
  ∧ ∀ x, ¬ (gc_area_addr obj + dst ≤ x < gc_area_addr obj + dst') → peek d' x = peek d x.
Proof.
  intros Hgeo Hlen Hnum Hents Hhash Hsorted Hdst HdstA Hinfo Hrun.
  pose proof (geometry_areas bd p obj Hgeo)
    as (Hp & Hact & Hgc & Hacttop & Hgctop & Hdisj & H34 & HanchA).
  pose proof Hgeo as [Hbuf _ _ _ _ Hareas _].
  assert (sizeof_record_header + strlen _mtb_kvstore_area_rec_key + sizeof_area_record_data
          = 34) as E34 by done.
  unfold gc_apply_pending in Hrun.
  destruct ri as [ri|].
  2:{ injection Hrun as <- <- <-. rewrite copied_size_none in Hdst.
      cbn [gc_contents]. repeat (split; [done|]).
      split; [|done].
      apply Forall2_same_length_lookup_2; [done|]. intros j e kv He Hkv.
      by apply (Hents j). }
  destruct Hinfo as ((old & Hidx & Hold & Hosz & Hupd) & Hacc & Hfit).
  set (idx := Z.to_nat (ri_ram_tbl_idx ri)) in *.
  rewrite (copied_size_skip p ri 0 m idx old) in Hdst by (done || lia).
  assert (0 ≤ live_size p m - rec_size p old) as Hrest.
  { rewrite (live_size_split p m idx old Hold).
    pose proof (live_size_nonneg' p (take idx m)).
    pose proof (live_size_nonneg' p (drop (S idx) m)). lia. }
  assert (idx < length m)%nat as Hidxlt by (by eapply lookup_lt_Some).
  assert (∀ j : nat, skipped (Some ri) (Z.of_nat j) = bool_decide (j = idx)) as Hskip.
  { intros j. cbn [skipped]. unfold idx.
    destruct (decide (j = Z.to_nat (ri_ram_tbl_idx ri))) as [->|Hne].
    - rewrite bool_decide_eq_true_2 by done. apply Z.eqb_eq. lia.
    - rewrite bool_decide_eq_false_2 by done. apply Z.eqb_neq. lia. }
  assert (0 < anchor_size p ≤ dst) as Hdst0 by lia.
  destruct (ri_update_rec_info ri) as [u|] eqn:Hu.
  - (* the pending update *)
    destruct Hupd as (Hkey & Hklen & Hkh & Hpay & Hbound & Hnew).
    specialize (Hfit ltac:(done)).
    pose proof (payload_ok_length _ _ Hpay) as Hpl.
    pose proof Hpay as [Hsz0 _].
    set (kv := (upd_key u, payload (upd_data u) (upd_data_size u))) in *.
    destruct (rec_size_bounds p kv ltac:(lia)) as (Hsz1 & Hsz2 & _);
      [cbn [fst snd kv]; lia|]. cbn [fst snd kv] in Hsz1, Hsz2. fold kv in Hsz1, Hsz2.
    rewrite Hpl in Hsz1, Hsz2.
    destruct (_mtb_kvstore_write_record bd d obj (gc_area_addr obj) dst (upd_key u)
                (upd_data u) (upd_data_size u) _MTB_KVSTORE_OPER_UPDATE _ _)
      as [[[r1 d1] o1]|] eqn:Hw; cbn [mbind option_bind] in Hrun; [|done].
    destruct (is_success r1) eqn:Hr1; cbn [negb] in Hrun; [|by injection Hrun as -> _ _ _].
    apply bool_decide_eq_true in Hr1 as ->. injection Hrun as <- <- <-.
    eapply (write_record_ok bd peek Hrf) with (p := p) in Hw
      as (Hrec & Hcrc & Hframe & Hl & o & Hpost & Hrel); try done; try lia.
    unfold write_record_post in Hpost.
    assert ((dst =? _MTB_KVSTORE_AREA_HEADER_OFFSET) = false) as Hnz
      by (apply Z.eqb_neq; unfold _MTB_KVSTORE_AREA_HEADER_OFFSET; lia).
    rewrite Hnz in Hpost. cbn [negb] in Hpost. injection Hpost as <-.
    pose proof Hbuf as [Hunif _ _ _ _].
    rewrite (record_size_exact bd p) in Hframe by (done || lia).
    assert (rec_size p kv
            = _mtb_kvstore_align_up
                (sizeof_record_header + strlen (upd_key u) + upd_data_size u) p) as Hrs
      by (unfold rec_size; cbn [fst snd kv]; by rewrite Hpl).
    rewrite <- Hrs, <- Hnew in Hframe.
    assert (0 < sizeof_record_header) as Hhs0 by done.
    rewrite u32_small by lia.
    pose proof (obj_rel_fields _ _ Hrel)
      as (Hs & Hol & Htab & _ & Ht & _ & Ha & Hg & Hfso & _ & Hcons).
    cbn in Hs, Hol, Htab, Ht, Ha, Hg, Hcons. fold idx in Htab.
    cbn [gc_contents]. rewrite Hu. fold idx kv.
    assert (live_size p (<[idx := kv]> m) = live_size p m - rec_size p old + rec_size p kv)
      as Hlive by apply (live_size_update p m idx kv old Hold).
    split; [eapply geometry_fields; [exact Hgeo|done..|]|].
    { unfold areas_ok, _MTB_KVSTORE_AREA_SIZE in *. by rewrite Hs, Hol, Ha, Hg. }
    split; [done|]. split; [done|].
    split; [unfold _MTB_KVSTORE_AREA_SIZE; by rewrite Hol|].
    split.
    { rewrite Htab. apply Forall2_same_length_lookup_2.
      { by rewrite !length_insert. }
      intros j e kv0.
      intros [(Hj1 & <- & _)|[Hne He]]%list_lookup_insert_Some
             [(Hj2 & <- & _)|[Hne2 Hkv0]]%list_lookup_insert_Some; try done.
      - constructor; cbn [hash offset fst snd kv]; try done; try lia.
        by exists (_mtb_kvstore_setup_record_header (upd_key u) (upd_data u)
                     (upd_data_size u) _MTB_KVSTORE_FORMAT_VERSION _MTB_KVSTORE_OPER_UPDATE).
      - eapply entry_ok_frame; [apply (Hents j e kv0 He Hkv0)|lia|lia|lia|].
        + rewrite Hskip. by apply bool_decide_eq_false_2.
        + intros x Hx. apply Hframe. lia. }
    split.
    { rewrite Htab.
      destruct (lookup_lt_is_Some_2 (ram_table obj) idx ltac:(lia)) as [e0 He0].
      apply (sorted_desc_update (ram_table obj) idx _ e0 Hsorted He0). cbn [hash].
      pose proof (Forall2_lookup_lr _ _ _ _ _ _ Hhash He0 Hold) as Hh0. cbn beta in Hh0.
      by rewrite Hkh, Hkey, Hh0. }
    split; [lia|]. split; [lia|].
    split.
    { rewrite Hcons, Hosz, Hnew, Hlive.
      rewrite (u32_small (consumed_size obj - rec_size p old)) by lia.
      rewrite u32_small by lia. lia. }
    intros x Hx. apply Hframe. lia.
  - (* the pending deletion *)
    cbv zeta in Hrun. apply some4_inj in Hrun as (_ & <- & <- & <-).
    rewrite update_ram_table_op; cbn [ram_tbl_idx entry];
      [|done|unfold num_entries; lia|unfold num_entries; lia].
    fold idx. unfold table_op.
    cbn [gc_contents]. rewrite Hu. fold idx.
    assert (live_size p (delete idx m) = live_size p m - rec_size p old) as Hlive
      by apply (live_size_delete p m idx old old Hold).
    split; [eapply geometry_fields;
              [exact Hgeo|done|done|done|by destruct Hbuf|exact Hareas]|].
    split; [done|]. split; [done|]. split; [done|].
    split.
    { cbn. apply Forall2_same_length_lookup_2.
      { rewrite !length_delete; [lia|by rewrite Hold|apply lookup_lt_is_Some_2; lia]. }
      intros j e kv. rewrite !list_lookup_delete. intros He Hkv.
      case_decide.
      - apply (Hents j e kv He Hkv). rewrite Hskip. apply bool_decide_eq_false_2. lia.
      - apply (Hents (S j) e kv He Hkv). rewrite Hskip. apply bool_decide_eq_false_2. lia. }
    split; [cbn; by apply (sorted_desc_delete _ idx Hsorted {| hash := 0; offset := 0 |})|].
    split; [lia|]. split; [lia|].
    split; [|done].
    cbn. rewrite Hosz, Hacc, Hlive. rewrite u32_small by lia. lia.
Qed.

Lemma garbage_collection_ok p d obj m ri hi d' obj' :
  geometry bd p obj →
  Forall2 (entry_ok (peek d) p (active_area_addr obj) (anchor_size p) hi)
          (ram_table obj) m →
  hi ≤ _MTB_KVSTORE_AREA_SIZE obj →
  sorted_desc (ram_table obj) → Z.of_nat (length m) < 2 ^ 32 →
  pending_ok p obj m ri →
  _mtb_kvstore_garbage_collection bd d obj ri = Some (CY_RSLT_SUCCESS, d', obj') →
  geometry bd p obj'
  ∧ active_area_addr obj' = gc_area_addr obj ∧ gc_area_addr obj' = active_area_addr obj
  ∧ _MTB_KVSTORE_AREA_SIZE obj' = _MTB_KVSTORE_AREA_SIZE obj
  ∧ Forall2 (entry_ok (peek d') p (active_area_addr obj') (anchor_size p)
                      (free_space_offset obj'))
            (ram_table obj') (gc_contents ri m)
  ∧ sorted_desc (ram_table obj')
  ∧ free_space_offset obj' = anchor_size p + live_size p (gc_contents ri m)
  ∧ free_space_offset obj' ≤ _MTB_KVSTORE_AREA_SIZE obj
  ∧ consumed_size obj' = match ri with
                         | Some _ => anchor_size p + live_size p (gc_contents ri m)
                         | None => consumed_size obj
                         end
  ∧ ∀ x, ¬ (gc_area_addr obj ≤ x < gc_area_addr obj + _MTB_KVSTORE_AREA_SIZE obj) →
         peek d' x = peek d x.
Proof.
  intros Hgeo Hents Hhi Hsorted Hnum Hpend Hrun.
  pose proof (geometry_areas bd p obj Hgeo)
    as (Hp & Hact & Hgc & Hacttop & Hgctop & Hdisj & H34 & HanchA).
  pose proof Hgeo as [Hbuf Her _ _ _ Hareas _].
  pose proof Hbuf as [Hunif _ Htbs _ Hlen].
  assert (MTB_KVSTORE_MAX_KEY_SIZE = 64) as Hmax by done.
  assert (sizeof_record_header + strlen _mtb_kvstore_area_rec_key + sizeof_area_record_data
          = 34) as E34 by done.
  assert (0 < sizeof_record_header) as Hhs0 by done.
  pose proof (list.Forall2_length _ _ _ Hents) as Hlenm.
  rewrite garbage_collection_stages in Hrun.
  match type of Hrun with (if ?c then _ else _) = _ => destruct c eqn:Hfull end; [done|].
  destruct (_mtb_kvstore_erase_area bd d obj (gc_area_addr obj)) as [r1 d1] eqn:Herase.
  destruct (is_success r1) eqn:Hr1; cbn [negb] in Hrun; [|by injection Hrun as -> _ _].
  apply bool_decide_eq_true in Hr1 as ->.
  pose proof (erase_area_ok bd peek Hrf d obj (gc_area_addr obj) d1 Hgc ltac:(lia)
                (Her _) Herase) as Hframe1.
  rewrite (area_header_record_size bd p) in Hrun by done.
  destruct (gc_copy_loop bd (length (ram_table obj)) 0 d1 obj (anchor_size p) ri)
    as [[[[r2 d2] o2] dst2]|] eqn:Hloop; cbn [mbind option_bind] in Hrun; [|done].
  destruct (is_success r2) eqn:Hr2; cbn [negb] in Hrun; [|by injection Hrun as -> _ _].
  apply bool_decide_eq_true in Hr2 as ->.
  eapply (gc_copy_loop_ok bd peek Hrf p ri (active_area_addr obj) (gc_area_addr obj)
            (_MTB_KVSTORE_AREA_SIZE obj) (anchor_size p) hi (peek d) _ _ Hents)
    with (pre := []) in Hloop
    as (es' & Hrel2 & Hl2 & Hlen2 & Hdst2 & Hdst2A & Hframe2 & Hents2);
    try done; try lia.
  2:{ intros x Hx. apply Hframe1. lia. }
  cbn [app] in Hrel2. cbn [Z.of_nat length Z.add] in Hdst2, Hents2.
  pose proof (obj_rel_fields _ _ Hrel2)
    as (Hs2 & Hol2 & Htab2 & _ & Ht2 & _ & Ha2 & Hg2 & Hfso2 & _ & Hcons2).
  cbn in Hs2, Hol2, Htab2, Ht2, Ha2, Hg2, Hfso2, Hcons2.
  assert (_MTB_KVSTORE_AREA_SIZE o2 = _MTB_KVSTORE_AREA_SIZE obj) as HA2
    by (unfold _MTB_KVSTORE_AREA_SIZE; by rewrite Hol2).
  assert (geometry bd p o2) as Hgeo2.
  { eapply geometry_fields; [exact Hgeo|done..|].
    unfold areas_ok, _MTB_KVSTORE_AREA_SIZE in *. by rewrite Hs2, Hol2, Ha2, Hg2. }
  assert (∀ (j : nat) e' kv, es' !! j = Some e' → m !! j = Some kv →
            ∃ e, ram_table obj !! j = Some e ∧ hash e' = hash e
                 ∧ hash e = key_hash kv.1
                 ∧ (skipped ri (Z.of_nat j) = false →
                    entry_ok (peek d2) p (gc_area_addr obj) (anchor_size p) dst2 e' kv))
    as Hcopied.
  { intros j e' kv He' Hkv.
    destruct (lookup_lt_is_Some_2 (ram_table obj) j) as [e He].
    { rewrite <- Hlen2. by eapply lookup_lt_Some. }
    destruct (Hents2 j e kv He Hkv) as (e'' & He'' & Hc).
    rewrite He' in He''. injection He'' as <-.
    exists e. split; [done|].
    pose proof (Forall2_lookup_lr _ _ _ _ _ _ Hents He Hkv) as [_ Hh _ _ _].
    unfold copied_entry in Hc. rewrite Z.add_0_l in Hc.
    destruct (skipped ri (Z.of_nat j)).
    - subst e'. done.
    - destruct Hc as [Hh' Hok]. done. }
  destruct (gc_apply_pending bd CY_RSLT_SUCCESS d2 o2 dst2 ri) as [[[[r3 d3] o3] dst3]|] eqn:Hpendrun;
    cbn [mbind option_bind] in Hrun; [|done].
  destruct (is_success r3) eqn:Hr3; cbn [negb] in Hrun; [|by injection Hrun as -> _ _].
  apply bool_decide_eq_true in Hr3 as ->.
  eapply (gc_apply_pending_ok p d2 o2 dst2 m ri) in Hpendrun
    as (Hgeo3 & Ha3 & Hg3 & HA3 & Hents3 & Hsorted3 & Hdst3 & Hdst3A & Hcons3 & Hframe3);
    [|exact Hgeo2|rewrite Htab2; lia|done| | | |done|by rewrite HA2|].
  2:{ intros j e' kv He' Hkv Hskip. rewrite Htab2 in He'. rewrite Hg2.
      destruct (Hcopied j e' kv He' Hkv) as (e & _ & _ & _ & Hok). by apply Hok. }
  2:{ rewrite Htab2. apply Forall2_same_length_lookup_2; [lia|].
      intros j e' kv He' Hkv.
      destruct (Hcopied j e' kv He' Hkv) as (e & _ & Hh1 & Hh2 & _). by rewrite Hh1. }
  2:{ rewrite Htab2. eapply sorted_desc_hashes; [|exact Hsorted].
      eapply copied_hashes; [exact Hlen2|exact Hlenm|exact Hents2]. }
  2:{ destruct ri as [ri|]; [|done].
      destruct Hpend as (Hinfo & Hacc & HcA & Hfits).
      split; [done|]. split; [by rewrite Hcons2|].
      intros [u Hu]. rewrite HA2. rewrite Hu in Hfull.
      destruct Hinfo as (old & Hidx & Hold & Hosz & Hupd). rewrite Hu in Hupd.
      destruct Hupd as (Hkey & Hklen & Hkh & Hpay & Hbound & Hnew).
      specialize (Hfits u Hu).
      rewrite (copied_size_skip p ri 0 m (Z.to_nat (ri_ram_tbl_idx ri)) old) in Hdst2
        by (done || lia).
      pose proof (payload_ok_length _ _ Hpay) as Hpl.
      destruct (rec_size_bounds p (upd_key u, payload (upd_data u) (upd_data_size u))
                  ltac:(lia)) as (Hsz1 & Hsz2 & _); [cbn [fst snd]; lia|].
      cbn [fst snd] in Hsz1, Hsz2. rewrite Hpl in Hsz1, Hsz2.
      assert (0 ≤ live_size p m - rec_size p old) as Hrest.
      { rewrite (live_size_split p m _ old Hold).
        pose proof (live_size_nonneg' p (take (Z.to_nat (ri_ram_tbl_idx ri)) m)).
        pose proof (live_size_nonneg' p (drop (S (Z.to_nat (ri_ram_tbl_idx ri))) m)). lia. }
      rewrite Hosz, Hnew, Hacc in Hfull.
      rewrite (u32_small (anchor_size p + live_size p m - rec_size p old)) in Hfull by lia.
      pose proof Hpay as [Hsz0 _].
      rewrite u32_small in Hfull by lia. lia. }
  eapply (gc_commit_ok p d3 o3 dst3 (gc_contents ri m)) in Hrun
    as (Hgeo4 & Ha4 & Hg4 & HA4 & Htab4 & Hcons4 & Hfso4 & Hents4 & Hframe4);
    [|exact Hgeo3|by rewrite Hg3|by rewrite HA3].
  rewrite Hg3, Hg2 in Ha4, Hents4, Hframe4.
  rewrite Ha3, Ha2 in Hg4. rewrite HA3, HA2 in HA4.
  assert (anchor_size p ≤ dst2) as Hlo2.
  { rewrite Hdst2. pose proof (copied_size_nonneg _ _ _ _ _ _ _ ri 0 Hents ltac:(lia)). lia. }
  assert (dst2 ≤ dst3) as Hlo3.
  { destruct ri as [ri|]; [|rewrite Hdst2, Hdst3, copied_size_none; done].
    destruct Hpend as ((old & Hidx & Hold & Hosz & Hupd) & _).
    rewrite (copied_size_skip p ri 0 m (Z.to_nat (ri_ram_tbl_idx ri)) old) in Hdst2
      by (done || lia).
    rewrite Hdst2, Hdst3. cbn [gc_contents].
    destruct (ri_update_rec_info ri) as [u|].
    - pose proof (live_size_update p m (Z.to_nat (ri_ram_tbl_idx ri))
                    (upd_key u, payload (upd_data u) (upd_data_size u)) old Hold) as Hlu.
      unfold table_op in Hlu. rewrite Hlu.
      assert (0 ≤ rec_size p (upd_key u, payload (upd_data u) (upd_data_size u)))
        by (unfold rec_size, _mtb_kvstore_align_up; apply u32_range). lia.
    - pose proof (live_size_delete p m (Z.to_nat (ri_ram_tbl_idx ri)) old old Hold) as Hld.
      unfold table_op in Hld. rewrite Hld. lia. }
  split; [done|]. split; [done|]. split; [done|]. split; [done|].
  split; [by rewrite Ha4, Hfso4, Htab4|].
  split; [by rewrite Htab4|]. split; [by rewrite Hfso4|].
  split; [by rewrite Hfso4, <- HA2|].
  split.
  { rewrite Hcons4, Hcons3. destruct ri; [done|]. done. }
  intros x Hx. rewrite Hframe4 by lia. rewrite Hframe3 by lia.
  rewrite Hframe2 by lia. apply Hframe1. lia.
Qed.

End Collection.

(** * Writing and deleting in a store that satisfies the invariant *)

#[global] Arguments write_operation : simpl never.
#[global] Arguments _mtb_kvstore_update_ram_table : simpl never.
#[global] Arguments _mtb_kvstore_update_consumed_size : simpl never.
#[global] Arguments _mtb_kvstore_increment_max_keys : simpl never.

Lemma store_ok_rel {D : Type} (bd : mtb_kvstore_bd_t D) p f obj obj' m :
  store_ok bd p f obj m → obj_rel obj' obj →
  strlen (transaction_buffer obj') = transaction_buffer_size obj →
  store_ok bd p f obj' m.
Proof.
  intros [Hgeo Hents Hsorted Hkeys Hcons Hfree] Hrel Hl.
  pose proof (obj_rel_fields _ _ Hrel)
    as (Hs & Hol & Htab & _ & Ht & _ & Ha & Hg & Hfso & _ & Hc).
  constructor; unfold _MTB_KVSTORE_AREA_SIZE in *;
    rewrite ?Htab, ?Ha, ?Hfso, ?Hc, ?Hol; try done.
  by eapply geometry_rel.
Qed.

Lemma store_ok_max_entries {D : Type} (bd : mtb_kvstore_bd_t D) p f obj m v :
  store_ok bd p f obj m → store_ok bd p f (set_max_entries v obj) m.
Proof.
  intros [Hgeo Hents Hsorted Hkeys Hcons Hfree]. constructor; try done.
  eapply geometry_fields; [exact Hgeo|done..| |by destruct Hgeo].
  by destruct Hgeo as [[] _ _ _ _ _ _].
Qed.

Lemma store_hashes {D : Type} (bd : mtb_kvstore_bd_t D) p f obj m :
  store_ok bd p f obj m → Forall2 (λ e kv, hash e = key_hash kv.1) (ram_table obj) m.
Proof.
  intros [_ Hents _ _ _ _]. eapply list.Forall2_impl; [exact Hents|].
  by intros e kv [_ ? _ _ _].
Qed.

Lemma store_bounds {D : Type} (bd : mtb_kvstore_bd_t D) p f obj m :
  store_ok bd p f obj m →
  Z.of_nat (length m) < 2 ^ 32 ∧ length (ram_table obj) = length m
  ∧ 0 ≤ live_size p m.
Proof.
  intros [Hgeo Hents _ _ Hcons Hfree].
  pose proof (geometry_areas bd p obj Hgeo) as (Hp & _ & Hgc & _ & Hgctop & _ & H34 & _).
  pose proof (entries_length _ _ _ _ _ _ _ Hents ltac:(lia)) as Hn.
  pose proof (list.Forall2_length _ _ _ Hents).
  assert (sizeof_record_header + strlen _mtb_kvstore_area_rec_key + sizeof_area_record_data
          = 34) as E34 by done.
  split; [lia|]. split; [done|]. apply live_size_nonneg'.
Qed.

Lemma update_consumed_size_fields o op si :
  let o' := _mtb_kvstore_update_consumed_size o op si in
  start_addr o' = start_addr o ∧ obj_length o' = obj_length o
  ∧ ram_table o' = ram_table o
  ∧ transaction_buffer_size o' = transaction_buffer_size o
  ∧ active_area_addr o' = active_area_addr o ∧ gc_area_addr o' = gc_area_addr o
  ∧ free_space_offset o' = free_space_offset o
  ∧ consumed_size o'
    = match op with
      | _MTB_KVSTORE_OPER_ADD => u32 (consumed_size o + new_record_size si)
      | _MTB_KVSTORE_OPER_DELETE => u32 (consumed_size o - old_record_size si)
      | _MTB_KVSTORE_OPER_UPDATE =>
          u32 (u32 (consumed_size o - old_record_size si) + new_record_size si)
      end.
Proof. by destruct op. Qed.

Lemma some3_inj_pair {A B C : Type} (a a' : A) (b b' : B) (c c' : C) :
  (a, b, c) = (a', b', c') → a = a' ∧ b = b' ∧ c = c'.
Proof. by intros [= -> -> ->]. Qed.

Lemma old_size_bounds p m (i : nat) kv :
  m !! i = Some kv → 0 ≤ rec_size p kv ≤ live_size p m.
Proof.
  intros Hi. pose proof (live_size_split p m _ _ Hi).
  pose proof (live_size_nonneg' p (take i m)).
  pose proof (live_size_nonneg' p (drop (S i) m)).
  assert (0 ≤ rec_size p kv) by (unfold rec_size, _mtb_kvstore_align_up; apply u32_range).
  lia.
Qed.

Section WritePath.
Context {D : Type} (bd : mtb_kvstore_bd_t D) (peek : D → Z → Z).
Hypothesis Hrf : reliable_flash bd peek.

(** The lookup, for a key of valid length. *)
Lemma store_find p d obj m key dsz :
  store_ok bd p (peek d) obj m → strlen key < 2 ^ 32 →
  ∃ obj',
    _mtb_kvstore_find_record_in_ram_table bd d obj key dsz
    = Some ((find_spec key (key_hash key) (ram_table obj) m 0 dsz).1.1, obj',
            (find_spec key (key_hash key) (ram_table obj) m 0 dsz).1.2, key_hash key,
            (find_spec key (key_hash key) (ram_table obj) m 0 dsz).2)
    ∧ obj_rel obj' obj
    ∧ strlen (transaction_buffer obj') = transaction_buffer_size obj.
Proof.
  intros Hok Hkey. pose proof Hok as [Hgeo Hents _ _ _ _].
  pose proof (geometry_areas bd p obj Hgeo) as (Hp & Hact & _ & _ & _ & _ & H34 & _).
  pose proof Hgeo as [[_ _ Htbs _ Hlen] _ _ _ _ _ _].
  assert (sizeof_record_header + strlen _mtb_kvstore_area_rec_key + sizeof_area_record_data
          = 34) as E34 by done.
  unfold _mtb_kvstore_find_record_in_ram_table. fold (key_hash key).
  destruct (find_record_loop_ok bd peek Hrf d key (key_hash key) p _ _ _ _ _ Hents
              obj 0 dsz) as (o1 & -> & Hrel & Hl); try done; try lia.
  exists o1. done.
Qed.

(** A record written at [free_space_offset]. *)
Lemma write_direct_ok p d obj m key data size op idx old_size d' obj' :
  store_ok bd p (peek d) obj m →
  0 < strlen key < MTB_KVSTORE_MAX_KEY_SIZE → payload_ok data size →
  sizeof_record_header + strlen key + size ≤ _MTB_KVSTORE_AREA_SIZE obj →
  op_ok p op key idx old_size m →
  let kv := (key, payload data size) in
  free_space_offset obj + rec_size p kv ≤ _MTB_KVSTORE_AREA_SIZE obj →
  _mtb_kvstore_write_record bd d obj (active_area_addr obj) (free_space_offset obj)
    key data size op
    (Some {| ram_tbl_idx := idx;
             entry := {| hash := key_hash key; offset := free_space_offset obj |} |})
    (Some {| old_record_size := old_size; new_record_size := rec_size p kv |})
  = Some (CY_RSLT_SUCCESS, d', obj') →
  store_ok bd p (peek d')
    (set_free_space_offset (u32 (free_space_offset obj' + rec_size p kv)) obj')
    (table_op op (Z.to_nat idx) kv m).
Proof.
  intros Hok Hklen Hpay Hfits [Hidx Hop] kv Hroom Hw.
  pose proof Hok as [Hgeo Hents Hsorted Hkeys Hcons Hfree].
  pose proof (store_bounds bd p _ obj m Hok) as (Hnum & Hlenm & Hlive).
  pose proof (store_hashes bd p _ obj m Hok) as Hhashes.
  pose proof (geometry_areas bd p obj Hgeo)
    as (Hp & Hact & Hgc & Hacttop & Hgctop & Hdisj & H34 & HanchA).
  pose proof Hgeo as [Hbuf _ _ _ _ Hareas _].
  pose proof Hbuf as [Hunif _ Htbs _ Hlen].
  assert (sizeof_record_header + strlen _mtb_kvstore_area_rec_key + sizeof_area_record_data
          = 34) as E34 by done.
  assert (0 < sizeof_record_header) as Hhs0 by done.
  pose proof (payload_ok_length _ _ Hpay) as Hpl.
  pose proof Hpay as [Hsz0 _].
  destruct (rec_size_bounds p kv ltac:(lia)) as (Hsz1 & Hsz2 & _);
    [cbn [fst snd kv]; lia|]. cbn [fst snd kv] in Hsz1, Hsz2. rewrite Hpl in Hsz1, Hsz2.
  fold kv in Hsz1, Hsz2.
  set (fso := free_space_offset obj) in *. set (A := _MTB_KVSTORE_AREA_SIZE obj) in *.
  eapply (write_record_ok bd peek Hrf) with (p := p) in Hw
    as (Hrec & Hcrc & Hframe & Hl & o & Hpost & Hrel); try done; try lia.
  unfold write_record_post in Hpost.
  assert ((fso =? _MTB_KVSTORE_AREA_HEADER_OFFSET) = false) as Hnz
    by (apply Z.eqb_neq; unfold _MTB_KVSTORE_AREA_HEADER_OFFSET; lia).
  rewrite Hnz in Hpost. cbn [negb] in Hpost. apply (inj Some) in Hpost as <-.
  rewrite (record_size_exact bd p) in Hframe by (done || lia).
  assert (rec_size p kv
          = _mtb_kvstore_align_up (sizeof_record_header + strlen key + size) p) as Hrs
    by (unfold rec_size; cbn [fst snd kv]; by rewrite Hpl).
  rewrite <- Hrs in Hframe.
  assert (∃ old_live, live_size p (table_op op (Z.to_nat idx) kv m)
                      = live_size p m - old_live + (if decide (op = _MTB_KVSTORE_OPER_DELETE)
                                                    then 0 else rec_size p kv)
                      ∧ old_size = old_live ∧ 0 ≤ old_live ≤ live_size p m
                      ∧ (op = _MTB_KVSTORE_OPER_DELETE →
                         idx < Z.of_nat (length (ram_table obj))))
    as (old_live & Hlive' & Hold_size & Hold_live & Hdel).
  { destruct op.
    - destruct Hop as (_ & _ & -> & _). exists 0. rewrite live_size_add.
      rewrite decide_False by done. repeat split; try done; lia.
    - destruct Hop as (old & Hold & ->). exists (rec_size p (key, old)).
      rewrite (live_size_delete p m _ kv _ Hold). rewrite decide_True by done.
      pose proof (live_size_split p m _ _ Hold).
      pose proof (live_size_nonneg' p (take (Z.to_nat idx) m)).
      pose proof (live_size_nonneg' p (drop (S (Z.to_nat idx)) m)).
      assert (0 ≤ rec_size p (key, old))
        by (unfold rec_size, _mtb_kvstore_align_up; apply u32_range).
      apply lookup_lt_Some in Hold. repeat split; try done; lia.
    - destruct Hop as (old & Hold & ->). exists (rec_size p (key, old)).
      rewrite (live_size_update p m _ kv _ Hold). rewrite decide_False by done.
      pose proof (live_size_split p m _ _ Hold).
      pose proof (live_size_nonneg' p (take (Z.to_nat idx) m)).
      pose proof (live_size_nonneg' p (drop (S (Z.to_nat idx)) m)).
      assert (0 ≤ rec_size p (key, old))
        by (unfold rec_size, _mtb_kvstore_align_up; apply u32_range).
      repeat split; try done; lia. }
  subst old_size.
  rewrite update_ram_table_op in Hrel;
    [|done|unfold num_entries; lia|unfold num_entries; exact Hdel].
  cbn [ram_tbl_idx entry] in Hrel.
  set (e1 := {| hash := key_hash key; offset := fso |}) in *.
  pose proof (obj_rel_fields _ _ Hrel)
    as (Hs & Hol & Htab & _ & Ht & _ & Ha & Hg & Hfso & _ & Hc).
  destruct (update_consumed_size_fields
              (set_ram_table (table_op op (Z.to_nat idx) e1 (ram_table obj)) obj) op
              {| old_record_size := old_live; new_record_size := rec_size p kv |})
    as (Hs' & Hol' & Htab' & Ht' & Ha' & Hg' & Hfso' & Hc').
  rewrite Hs' in Hs. rewrite Hol' in Hol. rewrite Htab' in Htab. rewrite Ht' in Ht.
  rewrite Ha' in Ha. rewrite Hg' in Hg. rewrite Hc' in Hc. rewrite Hfso' in Hfso.
  cbn [start_addr obj_length ram_table transaction_buffer_size active_area_addr
       gc_area_addr consumed_size free_space_offset set_ram_table old_record_size
       new_record_size]
    in Hs, Hol, Htab, Ht, Ha, Hg, Hc, Hfso.
  fold fso in Hfso. rewrite Hfso. rewrite u32_small by lia.
  clear Hs' Hol' Htab' Ht' Ha' Hg' Hfso' Hc'.
  assert (entry_ok (peek d') p (active_area_addr obj) (anchor_size p)
                   (fso + rec_size p kv) e1 kv) as Hnew.
  { constructor; cbn [hash offset fst snd kv e1]; try done; try lia.
    by exists (_mtb_kvstore_setup_record_header key data size
                 _MTB_KVSTORE_FORMAT_VERSION op). }
  assert (Forall2 (entry_ok (peek d') p (active_area_addr obj) (anchor_size p)
                            (fso + rec_size p kv)) (ram_table obj) m) as Hold.
  { eapply list.Forall2_impl; [exact Hents|]. intros e kv0 He.
    eapply entry_ok_frame; [exact He|lia|lia|lia|].
    intros x Hx. apply Hframe. lia. }
  constructor;
    cbn [active_area_addr free_space_offset ram_table consumed_size
         set_free_space_offset].
  - eapply geometry_fields; [exact Hgeo|done..|].
    unfold areas_ok, _MTB_KVSTORE_AREA_SIZE in *.
    cbn [active_area_addr gc_area_addr start_addr obj_length set_free_space_offset].
    by rewrite Hs, Hol, Ha, Hg.
  - rewrite Ha, Htab. by apply Forall2_table_op.
  - rewrite Htab. destruct op.
    + destruct Hop as (Hnotin & Hle & _ & Hpos).
      apply sorted_desc_add; [done|lia|].
      intros i e He. destruct (Forall2_lookup_l _ _ _ _ _ Hhashes He) as (kv0 & Hkv0 & Hh).
      cbn [hash e1]. rewrite Hh, <- (Hpos i kv0 Hkv0). lia.
    + by apply sorted_desc_delete.
    + destruct Hop as (old & Hold' & _).
      destruct (lookup_lt_is_Some_2 (ram_table obj) (Z.to_nat idx)) as [e0 He0].
      { rewrite Hlenm. by eapply lookup_lt_Some. }
      apply (sorted_desc_update _ _ _ e0 Hsorted He0).
      by rewrite (Forall2_lookup_lr _ _ _ _ _ _ Hhashes He0 Hold').
  - destruct op.
    + destruct Hop as (Hnotin & _). by apply keys_add.
    + destruct Hop as (old & Hold' & _).
      by destruct (keys_delete m (Z.to_nat idx) kv _ Hkeys Hold').
    + destruct Hop as (old & Hold' & _). by rewrite (keys_update m _ kv _ Hold').
  - rewrite Hc, Hlive'. destruct op.
    + rewrite decide_False by done. rewrite u32_small by lia. lia.
    + rewrite decide_True by done. rewrite u32_small by lia. lia.
    + rewrite decide_False by done.
      rewrite (u32_small (consumed_size obj - old_live)) by lia.
      rewrite u32_small by lia. lia.
  - unfold _MTB_KVSTORE_AREA_SIZE.
    cbn [obj_length set_free_space_offset]. rewrite Hol, Hc.
    fold (_MTB_KVSTORE_AREA_SIZE obj). fold A.
    destruct op.
    + rewrite u32_small by lia. lia.
    + rewrite u32_small by lia. lia.
    + rewrite (u32_small (consumed_size obj - old_live)) by lia.
      rewrite u32_small by lia. lia.
Qed.

Variable heap_alloc : Z → bool.

Lemma write_operation_ok p d obj m key data size op idx hash0 old_dsize result found d' obj' :
  store_ok bd p (peek d) obj m →
  0 < strlen key < MTB_KVSTORE_MAX_KEY_SIZE → payload_ok data size →
  sizeof_record_header + strlen key + size ≤ _MTB_KVSTORE_AREA_SIZE obj →
  op_ok p op key idx
    (if bool_decide (op = _MTB_KVSTORE_OPER_ADD) then 0
     else _mtb_kvstore_get_record_size bd (active_area_addr obj) (u32 (strlen key))
                                       old_dsize) m →
  hash0 = key_hash key → found = negb (bool_decide (op = _MTB_KVSTORE_OPER_ADD)) →
  write_operation bd heap_alloc d obj key data size op idx hash0 old_dsize result found
  = Some (CY_RSLT_SUCCESS, d', obj') →
  store_ok bd p (peek d') obj' (table_op op (Z.to_nat idx) (key, payload data size) m).
Proof.
  intros Hok Hklen Hpay Hfits Hop -> -> Hrun.
  assert (MTB_KVSTORE_MAX_KEY_SIZE = 64) as Hmax by done.
  assert (0 < sizeof_record_header) as Hhs0 by done.
  pose proof (payload_ok_length _ _ Hpay) as Hpl.
  pose proof Hpay as [Hsz0 _].
  set (kv := (key, payload data size)) in *.
  unfold write_operation in Hrun.
  match type of Hrun with
  | context [match ?X with pair _ _ => _ end] =>
      destruct X as [[r0 o0] failed] eqn:Hgrow
  end.
  assert (store_ok bd p (peek d) o0 m
          ∧ active_area_addr o0 = active_area_addr obj
          ∧ _MTB_KVSTORE_AREA_SIZE o0 = _MTB_KVSTORE_AREA_SIZE obj
          ∧ (failed = true → r0 ≠ CY_RSLT_SUCCESS)) as (Hok0 & Ha0 & HA0 & Hfail).
  { destruct (bool_decide (op = _MTB_KVSTORE_OPER_ADD) && (num_entries obj >=? max_entries obj)).
    - unfold _mtb_kvstore_increment_max_keys in Hgrow.
      destruct (heap_alloc _); apply some3_inj_pair in Hgrow as (<- & <- & <-).
      + split; [by apply store_ok_max_entries|done].
      + done.
    - apply some3_inj_pair in Hgrow as (<- & <- & <-). done. }
  clear Hgrow Hok. destruct failed.
  { apply some3_inj in Hrun as (-> & _ & _). by destruct Hfail. }
  clear Hfail.
  pose proof Hok0 as [Hgeo Hents Hsorted Hkeys Hcons Hfree].
  pose proof (store_bounds bd p _ _ m Hok0) as (Hnum & Hlenm & Hlive).
  pose proof (geometry_areas bd p _ Hgeo)
    as (Hp & Hact & Hgc & Hacttop & Hgctop & Hdisj & H34 & HanchA).
  pose proof Hgeo as [[Hunif _ _ _ _] _ _ _ _ _ _].
  assert (sizeof_record_header + strlen _mtb_kvstore_area_rec_key + sizeof_area_record_data
          = 34) as E34 by done.
  destruct (rec_size_bounds p kv ltac:(lia)) as (Hsz1 & Hsz2 & _);
    [cbn [fst snd kv]; lia|]. cbn [fst snd kv] in Hsz1, Hsz2. rewrite Hpl in Hsz1, Hsz2.
  fold kv in Hsz1, Hsz2.
  cbv zeta in Hrun. rewrite Ha0 in Hrun.
  rewrite (u32_small (strlen key)) in Hrun, Hop by lia.
  rewrite (record_size_exact bd p _ (strlen key) size) in Hrun by (done || lia).
  assert (_mtb_kvstore_align_up (sizeof_record_header + strlen key + size) p
          = rec_size p kv) as Hrs
    by (unfold rec_size; cbn [fst snd kv]; by rewrite Hpl).
  rewrite Hrs in Hrun.
  set (old_size := if bool_decide (op = _MTB_KVSTORE_OPER_ADD) then 0
                   else _mtb_kvstore_get_record_size bd (active_area_addr obj) (strlen key)
                          old_dsize) in *.
  rewrite <- HA0 in Hfits.
  assert (0 ≤ old_size ≤ live_size p m) as Hold_size.
  { destruct Hop as [_ Hop]. destruct op.
    - destruct Hop as (_ & _ & -> & _). lia.
    - destruct Hop as (old & Hold & ->). by apply (old_size_bounds p m _ _ Hold).
    - destruct Hop as (old & Hold & ->). by apply (old_size_bounds p m _ _ Hold). }
  match type of Hrun with (if ?c then _ else _) = _ => destruct c eqn:Hc1 end; [done|].
  assert (op ≠ _MTB_KVSTORE_OPER_DELETE →
          consumed_size o0 - old_size + rec_size p kv ≤ _MTB_KVSTORE_AREA_SIZE o0) as Hfit1.
  { intros Hne. apply andb_false_iff in Hc1 as [Hc1|Hc1].
    - destruct op; done.
    - rewrite (u32_small (consumed_size o0 - old_size)) in Hc1 by lia.
      rewrite u32_small in Hc1 by lia. lia. }
  rewrite (u32_small (free_space_offset o0 + rec_size p kv)) in Hrun by lia.
  assert (Hdirect : ∀ dX oX,
    store_ok bd p (peek dX) oX m →
    _MTB_KVSTORE_AREA_SIZE oX = _MTB_KVSTORE_AREA_SIZE o0 →
    free_space_offset oX + rec_size p kv ≤ _MTB_KVSTORE_AREA_SIZE o0 →
    _mtb_kvstore_write_record bd dX oX (active_area_addr oX) (free_space_offset oX)
      key data size op
      (Some {| ram_tbl_idx := idx;
               entry := {| hash := key_hash key; offset := free_space_offset oX |} |})
      (Some {| old_record_size := old_size; new_record_size := rec_size p kv |})
    ≫= (λ '(result0, d0, obj0),
          if is_success result0
          then Some (result0, d0,
                     set_free_space_offset
                       (u32 (free_space_offset obj0 + rec_size p kv)) obj0)
          else Some (result0, d0, obj0))
    = Some (CY_RSLT_SUCCESS, d', obj') →
    store_ok bd p (peek d') obj' (table_op op (Z.to_nat idx) kv m)).
  { intros dX oX HokX HAX HroomX HrunX.
    destruct (_mtb_kvstore_write_record bd dX oX _ _ key data size op _ _)
      as [[[r1 d1] o1]|] eqn:Hw; cbn [mbind option_bind] in HrunX; [|done].
    destruct (is_success r1) eqn:Hr1.
    - apply bool_decide_eq_true in Hr1 as ->.
      apply some3_inj in HrunX as (_ & <- & <-).
      eapply (write_direct_ok p dX oX m key data size op idx old_size); try done.
      + by rewrite HAX.
      + by rewrite HAX.
    - apply some3_inj in HrunX as (-> & _ & _). done. }
  destruct (free_space_offset o0 + rec_size p kv >? _MTB_KVSTORE_AREA_SIZE o0) eqn:Hc2.
  2:{ cbn [mbind option_bind] in Hrun. apply (Hdirect d o0); [done|done|lia|exact Hrun]. }
  destruct Hop as [Hidx Hop]. destruct op.
  - (* an addition: the collection, then the record *)
    destruct Hop as (Hnotin & Hle & Hz & Hpos).
    destruct (_mtb_kvstore_garbage_collection bd d o0 None) as [[[r1 d1] o1]|] eqn:Hgcrun;
      cbn [mbind option_bind] in Hrun; [|done].
    rewrite bool_decide_eq_true_2 in Hrun by done. cbn [negb] in Hrun.
    rewrite orb_false_r in Hrun.
    destruct (is_success r1) eqn:Hr1; cbn [negb] in Hrun.
    2:{ apply some3_inj in Hrun as (-> & _ & _). done. }
    apply bool_decide_eq_true in Hr1 as ->.
    eapply (garbage_collection_ok bd peek Hrf p d o0 m None) in Hgcrun
      as (Hgeo1 & Ha1 & Hg1 & HA1 & Hents1 & Hsorted1 & Hfso1 & Hfso1A & Hcons1 & _);
      [|done|exact Hents|lia|done|done|done].
    cbn [gc_contents] in Hents1, Hfso1.
    apply (Hdirect d1 o1); [|done| |exact Hrun].
    + constructor; try done; rewrite ?HA1; lia.
    + specialize (Hfit1 ltac:(done)). lia.
  - (* a deletion: the collection drops the entry *)
    destruct Hop as (old & Hold & Hosz).
    match type of Hrun with
    | context [_mtb_kvstore_garbage_collection bd d o0 (Some ?r)] => set (ri := r) in *
    end.
    destruct (_mtb_kvstore_garbage_collection bd d o0 (Some ri)) as [[[r1 d1] o1]|] eqn:Hgcrun;
      cbn [mbind option_bind] in Hrun; [|done].
    rewrite bool_decide_eq_false_2 in Hrun by done. cbn [negb] in Hrun.
    rewrite orb_true_r in Hrun. apply some3_inj in Hrun as (-> & <- & <-).
    eapply (garbage_collection_ok bd peek Hrf p d o0 m (Some ri)) in Hgcrun
      as (Hgeo1 & Ha1 & Hg1 & HA1 & Hents1 & Hsorted1 & Hfso1 & Hfso1A & Hcons1 & _);
      [|done|exact Hents|lia|done|done|].
    2:{ split; [|split; [done|split; [lia|done]]].
        exists (key, old). cbn [ri_ram_tbl_idx ri_consumed_size_info ri_update_rec_info
                                old_record_size ri]. done. }
    cbn [gc_contents ri_update_rec_info ri_ram_tbl_idx ri] in Hents1, Hfso1, Hcons1.
    unfold table_op.
    destruct (keys_delete m (Z.to_nat idx) kv _ Hkeys Hold) as [Hnd _].
    constructor; try done; rewrite ?HA1; lia.
  - (* an update: the collection writes the record *)
    destruct Hop as (old & Hold & Hosz).
    match type of Hrun with
    | context [_mtb_kvstore_garbage_collection bd d o0 (Some ?r)] => set (ri := r) in *
    end.
    destruct (_mtb_kvstore_garbage_collection bd d o0 (Some ri)) as [[[r1 d1] o1]|] eqn:Hgcrun;
      cbn [mbind option_bind] in Hrun; [|done].
    rewrite bool_decide_eq_false_2 in Hrun by done. cbn [negb] in Hrun.
    rewrite orb_true_r in Hrun. apply some3_inj in Hrun as (-> & <- & <-).
    eapply (garbage_collection_ok bd peek Hrf p d o0 m (Some ri)) in Hgcrun
      as (Hgeo1 & Ha1 & Hg1 & HA1 & Hents1 & Hsorted1 & Hfso1 & Hfso1A & Hcons1 & _);
      [|done|exact Hents|lia|done|done|].
    2:{ split; [|split; [done|split; [lia|]]].
        - exists (key, old). cbn [ri_ram_tbl_idx ri_consumed_size_info ri_update_rec_info
                                  old_record_size new_record_size upd_key upd_data
                                  upd_data_size upd_key_hash ri fst].
          split; [done|]. split; [done|]. split; [done|]. split; [done|].
          split; [done|]. split; [done|]. split; [done|]. split; [lia|done].
        - intros u [= <-]. cbn [upd_key upd_data_size]. lia. }
    cbn [gc_contents ri_update_rec_info ri_ram_tbl_idx upd_key upd_data upd_data_size ri]
      in Hents1, Hfso1, Hcons1.
    fold kv in Hents1, Hfso1, Hcons1. unfold table_op.
    pose proof (keys_update m (Z.to_nat idx) kv _ Hold eq_refl) as Hku.
    unfold table_op in Hku. rewrite <- Hku in Hkeys.
    constructor; try done; rewrite ?HA1; lia.
Qed.

Lemma write_with_flags_ok p d obj m key data size delete d' obj' :
  store_ok bd p (peek d) obj m →
  0 < strlen key < MTB_KVSTORE_MAX_KEY_SIZE → payload_ok data size →
  sizeof_record_header + strlen key + size ≤ _MTB_KVSTORE_AREA_SIZE obj →
  _mtb_kvstore_write_with_flags bd heap_alloc d obj key data size delete
  = Some (CY_RSLT_SUCCESS, d', obj') →
  ∃ m', store_ok bd p (peek d') obj' m'
        ∧ updated delete key (payload data size) m m'
        ∧ (delete = true → key ∉ m.*1 → d' = d ∧ m' = m ∧ obj_rel obj' obj).
Proof.
  intros Hok Hklen Hpay Hfits Hrun.
  assert (MTB_KVSTORE_MAX_KEY_SIZE = 64) as Hmax by done.
  assert (0 < sizeof_record_header) as Hhs0 by done.
  pose proof (store_hashes bd p _ obj m Hok) as Hhashes.
  pose proof Hok as [Hgeo Hents Hsorted Hkeys _ _].
  pose proof Hgeo as [[Hunif _ _ _ _] _ _ _ _ _ _].
  pose proof (geometry_areas bd p obj Hgeo) as (Hp & _).
  unfold _mtb_kvstore_write_with_flags in Hrun.
  destruct (store_find p d obj m key (Some 0) Hok ltac:(lia)) as (o1 & Hfind & Hrel & Hl).
  rewrite Hfind in Hrun. cbn [mbind option_bind] in Hrun.
  pose proof (store_ok_rel bd p _ obj o1 m Hok Hrel Hl) as Hok1.
  assert (_MTB_KVSTORE_AREA_SIZE o1 = _MTB_KVSTORE_AREA_SIZE obj) as HA1.
  { unfold _MTB_KVSTORE_AREA_SIZE. by destruct (obj_rel_fields _ _ Hrel) as (_ & -> & _). }
  rewrite <- HA1 in Hfits.
  destruct (decide (key ∈ m.*1)) as [Hin|Hnotin].
  - (* the key is in the store *)
    apply list_elem_of_fmap in Hin as ([K old] & HK & Hin). cbn in HK. subst K.
    apply list_elem_of_lookup in Hin as [i Hi].
    rewrite (find_spec_present key _ m Hhashes Hsorted Hkeys i old 0 (Some 0) Hi) in Hrun.
    cbn [fst snd] in Hrun. rewrite is_success_true in Hrun. cbn [negb andb] in Hrun.
    rewrite bool_decide_eq_false_2 in Hrun by done. cbn [negb] in Hrun.
    rewrite andb_false_r in Hrun. cbn [default] in Hrun. rewrite Z.add_0_l in Hrun.
    set (op := if delete then _MTB_KVSTORE_OPER_DELETE else _MTB_KVSTORE_OPER_UPDATE) in *.
    assert (op ≠ _MTB_KVSTORE_OPER_ADD) as Hop by (unfold op; by destruct delete).
    destruct (Forall2_lookup_r _ _ _ _ _ Hents Hi) as (e & He & [_ _ Hbound _ _]).
    cbn [fst snd] in Hbound.
    eapply (write_operation_ok p d o1 m key data size op (Z.of_nat i)) in Hrun;
      [|done|done|done|done| |done|by rewrite bool_decide_eq_false_2].
    2:{ split; [lia|]. rewrite Nat2Z.id.
        assert (∃ old0, m !! i = Some (key, old0)
                        ∧ (if bool_decide (op = _MTB_KVSTORE_OPER_ADD) then 0
                           else _mtb_kvstore_get_record_size bd (active_area_addr o1)
                                  (u32 (strlen key)) (strlen old))
                          = rec_size p (key, old0)) as Hex.
        { exists old. split; [done|]. rewrite bool_decide_eq_false_2 by done.
          rewrite u32_small by lia.
          apply (record_size_rec bd p _ (key, old)); [done|cbn [fst snd]; lia]. }
        by destruct op. }
    rewrite Nat2Z.id in Hrun.
    eexists. split; [exact Hrun|]. split.
    + split.
      * unfold op. destruct delete.
        -- by destruct (keys_delete m i (key, payload data size) _ Hkeys Hi).
        -- apply table_op_new; [done|]. left. by eapply lookup_lt_Some.
      * apply table_op_others. intros _. by exists old.
    + intros _ Hnotin. destruct Hnotin. apply list_elem_of_fmap. exists (key, old).
      split; [done|]. by eapply list_elem_of_lookup_2.
  - (* the key is not in the store *)
    destruct (find_spec_absent key _ m Hhashes Hsorted Hnotin 0 (Some 0))
      as (n & Hspec & Hn & Hpos).
    rewrite Hspec in Hrun. cbn [fst snd] in Hrun.
    rewrite bool_decide_eq_true_2 in Hrun by done. cbn [negb] in Hrun.
    rewrite andb_false_r, andb_true_r in Hrun.
    destruct delete.
    + apply some3_inj in Hrun as (_ & <- & <-). exists m.
      split; [done|]. split; [|done]. split; [done|]. done.
    + cbn [default] in Hrun. rewrite Z.add_0_l in Hrun.
      eapply (write_operation_ok p d o1 m key data size _MTB_KVSTORE_OPER_ADD
                (Z.of_nat n)) in Hrun;
        [|done|done|done|done| |done|by rewrite bool_decide_eq_true_2].
      2:{ split; [lia|]. rewrite bool_decide_eq_true_2 by done.
          pose proof (list.Forall2_length _ _ _ Hhashes) as Hlen.
          split; [done|]. split; [lia|]. split; [done|].
          intros j kv Hj. destruct (Forall2_lookup_r _ _ _ _ _ Hhashes Hj) as (e & He & Hh).
          rewrite <- Hh, <- (Hpos j e He). lia. }
      eexists. split; [exact Hrun|]. split; [|done]. split.
      * apply table_op_new; [done|by right].
      * apply table_op_others. by intros [].
Qed.

End WritePath.

(** * The public functions on a store that satisfies the invariant *)

#[global] Arguments mtb_kvstore_reset : simpl never.

Lemma store_entry {D : Type} (bd : mtb_kvstore_bd_t D) p f obj m key dat :
  store_ok bd p f obj m → (key, dat) ∈ m →
  ∃ (i : nat) e h,
    m !! i = Some (key, dat) ∧ ram_table obj !! i = Some e
    ∧ record_at f (active_area_addr obj + offset e) h key dat ∧ crc_ok h key dat
    ∧ 0 < strlen key < MTB_KVSTORE_MAX_KEY_SIZE
    ∧ sizeof_record_header + strlen key + strlen dat ≤ _MTB_KVSTORE_AREA_SIZE obj
    ∧ anchor_size p ≤ offset e.
Proof.
  intros Hok [i Hi]%list_elem_of_lookup.
  pose proof Hok as [Hgeo Hents _ _ _ Hfree].
  pose proof (geometry_areas bd p obj Hgeo) as (Hp & _).
  destruct (Forall2_lookup_r _ _ _ _ _ Hents Hi)
    as (e & He & [(h & Hrec & Hcrc) _ Hbound Hlow Hhigh]).
  destruct (rec_size_bounds p (key, dat) ltac:(lia) Hbound) as (Hsz & _).
  cbn [fst snd] in *.
  assert (0 ≤ anchor_size p) by (unfold anchor_size, _mtb_kvstore_align_up; apply u32_range).
  exists i, e, h. repeat split; try done; try apply Hrec. lia.
Qed.

Section Api.
Context {D : Type} (bd : mtb_kvstore_bd_t D) (peek : D → Z → Z).
Hypothesis Hrf : reliable_flash bd peek.
Variable heap_alloc : Z → bool.

Lemma read_present p d obj m key dat data size :
  store_ok bd p (peek d) obj m → (key, dat) ∈ m →
  (data = None ∨ ∃ sz, size = Some sz ∧ sz ≠ 0) →
  ∃ obj',
    mtb_kvstore_read bd d obj (Some key) data size
    = Some ((read_outcome key dat key data size).1.1, obj',
            (read_outcome key dat key data size).1.2,
            (read_outcome key dat key data size).2)
    ∧ obj_rel obj' obj
    ∧ strlen (transaction_buffer obj') = transaction_buffer_size obj.
Proof.
  intros Hok Hin Hargs.
  destruct (store_entry bd p _ obj m key dat Hok Hin)
    as (i & e & h & Hi & He & Hrec & Hcrc & Hklen & _ & _).
  assert (MTB_KVSTORE_MAX_KEY_SIZE = 64) as Hmax by done.
  pose proof (store_hashes bd p _ obj m Hok) as Hhashes.
  pose proof Hok as [Hgeo _ Hsorted Hkeys _ _].
  pose proof (geometry_areas bd p obj Hgeo) as (_ & Hact & _).
  pose proof Hgeo as [[_ _ Htbs _ _] _ _ _ _ _ _].
  destruct (valid_key_strlen key Hklen) as [Hvalid _].
  unfold mtb_kvstore_read. rewrite Hvalid. cbn [mbind option_bind negb].
  assert ((negb (bool_decide (data = None))
           && match size with Some sz => sz =? 0 | None => true end) = false) as ->.
  { destruct Hargs as [->|(sz & -> & Hsz)]; [done|].
    apply andb_false_iff. right. by apply Z.eqb_neq. }
  destruct (store_find bd peek Hrf p d obj m key None Hok ltac:(lia))
    as (o1 & -> & Hrel & Hl).
  cbn [mbind option_bind].
  rewrite (find_spec_present key _ m Hhashes Hsorted Hkeys i dat 0 None Hi).
  cbn [fst snd]. rewrite is_success_true, Z.add_0_l, Nat2Z.id.
  pose proof (obj_rel_fields _ _ Hrel) as (_ & _ & Htab & _ & Ht & _ & Ha & _).
  rewrite Htab, He. cbn [mbind option_bind]. rewrite Ha.
  destruct (read_record_at bd peek Hrf d o1 (active_area_addr obj) (offset e) h key dat key
              data size) as (o2 & -> & Hrel2 & Hl2); try done; try lia.
  { destruct Hrec as [_ _ _ _ _ _ _ _ _ [? _]]. destruct Hok as [_ Hents _ _ _ _].
    pose proof (Forall2_lookup_lr _ _ _ _ _ _ Hents He Hi) as [_ _ _ Hlow _].
    assert (0 ≤ anchor_size p)
      by (unfold anchor_size, _mtb_kvstore_align_up; apply u32_range). lia. }
  cbn [mbind option_bind rr_result rr_obj rr_data rr_data_size].
  exists o2. split; [done|]. split; [by etrans|by rewrite Hl2].
Qed.

Lemma read_absent p d obj m key data size :
  store_ok bd p (peek d) obj m → key ∉ m.*1 →
  0 < strlen key < MTB_KVSTORE_MAX_KEY_SIZE →
  (data = None ∨ ∃ sz, size = Some sz ∧ sz ≠ 0) →
  ∃ obj',
    mtb_kvstore_read bd d obj (Some key) data size
    = Some (MTB_KVSTORE_ITEM_NOT_FOUND_ERROR, obj', data, size)
    ∧ obj_rel obj' obj
    ∧ strlen (transaction_buffer obj') = transaction_buffer_size obj.
Proof.
  intros Hok Hnotin Hklen Hargs.
  assert (MTB_KVSTORE_MAX_KEY_SIZE = 64) as Hmax by done.
  pose proof (store_hashes bd p _ obj m Hok) as Hhashes.
  pose proof Hok as [Hgeo _ Hsorted Hkeys _ _].
  destruct (valid_key_strlen key Hklen) as [Hvalid _].
  unfold mtb_kvstore_read. rewrite Hvalid. cbn [mbind option_bind negb].
  assert ((negb (bool_decide (data = None))
           && match size with Some sz => sz =? 0 | None => true end) = false) as ->.
  { destruct Hargs as [->|(sz & -> & Hsz)]; [done|].
    apply andb_false_iff. right. by apply Z.eqb_neq. }
  destruct (store_find bd peek Hrf p d obj m key None Hok ltac:(lia))
    as (o1 & -> & Hrel & Hl).
  cbn [mbind option_bind].
  destruct (find_spec_absent key _ m Hhashes Hsorted Hnotin 0 None) as (n & -> & _).
  cbn [fst snd]. exists o1. done.
Qed.

Lemma delete_absent p d obj m key :
  store_ok bd p (peek d) obj m → key ∉ m.*1 → strlen key < 2 ^ 32 →
  ∃ obj',
    mtb_kvstore_delete bd heap_alloc d obj (Some key) = Some (CY_RSLT_SUCCESS, d, obj')
    ∧ obj_rel obj' obj
    ∧ strlen (transaction_buffer obj') = transaction_buffer_size obj.
Proof.
  intros Hok Hnotin Hklen.
  pose proof (store_hashes bd p _ obj m Hok) as Hhashes.
  pose proof Hok as [Hgeo _ Hsorted Hkeys _ _].
  unfold mtb_kvstore_delete. cbn [mbind option_bind].
  unfold _mtb_kvstore_write_with_flags.
  destruct (store_find bd peek Hrf p d obj m key (Some 0) Hok Hklen)
    as (o1 & -> & Hrel & Hl).
  cbn [mbind option_bind].
  destruct (find_spec_absent key _ m Hhashes Hsorted Hnotin 0 (Some 0)) as (n & -> & _).
  cbn [fst snd]. rewrite bool_decide_eq_true_2 by done. cbn [negb].
  rewrite andb_false_r. cbn [andb]. exists o1. done.
Qed.

Lemma write_ok p d obj m key data size d' obj' :
  store_ok bd p (peek d) obj m → payload_ok data size →
  sizeof_record_header + strlen key + size ≤ _MTB_KVSTORE_AREA_SIZE obj →
  mtb_kvstore_write bd heap_alloc d obj (Some key) data size
  = Some (CY_RSLT_SUCCESS, d', obj') →
  ∃ m', store_ok bd p (peek d') obj' m' ∧ updated false key (payload data size) m m'.
Proof.
  intros Hok Hpay Hfits Hrun.
  pose proof Hok as [Hgeo _ _ _ _ _].
  pose proof (geometry_areas bd p obj Hgeo) as (Hp & _ & Hgc & _ & Hgctop & _).
  pose proof Hpay as [Hsz0 _].
  assert (0 < sizeof_record_header) as Hhs0 by done.
  unfold mtb_kvstore_write, _mtb_kvstore_is_valid_key in Hrun.
  cbn [mbind option_bind] in Hrun.
  pose proof (strlen_nonneg key) as Hk0.
  rewrite (u32_small (strlen key)) in Hrun by lia.
  destruct ((0 <? strlen key) && (strlen key <? MTB_KVSTORE_MAX_KEY_SIZE)) eqn:Hvalid;
    cbn [negb orb] in Hrun; [|done].
  apply andb_true_iff in Hvalid as [Hv1 Hv2].
  destruct (bool_decide (data = None) && negb (size =? 0)); [done|].
  eapply write_with_flags_ok in Hrun as (m' & Hok' & Hupd & _); try done; [|lia].
  by exists m'.
Qed.

Lemma delete_ok p d obj m key d' obj' :
  store_ok bd p (peek d) obj m → strlen key < 2 ^ 32 →
  mtb_kvstore_delete bd heap_alloc d obj (Some key) = Some (CY_RSLT_SUCCESS, d', obj') →
  ∃ m', store_ok bd p (peek d') obj' m' ∧ updated true key [] m m'
        ∧ (key ∉ m.*1 → d' = d ∧ m' = m ∧ obj_rel obj' obj).
Proof.
  intros Hok Hklen Hrun.
  unfold mtb_kvstore_delete in Hrun. cbn [mbind option_bind] in Hrun.
  destruct (decide (key ∈ m.*1)) as [Hin|Hnotin].
  - apply list_elem_of_fmap in Hin as ([K old] & HK & Hin). cbn in HK. subst K.
    destruct (store_entry bd p _ obj m key old Hok Hin)
      as (i & e & h & Hi & He & Hrec & Hcrc & Hkv & Hfit & _).
    pose proof (strlen_nonneg old).
    eapply (write_with_flags_ok bd peek Hrf heap_alloc p d obj m key None 0 true) in Hrun
      as (m' & Hok' & Hupd & Hnoop); [|done|done|by split|lia].
    exists m'. split; [done|]. split; [done|]. intros Hnotin. by apply Hnoop.
  - destruct (delete_absent p d obj m key Hok Hnotin Hklen) as (o1 & Hrun' & Hrel & Hl).
    unfold mtb_kvstore_delete in Hrun'. cbn [mbind option_bind] in Hrun'.
    rewrite Hrun' in Hrun. apply some3_inj in Hrun as (_ & <- & <-).
    exists m. split; [by eapply store_ok_rel|]. split; [|done]. split; [done|]. done.
Qed.

Lemma reset_ok p d obj m d' obj' :
  store_ok bd p (peek d) obj m →
  mtb_kvstore_reset bd d obj = Some (CY_RSLT_SUCCESS, d', obj') →
  store_ok bd p (peek d') obj' []
  ∧ consumed_size obj' = anchor_size p ∧ free_space_offset obj' = anchor_size p
  ∧ active_area_addr obj' = gc_area_addr obj ∧ gc_area_addr obj' = active_area_addr obj.
Proof.
  intros Hok Hrun. pose proof Hok as [Hgeo _ _ _ _ Hfree].
  unfold mtb_kvstore_reset in Hrun.
  destruct (_mtb_kvstore_garbage_collection bd d (set_ram_table [] obj) None)
    as [[[r1 d1] o1]|] eqn:Hgc; cbn [mbind option_bind] in Hrun; [|done].
  destruct (is_success r1) eqn:Hr1.
  2:{ apply some3_inj in Hrun as (-> & _ & _). done. }
  apply bool_decide_eq_true in Hr1 as ->. apply some3_inj in Hrun as (_ & <- & <-).
  eapply (garbage_collection_ok bd peek Hrf p d (set_ram_table [] obj) [] None
            (free_space_offset obj)) in Hgc
    as (Hgeo1 & Ha1 & Hg1 & HA1 & Hents1 & Hsorted1 & Hfso1 & Hfso1A & Hcons1 & _).
  - cbn [gc_contents live_size] in Hents1, Hfso1. rewrite Z.add_0_r in Hfso1.
    split; [|by rewrite Hfso1].
    constructor; cbn [consumed_size free_space_offset ram_table active_area_addr
                      set_consumed_size live_size]; try done.
    + eapply geometry_fields; [exact Hgeo1|done..|by destruct Hgeo1 as [[]]|by destruct Hgeo1].
    + constructor.
    + lia.
    + split; [lia|]. unfold _MTB_KVSTORE_AREA_SIZE in *.
      cbn [obj_length set_consumed_size]. cbn [obj_length set_ram_table] in HA1, Hfso1A.
      rewrite HA1. lia.
  - eapply geometry_fields; [exact Hgeo|done..|by destruct Hgeo as [[]]|by destruct Hgeo].
  - constructor.
  - apply Hfree.
  - by intros i j ei ej _ Hi.
  - cbn. lia.
  - done.
Qed.

End Api.

(** * The simulated flash and the demonstration stores *)

Lemma sim_reliable r p e : reliable_flash (sim_bd r p e) cells.
Proof.
  constructor.
  - intros d a n. reflexivity.
  - intros d a n buf d' H x. cbn in H. unfold sim_program in H.
    destruct (spend (budget d)); [|discriminate H]. injection H as <-. cbn.
    destruct (decide (a ≤ x < a + n)) as [Hin|Hout].
    + assert ((a <=? x) = true) as -> by lia. assert ((x <? a + n) = true) as -> by lia. done.
    + destruct (a <=? x) eqn:H1; destruct (x <? a + n) eqn:H2; try done. lia.
  - intros d a n d' H x Hx. cbn in H. unfold sim_erase in H.
    destruct (spend (budget d)); [|discriminate H]. injection H as <-. cbn.
    destruct (a <=? x) eqn:H1; destruct (x <? a + n) eqn:H2; try done. lia.
Qed.

Lemma demo_geometry obj :
  start_addr obj = 0 → obj_length obj = 256 →
  transaction_buffer_size obj = 128 → length (transaction_buffer obj) = 128%nat →
  areas_ok obj →
  geometry demo_bd 8 obj.
Proof.
  intros Hs Hl Ht Htb Ha.
  constructor; unfold _MTB_KVSTORE_AREA_SIZE; rewrite ?Hs, ?Hl; try done.
  constructor; rewrite ?Ht; try done. unfold strlen. by rewrite Htb.
Qed.

Lemma demo_fresh_ok : store_ok demo_bd 8 (cells demo_fresh.1) demo_fresh.2 [].
Proof.
  assert (ram_table demo_fresh.2 = []) as Ht by (vm_compute; reflexivity).
  constructor.
  - apply demo_geometry; try (vm_compute; reflexivity).
    left. vm_compute. split; reflexivity.
  - rewrite Ht. constructor.
  - rewrite Ht. intros i j ei ej _ Hi. discriminate Hi.
  - constructor.
  - vm_compute. reflexivity.
  - vm_compute. split; discriminate.
Qed.

Lemma run_success {A B : Type} (x : option (cy_rslt_t * A * B)) :
  (λ '(r, _, _), r) <$> x = Some CY_RSLT_SUCCESS → ∃ a b, x = Some (CY_RSLT_SUCCESS, a, b).
Proof. destruct x as [[[r a] b]|]; [|done]. intros [= ->]. by exists a, b. Qed.

Lemma payload_all dat : payload (Some dat) (strlen dat) = dat.
Proof. unfold payload, strlen. rewrite Nat2Z.id. apply firstn_all. Qed.

Lemma payload_ok_all dat : payload_ok (Some dat) (strlen dat).
Proof. split; [apply strlen_nonneg|done]. Qed.

Lemma run_result {A : Type} (f : A → cy_rslt_t) (x : option A) :
  f <$> x = Some CY_RSLT_SUCCESS → ∃ a, x = Some a ∧ f a = CY_RSLT_SUCCESS.
Proof. destruct x as [a|]; [|done]. intros [= H]. by exists a. Qed.

(** The record updates keep the size of the transaction buffer. *)
Lemma write_record_post_tbs obj off op rti si o :
  write_record_post obj off op rti si = Some o →
  transaction_buffer_size o = transaction_buffer_size obj.
Proof.
  unfold write_record_post. destruct (negb _); [|by intros [= <-]].
  destruct rti as [rti|], si as [si|]; try done. intros [= <-].
  unfold _mtb_kvstore_update_consumed_size, _mtb_kvstore_update_ram_table.
  destruct op; try done. by case_match.
Qed.

(** The area record of the fresh store: version 1, format 0. *)
Lemma demo_fresh_anchor :
  let h := _mtb_kvstore_setup_record_header _mtb_kvstore_area_rec_key (Some [1; 0; 0; 0]) 4
             _MTB_KVSTORE_FORMAT_VERSION _MTB_KVSTORE_OPER_ADD in
  record_at (cells demo_fresh.1) (0 + 0) h _mtb_kvstore_area_rec_key [1; 0; 0; 0]
  ∧ crc_ok h _mtb_kvstore_area_rec_key [1; 0; 0; 0].
Proof.
  intros h. split.
  - constructor; try (vm_compute; reflexivity).
    + constructor; vm_compute; split; (discriminate || reflexivity).
    + vm_compute. split; reflexivity.
    + vm_compute. split; [discriminate|reflexivity].
  - vm_compute. reflexivity.
Qed.

Lemma surjective_pairing_success {A : Type} (x : cy_rslt_t * A) :
  x.1 = CY_RSLT_SUCCESS → x = (CY_RSLT_SUCCESS, x.2).
Proof. destruct x as [r a]. cbn. by intros ->. Qed.

(** The store of three keys: its entries in the order of the RAM table. *)
Lemma demo_store_table :
  ram_table demo_store.2
  = [{| hash := 23803; offset := 88 |}; {| hash := 19674; offset := 64 |};
     {| hash := 15421; offset := 40 |}].
Proof. vm_compute. reflexivity. Qed.

(** A record recognised from its bytes. *)
Lemma record_at_intro f a key dat :
  let h := _mtb_kvstore_setup_record_header key (Some dat) (strlen dat)
             _MTB_KVSTORE_FORMAT_VERSION _MTB_KVSTORE_OPER_ADD in
  0 ≤ a → 0 < strlen key < MTB_KVSTORE_MAX_KEY_SIZE →
  a + sizeof_record_header + strlen key + strlen dat < 2 ^ 32 →
  bytes_at f a (sizeof_record_header + strlen key + strlen dat)
  = header_bytes h ++ key ++ dat →
  record_at f a h key dat ∧ crc_ok h key dat.
Proof.
  intros h Ha Hkey Htop Hbytes.
  pose proof (strlen_nonneg dat) as Hd0.
  assert (0 < sizeof_record_header) as Hhs0 by done.
  assert (MTB_KVSTORE_MAX_KEY_SIZE = 64) as Hmax by done.
  destruct (setup_record_header_ok key (Some dat) (strlen dat) _MTB_KVSTORE_OPER_ADD)
    as (Hmagic & Hhsize & Hksize & Hdsize & _ & Hrange & Hcrc); [lia|lia|].
  fold h in Hmagic, Hhsize, Hksize, Hdsize, Hrange, Hcrc.
  rewrite payload_all in Hcrc. split; [|done].
  rewrite <- Z.add_assoc in Hbytes.
  apply bytes_at_app_inv in Hbytes as [Hh Hrest]; [|lia|lia|].
  2: { unfold strlen. by rewrite header_bytes_length. }
  apply bytes_at_app_inv in Hrest as [Hk Hd]; [|lia|lia|done].
  constructor; try done; lia.
Qed.

Lemma demo_store_contents :
  store_ok demo_bd 8 (cells demo_store.1) demo_store.2
    [([109], [6; 6]); ([108], [5; 5]); ([107], [1; 1])].
Proof.
  constructor.
  - apply demo_geometry; try (vm_compute; reflexivity).
    left. vm_compute. split; reflexivity.
  - rewrite demo_store_table.
    constructor; [|constructor; [|constructor; [|constructor]]].
    all: constructor;
      [eexists; apply record_at_intro;
         [vm_compute; discriminate|vm_compute; split; reflexivity
         |vm_compute; reflexivity|vm_compute; reflexivity]
      |vm_compute; reflexivity|vm_compute; discriminate|vm_compute; discriminate
      |vm_compute; discriminate].
  - rewrite demo_store_table. intros i j ei ej Hij Hi Hj.
    destruct i as [|[|[|i]]], j as [|[|[|j]]]; cbn in Hi, Hj; try discriminate;
      try lia; injection Hi as <-; injection Hj as <-; cbn; lia.
  - cbn. repeat (apply NoDup_cons_2;
                   [intros H; repeat (apply elem_of_cons in H as [H|H]; [discriminate|]);
                    by apply elem_of_nil in H|]).
    apply NoDup_nil_2.
  - vm_compute. reflexivity.
  - vm_compute. split; discriminate.
Qed.

(** [_mtb_kvstore_is_aligned] for a size that is a power of two. *)
Lemma is_aligned_mod val k :
  0 ≤ k < 32 → 0 ≤ val →
  _mtb_kvstore_is_aligned val (2 ^ k) = bool_decide (val mod 2 ^ k = 0).
Proof.
  intros Hk Hval. unfold _mtb_kvstore_is_aligned.
  assert (0 < 2 ^ k) by (apply Z.pow_pos_nonneg; lia).
  assert (2 ^ k < 2 ^ 32) by (apply Z.pow_lt_mono_r; lia).
  rewrite (u32_small (2 ^ k - 1)) by lia.
  replace (2 ^ k - 1) with (Z.ones k) by (rewrite Z.ones_equiv; lia).
  rewrite Z.land_ones by lia.
  destruct (val mod 2 ^ k =? 0) eqn:E.
  - apply Z.eqb_eq in E. by rewrite bool_decide_eq_true_2.
  - apply Z.eqb_neq in E. by rewrite bool_decide_eq_false_2.
Qed.

(** The state a successful call leaves. *)
Lemma run_after (x : option (cy_rslt_t * sim_flash * mtb_kvstore_t)) :
  (λ '(r, _, _), r) <$> x = Some CY_RSLT_SUCCESS →
  x = Some (CY_RSLT_SUCCESS, (after x).1, (after x).2).
Proof. destruct x as [[[r a] b]|]; [|done]. by intros [= ->]. Qed.

(** The store of one key. *)
Lemma demo_one_fields :
  ram_table demo_one.2 = [{| hash := 15421; offset := 40 |}]
  ∧ active_area_addr demo_one.2 = 0 ∧ gc_area_addr demo_one.2 = 128
  ∧ free_space_offset demo_one.2 = 64 ∧ _MTB_KVSTORE_AREA_SIZE demo_one.2 = 128.
Proof. vm_compute. repeat split; reflexivity. Qed.

Lemma demo_one_contents :
  store_ok demo_bd 8 (cells demo_one.1) demo_one.2 [([107], [1; 1])].
Proof.
  constructor.
  - apply demo_geometry; try (vm_compute; reflexivity).
    left. vm_compute. split; reflexivity.
  - rewrite (proj1 demo_one_fields). constructor; [|constructor].
    constructor;
      [eexists; apply record_at_intro;
         [vm_compute; discriminate|vm_compute; split; reflexivity
         |vm_compute; reflexivity|vm_compute; reflexivity]
      |vm_compute; reflexivity|vm_compute; discriminate|vm_compute; discriminate
      |vm_compute; discriminate].
  - rewrite (proj1 demo_one_fields). intros i j ei ej Hij Hi Hj.
    destruct i as [|i], j as [|j]; cbn in Hi, Hj; try discriminate.
    injection Hi as <-. injection Hj as <-. cbn. lia.
  - cbn. apply NoDup_cons_2; [|apply NoDup_nil_2].
    intros H. by apply elem_of_nil in H.
  - vm_compute. reflexivity.
  - vm_compute. split; discriminate.
Qed.

(** The update of "k" in the store of one key succeeds. *)
Lemma demo_updated_run :
  _mtb_kvstore_write_with_flags demo_bd alloc_ok demo_one.1 demo_one.2 [107]
    (Some [2; 2]) 2 false
  = Some (CY_RSLT_SUCCESS, demo_updated.1, demo_updated.2).
Proof. unfold demo_updated. apply run_after. vm_compute. reflexivity. Qed.

(** * The first initialisation, on an erased medium *)

Lemma bytes_at_erased f a n :
  (∀ x, a ≤ x < a + n → f x = 0xFF) → bytes_at f a n = replicate (Z.to_nat n) 0xFF.
Proof.
  intros H. rewrite (bytes_at_ext f (λ _, 0xFF) a n H). unfold bytes_at.
  rewrite (const_fmap (λ _ : Z, 0xFF) _ 0xFF) by done. by rewrite length_seqZ.
Qed.

Section Format.
Context {D : Type} (bd : mtb_kvstore_bd_t D) (peek : D → Z → Z).
Hypothesis Hrf : reliable_flash bd peek.

(** A header of erased bytes is reported as erased data. *)
Lemma read_record_erased d obj area off key validate data dsz :
  0 ≤ area → 0 ≤ off → area + off + sizeof_record_header < 2 ^ 32 →
  (∀ x, area + off ≤ x < area + off + sizeof_record_header → peek d x = 0xFF) →
  _mtb_kvstore_read_record bd d obj area off key validate data dsz
  = Some {| rr_result := MTB_KVSTORE_ERASED_DATA_ERROR; rr_obj := obj;
            rr_header := header_of_bytes (replicate 20 0xFF);
            rr_key := key; rr_data := data; rr_data_size := dsz |}.
Proof.
  intros Harea Hoff Htop Herased.
  assert (0 < sizeof_record_header) by done.
  unfold _mtb_kvstore_read_record.
  rewrite (u32_small (area + off)) by lia.
  change (u8 sizeof_record_header) with sizeof_record_header.
  rewrite (rf_read _ _ Hrf), exactly_bytes_at, (bytes_at_erased _ _ _ Herased).
  reflexivity.
Qed.

Hypothesis Hff : erases_to_ff bd peek.

(** A successful [_mtb_kvstore_erase_area] leaves the area erased. *)
Lemma erase_area_erased d obj area d' :
  0 ≤ area → area + _MTB_KVSTORE_AREA_SIZE obj < 2 ^ 32 →
  0 < bd_erase_size bd area ≤ _MTB_KVSTORE_AREA_SIZE obj →
  _mtb_kvstore_erase_area bd d obj area = (CY_RSLT_SUCCESS, d') →
  ∀ x, area ≤ x < area + _MTB_KVSTORE_AREA_SIZE obj → peek d' x = 0xFF.
Proof.
  intros Harea Htop Hes Hrun x Hx. unfold _mtb_kvstore_erase_area in Hrun.
  set (es := bd_erase_size bd area) in *. set (A := _MTB_KVSTORE_AREA_SIZE obj) in *.
  destruct (es <? A) eqn:Hlt.
  - apply Z.ltb_lt in Hlt.
    rewrite (u32_small (area + es)), (u32_small (A - es)) in Hrun by lia.
    destruct (bd_erase bd d (area + es) (A - es)) as [r1 d1] eqn:He1.
    destruct (is_success r1) eqn:Hr1; [|by injection Hrun as -> _].
    apply bool_decide_eq_true in Hr1 as ->.
    destruct (decide (x < area + es)) as [Hlow|Hhigh].
    + apply (Hff _ _ _ _ Hrun). lia.
    + rewrite (rf_erase _ _ Hrf _ _ _ _ Hrun) by lia.
      apply (Hff _ _ _ _ He1). lia.
  - apply Z.ltb_ge in Hlt. rewrite is_success_true in Hrun.
    apply (Hff _ _ _ _ Hrun). lia.
Qed.


(** [_mtb_kvstore_setup_areas] on a medium without area records: the
    first area is erased and gets the area record of version 1. *)
Lemma setup_areas_erased p d obj d' obj' :
  buffer_ok bd p obj → 0 ≤ start_addr obj →
  start_addr obj + 2 * _MTB_KVSTORE_AREA_SIZE obj + p < 2 ^ 32 →
  (∀ a, 0 < bd_erase_size bd a ≤ _MTB_KVSTORE_AREA_SIZE obj) →
  anchor_size p ≤ _MTB_KVSTORE_AREA_SIZE obj →
  (∀ x, start_addr obj ≤ x < start_addr obj + 2 * _MTB_KVSTORE_AREA_SIZE obj →
        peek d x = 0xFF) →
  _mtb_kvstore_setup_areas bd d obj = Some (CY_RSLT_SUCCESS, d', obj') →
  obj_rel obj'
    (set_active_area_version _MTB_KVSTORE_INITIAL_AREA_VERSION
       (set_areas (start_addr obj) (start_addr obj + _MTB_KVSTORE_AREA_SIZE obj) obj))
  ∧ strlen (transaction_buffer obj') = transaction_buffer_size obj
  ∧ (∀ x, start_addr obj + anchor_size p ≤ x
          < start_addr obj + _MTB_KVSTORE_AREA_SIZE obj → peek d' x = 0xFF)
  ∧ (∀ x, ¬ (start_addr obj ≤ x < start_addr obj + _MTB_KVSTORE_AREA_SIZE obj) →
          peek d' x = peek d x)
  ∧ anchor_at (peek d') (start_addr obj) _MTB_KVSTORE_INITIAL_AREA_VERSION.
Proof.
  intros Hbuf Hstart Htop Hes Hanchor Herased Hrun.
  pose proof Hbuf as [Hp Hp0 [Hmin Htbs] _ Hlen].
  assert (0 ≤ anchor_size p) as Ha0
    by (unfold anchor_size, _mtb_kvstore_align_up; apply u32_range).
  pose proof (anchor_ge p ltac:(lia)) as Hge.
  assert (sizeof_record_header + strlen _mtb_kvstore_area_rec_key + sizeof_area_record_data
          = 34) as E34 by done.
  assert (sizeof_record_header = 20) as Hhs by done.
  rewrite E34 in Hge.
  set (A := _MTB_KVSTORE_AREA_SIZE obj) in *.
  unfold _mtb_kvstore_setup_areas, _mtb_kvstore_check_area_valid in Hrun.
  fold A in Hrun. rewrite (u32_small (start_addr obj + A)) in Hrun by lia.
  rewrite (read_record_erased d obj (start_addr obj) 0) in Hrun
    by (try lia; intros x Hx; apply Herased; lia).
  cbn [mbind option_bind rr_result rr_obj rr_data] in Hrun.
  change (area_check_fatal MTB_KVSTORE_ERASED_DATA_ERROR) with false in Hrun.
  cbn iota in Hrun.
  rewrite (read_record_erased d obj (start_addr obj + A) 0) in Hrun
    by (try lia; intros x Hx; apply Herased; lia).
  cbn [mbind option_bind rr_result rr_obj rr_data] in Hrun.
  change (area_check_fatal MTB_KVSTORE_ERASED_DATA_ERROR) with false in Hrun.
  change (is_success MTB_KVSTORE_ERASED_DATA_ERROR) with false in Hrun.
  cbn [andb] in Hrun. cbn iota in Hrun.
  destruct (_mtb_kvstore_erase_area bd d obj (start_addr obj)) as [r1 d1] eqn:Herase.
  destruct (is_success r1) eqn:Hr1; cbn [negb] in Hrun.
  2: { apply some3_inj in Hrun as (-> & _ & _). done. }
  apply bool_decide_eq_true in Hr1 as ->.
  unfold _mtb_kvstore_write_area_record in Hrun.
  destruct (_mtb_kvstore_write_record bd d1 obj (start_addr obj)
              _MTB_KVSTORE_AREA_HEADER_OFFSET _mtb_kvstore_area_rec_key _
              sizeof_area_record_data _MTB_KVSTORE_OPER_ADD None None)
    as [[[r2 d2] o2]|] eqn:Hwrite; cbn [mbind option_bind] in Hrun; [|done].
  destruct (is_success r2) eqn:Hr2; cbn [negb] in Hrun.
  2: { apply some3_inj in Hrun as (-> & _ & _). done. }
  apply bool_decide_eq_true in Hr2 as ->.
  apply some3_inj in Hrun as (_ & <- & <-).
  apply (write_record_ok bd peek Hrf) with (p := p) in Hwrite; try done; try lia.
  2: { unfold _MTB_KVSTORE_AREA_HEADER_OFFSET. lia. }
  cbv zeta in Hwrite. destruct Hwrite as (Hrec & Hcrc & Hframe & Hl & o & Hpost & Hrel).
  assert (anchor_at (peek d2) (start_addr obj) _MTB_KVSTORE_INITIAL_AREA_VERSION) as Hanch.
  { unfold _MTB_KVSTORE_AREA_HEADER_OFFSET in Hrec. rewrite Z.add_0_r in Hrec.
    eexists _, _MTB_KVSTORE_FORMAT_VERSION.
    split; [exact Hrec|]. split; [exact Hcrc|].
    unfold _MTB_KVSTORE_INITIAL_AREA_VERSION, _MTB_KVSTORE_FORMAT_VERSION. lia. }
  clear Hrec Hcrc.
  injection Hpost as <-.
  change (_mtb_kvstore_get_record_size bd _ _ _)
    with (_mtb_kvstore_get_area_header_record_size bd
            (start_addr obj + _MTB_KVSTORE_AREA_HEADER_OFFSET)) in Hframe.
  rewrite (area_header_record_size bd p _ Hp) in Hframe.
  unfold _MTB_KVSTORE_AREA_HEADER_OFFSET in Hframe. rewrite Z.add_0_r in Hframe.
  split; [|split; [done|split; [|split]]].
  - pose proof (obj_rel_fields _ _ Hrel) as (? & ? & ? & ? & ? & ? & ? & ? & ? & ? & ?).
    unfold obj_rel, forget_tb, set_transaction_buffer, set_active_area_version, set_areas.
    cbn. congruence.
  - intros x Hx. rewrite Hframe by lia.
    apply (erase_area_erased d obj (start_addr obj) d1); try done; lia.
  - intros x Hx.
    destruct (decide (start_addr obj ≤ x < start_addr obj + anchor_size p)); [lia|].
    rewrite Hframe by lia.
    apply (erase_area_ok bd peek Hrf d obj (start_addr obj) d1); try done; lia.
  - exact Hanch.
Qed.


Variable heap_alloc : Z → bool.

(** The scan of [_mtb_kvstore_build_ram_table] stops at an erased
    header. *)
Lemma build_ram_table_loop_erased fuel d obj off result :
  (_MTB_KVSTORE_AREA_SIZE obj ≤ Z.of_nat fuel)%Z →
  0 ≤ active_area_addr obj → 0 ≤ off → off + sizeof_record_header < 2 ^ 32 →
  active_area_addr obj + _MTB_KVSTORE_AREA_SIZE obj < 2 ^ 32 →
  free_space_offset obj ≤ _MTB_KVSTORE_AREA_SIZE obj →
  (∀ x, active_area_addr obj + off ≤ x
        < active_area_addr obj + _MTB_KVSTORE_AREA_SIZE obj → peek d x = 0xFF) →
  build_ram_table_loop bd heap_alloc fuel d obj off result
  = Some (if off + sizeof_record_header <? free_space_offset obj
          then CY_RSLT_SUCCESS else result, d, obj, off, false).
Proof.
  intros Hfuel Hact Hoff Hsmall Htop Hfso Herased.
  assert (sizeof_record_header = 20) as Hhs by done.
  assert (set_key_buffer (key_buffer obj) obj = obj) as Hsame by (by destruct obj).
  destruct (off + sizeof_record_header <? free_space_offset obj) eqn:Hcond.
  - apply Z.ltb_lt in Hcond. destruct fuel as [|fuel]; [lia|].
    cbn [build_ram_table_loop]. rewrite (u32_small (off + _)) by lia.
    rewrite (proj2 (Z.ltb_lt _ _) Hcond).
    rewrite (read_record_erased d obj (active_area_addr obj) off)
      by (try lia; intros x Hx; apply Herased; lia).
    cbn [mbind option_bind rr_result rr_obj rr_key rr_header default].
    change (negb (is_success MTB_KVSTORE_ERASED_DATA_ERROR)) with true.
    rewrite bool_decide_eq_true_2 by done. unfold id. by rewrite Hsame.
  - apply Z.ltb_ge in Hcond.
    destruct fuel; cbn [build_ram_table_loop]; rewrite (u32_small (off + _)) by lia;
      by rewrite (proj2 (Z.ltb_ge _ _) Hcond).
Qed.

(** [_mtb_kvstore_build_ram_table] on an area that is erased behind its
    area record. *)
Lemma build_ram_table_erased p d obj d' obj' :
  (∀ a, bd_program_size bd a = p) → 0 < p →
  0 ≤ active_area_addr obj →
  active_area_addr obj + _MTB_KVSTORE_AREA_SIZE obj + sizeof_record_header < 2 ^ 32 →
  anchor_size p ≤ _MTB_KVSTORE_AREA_SIZE obj →
  (∀ x, active_area_addr obj + anchor_size p ≤ x
        < active_area_addr obj + _MTB_KVSTORE_AREA_SIZE obj → peek d x = 0xFF) →
  _mtb_kvstore_build_ram_table bd heap_alloc d obj = Some (CY_RSLT_SUCCESS, d', obj') →
  d' = d
  ∧ obj' = set_free_space_offset (anchor_size p)
             (set_consumed_size (anchor_size p)
                (set_free_space_offset (_MTB_KVSTORE_AREA_SIZE obj)
                   (set_max_entries _MTB_KVSTORE_INIT_MAX_KEYS (set_ram_table [] obj)))).
Proof.
  intros Hp Hp0 Hact Htop Hanchor Herased Hrun.
  assert (0 ≤ anchor_size p) as Ha0
    by (unfold anchor_size, _mtb_kvstore_align_up; apply u32_range).
  assert (0 < sizeof_record_header) as Hhs by done.
  unfold _mtb_kvstore_build_ram_table in Hrun.
  destruct (heap_alloc _); cbn [negb] in Hrun; [|done].
  rewrite (area_header_record_size bd p _ Hp) in Hrun.
  rewrite build_ram_table_loop_erased in Hrun; try done; try lia.
  2: { change (_ + _ < 2 ^ 32)
         with (active_area_addr obj + _MTB_KVSTORE_AREA_SIZE obj < 2 ^ 32). lia. }
  cbn [mbind option_bind] in Hrun. apply some3_inj in Hrun as (_ & <- & <-). done.
Qed.


(** The transaction buffer [mtb_kvstore_init] allocates. *)
Lemma init_buffer_size p r :
  0 < p < 2 ^ 32 → 0 < r < 2 ^ 32 → r ≤ p ∨ r mod p = 0 →
  let m := if p >=? r then p else r in
  let n := if m <? _MTB_KVSTORE_MIN_BUFF_SIZE
           then _mtb_kvstore_align_up _MTB_KVSTORE_MIN_BUFF_SIZE p else m in
  MTB_KVSTORE_MAX_KEY_SIZE ≤ n < 2 ^ 32 ∧ n mod p = 0.
Proof.
  intros Hp Hr Hrp m n. subst m n.
  assert (MTB_KVSTORE_MAX_KEY_SIZE = 64) as -> by done.
  assert (_MTB_KVSTORE_MIN_BUFF_SIZE = 128) as -> by done.
  destruct (p >=? r) eqn:Hpr.
  - apply Z.geb_le in Hpr. destruct (p <? 128) eqn:Hsmall.
    + apply Z.ltb_lt in Hsmall.
      destruct (align_up_bounds 128 p) as [Hb Hm]; try lia.
    + apply Z.ltb_ge in Hsmall. split; [lia|]. apply Z_mod_same_full.
  - assert (p < r) by (destruct (Z.geb_spec p r); [done|lia]).
    destruct (r <? 128) eqn:Hsmall.
    + apply Z.ltb_lt in Hsmall.
      destruct (align_up_bounds 128 p) as [Hb Hm]; try lia.
    + apply Z.ltb_ge in Hsmall. split; [lia|]. destruct Hrp; [lia|done].
Qed.

(** [mtb_kvstore_init] on an erased medium. *)
Lemma init_erased p r es d obj0 start length d' obj' :
  (∀ a, bd_program_size bd a = p) → (∀ a, bd_read_size bd a = r) →
  (∀ a, bd_erase_size bd a = es) →
  0 < p → 0 < r < 2 ^ 32 → r ≤ p ∨ r mod p = 0 → 0 < es →
  0 ≤ start → start + length + p < 2 ^ 32 →
  anchor_size p ≤ length / 2 →
  (∀ x, start ≤ x < start + length → peek d x = 0xFF) →
  mtb_kvstore_init bd heap_alloc d obj0 start length = Some (CY_RSLT_SUCCESS, d', obj') →
  store_ok bd p (peek d') obj' []
  ∧ start_addr obj' = start ∧ obj_length obj' = length
  ∧ active_area_addr obj' = start ∧ gc_area_addr obj' = start + length / 2
  ∧ active_area_version obj' = _MTB_KVSTORE_INITIAL_AREA_VERSION
  ∧ consumed_size obj' = anchor_size p ∧ free_space_offset obj' = anchor_size p
  ∧ (∀ x, ¬ (start ≤ x < start + length / 2) → peek d' x = peek d x)
  ∧ anchor_at (peek d') start _MTB_KVSTORE_INITIAL_AREA_VERSION
  ∧ ∀ x, start + anchor_size p ≤ x < start + length → peek d' x = 0xFF.
Proof.
  intros Hp Hr Hes Hp0 Hr0 Hrp Hes0 Hstart Htop Hanchor Herased Hrun.
  assert (0 ≤ anchor_size p) as Ha0
    by (unfold anchor_size, _mtb_kvstore_align_up; apply u32_range).
  assert (0 ≤ length / 2) as HA0 by lia.
  assert (2 * (length / 2) ≤ length) as H2A by (apply Z.mul_div_le; lia).
  assert (0 ≤ length) as Hlen0 by lia.
  pose proof (anchor_ge p ltac:(lia)) as Hge.
  assert (sizeof_record_header + strlen _mtb_kvstore_area_rec_key + sizeof_area_record_data
          = 34) as E34 by done.
  assert (sizeof_record_header = 20) as Hhs by done.
  rewrite E34 in Hge.
  unfold mtb_kvstore_init in Hrun.
  destruct (length =? 0); [done|].
  destruct (negb _ || negb _); [done|]. rewrite Hes in Hrun.
  destruct (es =? 0); [done|].
  destruct ((length / es =? 0) || _) eqn:Hsectors; [done|].
  apply orb_false_iff in Hsectors as [Hn0 Hodd]. apply Z.eqb_neq in Hn0.
  assert (0 ≤ length / es) as Hn by (apply Z.div_pos; lia).
  rewrite (proj2 (Z.ltb_lt 0 (length / es))) in Hodd by lia.
  cbn [andb] in Hodd. apply negb_false_iff, Z.eqb_eq in Hodd.
  assert (es ≤ length / 2) as HesA.
  { assert (length / es ≠ 1) by (intros E1; rewrite E1 in Hodd; done).
    pose proof (Z.mul_div_le length es Hes0).
    apply Z.div_le_lower_bound; [lia|]. nia. }
  rewrite Hp, Hr in Hrun.
  destruct (init_buffer_size p r ltac:(lia) Hr0 Hrp) as [Htbs Hmod].
  set (n := if (if p >=? r then p else r) <? _MTB_KVSTORE_MIN_BUFF_SIZE
            then _mtb_kvstore_align_up _MTB_KVSTORE_MIN_BUFF_SIZE p
            else if p >=? r then p else r) in *.
  assert (MTB_KVSTORE_MAX_KEY_SIZE = 64) as Hmax by done.
  destruct (heap_alloc n); [|done].
  cbn [ram_table max_entries transaction_buffer key_buffer active_area_addr gc_area_addr
       free_space_offset active_area_version consumed_size set_transaction_buffer zero_obj]
    in Hrun.
  set (obj1 := {| start_addr := start; obj_length := length; ram_table := [];
                  max_entries := 0; transaction_buffer := replicate (Z.to_nat n) 0;
                  transaction_buffer_size := n;
                  key_buffer := replicate (Z.to_nat MTB_KVSTORE_MAX_KEY_SIZE) 0;
                  active_area_addr := 0; gc_area_addr := 0; free_space_offset := 0;
                  active_area_version := 0; consumed_size := 0 |}) in *.
  assert (buffer_ok bd p obj1) as Hbuf.
  { constructor; cbn; try done. unfold strlen. rewrite length_replicate. lia. }
  destruct (_mtb_kvstore_setup_areas bd d obj1) as [[[r1 d1] o1]|] eqn:Hsetup;
    cbn [mbind option_bind] in Hrun; [|done].
  destruct (is_success r1) eqn:Hr1.
  2: { apply some3_inj in Hrun as (-> & _ & _). done. }
  apply bool_decide_eq_true in Hr1 as ->.
  apply (setup_areas_erased p) in Hsetup as (Hrel1 & Hl1 & Herased1 & Hframe1 & Hanch1);
    try done.
  2: { change (start + 2 * (length / 2) + p < 2 ^ 32). lia. }
  2: { intros a. rewrite Hes. change (0 < es ≤ length / 2). lia. }
  2: { intros x Hx. apply Herased. change (start ≤ x < start + 2 * (length / 2)) in Hx.
       lia. }
  change (start_addr obj1) with start in *.
  change (_MTB_KVSTORE_AREA_SIZE obj1) with (length / 2) in *.
  pose proof (obj_rel_fields _ _ Hrel1)
    as (Hs1 & Hol1 & Htab1 & Hme1 & Ht1 & Hkb1 & Hact1 & Hgc1 & Hfso1 & Hv1 & Hc1).
  cbn in Hs1, Hol1, Ht1, Hact1, Hgc1, Hv1.
  apply (build_ram_table_erased p) in Hrun as (-> & ->); try done.
  2: { rewrite Hact1. done. }
  2: { rewrite Hact1. unfold _MTB_KVSTORE_AREA_SIZE. rewrite Hol1. lia. }
  2: { unfold _MTB_KVSTORE_AREA_SIZE. by rewrite Hol1. }
  2: { rewrite Hact1. unfold _MTB_KVSTORE_AREA_SIZE. rewrite Hol1. done. }
  cbn [start_addr obj_length active_area_addr gc_area_addr active_area_version
       consumed_size free_space_offset set_free_space_offset set_consumed_size
       set_max_entries set_ram_table].
  rewrite Hs1, Hol1, Hact1, Hgc1, Hv1.
  split; [|repeat (split; [done|])].
  2: { intros x Hx. destruct (decide (x < start + length / 2)) as [Hlow|Hhigh].
       - apply Herased1. lia.
       - rewrite Hframe1 by lia. apply Herased. lia. }
  constructor; cbn [start_addr obj_length active_area_addr gc_area_addr ram_table
                    consumed_size free_space_offset set_free_space_offset
                    set_consumed_size set_max_entries set_ram_table live_size fmap
                    list_fmap]; unfold _MTB_KVSTORE_AREA_SIZE;
    cbn [obj_length set_free_space_offset set_consumed_size set_max_entries
         set_ram_table]; rewrite ?Hol1.
  - constructor; unfold areas_ok, _MTB_KVSTORE_AREA_SIZE;
      cbn [start_addr obj_length active_area_addr gc_area_addr transaction_buffer
           transaction_buffer_size set_free_space_offset set_consumed_size
           set_max_entries set_ram_table];
      rewrite ?Hs1, ?Hol1, ?Hact1, ?Hgc1; try done; try lia.
    + constructor; cbn [transaction_buffer transaction_buffer_size
                        set_free_space_offset set_consumed_size set_max_entries
                        set_ram_table]; rewrite ?Ht1; try done.
    + intros a. rewrite Hes. lia.
  - constructor.
  - intros i j ei ej _ Hi. done.
  - constructor.
  - lia.
  - lia.
Qed.

End Format.

Lemma sim_erases r p e : erases_to_ff (sim_bd r p e) cells.
Proof.
  intros d a n d' H x Hx. cbn in H. unfold sim_erase in H.
  destruct (spend (budget d)); [|discriminate H]. injection H as <-. cbn.
  assert ((a <=? x) = true) as -> by lia. assert ((x <? a + n) = true) as -> by lia. done.
Qed.

(** * The scan of the active area at initialisation *)

(** The key in the key buffer, as the C string the scan makes of it. *)
Lemma cstring_app key rest : 0 ∉ key → cstring (key ++ 0 :: rest) = key.
Proof.
  induction key as [|c key IH]; intros Hnz; cbn; [done|].
  apply not_elem_of_cons in Hnz as [Hc Hkey].
  destruct (c =? 0) eqn:E; [apply Z.eqb_eq in E; congruence|].
  by rewrite IH.
Qed.

Lemma cstring_key_buffer key kb :
  0 ∉ key → (length key < length kb)%nat →
  cstring (<[length key := 0]> (read_into (strlen key) key kb)) = key.
Proof.
  intros Hnz Hlen. unfold read_into.
  rewrite exactly_id by (unfold strlen; lia).
  unfold strlen. rewrite Nat2Z.id.
  rewrite insert_app_r_alt by lia. rewrite Nat.sub_diag.
  destruct (drop (length key) kb) as [|c rest] eqn:Hdrop.
  { apply (f_equal length) in Hdrop. rewrite length_drop in Hdrop. cbn in Hdrop. lia. }
  cbn. by apply cstring_app.
Qed.

Section Scan.
Context {D : Type} (bd : mtb_kvstore_bd_t D) (peek : D → Z → Z).
Hypothesis Hrf : reliable_flash bd peek.

(** [_mtb_kvstore_read_record] as the scan calls it: the key is read into
    the key buffer and the data is only checked. *)
Lemma read_record_scan d obj area off h K Dat kb :
  0 < transaction_buffer_size obj →
  strlen (transaction_buffer obj) = transaction_buffer_size obj →
  0 ≤ area → 0 ≤ off →
  record_at (peek d) (area + off) h K Dat → crc_ok h K Dat →
  ∃ obj',
    _mtb_kvstore_read_record bd d obj area off (Some kb) false None None
    = Some {| rr_result := CY_RSLT_SUCCESS; rr_obj := obj'; rr_header := h;
              rr_key := Some (read_into (strlen K) K kb);
              rr_data := None; rr_data_size := None |}
    ∧ obj_rel obj' obj
    ∧ strlen (transaction_buffer obj') = transaction_buffer_size obj.
Proof.
  intros Htbs Hlen Harea Hoff Hrec Hcrc.
  destruct Hrec as [Hh Hk Hd Hrange Hmagic Hhsize Hksize Hdsize Hklen Haddr].
  assert (MTB_KVSTORE_MAX_KEY_SIZE = 64) as Hmax by done.
  assert (sizeof_record_header = 20) as Hhs by done.
  pose proof (strlen_nonneg K). pose proof (strlen_nonneg Dat).
  unfold _mtb_kvstore_read_record.
  rewrite (u32_small (area + off)) by lia.
  change (u8 sizeof_record_header) with sizeof_record_header.
  rewrite (rf_read _ _ Hrf), exactly_bytes_at, Hh, header_of_header_bytes by done.
  cbv beta iota zeta. rewrite is_success_true. cbn [negb].
  rewrite Hmagic, Hhsize, Hksize, Hdsize.
  change ((_MTB_KVSTORE_HEADER_MAGIC =? 4294967295) || (_MTB_KVSTORE_HEADER_MAGIC =? 0))
    with false. cbv iota.
  rewrite Z.eqb_refl. cbn [negb].
  assert (((strlen K =? 0) || (strlen K >=? MTB_KVSTORE_MAX_KEY_SIZE)) = false) as ->
    by (apply orb_false_intro; lia).
  rewrite (u32_small (area + off + sizeof_record_header)) by lia.
  rewrite (u32_small (area + off + sizeof_record_header + strlen K)) by lia.
  unfold read_record_key. rewrite (bd_read_buf_ok bd peek Hrf). rewrite Hk.
  cbn [mbind option_bind]. rewrite is_success_true. cbn [negb].
  rewrite take_read_into, exactly_id by (unfold strlen; lia).
  pose proof (crc16_range K (_mtb_kvstore_get_header_crc h _MTB_KVSTORE_CRC_INIT_VAL)) as Hc.
  unfold read_record_data.
  destruct (buffered_crc_compute_ok bd peek Hrf d obj
              (area + off + sizeof_record_header + strlen K) (strlen Dat)
              (_mtb_kvstore_crc16 K
                 (_mtb_kvstore_get_header_crc h _MTB_KVSTORE_CRC_INIT_VAL)))
    as (o2 & Hs & Hr & Hl); try done; try lia.
  rewrite Hs, Hd. cbn [mbind option_bind]. rewrite is_success_true. cbn [negb].
  rewrite <- Hcrc, Z.eqb_refl. cbn [negb]. by exists o2.
Qed.

End Scan.

(** The RAM table and [consumed_size] brought up to date for the record at
    [free_space_offset]: the step a write and the scan have in common. *)
Lemma record_step_ok {D : Type} (bd : mtb_kvstore_bd_t D) p f obj m h key dat op idx
    old_size obj' :
  store_ok bd p f obj m →
  record_at f (active_area_addr obj + free_space_offset obj) h key dat → crc_ok h key dat →
  free_space_offset obj + sizeof_record_header + strlen key + strlen dat
  ≤ _MTB_KVSTORE_AREA_SIZE obj →
  op_ok p op key idx old_size m →
  free_space_offset obj + rec_size p (key, dat) ≤ _MTB_KVSTORE_AREA_SIZE obj →
  obj_rel obj'
    (_mtb_kvstore_update_consumed_size
       (_mtb_kvstore_update_ram_table obj op
          {| ram_tbl_idx := idx;
             entry := {| hash := key_hash key; offset := free_space_offset obj |} |})
       op {| old_record_size := old_size; new_record_size := rec_size p (key, dat) |}) →
  strlen (transaction_buffer obj') = transaction_buffer_size obj →
  store_ok bd p f
    (set_free_space_offset (free_space_offset obj + rec_size p (key, dat)) obj')
    (table_op op (Z.to_nat idx) (key, dat) m).
Proof.
  intros Hok Hrec Hcrc Hfits [Hidx Hop] Hroom Hrel Hl.
  set (kv := (key, dat)) in *.
  pose proof Hok as [Hgeo Hents Hsorted Hkeys Hcons Hfree].
  pose proof (store_bounds bd p _ obj m Hok) as (Hnum & Hlenm & Hlive).
  pose proof (store_hashes bd p _ obj m Hok) as Hhashes.
  pose proof (geometry_areas bd p obj Hgeo)
    as (Hp & Hact & Hgc & Hacttop & Hgctop & Hdisj & H34 & HanchA).
  pose proof Hgeo as [Hbuf _ _ _ Hgtop Hareas _].
  pose proof Hbuf as [Hunif _ Htbs _ Hlen].
  assert (sizeof_record_header + strlen _mtb_kvstore_area_rec_key + sizeof_area_record_data
          = 34) as E34 by done.
  assert (0 < sizeof_record_header) as Hhs0 by done.
  pose proof (strlen_nonneg key) as Hk0. pose proof (strlen_nonneg dat) as Hd0.
  set (fso := free_space_offset obj) in *. set (A := _MTB_KVSTORE_AREA_SIZE obj) in *.
  assert (sizeof_record_header + strlen key + strlen dat + p ≤ 2 ^ 32) as Hbound.
  { destruct Hareas as [[Ha _]|[Ha _]]; unfold A, _MTB_KVSTORE_AREA_SIZE in *; lia. }
  destruct (rec_size_bounds p kv ltac:(lia)) as (Hsz1 & Hsz2 & _);
    [cbn [fst snd kv]; lia|]. cbn [fst snd kv] in Hsz1, Hsz2.
  fold kv in Hsz1, Hsz2.
  assert (∃ old_live, live_size p (table_op op (Z.to_nat idx) kv m)
                      = live_size p m - old_live + (if decide (op = _MTB_KVSTORE_OPER_DELETE)
                                                    then 0 else rec_size p kv)
                      ∧ old_size = old_live ∧ 0 ≤ old_live ≤ live_size p m
                      ∧ (op = _MTB_KVSTORE_OPER_DELETE →
                         idx < Z.of_nat (length (ram_table obj))))
    as (old_live & Hlive' & Hold_size & Hold_live & Hdel).
  { destruct op.
    - destruct Hop as (_ & _ & -> & _). exists 0. rewrite live_size_add.
      rewrite decide_False by done. repeat split; try done; lia.
    - destruct Hop as (old & Hold & ->). exists (rec_size p (key, old)).
      rewrite (live_size_delete p m _ kv _ Hold). rewrite decide_True by done.
      pose proof (live_size_split p m _ _ Hold).
      pose proof (live_size_nonneg' p (take (Z.to_nat idx) m)).
      pose proof (live_size_nonneg' p (drop (S (Z.to_nat idx)) m)).
      assert (0 ≤ rec_size p (key, old))
        by (unfold rec_size, _mtb_kvstore_align_up; apply u32_range).
      apply lookup_lt_Some in Hold. repeat split; try done; lia.
    - destruct Hop as (old & Hold & ->). exists (rec_size p (key, old)).
      rewrite (live_size_update p m _ kv _ Hold). rewrite decide_False by done.
      pose proof (live_size_split p m _ _ Hold).
      pose proof (live_size_nonneg' p (take (Z.to_nat idx) m)).
      pose proof (live_size_nonneg' p (drop (S (Z.to_nat idx)) m)).
      assert (0 ≤ rec_size p (key, old))
        by (unfold rec_size, _mtb_kvstore_align_up; apply u32_range).
      repeat split; try done; lia. }
  subst old_size.
  rewrite update_ram_table_op in Hrel;
    [|done|unfold num_entries; lia|unfold num_entries; exact Hdel].
  cbn [ram_tbl_idx entry] in Hrel.
  set (e1 := {| hash := key_hash key; offset := fso |}) in *.
  pose proof (obj_rel_fields _ _ Hrel)
    as (Hs & Hol & Htab & _ & Ht & _ & Ha & Hg & Hfso & _ & Hc).
  destruct (update_consumed_size_fields
              (set_ram_table (table_op op (Z.to_nat idx) e1 (ram_table obj)) obj) op
              {| old_record_size := old_live; new_record_size := rec_size p kv |})
    as (Hs' & Hol' & Htab' & Ht' & Ha' & Hg' & Hfso' & Hc').
  rewrite Hs' in Hs. rewrite Hol' in Hol. rewrite Htab' in Htab. rewrite Ht' in Ht.
  rewrite Ha' in Ha. rewrite Hg' in Hg. rewrite Hc' in Hc. rewrite Hfso' in Hfso.
  cbn [start_addr obj_length ram_table transaction_buffer_size active_area_addr
       gc_area_addr consumed_size free_space_offset set_ram_table old_record_size
       new_record_size]
    in Hs, Hol, Htab, Ht, Ha, Hg, Hc, Hfso.
  fold fso in Hfso.
  clear Hs' Hol' Htab' Ht' Ha' Hg' Hfso' Hc'.
  assert (entry_ok f p (active_area_addr obj) (anchor_size p)
                   (fso + rec_size p kv) e1 kv) as Hnew.
  { constructor; cbn [hash offset fst snd kv e1]; try done; try lia.
    by exists h. }
  assert (Forall2 (entry_ok f p (active_area_addr obj) (anchor_size p)
                            (fso + rec_size p kv)) (ram_table obj) m) as Hold.
  { eapply list.Forall2_impl; [exact Hents|]. intros e kv0 He.
    eapply entry_ok_frame; [exact He|lia|lia|lia|]. done. }
  constructor;
    cbn [active_area_addr free_space_offset ram_table consumed_size
         set_free_space_offset].
  - eapply geometry_fields; [exact Hgeo|done..|].
    unfold areas_ok, _MTB_KVSTORE_AREA_SIZE in *.
    cbn [active_area_addr gc_area_addr start_addr obj_length set_free_space_offset].
    by rewrite Hs, Hol, Ha, Hg.
  - rewrite Ha, Htab. by apply Forall2_table_op.
  - rewrite Htab. destruct op.
    + destruct Hop as (Hnotin & Hle & _ & Hpos).
      apply sorted_desc_add; [done|lia|].
      intros i e He. destruct (Forall2_lookup_l _ _ _ _ _ Hhashes He) as (kv0 & Hkv0 & Hh).
      cbn [hash e1]. rewrite Hh, <- (Hpos i kv0 Hkv0). lia.
    + by apply sorted_desc_delete.
    + destruct Hop as (old & Hold' & _).
      destruct (lookup_lt_is_Some_2 (ram_table obj) (Z.to_nat idx)) as [e0 He0].
      { rewrite Hlenm. by eapply lookup_lt_Some. }
      apply (sorted_desc_update _ _ _ e0 Hsorted He0).
      by rewrite (Forall2_lookup_lr _ _ _ _ _ _ Hhashes He0 Hold').
  - destruct op.
    + destruct Hop as (Hnotin & _). by apply keys_add.
    + destruct Hop as (old & Hold' & _).
      by destruct (keys_delete m (Z.to_nat idx) kv _ Hkeys Hold').
    + destruct Hop as (old & Hold' & _). by rewrite (keys_update m _ kv _ Hold').
  - rewrite Hc, Hlive'. destruct op.
    + rewrite decide_False by done. rewrite u32_small by lia. lia.
    + rewrite decide_True by done. rewrite u32_small by lia. lia.
    + rewrite decide_False by done.
      rewrite (u32_small (consumed_size obj - old_live)) by lia.
      rewrite u32_small by lia. lia.
  - unfold _MTB_KVSTORE_AREA_SIZE.
    cbn [obj_length set_free_space_offset]. rewrite Hol, Hc.
    fold (_MTB_KVSTORE_AREA_SIZE obj). fold A.
    destruct op.
    + rewrite u32_small by lia. lia.
    + rewrite u32_small by lia. lia.
    + rewrite (u32_small (consumed_size obj - old_live)) by lia.
      rewrite u32_small by lia. lia.
Qed.

Lemma store_ok_same {D : Type} (bd : mtb_kvstore_bd_t D) p f obj obj' m :
  store_ok bd p f obj m →
  start_addr obj' = start_addr obj → obj_length obj' = obj_length obj →
  ram_table obj' = ram_table obj →
  transaction_buffer_size obj' = transaction_buffer_size obj →
  strlen (transaction_buffer obj') = transaction_buffer_size obj →
  active_area_addr obj' = active_area_addr obj → gc_area_addr obj' = gc_area_addr obj →
  free_space_offset obj' = free_space_offset obj → consumed_size obj' = consumed_size obj →
  store_ok bd p f obj' m.
Proof.
  intros [Hgeo Hents Hsorted Hkeys Hcons Hfree] Hs Hol Htab Ht Hl Ha Hg Hfso Hc.
  constructor; unfold _MTB_KVSTORE_AREA_SIZE in *; rewrite ?Htab, ?Ha, ?Hfso, ?Hc, ?Hol;
    try done.
  eapply geometry_fields; [exact Hgeo|done..|].
  destruct Hgeo as [_ _ _ _ _ Hareas _]. unfold areas_ok, _MTB_KVSTORE_AREA_SIZE in *.
  by rewrite Hs, Hol, Ha, Hg.
Qed.

Lemma store_ok_grow {D : Type} (bd : mtb_kvstore_bd_t D) p f obj m hi :
  store_ok bd p f obj m →
  free_space_offset obj ≤ hi ≤ _MTB_KVSTORE_AREA_SIZE obj →
  store_ok bd p f (set_free_space_offset hi obj) m.
Proof.
  intros [Hgeo Hents Hsorted Hkeys Hcons Hfree] Hhi.
  pose proof (geometry_areas bd p obj Hgeo) as (Hp & _).
  assert (0 ≤ anchor_size p)
    by (unfold anchor_size, _mtb_kvstore_align_up; apply u32_range).
  constructor; cbn [ram_table active_area_addr free_space_offset consumed_size
                    set_free_space_offset]; try done.
  - eapply geometry_fields; [exact Hgeo|done..|by destruct Hgeo as [[]]|by destruct Hgeo].
  - eapply list.Forall2_impl; [exact Hents|]. intros e kv He.
    eapply entry_ok_frame; [exact He|lia|lia|lia|done].
  - unfold _MTB_KVSTORE_AREA_SIZE in *. cbn [obj_length set_free_space_offset]. lia.
Qed.

(** The updates of the RAM table and of [consumed_size] do not depend on
    [free_space_offset]. *)
Lemma update_commute_fso o v op rti si :
  set_free_space_offset v
    (_mtb_kvstore_update_consumed_size (_mtb_kvstore_update_ram_table o op rti) op si)
  = _mtb_kvstore_update_consumed_size
      (_mtb_kvstore_update_ram_table (set_free_space_offset v o) op rti) op si.
Proof.
  unfold _mtb_kvstore_update_consumed_size, _mtb_kvstore_update_ram_table, num_entries.
  destruct op; cbn [ram_table set_free_space_offset]; try done.
  by destruct (ram_tbl_idx rti <? _).
Qed.

Lemma NoDup_fst_inj {A B : Type} (l : list (A * B)) x y1 y2 :
  NoDup l.*1 → (x, y1) ∈ l → (x, y2) ∈ l → y1 = y2.
Proof.
  intros Hnd [i Hi]%list_elem_of_lookup [j Hj]%list_elem_of_lookup.
  assert (i = j) as ->.
  { apply (NoDup_lookup _ i j x Hnd); rewrite list_lookup_fmap; [by rewrite Hi|by rewrite Hj]. }
  congruence.
Qed.

Lemma update_fields o op rti si :
  let o' := _mtb_kvstore_update_consumed_size (_mtb_kvstore_update_ram_table o op rti) op si in
  start_addr o' = start_addr o ∧ obj_length o' = obj_length o
  ∧ transaction_buffer_size o' = transaction_buffer_size o
  ∧ transaction_buffer o' = transaction_buffer o
  ∧ key_buffer o' = key_buffer o
  ∧ active_area_addr o' = active_area_addr o ∧ gc_area_addr o' = gc_area_addr o
  ∧ free_space_offset o' = free_space_offset o
  ∧ active_area_version o' = active_area_version o
  ∧ active_area_addr (_mtb_kvstore_update_ram_table o op rti) = active_area_addr o.
Proof.
  unfold _mtb_kvstore_update_consumed_size, _mtb_kvstore_update_ram_table.
  destruct op; cbn; try done. by destruct (ram_tbl_idx rti <? _).
Qed.

(** The contents a function [g] from keys to data describes. *)
Lemma updated_get (g : list Z → option (list Z)) del key dat m m' :
  (∀ K Dat, (K, Dat) ∈ m ↔ g K = Some Dat) → NoDup m'.*1 →
  updated del key dat m m' →
  ∀ K Dat, (K, Dat) ∈ m'
           ↔ (if decide (key = K) then (if del then None else Some dat) else g K) = Some Dat.
Proof.
  intros Hg Hnd [Hkey Hothers] K Dat.
  destruct (decide (key = K)) as [<-|Hne].
  - destruct del.
    + split; [|done]. intros Hin. destruct Hkey. apply list_elem_of_fmap.
      by exists (key, Dat).
    + split.
      * intros Hin. f_equal. by eapply (NoDup_fst_inj m' key dat Dat).
      * by intros [= <-].
  - rewrite (Hothers K Dat) by done. apply Hg.
Qed.

Section Replay.
Context {D : Type} (bd : mtb_kvstore_bd_t D) (peek : D → Z → Z).
Hypothesis Hrf : reliable_flash bd peek.
Variable heap_alloc : Z → bool.

(** The end of a round: the RAM table grows if it must, and the table and
    [consumed_size] are brought up to date. *)
Lemma scan_apply p fuel d o3 off m h k dat op idx old_dsize r d' obj' off' returned :
  store_ok bd p (peek d) (set_free_space_offset off o3) m →
  free_space_offset o3 = _MTB_KVSTORE_AREA_SIZE o3 →
  record_at (peek d) (active_area_addr o3 + off) h k dat → crc_ok h k dat →
  off + sizeof_record_header + strlen k + strlen dat ≤ _MTB_KVSTORE_AREA_SIZE o3 →
  off + rec_size p (k, dat) ≤ _MTB_KVSTORE_AREA_SIZE o3 →
  op_ok p op k idx
    (if bool_decide (op = _MTB_KVSTORE_OPER_ADD) then 0
     else _mtb_kvstore_get_record_size bd (active_area_addr o3) (u32 (strlen k)) old_dsize)
    m →
  (let '(result, obj, failed) :=
     if bool_decide (op = _MTB_KVSTORE_OPER_ADD) && (num_entries o3 >=? max_entries o3)
     then
       let '(result, obj) := _mtb_kvstore_increment_max_keys heap_alloc o3 in
       (result, obj, negb (is_success result))
     else (r, o3, false) in
   if failed then Some (result, d, obj, off + rec_size p (k, dat), false)
   else
     let ram_tbl_info :=
       {| ram_tbl_idx := idx; entry := {| hash := key_hash k; offset := off |} |} in
     let obj := _mtb_kvstore_update_ram_table obj op ram_tbl_info in
     let old_record_size :=
       if bool_decide (op = _MTB_KVSTORE_OPER_ADD) then 0
       else _mtb_kvstore_get_record_size bd (active_area_addr obj) (u32 (strlen k))
                                         old_dsize in
     let size_info :=
       {| old_record_size := old_record_size; new_record_size := rec_size p (k, dat) |} in
     let obj := _mtb_kvstore_update_consumed_size obj op size_info in
     build_ram_table_loop bd heap_alloc fuel d obj (off + rec_size p (k, dat))
                          CY_RSLT_SUCCESS)
  = Some (CY_RSLT_SUCCESS, d', obj', off', returned) →
  ∃ obj1,
    build_ram_table_loop bd heap_alloc fuel d obj1 (off + rec_size p (k, dat))
                         CY_RSLT_SUCCESS
    = Some (CY_RSLT_SUCCESS, d', obj', off', returned)
    ∧ store_ok bd p (peek d) (set_free_space_offset (off + rec_size p (k, dat)) obj1)
               (table_op op (Z.to_nat idx) (k, dat) m)
    ∧ free_space_offset obj1 = _MTB_KVSTORE_AREA_SIZE obj1
    ∧ _MTB_KVSTORE_AREA_SIZE obj1 = _MTB_KVSTORE_AREA_SIZE o3
    ∧ active_area_addr obj1 = active_area_addr o3
    ∧ active_area_version obj1 = active_area_version o3
    ∧ key_buffer obj1 = key_buffer o3.
Proof.
  intros Hok Hfso Hrec Hcrc Hfit Hroom Hop Hrun.
  match type of Hrun with
  | context [match ?X with pair _ _ => _ end] =>
      destruct X as [[r0 o4] failed] eqn:Hgrow
  end.
  assert (∃ v, o4 = set_max_entries v o3 ∨ (o4 = o3 ∧ v = 0)) as [v Ho4].
  { destruct (bool_decide (op = _MTB_KVSTORE_OPER_ADD) && (num_entries o3 >=? max_entries o3)).
    - unfold _mtb_kvstore_increment_max_keys in Hgrow.
      destruct (heap_alloc _); apply some3_inj_pair in Hgrow as (_ & <- & _).
      + eexists. by left.
      + exists 0. by right.
    - apply some3_inj_pair in Hgrow as (_ & <- & _). exists 0. by right. }
  assert (failed = true → r0 ≠ CY_RSLT_SUCCESS) as Hfail.
  { destruct (bool_decide (op = _MTB_KVSTORE_OPER_ADD) && (num_entries o3 >=? max_entries o3)).
    - unfold _mtb_kvstore_increment_max_keys in Hgrow.
      destruct (heap_alloc _); apply some3_inj_pair in Hgrow as (<- & _ & <-); done.
    - apply some3_inj_pair in Hgrow as (_ & _ & <-). done. }
  clear Hgrow. destruct failed.
  { injection Hrun as Hr _ _ _ _. by destruct Hfail. }
  clear Hfail. cbv zeta in Hrun.
  set (rti := {| ram_tbl_idx := idx; entry := {| hash := key_hash k; offset := off |} |})
    in *.
  destruct (update_fields o4 op rti
              {| old_record_size :=
                   if bool_decide (op = _MTB_KVSTORE_OPER_ADD) then 0
                   else _mtb_kvstore_get_record_size bd
                          (active_area_addr (_mtb_kvstore_update_ram_table o4 op rti))
                          (u32 (strlen k)) old_dsize;
                 new_record_size := rec_size p (k, dat) |})
    as (Hs6 & Hol6 & Ht6 & Htb6 & Hkb6 & Ha6 & Hg6 & Hfso6 & Hv6 & Ha5).
  set (o6 := _mtb_kvstore_update_consumed_size _ op _) in *.
  assert (start_addr o4 = start_addr o3 ∧ obj_length o4 = obj_length o3
          ∧ ram_table o4 = ram_table o3
          ∧ transaction_buffer_size o4 = transaction_buffer_size o3
          ∧ transaction_buffer o4 = transaction_buffer o3
          ∧ key_buffer o4 = key_buffer o3
          ∧ active_area_addr o4 = active_area_addr o3 ∧ gc_area_addr o4 = gc_area_addr o3
          ∧ free_space_offset o4 = free_space_offset o3
          ∧ active_area_version o4 = active_area_version o3
          ∧ consumed_size o4 = consumed_size o3)
    as (Hs4 & Hol4 & Htab4 & Ht4 & Htb4 & Hkb4 & Ha4 & Hg4 & Hfso4 & Hv4 & Hc4)
    by (destruct Ho4 as [->|[-> _]]; done).
  assert (_MTB_KVSTORE_AREA_SIZE o4 = _MTB_KVSTORE_AREA_SIZE o3) as HA4
    by (unfold _MTB_KVSTORE_AREA_SIZE; by rewrite Hol4).
  assert (_MTB_KVSTORE_AREA_SIZE o6 = _MTB_KVSTORE_AREA_SIZE o3) as HA6
    by (unfold _MTB_KVSTORE_AREA_SIZE; by rewrite Hol6, Hol4).
  exists o6. split; [exact Hrun|].
  split; [|rewrite HA6, Hfso6, Hfso4, Ha6, Ha4, Hv6, Hv4, Hkb6, Hkb4; done].
  assert (store_ok bd p (peek d) (set_free_space_offset off o4) m) as Hok4.
  { apply (store_ok_same bd p _ (set_free_space_offset off o3)); try done.
    pose proof Hok as [[[_ _ _ _ Hlen] _ _ _ _ _ _] _ _ _ _ _].
    cbn [transaction_buffer transaction_buffer_size set_free_space_offset] in *.
    by rewrite Htb4. }
  pose proof Hok4 as [[[_ _ _ _ Hlen4] _ _ _ _ _ _] _ _ _ _ _].
  cbn [transaction_buffer transaction_buffer_size set_free_space_offset] in Hlen4.
  apply (record_step_ok bd p (peek d) (set_free_space_offset off o4) m h k dat op idx
           (if bool_decide (op = _MTB_KVSTORE_OPER_ADD) then 0
            else _mtb_kvstore_get_record_size bd (active_area_addr o3) (u32 (strlen k))
                                              old_dsize)
           (set_free_space_offset off o6)); try done.
  - cbn [active_area_addr free_space_offset set_free_space_offset]. by rewrite Ha4.
  - cbn [free_space_offset set_free_space_offset].
    change (_MTB_KVSTORE_AREA_SIZE (set_free_space_offset off o4))
      with (_MTB_KVSTORE_AREA_SIZE o4). by rewrite HA4.
  - cbn [free_space_offset set_free_space_offset].
    change (_MTB_KVSTORE_AREA_SIZE (set_free_space_offset off o4))
      with (_MTB_KVSTORE_AREA_SIZE o4). by rewrite HA4.
  - cbn [free_space_offset set_free_space_offset]. unfold o6.
    rewrite update_commute_fso. rewrite Ha5, Ha4. done.
  - cbn [transaction_buffer transaction_buffer_size set_free_space_offset].
    by rewrite Htb6.
Qed.

(** One round of the scan, over an intact record at [off]: the scan goes
    on behind the record with the RAM table brought up to date. *)
Lemma scan_step p fuel d obj off result m h k dat d' obj' off' returned :
  store_ok bd p (peek d) (set_free_space_offset off obj) m →
  free_space_offset obj = _MTB_KVSTORE_AREA_SIZE obj →
  length (key_buffer obj) = Z.to_nat MTB_KVSTORE_MAX_KEY_SIZE →
  record_at (peek d) (active_area_addr obj + off) h k dat → crc_ok h k dat → 0 ∉ k →
  off + sizeof_record_header + strlen k + strlen dat ≤ _MTB_KVSTORE_AREA_SIZE obj →
  off + rec_size p (k, dat) ≤ _MTB_KVSTORE_AREA_SIZE obj →
  build_ram_table_loop bd heap_alloc (S fuel) d obj off result
  = Some (CY_RSLT_SUCCESS, d', obj', off', returned) →
  ∃ obj1 m1 r1,
    build_ram_table_loop bd heap_alloc fuel d obj1 (off + rec_size p (k, dat)) r1
    = Some (CY_RSLT_SUCCESS, d', obj', off', returned)
    ∧ store_ok bd p (peek d) (set_free_space_offset (off + rec_size p (k, dat)) obj1) m1
    ∧ free_space_offset obj1 = _MTB_KVSTORE_AREA_SIZE obj1
    ∧ _MTB_KVSTORE_AREA_SIZE obj1 = _MTB_KVSTORE_AREA_SIZE obj
    ∧ active_area_addr obj1 = active_area_addr obj
    ∧ active_area_version obj1 = active_area_version obj
    ∧ length (key_buffer obj1) = Z.to_nat MTB_KVSTORE_MAX_KEY_SIZE
    ∧ updated (is_tombstone h) k dat m m1
    ∧ (r1 = CY_RSLT_SUCCESS ∨ (r1 = MTB_KVSTORE_ITEM_NOT_FOUND_ERROR ∧ m1 = m)).
Proof.
  intros Hok Hfso Hkb Hrec Hcrc Hnz Hfit Hroom Hrun.
  assert (MTB_KVSTORE_MAX_KEY_SIZE = 64) as Hmax by done.
  assert (sizeof_record_header = 20) as Hhs by done.
  pose proof (strlen_nonneg k) as Hk0. pose proof (strlen_nonneg dat) as Hd0.
  pose proof Hok as [Hgeo Hents Hsorted Hkeys Hcons Hfree].
  pose proof (store_hashes bd p _ _ m Hok) as Hhashes.
  pose proof (geometry_areas bd p _ Hgeo)
    as (Hp & Hact & Hgc & Hacttop & Hgctop & Hdisj & H34 & HanchA).
  pose proof Hgeo as [[Hunif _ [Htbs1 Htbs2] _ Hlen] _ _ _ _ _ _].
  cbn [ram_table active_area_addr free_space_offset consumed_size transaction_buffer
       transaction_buffer_size set_free_space_offset] in *.
  change (_MTB_KVSTORE_AREA_SIZE (set_free_space_offset off obj))
    with (_MTB_KVSTORE_AREA_SIZE obj) in *.
  set (A := _MTB_KVSTORE_AREA_SIZE obj) in *.
  assert (sizeof_record_header + strlen _mtb_kvstore_area_rec_key + sizeof_area_record_data
          = 34) as E34 by done.
  rewrite E34 in H34.
  pose proof Hrec as [_ _ _ _ _ _ Hksize Hdsize Hklen _].
  pose proof (live_size_nonneg' p m) as Hlive.
  assert (0 ≤ off) as Hoff by lia.
  cbn [build_ram_table_loop] in Hrun. rewrite (u32_small (off + _)) in Hrun by lia.
  rewrite Hfso in Hrun.
  rewrite (proj2 (Z.ltb_lt (off + sizeof_record_header) A)) in Hrun by lia.
  destruct (read_record_scan bd peek Hrf d obj (active_area_addr obj) off h k dat
              (key_buffer obj)) as (o1 & Hread & Hrel1 & Hl1); try done; try lia.
  rewrite Hread in Hrun.
  cbn [mbind option_bind rr_result rr_obj rr_key rr_header default] in Hrun.
  rewrite is_success_true in Hrun. cbn [negb] in Hrun.
  cbn [key_buffer set_key_buffer] in Hrun. unfold id in Hrun.
  rewrite Hksize, Hdsize in Hrun.
  replace (Z.to_nat (strlen k)) with (length k) in Hrun by (unfold strlen; lia).
  rewrite cstring_key_buffer in Hrun by (done || (unfold strlen in *; lia)).
  set (kb2 := <[length k := 0]> (read_into (strlen k) k (key_buffer obj))) in *.
  set (o2 := set_key_buffer kb2 (set_key_buffer _ o1)) in *.
  pose proof (obj_rel_fields _ _ Hrel1)
    as (Hs1 & Hol1 & Htab1 & Hme1 & Ht1 & Hkb1 & Ha1 & Hg1 & Hfso1 & Hv1 & Hc1).
  assert (length kb2 = Z.to_nat MTB_KVSTORE_MAX_KEY_SIZE) as Hkb2.
  { unfold kb2. rewrite length_insert, read_into_length; [done|lia|].
    unfold strlen in *. lia. }
  assert (store_ok bd p (peek d) o2 m) as Hok2.
  { apply (store_ok_same bd p _ (set_free_space_offset A (set_free_space_offset off obj)));
      try done.
    - apply store_ok_grow; [done|]. cbn [free_space_offset set_free_space_offset].
      change (_MTB_KVSTORE_AREA_SIZE (set_free_space_offset off obj)) with A. lia.
    - cbn. by rewrite Hfso1. }
  destruct (store_find bd peek Hrf p d o2 m k (Some 0) Hok2 ltac:(lia))
    as (o3 & Hfind & Hrel3 & Hl3).
  rewrite Hfind in Hrun. cbn [mbind option_bind] in Hrun.
  pose proof (obj_rel_fields _ _ Hrel3)
    as (Hs3 & Hol3 & Htab3 & Hme3 & Ht3 & Hkb3 & Ha3 & Hg3 & Hfso3 & Hv3 & Hc3).
  cbn [start_addr obj_length ram_table max_entries transaction_buffer_size key_buffer
       active_area_addr gc_area_addr free_space_offset active_area_version consumed_size
       o2 set_key_buffer] in Hs3, Hol3, Htab3, Hme3, Ht3, Hkb3, Ha3, Hg3, Hfso3, Hv3, Hc3.
  rewrite Ha3, Ha1 in Hrun. rewrite (u32_small (active_area_addr obj + off)) in Hrun by lia.
  rewrite (record_size_rec bd p _ (k, dat)) in Hrun by (done || (cbn [fst snd]; lia)).
  destruct (rec_size_bounds p (k, dat) ltac:(lia)) as (Hsz1 & Hsz2 & _);
    [cbn [fst snd]; lia|]. cbn [fst snd] in Hsz1, Hsz2.
  rewrite (u32_small (off + rec_size p (k, dat))) in Hrun by lia.
  fold (is_tombstone h) in Hrun.
  change (ram_table o2) with (ram_table o1) in Hrun. rewrite Htab1 in Hrun.
  assert (_MTB_KVSTORE_AREA_SIZE o3 = A) as HA3
    by (unfold A, _MTB_KVSTORE_AREA_SIZE; by rewrite Hol3, Hol1).
  assert (store_ok bd p (peek d) (set_free_space_offset off o3) m) as Hok3.
  { apply (store_ok_same bd p _ (set_free_space_offset off obj)); try done.
    all: cbn [start_addr obj_length ram_table transaction_buffer transaction_buffer_size
              active_area_addr gc_area_addr consumed_size free_space_offset
              set_free_space_offset].
    all: change (transaction_buffer_size o2) with (transaction_buffer_size o1) in Hl3.
    all: congruence. }
  assert (record_at (peek d) (active_area_addr o3 + off) h k dat) as Hrec3
    by (by rewrite Ha3, Ha1).
  assert (free_space_offset o3 = _MTB_KVSTORE_AREA_SIZE o3) as Hfull3
    by (by rewrite HA3, Hfso3, Hfso1).
  destruct (decide (k ∈ m.*1)) as [Hin|Hnotin].
  - (* the key is in the table *)
    apply list_elem_of_fmap in Hin as ([K old] & HK & Hin). cbn in HK. subst K.
    apply list_elem_of_lookup in Hin as [i Hi].
    rewrite (find_spec_present k _ m Hhashes Hsorted Hkeys i old 0 (Some 0) Hi) in Hrun.
    cbn [fst snd default] in Hrun. rewrite is_success_true in Hrun.
    cbn [negb andb] in Hrun.
    rewrite bool_decide_eq_false_2 in Hrun by done. cbn [negb] in Hrun.
    rewrite andb_false_r, Z.add_0_l in Hrun.
    set (op := if is_tombstone h then _MTB_KVSTORE_OPER_DELETE
               else _MTB_KVSTORE_OPER_UPDATE) in *.
    assert (op ≠ _MTB_KVSTORE_OPER_ADD) as Hop by (unfold op; by destruct (is_tombstone h)).
    destruct (Forall2_lookup_r _ _ _ _ _ Hents Hi) as (e & He & [_ _ Hbound _ _]).
    cbn [fst snd] in Hbound.
    apply (scan_apply p fuel d o3 off m h k dat op (Z.of_nat i) (strlen old)) in Hrun
      as (obj1 & Hrun1 & Hok1 & Hfso1' & HA1 & Ha1' & Hv1' & Hkb1');
      try done; try (rewrite HA3; done).
    2:{ split; [lia|]. rewrite Nat2Z.id.
        assert (∃ old0, m !! i = Some (k, old0)
                        ∧ (if bool_decide (op = _MTB_KVSTORE_OPER_ADD) then 0
                           else _mtb_kvstore_get_record_size bd (active_area_addr o3)
                                  (u32 (strlen k)) (strlen old))
                          = rec_size p (k, old0)) as Hex.
        { exists old. split; [done|]. rewrite bool_decide_eq_false_2 by done.
          rewrite u32_small by lia.
          apply (record_size_rec bd p _ (k, old)); [done|cbn [fst snd]; lia]. }
        by destruct op. }
    rewrite Nat2Z.id in Hok1.
    exists obj1, (table_op op i (k, dat) m), CY_RSLT_SUCCESS.
    split; [done|]. split; [done|]. split; [done|]. split; [by rewrite HA1|].
    split; [by rewrite Ha1', Ha3|]. split; [by rewrite Hv1', Hv3|].
    split; [by rewrite Hkb1', Hkb3|]. split; [|by left].
    split.
    + unfold op. destruct (is_tombstone h).
      * by destruct (keys_delete m i (k, dat) _ Hkeys Hi).
      * apply table_op_new; [done|]. left. by eapply lookup_lt_Some.
    + apply table_op_others. intros _. by exists old.
  - (* the key is not in the table *)
    destruct (find_spec_absent k _ m Hhashes Hsorted Hnotin 0 (Some 0))
      as (n & Hspec & Hn & Hpos).
    rewrite Hspec in Hrun. cbn [fst snd default] in Hrun.
    rewrite bool_decide_eq_true_2 in Hrun by done. cbn [negb] in Hrun.
    rewrite andb_false_r, andb_true_r, Z.add_0_l in Hrun.
    destruct (is_tombstone h) eqn:Htomb.
    + exists o3, m, MTB_KVSTORE_ITEM_NOT_FOUND_ERROR.
      split; [done|].
      split.
      { apply (store_ok_grow bd p _ _ m (off + rec_size p (k, dat))) in Hok3; [done|].
        cbn [free_space_offset set_free_space_offset].
        change (_MTB_KVSTORE_AREA_SIZE (set_free_space_offset off o3))
          with (_MTB_KVSTORE_AREA_SIZE o3). rewrite HA3. lia. }
      split; [by rewrite HA3, Hfso3, Hfso1|]. split; [done|].
      split; [by rewrite Ha3|]. split; [by rewrite Hv3|].
      split; [by rewrite Hkb3|]. split; [|by right]. done.
    + apply (scan_apply p fuel d o3 off m h k dat _MTB_KVSTORE_OPER_ADD (Z.of_nat n) 0)
        in Hrun as (obj1 & Hrun1 & Hok1 & Hfso1' & HA1 & Ha1' & Hv1' & Hkb1');
        try done; try (rewrite HA3; done).
      2:{ split; [lia|]. rewrite bool_decide_eq_true_2 by done.
          pose proof (list.Forall2_length _ _ _ Hhashes) as Hlenm.
          split; [done|]. split; [lia|]. split; [done|].
          intros j kv Hj. destruct (Forall2_lookup_r _ _ _ _ _ Hhashes Hj) as (e & He & Hh).
          rewrite <- Hh, <- (Hpos j e He). lia. }
      rewrite Nat2Z.id in Hok1.
      exists obj1, (table_op _MTB_KVSTORE_OPER_ADD n (k, dat) m), CY_RSLT_SUCCESS.
      split; [done|]. split; [done|]. split; [done|]. split; [by rewrite HA1|].
      split; [by rewrite Ha1', Ha3|]. split; [by rewrite Hv1', Hv3|].
      split; [by rewrite Hkb1', Hkb3|]. split; [|by left].
      split.
      * apply table_op_new; [done|by right].
      * apply table_op_others. by intros [].
Qed.

(** The scan stops at an erased header and at the end of the area. *)
Lemma scan_stop fuel d obj off result r d' obj' off' returned :
  0 ≤ active_area_addr obj → 0 ≤ off → off + sizeof_record_header < 2 ^ 32 →
  active_area_addr obj + free_space_offset obj < 2 ^ 32 →
  (off + sizeof_record_header < free_space_offset obj →
   ∀ x, active_area_addr obj + off ≤ x < active_area_addr obj + off + sizeof_record_header →
        peek d x = 0xFF) →
  build_ram_table_loop bd heap_alloc fuel d obj off result
  = Some (r, d', obj', off', returned) →
  d' = d ∧ obj' = obj ∧ off' = off ∧ returned = false
  ∧ (r = CY_RSLT_SUCCESS ∨ r = result).
Proof.
  intros Hact Hoff Hsmall Htop Herased Hrun.
  assert (sizeof_record_header = 20) as Hhs by done.
  assert (set_key_buffer (key_buffer obj) obj = obj) as Hsame by (by destruct obj).
  destruct (off + sizeof_record_header <? free_space_offset obj) eqn:Hcond.
  - apply Z.ltb_lt in Hcond. destruct fuel as [|fuel];
      cbn [build_ram_table_loop] in Hrun; rewrite (u32_small (off + _)) in Hrun by lia;
      rewrite (proj2 (Z.ltb_lt _ _) Hcond) in Hrun; [done|].
    rewrite (read_record_erased bd peek Hrf d obj (active_area_addr obj) off) in Hrun
      by (try lia; apply Herased; lia).
    cbn [mbind option_bind rr_result rr_obj rr_key rr_header default] in Hrun.
    change (negb (is_success MTB_KVSTORE_ERASED_DATA_ERROR)) with true in Hrun.
    rewrite bool_decide_eq_true_2 in Hrun by done. unfold id in Hrun.
    rewrite Hsame in Hrun. injection Hrun as <- <- <- <- <-. repeat split; by left.
  - apply Z.ltb_ge in Hcond.
    destruct fuel; cbn [build_ram_table_loop] in Hrun;
      rewrite (u32_small (off + _)) in Hrun by lia;
      rewrite (proj2 (Z.ltb_ge _ _) Hcond) in Hrun;
      injection Hrun as <- <- <- <- <-; repeat split; by right.
Qed.

Lemma log_end_ge p log : ∀ off, off ≤ log_end p off log.
Proof.
  induction log as [|[[h k] dat] log IH]; intros off; cbn [log_end]; [done|].
  etrans; [|apply IH].
  assert (0 ≤ rec_size p (k, dat)); [|lia].
  unfold rec_size, _mtb_kvstore_align_up. apply u32_range.
Qed.

(** The scan over a log. *)
Lemma scan_loop_ok p d log : ∀ fuel obj off result m (g : list Z → option (list Z))
    d' obj' off' returned,
  store_ok bd p (peek d) (set_free_space_offset off obj) m →
  free_space_offset obj = _MTB_KVSTORE_AREA_SIZE obj →
  length (key_buffer obj) = Z.to_nat MTB_KVSTORE_MAX_KEY_SIZE →
  log_at (peek d) p (active_area_addr obj) (_MTB_KVSTORE_AREA_SIZE obj) off log →
  log_end p off log ≤ _MTB_KVSTORE_AREA_SIZE obj →
  (log_end p off log + sizeof_record_header < _MTB_KVSTORE_AREA_SIZE obj →
   ∀ x, active_area_addr obj + log_end p off log ≤ x
        < active_area_addr obj + log_end p off log + sizeof_record_header →
        peek d x = 0xFF) →
  (∀ K Dat, (K, Dat) ∈ m ↔ g K = Some Dat) →
  build_ram_table_loop bd heap_alloc fuel d obj off result
  = Some (CY_RSLT_SUCCESS, d', obj', off', returned) →
  d' = d ∧ returned = false ∧ off' = log_end p off log
  ∧ _MTB_KVSTORE_AREA_SIZE obj' = _MTB_KVSTORE_AREA_SIZE obj
  ∧ active_area_addr obj' = active_area_addr obj
  ∧ active_area_version obj' = active_area_version obj
  ∧ ∃ m', store_ok bd p (peek d) (set_free_space_offset off' obj') m'
          ∧ ∀ K Dat, (K, Dat) ∈ m' ↔ log_get K log (g K) = Some Dat.
Proof.
  induction log as [|[[h k] dat] log IH];
    intros fuel obj off result m g d' obj' off' returned Hok Hfso Hkb Hlog Hend Herased Hg
           Hrun.
  - cbn [log_end log_get] in *.
    pose proof Hok as [Hgeo _ _ _ Hcons Hfree].
    pose proof (geometry_areas bd p _ Hgeo)
      as (Hp & Hact & _ & Hacttop & _ & _ & H34 & HanchA).
    pose proof (live_size_nonneg' p m).
    cbn [active_area_addr free_space_offset consumed_size set_free_space_offset] in *.
    change (_MTB_KVSTORE_AREA_SIZE (set_free_space_offset off obj))
      with (_MTB_KVSTORE_AREA_SIZE obj) in *.
    assert (sizeof_record_header + strlen _mtb_kvstore_area_rec_key
            + sizeof_area_record_data = 34) as E34 by done.
    assert (sizeof_record_header = 20) as Hhs by done.
    assert (2 * _MTB_KVSTORE_AREA_SIZE obj < 2 ^ 32) as H2A.
    { destruct Hgeo as [_ _ Hstart Hlength Htop _ _].
      cbn [start_addr obj_length set_free_space_offset] in *.
      change (_MTB_KVSTORE_AREA_SIZE (set_free_space_offset off obj))
        with (_MTB_KVSTORE_AREA_SIZE obj) in *. lia. }
    apply scan_stop in Hrun as (-> & -> & -> & -> & _); try lia.
    2: { intros Hc. apply Herased. lia. }
    repeat split; try done. by exists m.
  - cbn [log_at log_end log_get] in *.
    destruct Hlog as (Hrec & Hcrc & Hnz & Hfit & Hlog).
    pose proof (log_end_ge p log (off + rec_size p (k, dat))) as Hge.
    pose proof Hrec as [_ _ _ _ _ _ _ _ Hklen _].
    pose proof Hok as [Hgeo _ _ _ Hcons Hfree].
    pose proof (geometry_areas bd p _ Hgeo) as (Hp & Hact & _ & Hacttop & _ & _ & H34 & _).
    pose proof (live_size_nonneg' p m).
    pose proof (strlen_nonneg dat).
    cbn [active_area_addr free_space_offset consumed_size set_free_space_offset] in *.
    change (_MTB_KVSTORE_AREA_SIZE (set_free_space_offset off obj))
      with (_MTB_KVSTORE_AREA_SIZE obj) in *.
    assert (sizeof_record_header = 20) as Hhs by done.
    assert (sizeof_record_header + strlen _mtb_kvstore_area_rec_key
            + sizeof_area_record_data = 34) as E34 by done.
    destruct fuel as [|fuel].
    { cbn [build_ram_table_loop] in Hrun. rewrite (u32_small (off + _)) in Hrun by lia.
      rewrite Hfso in Hrun.
      rewrite (proj2 (Z.ltb_lt (off + sizeof_record_header) _)) in Hrun by lia. done. }
    apply (scan_step p fuel d obj off result m h k dat) in Hrun
      as (obj1 & m1 & r1 & Hrun & Hok1 & Hfso1 & HA1 & Ha1 & Hv1 & Hkb1 & Hupd & _);
      try done; try lia.
    pose proof Hok1 as [_ _ _ Hkeys1 _ _].
    apply (IH fuel obj1 _ r1 m1
             (λ K, if decide (k = K) then (if is_tombstone h then None else Some dat)
                   else g K)) in Hrun
      as (-> & -> & -> & HA' & Ha' & Hv' & m' & Hok' & Hg'); try done.
    + rewrite HA', HA1, Ha', Ha1, Hv', Hv1. repeat split; try done. by exists m'.
    + by rewrite HA1, Ha1.
    + by rewrite HA1.
    + by rewrite HA1, Ha1.
    + by apply (updated_get g (is_tombstone h) k dat m m1).
Qed.

(** [_mtb_kvstore_check_area_valid] on an area record and on an erased
    area. *)
Lemma check_area_valid_anchor d obj a v :
  MTB_KVSTORE_MAX_KEY_SIZE ≤ transaction_buffer_size obj →
  strlen (transaction_buffer obj) = transaction_buffer_size obj → 0 ≤ a →
  anchor_at (peek d) a v →
  ∃ obj', _mtb_kvstore_check_area_valid bd d obj a = Some (CY_RSLT_SUCCESS, obj', v)
          ∧ obj_rel obj' obj
          ∧ strlen (transaction_buffer obj') = transaction_buffer_size obj.
Proof.
  intros Htbs Hlen Ha (h & fmt & Hrec & Hcrc & Hv & Hfmt).
  unfold _mtb_kvstore_check_area_valid.
  destruct (read_record_at bd peek Hrf d obj a 0 h _mtb_kvstore_area_rec_key
              (area_record_data_bytes v fmt) _mtb_kvstore_area_rec_key
              (Some (replicate (Z.to_nat sizeof_area_record_data) 0))
              (Some sizeof_area_record_data))
    as (obj' & -> & Hrel & Hl); try done.
  { by rewrite Z.add_0_r. }
  cbn [mbind option_bind rr_result rr_obj rr_data].
  exists obj'. split; [|done].
  unfold read_outcome, too_small.
  assert (strlen (area_record_data_bytes v fmt) = 4) as Hl4.
  { unfold strlen, area_record_data_bytes. by rewrite length_app, !le_bytes_length. }
  rewrite Hl4. change (sizeof_area_record_data <? 4) with false. cbv iota.
  rewrite decide_True by done. cbn [fst snd default]. do 2 f_equal.
  unfold area_record_data_bytes, slice, id. rewrite <- app_assoc.
  change (Z.to_nat 0) with 0%nat. change (Z.to_nat 2) with 2%nat. rewrite drop_0.
  rewrite take_app_length' by (by rewrite le_bytes_length).
  rewrite le_value_le_bytes. apply Z.mod_small. lia.
Qed.

Lemma check_area_valid_erased d obj a :
  0 ≤ a → a + sizeof_record_header < 2 ^ 32 →
  (∀ x, a ≤ x < a + sizeof_record_header → peek d x = 0xFF) →
  ∃ v, _mtb_kvstore_check_area_valid bd d obj a
       = Some (MTB_KVSTORE_ERASED_DATA_ERROR, obj, v).
Proof.
  intros Ha Htop Herased. unfold _mtb_kvstore_check_area_valid.
  rewrite (read_record_erased bd peek Hrf d obj a 0)
    by (try lia; intros x Hx; apply Herased; lia).
  cbn [mbind option_bind rr_result rr_obj rr_data]. by eexists.
Qed.

(** [_mtb_kvstore_setup_areas] on a medium that holds a store: nothing is
    written and the area with the area record of version [v] becomes the
    active one. *)
Lemma setup_areas_valid d obj (second : bool) v :
  MTB_KVSTORE_MAX_KEY_SIZE ≤ transaction_buffer_size obj →
  strlen (transaction_buffer obj) = transaction_buffer_size obj →
  0 ≤ start_addr obj → sizeof_record_header ≤ _MTB_KVSTORE_AREA_SIZE obj →
  start_addr obj + 2 * _MTB_KVSTORE_AREA_SIZE obj < 2 ^ 32 →
  let area1 := start_addr obj in
  let area2 := start_addr obj + _MTB_KVSTORE_AREA_SIZE obj in
  let active := if second then area2 else area1 in
  let spare := if second then area1 else area2 in
  anchor_at (peek d) active v → spare_ok (peek d) spare second v →
  ∃ obj',
    _mtb_kvstore_setup_areas bd d obj = Some (CY_RSLT_SUCCESS, d, obj')
    ∧ obj_rel obj' (set_active_area_version v (set_areas active spare obj))
    ∧ strlen (transaction_buffer obj') = transaction_buffer_size obj.
Proof.
  intros Htbs Hlen Hstart HA Htop area1 area2 active spare Hanchor Hspare.
  assert (sizeof_record_header = 20) as Hhs by done.
  assert (∀ o o' : mtb_kvstore_t, obj_rel o' o → ∀ a b w,
            obj_rel (set_active_area_version w (set_areas a b o'))
                    (set_active_area_version w (set_areas a b o))) as Hset.
  { intros o o' Hrel a b w.
    pose proof (obj_rel_fields _ _ Hrel) as (? & ? & ? & ? & ? & ? & ? & ? & ? & ? & ?).
    unfold obj_rel, forget_tb, set_transaction_buffer, set_active_area_version, set_areas.
    cbn. congruence. }
  unfold _mtb_kvstore_setup_areas.
  rewrite (u32_small (start_addr obj + _MTB_KVSTORE_AREA_SIZE obj)) by lia.
  fold area2. fold area1.
  destruct second; cbn iota in active, spare; subst active spare.
  - (* the second area is the active one *)
    destruct Hspare as [Herased|(w & Hw & Hpick)].
    + destruct (check_area_valid_erased d obj area1) as (v1 & ->);
        [unfold area1; lia|unfold area1; lia|done|].
      cbn [mbind option_bind].
      change (area_check_fatal MTB_KVSTORE_ERASED_DATA_ERROR) with false. cbv iota.
      destruct (check_area_valid_anchor d obj area2 v) as (o2 & -> & Hrel2 & Hl2);
        [done|done|unfold area2; lia|done|].
      cbn [mbind option_bind].
      change (area_check_fatal CY_RSLT_SUCCESS) with false.
      change (is_success MTB_KVSTORE_ERASED_DATA_ERROR) with false.
      rewrite is_success_true. cbn [andb]. cbv iota.
      exists (set_active_area_version v (set_areas area2 area1 o2)).
      split; [done|]. split; [by apply Hset|done].
    + destruct (check_area_valid_anchor d obj area1 w) as (o1 & -> & Hrel1 & Hl1);
        [done|done|unfold area1; lia|done|].
      cbn [mbind option_bind].
      change (area_check_fatal CY_RSLT_SUCCESS) with false. cbv iota.
      pose proof (obj_rel_fields _ _ Hrel1) as (_ & _ & _ & _ & Ht1 & _).
      destruct (check_area_valid_anchor d o1 area2 v) as (o2 & -> & Hrel2 & Hl2);
        [by rewrite Ht1|by rewrite Ht1|unfold area2; lia|done|].
      cbn [mbind option_bind].
      change (area_check_fatal CY_RSLT_SUCCESS) with false.
      rewrite is_success_true. cbn [andb]. cbv iota. rewrite Hpick.
      exists (set_active_area_version v (set_areas area2 area1 o2)).
      split; [done|]. split; [apply Hset; by etrans|].
      cbn [transaction_buffer set_active_area_version set_areas]. by rewrite Hl2.
  - (* the first area is the active one *)
    destruct (check_area_valid_anchor d obj area1 v) as (o1 & -> & Hrel1 & Hl1);
      [done|done|unfold area1; lia|done|].
    cbn [mbind option_bind].
    change (area_check_fatal CY_RSLT_SUCCESS) with false. cbv iota.
    pose proof (obj_rel_fields _ _ Hrel1) as (_ & _ & _ & _ & Ht1 & _).
    destruct Hspare as [Herased|(w & Hw & Hpick)].
    + destruct (check_area_valid_erased d o1 area2) as (v2 & ->);
        [unfold area2; lia|unfold area2; lia|done|].
      cbn [mbind option_bind].
      change (area_check_fatal MTB_KVSTORE_ERASED_DATA_ERROR) with false. cbv iota.
      change (is_success MTB_KVSTORE_ERASED_DATA_ERROR) with false.
      rewrite is_success_true. cbn [andb]. cbv iota.
      exists (set_active_area_version v (set_areas area1 area2 o1)).
      split; [done|]. split; [by apply Hset|done].
    + destruct (check_area_valid_anchor d o1 area2 w) as (o2 & -> & Hrel2 & Hl2);
        [by rewrite Ht1|by rewrite Ht1|unfold area2; lia|done|].
      cbn [mbind option_bind].
      change (area_check_fatal CY_RSLT_SUCCESS) with false.
      rewrite is_success_true. cbn [andb]. cbv iota. rewrite Hpick.
      exists (set_active_area_version v (set_areas area1 area2 o2)).
      split; [done|]. split; [apply Hset; by etrans|].
      cbn [transaction_buffer set_active_area_version set_areas]. by rewrite Hl2.
Qed.

(** [_mtb_kvstore_build_ram_table] over the log of the active area. *)
Lemma build_ram_table_replay p d obj log d' obj' :
  geometry bd p obj →
  length (key_buffer obj) = Z.to_nat MTB_KVSTORE_MAX_KEY_SIZE →
  log_at (peek d) p (active_area_addr obj) (_MTB_KVSTORE_AREA_SIZE obj) (anchor_size p) log →
  log_end p (anchor_size p) log ≤ _MTB_KVSTORE_AREA_SIZE obj →
  (log_end p (anchor_size p) log + sizeof_record_header < _MTB_KVSTORE_AREA_SIZE obj →
   ∀ x, active_area_addr obj + log_end p (anchor_size p) log ≤ x
        < active_area_addr obj + log_end p (anchor_size p) log + sizeof_record_header →
        peek d x = 0xFF) →
  _mtb_kvstore_build_ram_table bd heap_alloc d obj = Some (CY_RSLT_SUCCESS, d', obj') →
  d' = d
  ∧ free_space_offset obj' = log_end p (anchor_size p) log
  ∧ _MTB_KVSTORE_AREA_SIZE obj' = _MTB_KVSTORE_AREA_SIZE obj
  ∧ active_area_addr obj' = active_area_addr obj
  ∧ active_area_version obj' = active_area_version obj
  ∧ ∃ m, store_ok bd p (peek d) obj' m
         ∧ ∀ K Dat, (K, Dat) ∈ m ↔ log_get K log None = Some Dat.
Proof.
  intros Hgeo Hkb Hlog Hend Herased Hrun.
  pose proof (geometry_areas bd p _ Hgeo) as (Hp & Hact & _ & Hacttop & _ & _ & H34 & HanchA).
  pose proof Hgeo as [[Hunif _ _ _ _] _ _ _ _ _ _].
  unfold _mtb_kvstore_build_ram_table in Hrun.
  destruct (heap_alloc _); cbn [negb] in Hrun; [|done].
  rewrite (area_header_record_size bd p _ Hunif) in Hrun.
  set (obj3 := set_consumed_size (anchor_size p) _) in *.
  destruct (build_ram_table_loop bd heap_alloc _ d obj3 (anchor_size p) CY_RSLT_SUCCESS)
    as [[[[[r1 d1] o1] off1] ret1]|] eqn:Hloop; cbn [mbind option_bind] in Hrun; [|done].
  assert (r1 = CY_RSLT_SUCCESS) as ->.
  { destruct ret1; by apply some3_inj in Hrun as (-> & _ & _). }
  apply (scan_loop_ok p d log _ obj3 _ _ [] (λ _, None)) in Hloop
    as (-> & -> & -> & HA' & Ha' & Hv' & m' & Hok' & Hg'); try done.
  - apply some3_inj in Hrun as (_ & <- & <-).
    split; [done|]. split; [done|]. split; [exact HA'|]. split; [exact Ha'|].
    split; [exact Hv'|]. by exists m'.
  - constructor; cbn [ram_table active_area_addr free_space_offset consumed_size
                      set_free_space_offset set_consumed_size set_max_entries
                      set_ram_table obj3 live_size fmap list_fmap]; try done.
    + eapply geometry_fields; [exact Hgeo|done..|by destruct Hgeo as [[]]|by destruct Hgeo].
    + constructor.
    + lia.
  - intros K Dat. split; [by intros ?%elem_of_nil|done].
Qed.

(** [mtb_kvstore_init] on a medium that holds a store. *)
Lemma init_replay p r es d obj0 start length (second : bool) v log d' obj' :
  (∀ a, bd_program_size bd a = p) → (∀ a, bd_read_size bd a = r) →
  (∀ a, bd_erase_size bd a = es) →
  0 < p → 0 < r < 2 ^ 32 → r ≤ p ∨ r mod p = 0 → 0 < es →
  0 ≤ start → start + length + p < 2 ^ 32 →
  anchor_size p ≤ length / 2 →
  let active := if second then start + length / 2 else start in
  let spare := if second then start else start + length / 2 in
  anchor_at (peek d) active v → spare_ok (peek d) spare second v →
  log_at (peek d) p active (length / 2) (anchor_size p) log →
  log_end p (anchor_size p) log ≤ length / 2 →
  (log_end p (anchor_size p) log + sizeof_record_header < length / 2 →
   ∀ x, active + log_end p (anchor_size p) log ≤ x
        < active + log_end p (anchor_size p) log + sizeof_record_header →
        peek d x = 0xFF) →
  mtb_kvstore_init bd heap_alloc d obj0 start length = Some (CY_RSLT_SUCCESS, d', obj') →
  d' = d
  ∧ active_area_addr obj' = active
  ∧ active_area_version obj' = v
  ∧ free_space_offset obj' = log_end p (anchor_size p) log
  ∧ ∃ m, store_ok bd p (peek d) obj' m
         ∧ ∀ K Dat, (K, Dat) ∈ m ↔ log_get K log None = Some Dat.
Proof.
  intros Hp Hr Hes Hp0 Hr0 Hrp Hes0 Hstart Htop Hanchor active spare Hanch Hspare Hlog Hend
         Herased Hrun.
  assert (0 ≤ anchor_size p) as Ha0
    by (unfold anchor_size, _mtb_kvstore_align_up; apply u32_range).
  assert (0 ≤ length / 2) as HA0 by lia.
  assert (2 * (length / 2) ≤ length) as H2A by (apply Z.mul_div_le; lia).
  assert (0 ≤ length) as Hlen0 by lia.
  pose proof (anchor_ge p ltac:(lia)) as Hge.
  assert (sizeof_record_header + strlen _mtb_kvstore_area_rec_key + sizeof_area_record_data
          = 34) as E34 by done.
  assert (sizeof_record_header = 20) as Hhs by done.
  rewrite E34 in Hge.
  unfold mtb_kvstore_init in Hrun.
  destruct (length =? 0); [done|].
  destruct (negb _ || negb _); [done|]. rewrite Hes in Hrun.
  destruct (es =? 0); [done|].
  destruct ((length / es =? 0) || _) eqn:Hsectors; [done|].
  apply orb_false_iff in Hsectors as [Hn0 Hodd]. apply Z.eqb_neq in Hn0.
  assert (0 ≤ length / es) as Hn by (apply Z.div_pos; lia).
  rewrite (proj2 (Z.ltb_lt 0 (length / es))) in Hodd by lia.
  cbn [andb] in Hodd. apply negb_false_iff, Z.eqb_eq in Hodd.
  assert (es ≤ length / 2) as HesA.
  { assert (length / es ≠ 1) by (intros E1; rewrite E1 in Hodd; done).
    pose proof (Z.mul_div_le length es Hes0).
    apply Z.div_le_lower_bound; [lia|]. nia. }
  rewrite Hp, Hr in Hrun.
  destruct (init_buffer_size p r ltac:(lia) Hr0 Hrp) as [Htbs Hmod].
  set (n := if (if p >=? r then p else r) <? _MTB_KVSTORE_MIN_BUFF_SIZE
            then _mtb_kvstore_align_up _MTB_KVSTORE_MIN_BUFF_SIZE p
            else if p >=? r then p else r) in *.
  assert (MTB_KVSTORE_MAX_KEY_SIZE = 64) as Hmax by done.
  destruct (heap_alloc n); [|done].
  cbn [ram_table max_entries transaction_buffer key_buffer active_area_addr gc_area_addr
       free_space_offset active_area_version consumed_size set_transaction_buffer zero_obj]
    in Hrun.
  set (obj1 := {| start_addr := start; obj_length := length; ram_table := [];
                  max_entries := 0; transaction_buffer := replicate (Z.to_nat n) 0;
                  transaction_buffer_size := n;
                  key_buffer := replicate (Z.to_nat MTB_KVSTORE_MAX_KEY_SIZE) 0;
                  active_area_addr := 0; gc_area_addr := 0; free_space_offset := 0;
                  active_area_version := 0; consumed_size := 0 |}) in *.
  assert (buffer_ok bd p obj1) as Hbuf.
  { constructor; cbn; try done. unfold strlen. rewrite length_replicate. lia. }
  destruct (setup_areas_valid d obj1 second v) as (o1 & Hsetup & Hrel1 & Hl1);
    try done; try (cbn; lia).
  { by destruct Hbuf. }
  { change (_MTB_KVSTORE_AREA_SIZE obj1) with (length / 2). lia. }
  { change (start + 2 * (length / 2) < 2 ^ 32). lia. }
  rewrite Hsetup in Hrun. cbn [mbind option_bind] in Hrun.
  rewrite is_success_true in Hrun.
  change (start_addr obj1) with start in Hrel1.
  change (_MTB_KVSTORE_AREA_SIZE obj1) with (length / 2) in Hrel1.
  fold active spare in Hrel1.
  pose proof (obj_rel_fields _ _ Hrel1)
    as (Hs1 & Hol1 & Htab1 & Hme1 & Ht1 & Hkb1 & Hact1 & Hgc1 & Hfso1 & Hv1 & Hc1).
  cbn in Hs1, Hol1, Ht1, Hkb1, Hact1, Hgc1, Hv1.
  assert (_MTB_KVSTORE_AREA_SIZE o1 = length / 2) as HA1
    by (unfold _MTB_KVSTORE_AREA_SIZE; by rewrite Hol1).
  assert (geometry bd p o1) as Hgeo1.
  { constructor; unfold areas_ok; rewrite ?HA1, ?Hs1, ?Hol1, ?Hact1, ?Hgc1;
      try done; try lia.
    - constructor; rewrite ?Ht1; try done.
    - intros a. rewrite Hes. lia.
    - unfold active, spare. destruct second; [by right|by left]. }
  apply (build_ram_table_replay p d o1 log) in Hrun
    as (-> & Hfso' & HA' & Ha' & Hv' & m & Hok' & Hg'); try done.
  - rewrite Ha', Hv', Hact1, Hv1. repeat split; try done. by exists m.
  - rewrite Hkb1. by rewrite length_replicate.
  - by rewrite Hact1, HA1.
  - by rewrite HA1.
  - by rewrite Hact1, HA1.
Qed.

End Replay.

Lemma erased_of_bytes f a n :
  0 ≤ n → bytes_at f a n = replicate (Z.to_nat n) 0xFF → ∀ x, a ≤ x < a + n → f x = 0xFF.
Proof.
  intros Hn Hbytes x Hx.
  assert (bytes_at f a n = bytes_at (λ _, 0xFF) a n) as Heq.
  { rewrite Hbytes. symmetry. by apply bytes_at_erased. }
  pose proof (bytes_at_eq_inv f (λ _, 0xFF) a a n Hn Heq (x - a) ltac:(lia)) as H.
  by replace (a + (x - a)) with x in H by lia.
Qed.

(** * A record appended to the log, and the restart behind it *)

Lemma log_end_app p l1 : ∀ off l2,
  log_end p off (l1 ++ l2) = log_end p (log_end p off l1) l2.
Proof.
  induction l1 as [|[[h k] dat] l1 IH]; intros off l2; cbn [log_end app]; [done|].
  apply IH.
Qed.

Lemma log_at_app f p area size l1 : ∀ off l2,
  log_at f p area size off (l1 ++ l2)
  ↔ log_at f p area size off l1 ∧ log_at f p area size (log_end p off l1) l2.
Proof.
  induction l1 as [|[[h k] dat] l1 IH]; intros off l2; cbn [log_at log_end app].
  - tauto.
  - rewrite IH. tauto.
Qed.

Lemma log_get_app K l1 : ∀ l2 before,
  log_get K (l1 ++ l2) before = log_get K l2 (log_get K l1 before).
Proof.
  induction l1 as [|[[h k] dat] l1 IH]; intros l2 before; cbn [log_get app]; [done|].
  apply IH.
Qed.

(** A log depends on the bytes between its first and its last offset
    only. *)
Lemma log_at_frame f g p area size log : ∀ off,
  0 < p → 0 ≤ off → size + p ≤ 2 ^ 32 →
  (∀ x, area + off ≤ x < area + log_end p off log → g x = f x) →
  log_at f p area size off log → log_at g p area size off log.
Proof.
  induction log as [|[[h k] dat] log IH]; intros off Hp Hoff Hsize Hfg Hlog;
    cbn [log_at log_end] in *; [done|].
  destruct Hlog as (Hrec & Hcrc & Hz & Hfit & Hrest).
  pose proof (strlen_nonneg k). pose proof (strlen_nonneg dat).
  assert (0 < sizeof_record_header) by done.
  destruct (rec_size_bounds p (k, dat) Hp) as (Hsz & _ & _); [cbn [fst snd]; lia|].
  cbn [fst snd] in Hsz.
  pose proof (log_end_ge p log (off + rec_size p (k, dat))) as Hge.
  split; [|split; [done|split; [done|split; [done|]]]].
  - eapply record_at_ext; [exact Hrec|]. intros x Hx. apply Hfg. lia.
  - apply IH; [done|lia|done| |done]. intros x Hx. apply Hfg. lia.
Qed.

Lemma anchor_at_frame f g a v :
  anchor_at f a v →
  (∀ x, a ≤ x < a + sizeof_record_header + strlen _mtb_kvstore_area_rec_key
                  + sizeof_area_record_data → g x = f x) →
  anchor_at g a v.
Proof.
  intros (h & fmt & Hrec & Hcrc & Hv & Hfmt) Hfg. exists h, fmt.
  split; [|done]. eapply record_at_ext; [exact Hrec|]. exact Hfg.
Qed.

Lemma spare_ok_frame f g spare second v :
  spare_ok f spare second v →
  (∀ x, spare ≤ x < spare + sizeof_record_header + strlen _mtb_kvstore_area_rec_key
                    + sizeof_area_record_data → g x = f x) →
  spare_ok g spare second v.
Proof.
  assert (sizeof_record_header + strlen _mtb_kvstore_area_rec_key + sizeof_area_record_data
          = 34) as E34 by done.
  assert (sizeof_record_header = 20) as Hhs by done.
  intros [Hff|(w & Hanch & Hw)] Hfg.
  - left. intros x Hx. rewrite Hfg by lia. by apply Hff.
  - right. exists w. split; [|done]. by eapply anchor_at_frame.
Qed.

(** What the log gives a key behind one more record. *)
Lemma log_get_snoc K log h key dat :
  log_get K (log ++ [(h, key, dat)]) None
  = if decide (key = K) then (if is_tombstone h then None else Some dat)
    else log_get K log None.
Proof. by rewrite log_get_app. Qed.

Section Append.
Context {D : Type} (bd : mtb_kvstore_bd_t D) (peek : D → Z → Z).
Hypothesis Hrf : reliable_flash bd peek.
Variable heap_alloc : Z → bool.

(** A record that fits behind the others is written at
    [free_space_offset] of the active area, and [free_space_offset] moves
    behind it. *)
Lemma write_operation_media p d obj m key data size op idx hash0 old_dsize result found
    d' obj' :
  store_ok bd p (peek d) obj m →
  0 < strlen key < MTB_KVSTORE_MAX_KEY_SIZE → payload_ok data size →
  sizeof_record_header + strlen key + size ≤ _MTB_KVSTORE_AREA_SIZE obj →
  free_space_offset obj + rec_size p (key, payload data size) ≤ _MTB_KVSTORE_AREA_SIZE obj →
  write_operation bd heap_alloc d obj key data size op idx hash0 old_dsize result found
  = Some (CY_RSLT_SUCCESS, d', obj') →
  let h := _mtb_kvstore_setup_record_header key data size _MTB_KVSTORE_FORMAT_VERSION op in
  let a := active_area_addr obj + free_space_offset obj in
  record_at (peek d') a h key (payload data size)
  ∧ crc_ok h key (payload data size)
  ∧ (∀ x, ¬ (a ≤ x < a + rec_size p (key, payload data size)) → peek d' x = peek d x)
  ∧ start_addr obj' = start_addr obj ∧ obj_length obj' = obj_length obj
  ∧ active_area_addr obj' = active_area_addr obj ∧ gc_area_addr obj' = gc_area_addr obj
  ∧ free_space_offset obj'
    = free_space_offset obj + rec_size p (key, payload data size).
Proof.
  intros Hok Hklen Hpay Hfits Hroom Hrun.
  assert (MTB_KVSTORE_MAX_KEY_SIZE = 64) as Hmax by done.
  assert (0 < sizeof_record_header) as Hhs0 by done.
  pose proof (payload_ok_length _ _ Hpay) as Hpl.
  pose proof Hpay as [Hsz0 _].
  set (kv := (key, payload data size)) in *.
  unfold write_operation in Hrun.
  match type of Hrun with
  | context [match ?X with pair _ _ => _ end] =>
      destruct X as [[r0 o0] failed] eqn:Hgrow
  end.
  assert (store_ok bd p (peek d) o0 m
          ∧ active_area_addr o0 = active_area_addr obj
          ∧ free_space_offset o0 = free_space_offset obj
          ∧ _MTB_KVSTORE_AREA_SIZE o0 = _MTB_KVSTORE_AREA_SIZE obj
          ∧ start_addr o0 = start_addr obj ∧ obj_length o0 = obj_length obj
          ∧ gc_area_addr o0 = gc_area_addr obj
          ∧ (failed = true → r0 ≠ CY_RSLT_SUCCESS))
    as (Hok0 & Ha0 & Hf0 & HA0 & Hs0 & Hl0 & Hg0 & Hfail).
  { destruct (bool_decide (op = _MTB_KVSTORE_OPER_ADD) && (num_entries obj >=? max_entries obj)).
    - unfold _mtb_kvstore_increment_max_keys in Hgrow.
      destruct (heap_alloc _); apply some3_inj_pair in Hgrow as (<- & <- & <-).
      + split; [by apply store_ok_max_entries|done].
      + done.
    - apply some3_inj_pair in Hgrow as (<- & <- & <-). done. }
  clear Hgrow Hok. destruct failed.
  { apply some3_inj in Hrun as (-> & _ & _). by destruct Hfail. }
  clear Hfail.
  pose proof Hok0 as [Hgeo Hents Hsorted Hkeys Hcons Hfree].
  pose proof (store_bounds bd p _ _ m Hok0) as (Hnum & Hlenm & Hlive).
  pose proof (geometry_areas bd p _ Hgeo)
    as (Hp & Hact & Hgc & Hacttop & Hgctop & Hdisj & H34 & HanchA).
  pose proof Hgeo as [Hbuf _ _ _ _ _ _].
  pose proof Hbuf as [Hunif _ _ _ _].
  assert (sizeof_record_header + strlen _mtb_kvstore_area_rec_key + sizeof_area_record_data
          = 34) as E34 by done.
  assert (0 ≤ rec_size p kv) as Hrs0
    by (unfold rec_size, _mtb_kvstore_align_up; apply u32_range).
  rewrite <- HA0, <- Hf0 in Hroom. rewrite <- HA0 in Hfits.
  destruct (rec_size_bounds p kv ltac:(lia)) as (Hsz1 & Hsz2 & _);
    [cbn [fst snd kv]; lia|]. cbn [fst snd kv] in Hsz1, Hsz2. rewrite Hpl in Hsz1, Hsz2.
  fold kv in Hsz1, Hsz2.
  cbv zeta in Hrun. rewrite Ha0 in Hrun.
  rewrite (u32_small (strlen key)) in Hrun by lia.
  rewrite (record_size_exact bd p _ (strlen key) size) in Hrun by (done || lia).
  assert (_mtb_kvstore_align_up (sizeof_record_header + strlen key + size) p
          = rec_size p kv) as Hrs
    by (unfold rec_size; cbn [fst snd kv]; by rewrite Hpl).
  rewrite Hrs in Hrun.
  match type of Hrun with (if ?c then _ else _) = _ => destruct c eqn:Hc1 end; [done|].
  rewrite (u32_small (free_space_offset o0 + rec_size p kv)) in Hrun by lia.
  destruct (free_space_offset o0 + rec_size p kv >? _MTB_KVSTORE_AREA_SIZE o0) eqn:Hc2;
    [lia|].
  cbn [mbind option_bind] in Hrun.
  destruct (_mtb_kvstore_write_record bd d o0 _ _ key data size op _ _)
    as [[[r1 d1] o1]|] eqn:Hw; cbn [mbind option_bind] in Hrun; [|done].
  destruct (is_success r1) eqn:Hr1.
  2:{ apply some3_inj in Hrun as (-> & _ & _). done. }
  apply bool_decide_eq_true in Hr1 as ->.
  apply some3_inj in Hrun as (_ & <- & <-).
  eapply (write_record_ok bd peek Hrf) with (p := p) in Hw
    as (Hrec & Hcrc & Hframe & _ & o & Hpost & Hrel); try done; try lia.
  rewrite (record_size_exact bd p) in Hframe by (done || lia).
  rewrite Hrs in Hframe.
  unfold write_record_post in Hpost.
  assert ((free_space_offset o0 =? _MTB_KVSTORE_AREA_HEADER_OFFSET) = false) as Hnz
    by (apply Z.eqb_neq; unfold _MTB_KVSTORE_AREA_HEADER_OFFSET; lia).
  rewrite Hnz in Hpost. cbn [negb] in Hpost. apply (inj Some) in Hpost as <-.
  pose proof (obj_rel_fields _ _ Hrel)
    as (Hs & Hol & _ & _ & _ & _ & Ha & Hg & Hfso & _ & _).
  match type of Hrel with
  | obj_rel _ (_mtb_kvstore_update_consumed_size
                 (_mtb_kvstore_update_ram_table _ _ ?rti) _ ?si) =>
      destruct (update_fields o0 op rti si)
        as (Hs' & Hol' & _ & _ & _ & Ha' & Hg' & Hfso' & _ & _)
  end.
  cbv zeta in Hs', Hol', Ha', Hg', Hfso'.
  rewrite Hs' in Hs. rewrite Hol' in Hol. rewrite Ha' in Ha. rewrite Hg' in Hg.
  rewrite Hfso' in Hfso.
  cbn [start_addr obj_length active_area_addr gc_area_addr free_space_offset
       set_free_space_offset].
  rewrite Hfso, u32_small by lia.
  rewrite Ha0, Hf0 in *. rewrite Hs, Hol, Ha, Hg, Hs0, Hl0, Hg0. done.
Qed.

(** The medium behind [_mtb_kvstore_write_with_flags] when the record
    fits behind the others: nothing is written for the deletion of a key
    that is not stored; otherwise the record of the operation is at
    [free_space_offset], nothing else has changed, and
    [free_space_offset] has moved behind the record. *)
Lemma write_with_flags_media p d obj m key data size delete d' obj' :
  store_ok bd p (peek d) obj m →
  0 < strlen key < MTB_KVSTORE_MAX_KEY_SIZE → payload_ok data size →
  sizeof_record_header + strlen key + size ≤ _MTB_KVSTORE_AREA_SIZE obj →
  free_space_offset obj + rec_size p (key, payload data size) ≤ _MTB_KVSTORE_AREA_SIZE obj →
  _mtb_kvstore_write_with_flags bd heap_alloc d obj key data size delete
  = Some (CY_RSLT_SUCCESS, d', obj') →
  (delete = true ∧ (key ∉ m.*1) ∧ d' = d)
  ∨ ∃ op, (op = _MTB_KVSTORE_OPER_DELETE ↔ delete = true)
          ∧ let h := _mtb_kvstore_setup_record_header key data size
                       _MTB_KVSTORE_FORMAT_VERSION op in
            let a := active_area_addr obj + free_space_offset obj in
            record_at (peek d') a h key (payload data size)
            ∧ crc_ok h key (payload data size)
            ∧ (∀ x, ¬ (a ≤ x < a + rec_size p (key, payload data size)) →
                    peek d' x = peek d x)
            ∧ start_addr obj' = start_addr obj ∧ obj_length obj' = obj_length obj
            ∧ active_area_addr obj' = active_area_addr obj
            ∧ gc_area_addr obj' = gc_area_addr obj
            ∧ free_space_offset obj'
              = free_space_offset obj + rec_size p (key, payload data size).
Proof.
  intros Hok Hklen Hpay Hfits Hroom Hrun.
  assert (MTB_KVSTORE_MAX_KEY_SIZE = 64) as Hmax by done.
  pose proof (store_hashes bd p _ obj m Hok) as Hhashes.
  pose proof Hok as [Hgeo Hents Hsorted Hkeys _ _].
  unfold _mtb_kvstore_write_with_flags in Hrun.
  destruct (store_find bd peek Hrf p d obj m key (Some 0) Hok ltac:(lia))
    as (o1 & Hfind & Hrel & Hl).
  rewrite Hfind in Hrun. cbn [mbind option_bind] in Hrun.
  pose proof (store_ok_rel bd p _ obj o1 m Hok Hrel Hl) as Hok1.
  pose proof (obj_rel_fields _ _ Hrel)
    as (Hs & Hol & _ & _ & _ & _ & Ha & Hg & Hfso & _ & _).
  assert (_MTB_KVSTORE_AREA_SIZE o1 = _MTB_KVSTORE_AREA_SIZE obj) as HA1
    by (unfold _MTB_KVSTORE_AREA_SIZE; by rewrite Hol).
  rewrite <- HA1 in Hfits, Hroom. rewrite <- Hfso in Hroom.
  rewrite <- Ha, <- Hfso, <- Hs, <- Hol, <- Hg.
  destruct (decide (key ∈ m.*1)) as [Hin|Hnotin].
  - apply list_elem_of_fmap in Hin as ([K old] & HK & Hin). cbn in HK. subst K.
    apply list_elem_of_lookup in Hin as [i Hi].
    rewrite (find_spec_present key _ m Hhashes Hsorted Hkeys i old 0 (Some 0) Hi) in Hrun.
    cbn [fst snd] in Hrun. rewrite is_success_true in Hrun. cbn [negb andb] in Hrun.
    rewrite bool_decide_eq_false_2 in Hrun by done. cbn [negb] in Hrun.
    rewrite andb_false_r in Hrun.
    right. exists (if delete then _MTB_KVSTORE_OPER_DELETE else _MTB_KVSTORE_OPER_UPDATE).
    split; [by destruct delete|].
    by eapply write_operation_media.
  - destruct (find_spec_absent key _ m Hhashes Hsorted Hnotin 0 (Some 0))
      as (n & Hspec & Hn & Hpos).
    rewrite Hspec in Hrun. cbn [fst snd] in Hrun.
    rewrite bool_decide_eq_true_2 in Hrun by done. cbn [negb] in Hrun.
    rewrite andb_false_r, andb_true_r in Hrun.
    destruct delete.
    + apply some3_inj in Hrun as (_ & <- & _). by left.
    + right. exists _MTB_KVSTORE_OPER_ADD. split; [done|].
      by eapply write_operation_media.
Qed.

(** A write or a deletion whose record fits behind the others keeps the
    store on the medium: the log has grown by the record. *)
Lemma append_keeps_medium p d obj m second v log key data size delete d1 obj1 :
  medium_ok bd p (peek d) obj m second v log →
  0 < strlen key < MTB_KVSTORE_MAX_KEY_SIZE → (0 ∉ key) → payload_ok data size →
  sizeof_record_header + strlen key + size ≤ _MTB_KVSTORE_AREA_SIZE obj →
  free_space_offset obj + rec_size p (key, payload data size) ≤ _MTB_KVSTORE_AREA_SIZE obj →
  _mtb_kvstore_write_with_flags bd heap_alloc d obj key data size delete
  = Some (CY_RSLT_SUCCESS, d1, obj1) →
  ∃ m1 log1, medium_ok bd p (peek d1) obj1 m1 second v log1
             ∧ updated delete key (payload data size) m m1
             ∧ start_addr obj1 = start_addr obj ∧ obj_length obj1 = obj_length obj.
Proof.
  intros [Hok Hactive Hanch Hspare Hlog Hend Hcontents Herased]
         Hklen Hzero Hpay Hfits Hroom Hwrite.
  pose proof Hok as [Hgeo Hents Hsorted Hkeys Hcons Hfree].
  pose proof (geometry_areas bd p _ Hgeo)
    as (Hp & Hact & Hgc & Hacttop & Hgctop & Hdisj & H34 & HanchA).
  pose proof (live_size_nonneg' p m) as Hlive.
  assert (sizeof_record_header + strlen _mtb_kvstore_area_rec_key + sizeof_area_record_data
          = 34) as E34 by done.
  assert (sizeof_record_header = 20) as Hhs by done.
  pose proof (payload_ok_length _ _ Hpay) as Hpl.
  pose proof Hpay as [Hsz0 _].
  destruct (write_with_flags_ok bd peek Hrf heap_alloc p d obj m key data size delete d1 obj1
              Hok Hklen Hpay Hfits Hwrite) as (m1 & Hok1 & Hupd & Hnoop).
  pose proof Hok1 as [_ _ _ Hkeys1 _ _].
  set (dat := payload data size) in *.
  set (A := _MTB_KVSTORE_AREA_SIZE obj) in *.
  set (fso := free_space_offset obj) in *.
  destruct (rec_size_bounds p (key, dat) ltac:(lia)) as (Hsz1 & Hsz2 & _);
    [cbn [fst snd]; lia|]. cbn [fst snd] in Hsz1, Hsz2. rewrite Hpl in Hsz1, Hsz2.
  destruct (write_with_flags_media p d obj m key data size delete d1 obj1 Hok Hklen Hpay
              Hfits Hroom Hwrite)
    as [(Hdel & Hnotin & ->)
       |(op & Hop & Hrec & Hcrc & Hframe & Hs1 & Hl1 & Ha1 & Hg1 & Hf1)].
  - destruct (Hnoop Hdel Hnotin) as (_ & -> & Hrel).
    pose proof (obj_rel_fields _ _ Hrel)
      as (Hs & Hol & _ & _ & _ & _ & Ha & Hg & Hfso & _ & _).
    exists m, log. split; [|done].
    constructor; unfold _MTB_KVSTORE_AREA_SIZE; rewrite ?Hs, ?Hol, ?Ha, ?Hg, ?Hfso; done.
  - fold dat fso in Hrec, Hcrc, Hframe, Hf1.
    set (h := _mtb_kvstore_setup_record_header key data size _MTB_KVSTORE_FORMAT_VERSION
                op) in *.
    assert (_MTB_KVSTORE_AREA_SIZE obj1 = A) as HA1
      by (unfold A, _MTB_KVSTORE_AREA_SIZE; by rewrite Hl1).
    assert (log_end p (anchor_size p) (log ++ [(h, key, dat)]) = fso + rec_size p (key, dat))
      as Hend'.
    { rewrite log_end_app. cbn [log_end]. by rewrite Hend. }
    exists m1, (log ++ [(h, key, dat)]). split; [|done].
    constructor; rewrite ?HA1, ?Hs1, ?Ha1, ?Hg1, ?Hf1; try done.
    + eapply anchor_at_frame; [exact Hanch|]. intros x Hx. apply Hframe. lia.
    + eapply spare_ok_frame; [exact Hspare|]. intros x Hx. apply Hframe. lia.
    + apply log_at_app. split.
      * eapply log_at_frame; [lia|lia| | |exact Hlog]; [lia|].
        intros x Hx. apply Hframe. rewrite Hend in Hx. lia.
      * rewrite Hend. cbn [log_at].
        split; [done|]. split; [done|]. split; [done|]. split; [|done]. lia.
    + intros K Dat.
      rewrite (updated_get (λ K, log_get K log None) delete key dat m m1 Hcontents Hkeys1
                 Hupd K Dat).
      rewrite log_get_snoc.
      assert (is_tombstone h = delete) as ->; [|done].
      unfold is_tombstone, h, _mtb_kvstore_setup_record_header. cbn [flags].
      destruct (decide (op = _MTB_KVSTORE_OPER_DELETE)) as [Hd|Hd].
      * by rewrite (proj1 Hop Hd).
      * destruct delete; [|done]. destruct Hd. by apply Hop.
    + intros x Hx. rewrite Hframe by lia. apply Herased. lia.
Qed.

(** A restart on the medium of a store gives a store with the same
    contents. *)
Lemma restart_on_medium p r es d obj m second v log obj0 d2 obj2 :
  (∀ a, bd_read_size bd a = r) → (∀ a, bd_erase_size bd a = es) →
  0 < r < 2 ^ 32 → r ≤ p ∨ r mod p = 0 →
  medium_ok bd p (peek d) obj m second v log →
  mtb_kvstore_init bd heap_alloc d obj0 (start_addr obj) (obj_length obj)
  = Some (CY_RSLT_SUCCESS, d2, obj2) →
  d2 = d
  ∧ ∃ m2, store_ok bd p (peek d) obj2 m2 ∧ ∀ K Dat, (K, Dat) ∈ m2 ↔ (K, Dat) ∈ m.
Proof.
  intros Hr Hes Hr0 Hrp [Hok Hactive Hanch Hspare Hlog Hend Hcontents Herased] Hinit.
  pose proof Hok as [Hgeo Hents Hsorted Hkeys Hcons Hfree].
  pose proof (geometry_areas bd p _ Hgeo)
    as (Hp & Hact & Hgc & Hacttop & Hgctop & Hdisj & H34 & HanchA).
  pose proof Hgeo as [[Hunif _ _ _ _] Herase Hstart Hlength Htop Hareas _].
  assert (sizeof_record_header + strlen _mtb_kvstore_area_rec_key + sizeof_area_record_data
          = 34) as E34 by done.
  assert (sizeof_record_header = 20) as Hhs by done.
  set (A := _MTB_KVSTORE_AREA_SIZE obj) in *.
  assert (0 < es) as Hes0 by (specialize (Herase 0); rewrite Hes in Herase; lia).
  assert (gc_area_addr obj = if second then start_addr obj else start_addr obj + A)
    as Hgcaddr.
  { destruct second, Hareas as [[Ha1 Hg1]|[Ha1 Hg1]]; fold A in Ha1, Hg1; lia. }
  destruct (init_replay bd peek Hrf heap_alloc p r es d obj0 (start_addr obj)
              (obj_length obj) second v log d2 obj2)
    as (Hd2 & _ & _ & _ & m2 & Hok2 & Hm2); try done; try lia.
  - fold (_MTB_KVSTORE_AREA_SIZE obj). fold A. by rewrite <- Hactive.
  - fold (_MTB_KVSTORE_AREA_SIZE obj). fold A. by rewrite <- Hgcaddr.
  - fold (_MTB_KVSTORE_AREA_SIZE obj). fold A. by rewrite <- Hactive.
  - rewrite Hend. fold (_MTB_KVSTORE_AREA_SIZE obj). fold A. lia.
  - fold (_MTB_KVSTORE_AREA_SIZE obj). fold A. rewrite <- Hactive, Hend.
    intros Hlt x Hx. apply Herased. lia.
  - split; [done|]. exists m2. split; [done|]. intros K Dat. rewrite Hm2.
    symmetry. apply Hcontents.
Qed.

End Append.

(** * The size query and the storage-full check, over the contents of the store *)

(** C10.  The size query.  In a store that satisfies the invariant, a
    key that is stored with the data [dat] is read with a null [data] and
    a non-null [size], whatever [*size] holds on entry, with success:
    [data] stays null, nothing is copied, and [*size] becomes the length
    of [dat], which is the [data_size] in the header of the record of the
    key on the medium.  The same read of a valid key that is not stored
    returns item-not-found and leaves [*size] as it was.  The object
    changes in its transaction buffer only. *)
Theorem read_size_query {D : Type} (bd : mtb_kvstore_bd_t D) (peek : D → Z → Z)
    p d obj m key dat sz :
  reliable_flash bd peek → store_ok bd p (peek d) obj m →
  ((key, dat) ∈ m →
   ∃ obj' e h,
     mtb_kvstore_read bd d obj (Some key) None (Some sz)
     = Some (CY_RSLT_SUCCESS, obj', None, Some (strlen dat))
     ∧ obj_rel obj' obj
     ∧ e ∈ ram_table obj
     ∧ record_at (peek d) (active_area_addr obj + offset e) h key dat
     ∧ data_size h = strlen dat)
  ∧ ((key ∉ m.*1) → 0 < strlen key < MTB_KVSTORE_MAX_KEY_SIZE →
     ∃ obj',
       mtb_kvstore_read bd d obj (Some key) None (Some sz)
       = Some (MTB_KVSTORE_ITEM_NOT_FOUND_ERROR, obj', None, Some sz)
       ∧ obj_rel obj' obj).
Proof.
  intros Hrf Hok. split.
  - intros Hin.
    destruct (read_present bd peek Hrf p d obj m key dat None (Some sz) Hok Hin)
      as (obj' & Hread & Hrel & _); [by left|].
    destruct (store_entry bd p _ obj m key dat Hok Hin)
      as (i & e & h & _ & He & Hrec & _).
    exists obj', e, h. split.
    + rewrite Hread. unfold read_outcome, too_small. by rewrite decide_True.
    + split; [done|]. split; [by eapply list_elem_of_lookup_2|]. split; [done|].
      by destruct Hrec.
  - intros Hnotin Hkey.
    destruct (read_absent bd peek Hrf p d obj m key None (Some sz) Hok Hnotin Hkey)
      as (obj' & Hread & Hrel & _); [by left|].
    by exists obj'.
Qed.

(** The size query for "l" in the store of three keys, with [*size] 0 on
    entry, and for "o", which is not stored. *)
Lemma read_size_query_witness :
  (∃ obj' e h,
     mtb_kvstore_read demo_bd demo_store.1 demo_store.2 (Some [108]) None (Some 0)
     = Some (CY_RSLT_SUCCESS, obj', None, Some (strlen [5; 5]))
     ∧ obj_rel obj' demo_store.2
     ∧ e ∈ ram_table demo_store.2
     ∧ record_at (cells demo_store.1) (active_area_addr demo_store.2 + offset e) h [108]
         [5; 5]
     ∧ data_size h = strlen [5; 5])
  ∧ ∃ obj',
      mtb_kvstore_read demo_bd demo_store.1 demo_store.2 (Some [111]) None (Some 0)
      = Some (MTB_KVSTORE_ITEM_NOT_FOUND_ERROR, obj', None, Some 0)
      ∧ obj_rel obj' demo_store.2.
Proof.
  split.
  - destruct (read_size_query demo_bd cells 8 demo_store.1 demo_store.2
                [([109], [6; 6]); ([108], [5; 5]); ([107], [1; 1])] [108] [5; 5] 0)
      as [Hpresent _].
    + apply sim_reliable.
    + apply demo_store_contents.
    + apply Hpresent. apply list_elem_of_further, list_elem_of_here.
  - destruct (read_size_query demo_bd cells 8 demo_store.1 demo_store.2
                [([109], [6; 6]); ([108], [5; 5]); ([107], [1; 1])] [111] [] 0)
      as [_ Habsent].
    + apply sim_reliable.
    + apply demo_store_contents.
    + apply Habsent.
      * cbn. intros H.
        repeat (apply elem_of_cons in H as [H|H]; [discriminate H|]).
        apply elem_of_nil in H. destruct H.
      * vm_compute. split; reflexivity.
Defined.

Section StorageFull.
Context {D : Type} (bd : mtb_kvstore_bd_t D) (peek : D → Z → Z).
Hypothesis Hrf : reliable_flash bd peek.
Variable heap_alloc : Z → bool.

(** [mtb_kvstore_write] up to the space check. *)
Lemma write_space_check p d obj m key data size old :
  store_ok bd p (peek d) obj m →
  0 < strlen key < MTB_KVSTORE_MAX_KEY_SIZE → (data = None → size = 0) →
  ((key ∉ m.*1) ∧ old = 0 ∨ ∃ dat, (key, dat) ∈ m ∧ old = rec_size p (key, dat)) →
  u32 (u32 (consumed_size obj - old)
       + _mtb_kvstore_get_record_size bd (active_area_addr obj) (strlen key) size)
  > _MTB_KVSTORE_AREA_SIZE obj →
  let full := bool_decide (key ∉ m.*1) && (num_entries obj >=? max_entries obj) in
  let grown := u32 (max_entries obj * 2) in
  let alloc := heap_alloc (u32 (grown * sizeof_ram_table_entry)) in
  ∃ obj',
    mtb_kvstore_write bd heap_alloc d obj (Some key) data size
    = Some (if full && negb alloc then MTB_KVSTORE_MEM_ALLOC_ERROR
            else MTB_KVSTORE_STORAGE_FULL_ERROR, d, obj')
    ∧ obj_rel obj' (if full && alloc then set_max_entries grown obj else obj).
Proof.
  intros Hok Hkey Hdata Hold Hfull full grown alloc.
  assert (MTB_KVSTORE_MAX_KEY_SIZE = 64) as Hmax by done.
  pose proof (store_hashes bd p _ obj m Hok) as Hhashes.
  pose proof Hok as [Hgeo Hents Hsorted Hkeys _ _].
  pose proof Hgeo as [[Hunif _ _ _ _] _ _ _ _ _ _].
  pose proof (geometry_areas bd p obj Hgeo) as (Hp & _).
  destruct (valid_key_strlen key Hkey) as [Hvalid Hlen].
  unfold mtb_kvstore_write. rewrite Hvalid. cbn [mbind option_bind negb orb].
  assert ((bool_decide (data = None) && negb (size =? 0)) = false) as ->.
  { destruct data as [bytes|]; [done|]. by rewrite Hdata. }
  unfold _mtb_kvstore_write_with_flags.
  destruct (store_find bd peek Hrf p d obj m key (Some 0) Hok ltac:(lia))
    as (o1 & -> & Hrel & _).
  cbn [mbind option_bind].
  pose proof (obj_rel_fields _ _ Hrel)
    as (_ & Hol & Htab & Hme & _ & _ & Ha & _ & _ & _ & Hc).
  assert (_MTB_KVSTORE_AREA_SIZE o1 = _MTB_KVSTORE_AREA_SIZE obj) as HA
    by (unfold _MTB_KVSTORE_AREA_SIZE; by rewrite Hol).
  apply Z.gt_lt, Z.gtb_lt in Hfull.
  destruct Hold as [[Hnotin ->]|(dat & Hin & ->)].
  - (* a new key *)
    destruct (find_spec_absent key _ m Hhashes Hsorted Hnotin 0 (Some 0)) as (n & -> & _).
    cbn [fst snd default]. rewrite bool_decide_eq_true_2 by done.
    cbn [negb andb is_success]. rewrite andb_false_r.
    unfold write_operation. rewrite bool_decide_eq_true_2 by done. cbn [andb].
    subst full. rewrite (bool_decide_eq_true_2 (key ∉ m.*1)) by done. cbn [andb].
    unfold num_entries in *. rewrite Htab, Hme.
    destruct (Z.of_nat (length (ram_table obj)) >=? max_entries obj) eqn:Hnum.
    + unfold _mtb_kvstore_increment_max_keys. rewrite Hme. fold grown. fold alloc.
      destruct alloc; cbn [negb is_success andb].
      * cbn [active_area_addr consumed_size set_max_entries].
        unfold _MTB_KVSTORE_AREA_SIZE in *. cbn [obj_length set_max_entries].
        rewrite Hlen, Ha, Hc, Hol, orb_true_r. cbn [andb]. rewrite Hfull.
        eexists. split; [done|].
        unfold obj_rel, forget_tb, set_transaction_buffer, set_max_entries in *.
        cbn. injection Hrel. intros. congruence.
      * exists o1. done.
    + cbn [andb]. rewrite Hlen, Ha, Hc, HA, orb_true_r. cbn [andb]. rewrite Hfull.
      exists o1. done.
  - (* an update *)
    assert (key ∈ m.*1) as Hinm
      by (apply list_elem_of_fmap; by exists (key, dat)).
    subst full. rewrite (bool_decide_eq_false_2 (key ∉ m.*1)) by (by intros []).
    cbn [andb].
    apply list_elem_of_lookup in Hin as [i Hi].
    rewrite (find_spec_present key _ m Hhashes Hsorted Hkeys i dat 0 (Some 0) Hi).
    cbn [fst snd default]. rewrite is_success_true. cbn [negb andb].
    rewrite (bool_decide_eq_false_2 (CY_RSLT_SUCCESS = MTB_KVSTORE_ITEM_NOT_FOUND_ERROR))
      by done.
    cbn [negb andb]. unfold id, write_operation.
    rewrite (bool_decide_eq_false_2 (_MTB_KVSTORE_OPER_UPDATE = _MTB_KVSTORE_OPER_ADD))
      by done.
    rewrite (bool_decide_eq_true_2 (_MTB_KVSTORE_OPER_UPDATE = _MTB_KVSTORE_OPER_UPDATE))
      by done.
    cbn [orb andb].
    destruct (Forall2_lookup_r _ _ _ _ _ Hents Hi) as (e & He & [_ _ Hbound _ _]).
    cbn [fst snd] in Hbound.
    rewrite Hlen, Ha, Hc, HA.
    rewrite (record_size_rec bd p _ (key, dat) Hunif) by (cbn [fst snd]; lia).
    rewrite Hfull. exists o1. done.
Qed.

End StorageFull.

(** C2, amended.  Take a store that satisfies the invariant, a valid key
    and a size for which the test of the code fires: in 32-bit
    arithmetic, [consumed_size] less the padded size of the record the
    key has in the store (0 for a key that is not stored) plus
    [_mtb_kvstore_get_record_size] of the new record exceeds the area.
    Then [mtb_kvstore_write] never touches the device, and: for a key
    that is stored, or when the RAM table has room, it returns
    storage-full and the object is as before but for the transaction
    buffer; for a new key into a full RAM table it first grows the
    table, so that it returns the allocation error, the object as
    before, when the allocation fails, and storage-full with
    [max_entries] doubled when it succeeds.  The garbage collector,
    handed the same sizes with a pending update, makes the same test
    first and returns storage-full with the device and the object
    untouched. *)
Theorem write_storage_full {D : Type} (bd : mtb_kvstore_bd_t D) (peek : D → Z → Z)
    (heap_alloc : Z → bool) p d obj m key data size old :
  reliable_flash bd peek → store_ok bd p (peek d) obj m →
  0 < strlen key < MTB_KVSTORE_MAX_KEY_SIZE → (data = None → size = 0) →
  ((key ∉ m.*1) ∧ old = 0 ∨ ∃ dat, (key, dat) ∈ m ∧ old = rec_size p (key, dat)) →
  let new := _mtb_kvstore_get_record_size bd (active_area_addr obj) (strlen key) size in
  u32 (u32 (consumed_size obj - old) + new) > _MTB_KVSTORE_AREA_SIZE obj →
  let grown := u32 (max_entries obj * 2) in
  let alloc := heap_alloc (u32 (grown * sizeof_ram_table_entry)) in
  (key ∈ m.*1 ∨ num_entries obj < max_entries obj →
   ∃ obj', mtb_kvstore_write bd heap_alloc d obj (Some key) data size
           = Some (MTB_KVSTORE_STORAGE_FULL_ERROR, d, obj')
           ∧ obj_rel obj' obj)
  ∧ ((key ∉ m.*1) → max_entries obj ≤ num_entries obj → alloc = true →
     ∃ obj', mtb_kvstore_write bd heap_alloc d obj (Some key) data size
             = Some (MTB_KVSTORE_STORAGE_FULL_ERROR, d, obj')
             ∧ obj_rel obj' (set_max_entries grown obj))
  ∧ ((key ∉ m.*1) → max_entries obj ≤ num_entries obj → alloc = false →
     ∃ obj', mtb_kvstore_write bd heap_alloc d obj (Some key) data size
             = Some (MTB_KVSTORE_MEM_ALLOC_ERROR, d, obj')
             ∧ obj_rel obj' obj)
  ∧ ∀ idx hsh,
      _mtb_kvstore_garbage_collection bd d obj
        (Some {| ri_ram_tbl_idx := idx;
                 ri_consumed_size_info :=
                   {| old_record_size := old; new_record_size := new |};
                 ri_update_rec_info :=
                   Some {| upd_key := key; upd_data := data; upd_data_size := size;
                           upd_key_hash := hsh |} |})
      = Some (MTB_KVSTORE_STORAGE_FULL_ERROR, d, obj).
Proof.
  intros Hrf Hok Hkey Hdata Hold new Hfull grown alloc.
  destruct (write_space_check bd peek Hrf heap_alloc p d obj m key data size old Hok Hkey
              Hdata Hold Hfull) as (obj' & Hrun & Hrel).
  fold grown alloc in Hrun, Hrel.
  split; [|split; [|split]].
  - intros Hcase. exists obj'.
    assert ((bool_decide (key ∉ m.*1) && (num_entries obj >=? max_entries obj)) = false)
      as Hnot.
    { apply andb_false_iff. destruct Hcase as [Hin|Hroom].
      - left. by apply bool_decide_eq_false_2; intros [].
      - right. lia. }
    rewrite Hnot in Hrun, Hrel. done.
  - intros Hnotin Hnum Halloc. exists obj'.
    rewrite bool_decide_eq_true_2, (proj2 (Z.geb_le _ _) Hnum), Halloc in Hrun, Hrel
      by done.
    done.
  - intros Hnotin Hnum Halloc. exists obj'.
    rewrite bool_decide_eq_true_2, (proj2 (Z.geb_le _ _) Hnum), Halloc in Hrun, Hrel
      by done.
    done.
  - intros idx hsh. unfold _mtb_kvstore_garbage_collection.
    cbn [ri_update_rec_info ri_consumed_size_info old_record_size new_record_size].
    apply Z.gt_lt, Z.gtb_lt in Hfull. by rewrite Hfull.
Qed.

(** An update of "k" in the store of three keys with 20 bytes of data:
    112 - 24 + 48 bytes do not fit the area of 128. *)
Lemma write_storage_full_witness :
  (∃ obj',
     mtb_kvstore_write demo_bd alloc_ok demo_store.1 demo_store.2 (Some [107])
       (Some (replicate 20 7)) 20
     = Some (MTB_KVSTORE_STORAGE_FULL_ERROR, demo_store.1, obj')
     ∧ obj_rel obj' demo_store.2)
  ∧ ∀ idx hsh,
      _mtb_kvstore_garbage_collection demo_bd demo_store.1 demo_store.2
        (Some {| ri_ram_tbl_idx := idx;
                 ri_consumed_size_info :=
                   {| old_record_size := rec_size 8 ([107], [1; 1]);
                      new_record_size :=
                        _mtb_kvstore_get_record_size demo_bd
                          (active_area_addr demo_store.2) (strlen [107]) 20 |};
                 ri_update_rec_info :=
                   Some {| upd_key := [107]; upd_data := Some (replicate 20 7);
                           upd_data_size := 20; upd_key_hash := hsh |} |})
      = Some (MTB_KVSTORE_STORAGE_FULL_ERROR, demo_store.1, demo_store.2).
Proof.
  destruct (write_storage_full demo_bd cells alloc_ok 8 demo_store.1 demo_store.2
              [([109], [6; 6]); ([108], [5; 5]); ([107], [1; 1])] [107]
              (Some (replicate 20 7)) 20 (rec_size 8 ([107], [1; 1])))
    as (Hupdate & _ & _ & Hgc).
  - apply sim_reliable.
  - apply demo_store_contents.
  - vm_compute. split; reflexivity.
  - intros H. discriminate H.
  - right. exists [1; 1]. split; [|reflexivity].
    apply list_elem_of_further, list_elem_of_further, list_elem_of_here.
  - vm_compute. reflexivity.
  - split; [|exact Hgc]. apply Hupdate. left.
    apply list_elem_of_fmap. exists ([107], [1; 1]). split; [reflexivity|].
    apply list_elem_of_further, list_elem_of_further, list_elem_of_here.
Defined.

(** C2, as stated, fails for a new key when the RAM table is full.  The
    store of 32 keys consumes 808 of the 1024 bytes of its area, and its
    table has 32 entries, which is [max_entries].  A record of the new
    key "d" with 200 bytes of data takes 224 bytes, so that
    808 + 224 > 1024 and the claim promises storage-full with the state
    unchanged.  The code grows the table before the space check: when
    the allocation fails, the write returns the allocation error; when
    it succeeds, the write returns storage-full but has doubled
    [max_entries] to 64. *)
Lemma storage_full_counterexample :
  (num_entries demo_full.2, max_entries demo_full.2, consumed_size demo_full.2,
   _MTB_KVSTORE_AREA_SIZE demo_full.2) = (32, 32, 808, 1024)
  ∧ _mtb_kvstore_get_record_size demo_big_bd (active_area_addr demo_full.2) (strlen [100])
      200 = 224
  ∧ (λ '(r, _, _), r)
    <$> mtb_kvstore_write demo_big_bd (λ _, false) demo_full.1 demo_full.2 (Some [100])
          (Some (replicate 200 7)) 200
    = Some MTB_KVSTORE_MEM_ALLOC_ERROR
  ∧ (λ '(r, _, o), (r, max_entries o))
    <$> mtb_kvstore_write demo_big_bd alloc_ok demo_full.1 demo_full.2 (Some [100])
          (Some (replicate 200 7)) 200
    = Some (MTB_KVSTORE_STORAGE_FULL_ERROR, 64).
Proof. vm_compute. done. Qed.

(** * The round trip, the header, the repeated deletion and the counters *)

(** C1, amended.  The round trip.  In a store that satisfies the
    invariant, let [mtb_kvstore_write] of the bytes [B] under a key
    succeed, the record fitting the area.  Then the key is valid, and
    [mtb_kvstore_read] of the key into a buffer with [*size] at least the
    length of [B] and not 0 succeeds: the buffer starts with exactly the
    bytes [B], its rest is as before, and [*size] is the length of [B].
    With [*size] 0, which is at least the length of an empty [B], the
    read of a buffer is refused as a bad parameter. *)
Theorem write_read_round_trip {D : Type} (bd : mtb_kvstore_bd_t D) (peek : D → Z → Z)
    (heap_alloc : Z → bool) p d obj m key B d' obj' :
  reliable_flash bd peek → store_ok bd p (peek d) obj m →
  sizeof_record_header + strlen key + strlen B ≤ _MTB_KVSTORE_AREA_SIZE obj →
  mtb_kvstore_write bd heap_alloc d obj (Some key) (Some B) (strlen B)
  = Some (CY_RSLT_SUCCESS, d', obj') →
  0 < strlen key < MTB_KVSTORE_MAX_KEY_SIZE
  ∧ (∀ buf sz, strlen B ≤ sz → sz ≠ 0 →
       ∃ obj'',
         mtb_kvstore_read bd d' obj' (Some key) (Some buf) (Some sz)
         = Some (CY_RSLT_SUCCESS, obj'', Some (B ++ drop (length B) buf), Some (strlen B))
         ∧ obj_rel obj'' obj')
  ∧ ∀ buf,
      mtb_kvstore_read bd d' obj' (Some key) (Some buf) (Some 0)
      = Some (MTB_KVSTORE_BAD_PARAM_ERROR, obj', Some buf, Some 0).
Proof.
  intros Hrf Hok Hfits Hrun.
  destruct (write_ok bd peek Hrf heap_alloc p d obj m key (Some B) (strlen B) d' obj' Hok
              (payload_ok_all B) Hfits Hrun) as (m' & Hok' & Hin & _).
  rewrite payload_all in Hin.
  destruct (store_entry bd p _ obj' m' key B Hok' Hin) as (_ & _ & _ & _ & _ & _ & _ & Hkey & _).
  split; [done|]. split.
  - intros buf sz Hsz Hnz.
    destruct (read_present bd peek Hrf p d' obj' m' key B (Some buf) (Some sz) Hok' Hin)
      as (obj'' & Hread & Hrel & _).
    { right. by exists sz. }
    exists obj''. split; [|done]. rewrite Hread. unfold read_outcome, too_small.
    rewrite (proj2 (Z.ltb_ge sz (strlen B)) Hsz), decide_True by done. done.
  - intros buf. destruct (valid_key_strlen key Hkey) as [Hvalid _].
    unfold mtb_kvstore_read. rewrite Hvalid. done.
Qed.

(** Four bytes written under "l" in the store of three keys and read back
    into a buffer of six bytes. *)
Lemma write_read_round_trip_witness :
  ∃ d' obj' obj'',
    mtb_kvstore_write demo_bd alloc_ok demo_store.1 demo_store.2 (Some [108])
      (Some [3; 4; 5; 6]) (strlen [3; 4; 5; 6])
    = Some (CY_RSLT_SUCCESS, d', obj')
    ∧ mtb_kvstore_read demo_bd d' obj' (Some [108]) (Some [9; 9; 9; 9; 9; 9]) (Some 6)
      = Some (CY_RSLT_SUCCESS, obj'',
              Some ([3; 4; 5; 6] ++ drop (length [3; 4; 5; 6]) [9; 9; 9; 9; 9; 9]),
              Some (strlen [3; 4; 5; 6]))
    ∧ obj_rel obj'' obj'.
Proof.
  destruct (run_success
              (mtb_kvstore_write demo_bd alloc_ok demo_store.1 demo_store.2 (Some [108])
                 (Some [3; 4; 5; 6]) (strlen [3; 4; 5; 6])))
    as (d' & obj' & Hrun); [vm_compute; reflexivity|].
  destruct (write_read_round_trip demo_bd cells alloc_ok 8 demo_store.1 demo_store.2
              [([109], [6; 6]); ([108], [5; 5]); ([107], [1; 1])] [108] [3; 4; 5; 6] d' obj')
    as (_ & Hread & _).
  - apply sim_reliable.
  - apply demo_store_contents.
  - vm_compute. discriminate.
  - exact Hrun.
  - destruct (Hread [9; 9; 9; 9; 9; 9] 6) as (obj'' & Hr & Hrel).
    + vm_compute. discriminate.
    + lia.
    + exists d', obj', obj''. split; [exact Hrun|]. split; [exact Hr|exact Hrel].
Defined.

(** C1, as stated, fails for the empty byte sequence: on the fresh store
    the write of "k" with no data succeeds, and the key is then stored
    with the size 0 (the size query returns it); a read into a buffer
    with [*size] 0, which is at least the size written, is refused as a
    bad parameter, while a read with [*size] 1 succeeds. *)
Lemma round_trip_empty_counterexample :
  let s := after (mtb_kvstore_write demo_bd alloc_ok demo_fresh.1 demo_fresh.2 (Some [107])
                    (Some []) 0) in
  (λ '(r, _, _), r)
  <$> mtb_kvstore_write demo_bd alloc_ok demo_fresh.1 demo_fresh.2 (Some [107]) (Some []) 0
  = Some CY_RSLT_SUCCESS
  ∧ (λ '(r, _, data, size), (r, data, size))
    <$> mtb_kvstore_read demo_bd s.1 s.2 (Some [107]) None (Some 0)
    = Some (CY_RSLT_SUCCESS, None, Some 0)
  ∧ (λ '(r, _, data, size), (r, data, size))
    <$> mtb_kvstore_read demo_bd s.1 s.2 (Some [107]) (Some [9; 9]) (Some 0)
    = Some (MTB_KVSTORE_BAD_PARAM_ERROR, Some [9; 9], Some 0)
  ∧ (λ '(r, _, data, size), (r, data, size))
    <$> mtb_kvstore_read demo_bd s.1 s.2 (Some [107]) (Some [9; 9]) (Some 1)
    = Some (CY_RSLT_SUCCESS, Some [9; 9], Some 0).
Proof. vm_compute. done. Qed.









(** * Further properties of the code

    ** The helper functions *)

(** X1.  [_mtb_kvstore_align_up] rounds up to the program size: as long as
    [val + size] stays within 32 bits the result is a multiple of [size],
    at least [val], less than [val + size], and no other multiple of
    [size] from [val] on is smaller. *)
Theorem align_up_least_multiple val size :
  0 < val → 0 < size → val + size ≤ 2 ^ 32 →
  _mtb_kvstore_align_up val size mod size = 0
  ∧ val ≤ _mtb_kvstore_align_up val size < val + size
  ∧ ∀ m, val ≤ m → m mod size = 0 → _mtb_kvstore_align_up val size ≤ m.
Proof.
  intros Hv Hs Hb. destruct (align_up_bounds val size Hv Hs Hb) as [Hr Hm].
  split; [done|]. split; [done|]. intros m. by apply align_up_least.
Qed.

Lemma align_up_least_multiple_witness :
  _mtb_kvstore_align_up 34 8 mod 8 = 0
  ∧ 34 ≤ _mtb_kvstore_align_up 34 8 < 34 + 8
  ∧ ∀ m, 34 ≤ m → m mod 8 = 0 → _mtb_kvstore_align_up 34 8 ≤ m.
Proof. apply (align_up_least_multiple 34 8); lia. Defined.

(** X2.  [_mtb_kvstore_crc16] can be fed a buffer in pieces: the CRC of
    [a ++ b] from [init] is the CRC of [b] from the CRC of [a], whatever
    the upper bits of [init]; and every CRC is a 16-bit value. *)
Theorem crc16_in_pieces a b init :
  _mtb_kvstore_crc16 (a ++ b) init = _mtb_kvstore_crc16 b (_mtb_kvstore_crc16 a init)
  ∧ 0 ≤ _mtb_kvstore_crc16 (a ++ b) init < 2 ^ 16.
Proof. split; [apply crc16_app|apply crc16_range]. Qed.

(** X3.  The CRC of a record, [_mtb_kvstore_get_record_crc], is the CRC
    from 0xFFFF of the fourteen bytes of the header members [magic],
    [format_version], [flags], [header_size], [key_size] and [data_size]
    (neither the padding nor the [crc] member), followed by [key_size]
    bytes of the key and, where there is data, [data_size] bytes of it. *)
Theorem record_crc_covers h key data :
  _mtb_kvstore_get_record_crc h key data
  = _mtb_kvstore_crc16
      (le_bytes 4 (magic h) ++ le_bytes 1 (format_version h) ++ le_bytes 1 (flags h)
       ++ le_bytes 2 (header_size h) ++ le_bytes 2 (key_size h)
       ++ le_bytes 4 (data_size h)
       ++ take (Z.to_nat (key_size h)) key
       ++ take (Z.to_nat (data_size h)) (default [] data))
      _MTB_KVSTORE_CRC_INIT_VAL.
Proof.
  unfold _mtb_kvstore_get_record_crc, _mtb_kvstore_get_header_crc.
  rewrite !crc16_app.
  destruct data as [bytes|]; cbn [default].
  - destruct (data_size h =? 0) eqn:Hz; cbn [negb]; [|done].
    apply Z.eqb_eq in Hz. rewrite Hz. cbn [Z.to_nat take].
    rewrite crc16_nil; [done|apply crc16_range].
  - rewrite take_nil, crc16_nil; [done|apply crc16_range].
Qed.

(** ** Records on a reliable medium *)

(** X4.  On a device whose reads succeed [_mtb_kvstore_buffered_crc_compute]
    returns the CRC of the [size] bytes of the medium from [address],
    continued from [crc_acc], however many transaction buffers they
    fill. *)
Theorem buffered_crc_of_region {D : Type} (bd : mtb_kvstore_bd_t D) (peek : D → Z → Z)
    d obj address size crc_acc :
  reliable_flash bd peek →
  0 < transaction_buffer_size obj →
  strlen (transaction_buffer obj) = transaction_buffer_size obj →
  0 ≤ size → 0 ≤ address → address + size < 2 ^ 32 → 0 ≤ crc_acc < 2 ^ 16 →
  ∃ obj',
    _mtb_kvstore_buffered_crc_compute bd d obj address size crc_acc
    = Some (CY_RSLT_SUCCESS, obj',
            _mtb_kvstore_crc16 (bytes_at (peek d) address size) crc_acc)
    ∧ obj_rel obj' obj.
Proof.
  intros Hrf Htbs Hlen Hsize Haddr Hend Hcrc.
  destruct (buffered_crc_compute_ok bd peek Hrf d obj address size crc_acc)
    as (obj' & Hrun & Hrel & _); try done.
  by exists obj'.
Qed.

(** The CRC of the whole first area of the fresh store, two buffers. *)
Lemma buffered_crc_of_region_witness :
  ∃ obj',
    _mtb_kvstore_buffered_crc_compute demo_bd demo_fresh.1 demo_fresh.2 0 256 0xFFFF
    = Some (CY_RSLT_SUCCESS, obj',
            _mtb_kvstore_crc16 (bytes_at (cells demo_fresh.1) 0 256) 0xFFFF)
    ∧ obj_rel obj' demo_fresh.2.
Proof.
  apply (buffered_crc_of_region demo_bd cells demo_fresh.1 demo_fresh.2 0 256 0xFFFF).
  - apply sim_reliable.
  - vm_compute. reflexivity.
  - vm_compute. reflexivity.
  - lia.
  - lia.
  - lia.
  - lia.
Defined.

(** X5.  [_mtb_kvstore_validate_key] decides whether the key stored at
    [key_addr] is the caller's key: success if the two are equal,
    item-not-found otherwise (also when the lengths differ). *)
Theorem validate_key_decides {D : Type} (bd : mtb_kvstore_bd_t D) (peek : D → Z → Z)
    d obj key_addr user_key K :
  reliable_flash bd peek →
  strlen K ≤ transaction_buffer_size obj →
  strlen (transaction_buffer obj) = transaction_buffer_size obj →
  0 ≤ key_addr → key_addr + strlen K < 2 ^ 32 → strlen user_key < 2 ^ 32 →
  bytes_at (peek d) key_addr (strlen K) = K →
  ∃ obj',
    _mtb_kvstore_validate_key bd d obj key_addr user_key (strlen K)
    = Some (if decide (user_key = K) then CY_RSLT_SUCCESS
            else MTB_KVSTORE_ITEM_NOT_FOUND_ERROR, obj')
    ∧ obj_rel obj' obj.
Proof.
  intros Hrf Htbs Hlen Haddr Hend Hkey HK.
  destruct (validate_key_ok bd peek Hrf d obj key_addr user_key K)
    as (obj' & Hrun & Hrel & _); try done.
  by exists obj'.
Qed.

(** The key of the area record of the fresh store, at address 20, against
    a key of the same length. *)
Lemma validate_key_decides_witness :
  ∃ obj',
    _mtb_kvstore_validate_key demo_bd demo_fresh.1 demo_fresh.2 20
      (replicate 10 107) (strlen _mtb_kvstore_area_rec_key)
    = Some (if decide (replicate 10 107 = _mtb_kvstore_area_rec_key)
            then CY_RSLT_SUCCESS else MTB_KVSTORE_ITEM_NOT_FOUND_ERROR, obj')
    ∧ obj_rel obj' demo_fresh.2.
Proof.
  apply (validate_key_decides demo_bd cells demo_fresh.1 demo_fresh.2 20
           (replicate 10 107) _mtb_kvstore_area_rec_key).
  - apply sim_reliable.
  - vm_compute. discriminate.
  - vm_compute. reflexivity.
  - lia.
  - vm_compute. reflexivity.
  - vm_compute. reflexivity.
  - vm_compute. reflexivity.
Defined.

(** X6.  A record that [_mtb_kvstore_write_record] writes with success is
    on the medium as header, key and data, one after the other from
    [area_address + offset], the header as
    [_mtb_kvstore_setup_record_header] builds it with a CRC that matches
    the record; and the medium is unchanged outside the padded size of
    the record. *)
Theorem write_record_layout {D : Type} (bd : mtb_kvstore_bd_t D) (peek : D → Z → Z)
    d obj area off key data dsize op rti si p d' obj' :
  reliable_flash bd peek → buffer_ok bd p obj →
  0 < strlen key < MTB_KVSTORE_MAX_KEY_SIZE → 0 ≤ dsize → 0 ≤ area → 0 ≤ off →
  area + off + sizeof_record_header + strlen key + dsize + p < 2 ^ 32 →
  _mtb_kvstore_write_record bd d obj area off key data dsize op rti si
  = Some (CY_RSLT_SUCCESS, d', obj') →
  record_at (peek d') (area + off)
    (_mtb_kvstore_setup_record_header key data dsize _MTB_KVSTORE_FORMAT_VERSION op)
    key (payload data dsize)
  ∧ crc_ok (_mtb_kvstore_setup_record_header key data dsize _MTB_KVSTORE_FORMAT_VERSION op)
      key (payload data dsize)
  ∧ ∀ x, ¬ (area + off ≤ x
            < area + off + _mtb_kvstore_get_record_size bd (area + off) (strlen key) dsize) →
         peek d' x = peek d x.
Proof.
  intros Hrf Hbuf Hkey Hsize Harea Hoff Htop Hrun.
  destruct (write_record_ok bd peek Hrf d obj area off key data dsize op rti si p d' obj'
              Hbuf Hkey Hsize Harea Hoff Htop Hrun) as (Hrec & Hcrc & Hframe & _).
  done.
Qed.

(** The record of "k" with two bytes written behind the area record of
    the fresh store. *)
Lemma write_record_layout_witness :
  let rti := {| ram_tbl_idx := 0; entry := {| hash := key_hash [107]; offset := 40 |} |} in
  let si := {| old_record_size := 0; new_record_size := 24 |} in
  let h := _mtb_kvstore_setup_record_header [107] (Some [1; 1]) 2
             _MTB_KVSTORE_FORMAT_VERSION _MTB_KVSTORE_OPER_ADD in
  ∃ d' obj',
    _mtb_kvstore_write_record demo_bd demo_fresh.1 demo_fresh.2 0 40 [107] (Some [1; 1]) 2
      _MTB_KVSTORE_OPER_ADD (Some rti) (Some si) = Some (CY_RSLT_SUCCESS, d', obj')
    ∧ record_at (cells d') (0 + 40) h [107] (payload (Some [1; 1]) 2)
    ∧ crc_ok h [107] (payload (Some [1; 1]) 2)
    ∧ ∀ x, ¬ (0 + 40 ≤ x < 0 + 40 + _mtb_kvstore_get_record_size demo_bd (0 + 40)
                                     (strlen [107]) 2) →
           cells d' x = cells demo_fresh.1 x.
Proof.
  intros rti si h.
  destruct (run_success
              (_mtb_kvstore_write_record demo_bd demo_fresh.1 demo_fresh.2 0 40 [107]
                 (Some [1; 1]) 2 _MTB_KVSTORE_OPER_ADD (Some rti) (Some si)))
    as (d' & obj' & Hrun); [vm_compute; reflexivity|].
  exists d', obj'. split; [exact Hrun|].
  apply (write_record_layout demo_bd cells demo_fresh.1 demo_fresh.2 0 40 [107]
           (Some [1; 1]) 2 _MTB_KVSTORE_OPER_ADD (Some rti) (Some si) 8 d' obj').
  - apply sim_reliable.
  - apply demo_fresh_ok.
  - vm_compute. split; reflexivity.
  - lia.
  - lia.
  - lia.
  - vm_compute. reflexivity.
  - exact Hrun.
Defined.

(** X7.  [_mtb_kvstore_read_record] on an intact record with the key [K]
    and the data [Dat]: a buffer smaller than the data gives invalid-data
    with the size of the data in [*data_size]; otherwise a key other than
    [K] gives item-not-found; otherwise the data is copied to the start of
    the buffer, if there is one, and [*data_size] is the size of the
    data. *)
Theorem read_record_intact {D : Type} (bd : mtb_kvstore_bd_t D) (peek : D → Z → Z)
    d obj area off h K Dat key data dsz :
  reliable_flash bd peek →
  MTB_KVSTORE_MAX_KEY_SIZE ≤ transaction_buffer_size obj →
  strlen (transaction_buffer obj) = transaction_buffer_size obj →
  0 ≤ area → 0 ≤ off →
  record_at (peek d) (area + off) h K Dat → crc_ok h K Dat →
  strlen key < 2 ^ 32 →
  ∃ obj',
    _mtb_kvstore_read_record bd d obj area off (Some key) true data dsz
    = Some {| rr_result :=
                if too_small data dsz (strlen Dat) then MTB_KVSTORE_INVALID_DATA_ERROR
                else if decide (key = K) then CY_RSLT_SUCCESS
                else MTB_KVSTORE_ITEM_NOT_FOUND_ERROR;
              rr_obj := obj'; rr_header := h; rr_key := Some key;
              rr_data :=
                match data, dsz with
                | Some buf, Some _ =>
                    if too_small data dsz (strlen Dat) then data
                    else if decide (key = K) then Some (Dat ++ drop (length Dat) buf)
                    else data
                | _, _ => data
                end;
              rr_data_size :=
                if too_small data dsz (strlen Dat) then Some (strlen Dat)
                else if decide (key = K)
                then match dsz with Some _ => Some (strlen Dat) | None => None end
                else dsz |}
    ∧ obj_rel obj' obj.
Proof.
  intros Hrf Htbs Hlen Harea Hoff Hrec Hcrc Hkey.
  destruct (read_record_at bd peek Hrf d obj area off h K Dat key data dsz)
    as (obj' & Hrun & Hrel & _); try done.
  exists obj'. split; [|done]. rewrite Hrun. unfold read_outcome.
  destruct (too_small data dsz (strlen Dat)), (decide (key = K)), data, dsz; done.
Qed.

(** The area record of the fresh store read with its own key into a
    buffer of five bytes. *)
Lemma read_record_intact_witness :
  let K := _mtb_kvstore_area_rec_key in
  let Dat := [1; 0; 0; 0] in
  let data := Some [9; 9; 9; 9; 9] in
  let dsz := Some 5 in
  ∃ obj',
    _mtb_kvstore_read_record demo_bd demo_fresh.1 demo_fresh.2 0 0 (Some K) true data dsz
    = Some {| rr_result :=
                if too_small data dsz (strlen Dat) then MTB_KVSTORE_INVALID_DATA_ERROR
                else if decide (K = K) then CY_RSLT_SUCCESS
                else MTB_KVSTORE_ITEM_NOT_FOUND_ERROR;
              rr_obj := obj';
              rr_header := _mtb_kvstore_setup_record_header K (Some Dat) 4
                             _MTB_KVSTORE_FORMAT_VERSION _MTB_KVSTORE_OPER_ADD;
              rr_key := Some K;
              rr_data :=
                match data, dsz with
                | Some buf, Some _ =>
                    if too_small data dsz (strlen Dat) then data
                    else if decide (K = K) then Some (Dat ++ drop (length Dat) buf)
                    else data
                | _, _ => data
                end;
              rr_data_size :=
                if too_small data dsz (strlen Dat) then Some (strlen Dat)
                else if decide (K = K)
                then match dsz with Some _ => Some (strlen Dat) | None => None end
                else dsz |}
    ∧ obj_rel obj' demo_fresh.2.
Proof.
  intros K Dat data dsz.
  apply (read_record_intact demo_bd cells demo_fresh.1 demo_fresh.2 0 0 _ K Dat K data dsz).
  - apply sim_reliable.
  - vm_compute. discriminate.
  - vm_compute. reflexivity.
  - lia.
  - lia.
  - apply demo_fresh_anchor.
  - apply demo_fresh_anchor.
  - vm_compute. reflexivity.
Defined.

(** X8.  Round trip of a record: what [_mtb_kvstore_write_record] wrote
    with success, [_mtb_kvstore_read_record] reads back from the same
    place with the same key into a buffer that is large enough: success,
    the data at the start of the buffer and its size in [*data_size]. *)
Theorem record_round_trip {D : Type} (bd : mtb_kvstore_bd_t D) (peek : D → Z → Z)
    d obj area off key dat op rti si p d' obj' buf sz :
  reliable_flash bd peek → buffer_ok bd p obj →
  0 < strlen key < MTB_KVSTORE_MAX_KEY_SIZE → 0 ≤ area → 0 ≤ off →
  area + off + sizeof_record_header + strlen key + strlen dat + p < 2 ^ 32 →
  strlen dat ≤ sz →
  _mtb_kvstore_write_record bd d obj area off key (Some dat) (strlen dat) op rti si
  = Some (CY_RSLT_SUCCESS, d', obj') →
  ∃ obj'',
    _mtb_kvstore_read_record bd d' obj' area off (Some key) true (Some buf) (Some sz)
    = Some {| rr_result := CY_RSLT_SUCCESS; rr_obj := obj'';
              rr_header := _mtb_kvstore_setup_record_header key (Some dat) (strlen dat)
                             _MTB_KVSTORE_FORMAT_VERSION op;
              rr_key := Some key;
              rr_data := Some (dat ++ drop (length dat) buf);
              rr_data_size := Some (strlen dat) |}
    ∧ obj_rel obj'' obj'.
Proof.
  intros Hrf Hbuf Hkey Harea Hoff Htop Hsz Hrun.
  pose proof (strlen_nonneg dat) as Hd0.
  destruct (write_record_ok bd peek Hrf d obj area off key (Some dat) (strlen dat) op rti si
              p d' obj' Hbuf Hkey Hd0 Harea Hoff Htop Hrun)
    as (Hrec & Hcrc & _ & Hlen & o & Hpost & Hrel).
  rewrite payload_all in Hrec, Hcrc.
  pose proof (obj_rel_fields _ _ Hrel) as (_ & _ & _ & _ & Htbs & _).
  rewrite (write_record_post_tbs _ _ _ _ _ _ Hpost) in Htbs.
  pose proof Hbuf as [_ _ [Hmin _] _ _].
  assert (MTB_KVSTORE_MAX_KEY_SIZE = 64) as Hmax by done.
  destruct (read_record_at bd peek Hrf d' obj' area off
              (_mtb_kvstore_setup_record_header key (Some dat) (strlen dat)
                 _MTB_KVSTORE_FORMAT_VERSION op)
              key dat key (Some buf) (Some sz))
    as (obj'' & Hread & Hrel' & _); try done; try lia.
  exists obj''. split; [|done]. rewrite Hread. unfold read_outcome, too_small.
  rewrite (proj2 (Z.ltb_ge sz (strlen dat)) Hsz), decide_True by done. done.
Qed.

(** The record of "k" written behind the area record of the fresh store
    and read back into a buffer of three bytes. *)
Lemma record_round_trip_witness :
  let rti := {| ram_tbl_idx := 0; entry := {| hash := key_hash [107]; offset := 40 |} |} in
  let si := {| old_record_size := 0; new_record_size := 24 |} in
  ∃ d' obj' obj'',
    _mtb_kvstore_write_record demo_bd demo_fresh.1 demo_fresh.2 0 40 [107] (Some [1; 1])
      (strlen [1; 1]) _MTB_KVSTORE_OPER_ADD (Some rti) (Some si)
    = Some (CY_RSLT_SUCCESS, d', obj')
    ∧ _mtb_kvstore_read_record demo_bd d' obj' 0 40 (Some [107]) true (Some [9; 9; 9])
        (Some 3)
      = Some {| rr_result := CY_RSLT_SUCCESS; rr_obj := obj'';
                rr_header := _mtb_kvstore_setup_record_header [107] (Some [1; 1])
                               (strlen [1; 1]) _MTB_KVSTORE_FORMAT_VERSION
                               _MTB_KVSTORE_OPER_ADD;
                rr_key := Some [107];
                rr_data := Some ([1; 1] ++ drop (length [1; 1]) [9; 9; 9]);
                rr_data_size := Some (strlen [1; 1]) |}
    ∧ obj_rel obj'' obj'.
Proof.
  intros rti si.
  destruct (run_success
              (_mtb_kvstore_write_record demo_bd demo_fresh.1 demo_fresh.2 0 40 [107]
                 (Some [1; 1]) (strlen [1; 1]) _MTB_KVSTORE_OPER_ADD (Some rti) (Some si)))
    as (d' & obj' & Hrun); [vm_compute; reflexivity|].
  destruct (record_round_trip demo_bd cells demo_fresh.1 demo_fresh.2 0 40 [107] [1; 1]
              _MTB_KVSTORE_OPER_ADD (Some rti) (Some si) 8 d' obj' [9; 9; 9] 3)
    as (obj'' & Hread & Hrel).
  - apply sim_reliable.
  - apply demo_fresh_ok.
  - vm_compute. split; reflexivity.
  - lia.
  - lia.
  - vm_compute. reflexivity.
  - vm_compute. discriminate.
  - exact Hrun.
  - exists d', obj', obj''. split; [exact Hrun|]. split; [exact Hread|exact Hrel].
Defined.

(** X9.  [_mtb_kvstore_copy_record] copies the record at
    [src_area_addr + src_offset] byte for byte, padding included, to
    [dst_area_addr + dst_offset], returns the offset behind the copy,
    which is within the area, and changes nothing else on the medium. *)
Theorem copy_record_copies {D : Type} (bd : mtb_kvstore_bd_t D) (peek : D → Z → Z)
    d obj p src src_off dst dst_off h K Dat d' obj' next :
  reliable_flash bd peek → buffer_ok bd p obj →
  record_at (peek d) (src + src_off) h K Dat →
  sizeof_record_header + strlen K + strlen Dat + p ≤ 2 ^ 32 →
  0 ≤ src → 0 ≤ src_off → src + src_off + rec_size p (K, Dat) < 2 ^ 32 →
  0 ≤ dst → 0 ≤ dst_off ≤ _MTB_KVSTORE_AREA_SIZE obj →
  dst + _MTB_KVSTORE_AREA_SIZE obj < 2 ^ 32 →
  dst_off + rec_size p (K, Dat) < 2 ^ 32 →
  src + src_off + rec_size p (K, Dat) ≤ dst
  ∨ dst + _MTB_KVSTORE_AREA_SIZE obj ≤ src + src_off →
  _mtb_kvstore_copy_record bd d obj src src_off dst dst_off
  = Some (CY_RSLT_SUCCESS, d', obj', next) →
  next = dst_off + rec_size p (K, Dat)
  ∧ next ≤ _MTB_KVSTORE_AREA_SIZE obj
  ∧ bytes_at (peek d') (dst + dst_off) (rec_size p (K, Dat))
    = bytes_at (peek d) (src + src_off) (rec_size p (K, Dat))
  ∧ record_at (peek d') (dst + dst_off) h K Dat
  ∧ (∀ x, ¬ (dst + dst_off ≤ x < dst + dst_off + rec_size p (K, Dat)) →
       peek d' x = peek d x)
  ∧ obj_rel obj' obj.
Proof.
  intros Hrf Hbuf Hrec Hbound Hsrc Hsoff Hsend Hdst Hdoff Hdarea Hdend Hdisj Hrun.
  pose proof Hbuf as [Hp Hp0 [Hmin _] _ Hlen].
  assert (MTB_KVSTORE_MAX_KEY_SIZE = 64) as Hmax by done.
  destruct (copy_record_ok bd peek Hrf d obj p src src_off dst dst_off h K Dat d' obj' next)
    as (Hnext & Harea & Hcopy & Hframe & Hrel & _); try done; try lia.
  destruct (rec_size_bounds p (K, Dat) Hp0 Hbound) as (Hsz1 & Hsz2 & _).
  cbn [fst snd] in Hsz1, Hsz2.
  split; [done|]. split; [done|]. split; [|split; [|done]].
  - apply bytes_at_shift. intros i Hi. by apply Hcopy.
  - destruct Hrec as [? ? ? ? ? ? ? ? ? [? ?]].
    eapply record_at_shift; [by constructor|lia|lia|].
    intros i Hi. apply Hcopy. lia.
Qed.

(** The area record of the fresh store copied to the start of the spare
    area. *)
Lemma copy_record_copies_witness :
  let K := _mtb_kvstore_area_rec_key in
  let Dat := [1; 0; 0; 0] in
  let h := _mtb_kvstore_setup_record_header K (Some Dat) 4 _MTB_KVSTORE_FORMAT_VERSION
             _MTB_KVSTORE_OPER_ADD in
  ∃ d' obj' next,
    _mtb_kvstore_copy_record demo_bd demo_fresh.1 demo_fresh.2 0 0 128 0
    = Some (CY_RSLT_SUCCESS, d', obj', next)
    ∧ next = 0 + rec_size 8 (K, Dat)
    ∧ next ≤ _MTB_KVSTORE_AREA_SIZE demo_fresh.2
    ∧ bytes_at (cells d') (128 + 0) (rec_size 8 (K, Dat))
      = bytes_at (cells demo_fresh.1) (0 + 0) (rec_size 8 (K, Dat))
    ∧ record_at (cells d') (128 + 0) h K Dat
    ∧ (∀ x, ¬ (128 + 0 ≤ x < 128 + 0 + rec_size 8 (K, Dat)) →
         cells d' x = cells demo_fresh.1 x)
    ∧ obj_rel obj' demo_fresh.2.
Proof.
  intros K Dat h.
  destruct (run_result (λ '(r, _, _, _), r)
              (_mtb_kvstore_copy_record demo_bd demo_fresh.1 demo_fresh.2 0 0 128 0))
    as ([[[r d'] obj'] next] & Hrun & Hr); [vm_compute; reflexivity|].
  cbn beta iota in Hr. rewrite Hr in Hrun. clear Hr r.
  exists d', obj', next. split; [exact Hrun|].
  apply (copy_record_copies demo_bd cells demo_fresh.1 demo_fresh.2 8 0 0 128 0 h K Dat
           d' obj' next).
  - apply sim_reliable.
  - apply demo_fresh_ok.
  - apply demo_fresh_anchor.
  - vm_compute. discriminate.
  - lia.
  - lia.
  - vm_compute. reflexivity.
  - lia.
  - vm_compute. split; discriminate.
  - vm_compute. reflexivity.
  - vm_compute. reflexivity.
  - left. vm_compute. discriminate.
  - exact Hrun.
Defined.

(** X10.  [_mtb_kvstore_erase_area] erases within the area only: after a
    successful call every byte outside
    [area_address, area_address + area size) is as before, whether the
    area is one sector or several. *)
Theorem erase_area_confined {D : Type} (bd : mtb_kvstore_bd_t D) (peek : D → Z → Z)
    d obj area_address d' :
  reliable_flash bd peek →
  0 ≤ area_address → area_address + _MTB_KVSTORE_AREA_SIZE obj < 2 ^ 32 →
  0 < bd_erase_size bd area_address ≤ _MTB_KVSTORE_AREA_SIZE obj →
  _mtb_kvstore_erase_area bd d obj area_address = (CY_RSLT_SUCCESS, d') →
  ∀ x, ¬ (area_address ≤ x < area_address + _MTB_KVSTORE_AREA_SIZE obj) →
       peek d' x = peek d x.
Proof. intros Hrf. by apply erase_area_ok. Qed.

(** The active area of the store of three keys erased on a device with
    sectors of 32 bytes: two erase calls. *)
Lemma erase_area_confined_witness :
  (_mtb_kvstore_erase_area (sim_bd 1 8 32) demo_store.1 demo_store.2 0).1 = CY_RSLT_SUCCESS
  ∧ ∀ x, ¬ (0 ≤ x < 0 + _MTB_KVSTORE_AREA_SIZE demo_store.2) →
         cells (_mtb_kvstore_erase_area (sim_bd 1 8 32) demo_store.1 demo_store.2 0).2 x
         = cells demo_store.1 x.
Proof.
  split; [vm_compute; reflexivity|].
  apply (erase_area_confined (sim_bd 1 8 32) cells demo_store.1 demo_store.2 0).
  - apply sim_reliable.
  - lia.
  - vm_compute. reflexivity.
  - vm_compute. split; [reflexivity|discriminate].
  - apply surjective_pairing_success. vm_compute. reflexivity.
Defined.

(** ** The store under its invariant *)

(** X11.  The lookup in the RAM table of a store that satisfies the
    invariant: a key that is stored is found at the index of its entry,
    with the size of its data if the caller asks for it; for a key that
    is not stored the lookup returns item-not-found and the position
    where the key belongs in the table, behind the entries of hash at
    least its own. *)
Theorem lookup_in_store {D : Type} (bd : mtb_kvstore_bd_t D) (peek : D → Z → Z)
    p d obj m key dsz :
  reliable_flash bd peek → store_ok bd p (peek d) obj m → strlen key < 2 ^ 32 →
  (∀ (i : nat) dat, m !! i = Some (key, dat) →
     (λ '(r, _, idx, h, s), (r, idx, h, s))
     <$> _mtb_kvstore_find_record_in_ram_table bd d obj key dsz
     = Some (CY_RSLT_SUCCESS, Z.of_nat i, key_hash key,
             match dsz with Some _ => Some (strlen dat) | None => None end))
  ∧ (key ∉ m.*1 →
     ∃ n : nat,
       (λ '(r, _, idx, h, s), (r, idx, h, s))
       <$> _mtb_kvstore_find_record_in_ram_table bd d obj key dsz
       = Some (MTB_KVSTORE_ITEM_NOT_FOUND_ERROR, Z.of_nat n, key_hash key, dsz)
       ∧ (n ≤ length (ram_table obj))%nat
       ∧ ∀ (i : nat) e, ram_table obj !! i = Some e →
                        ((i < n)%nat ↔ key_hash key ≤ hash e)).
Proof.
  intros Hrf Hok Hkey.
  pose proof (store_hashes bd p _ obj m Hok) as Hhashes.
  pose proof Hok as [_ _ Hsorted Hkeys _ _].
  destruct (store_find bd peek Hrf p d obj m key dsz Hok Hkey) as (o1 & Hrun & _).
  rewrite Hrun. cbn [fmap option_fmap option_map]. split.
  - intros i dat Hi.
    by rewrite (find_spec_present key _ m Hhashes Hsorted Hkeys i dat 0 dsz Hi), Z.add_0_l.
  - intros Hnotin.
    destruct (find_spec_absent key _ m Hhashes Hsorted Hnotin 0 dsz) as (n & Hspec & Hn & Hpos).
    exists n. rewrite Hspec, Z.add_0_l. done.
Qed.

(** "l" is the second entry of the store of three keys. *)
Lemma lookup_in_store_witness :
  (λ '(r, _, idx, h, s), (r, idx, h, s))
  <$> _mtb_kvstore_find_record_in_ram_table demo_bd demo_store.1 demo_store.2 [108] (Some 0)
  = Some (CY_RSLT_SUCCESS, Z.of_nat 1, key_hash [108], Some (strlen [5; 5])).
Proof.
  apply (lookup_in_store demo_bd cells 8 demo_store.1 demo_store.2
           [([109], [6; 6]); ([108], [5; 5]); ([107], [1; 1])] [108] (Some 0)).
  - apply sim_reliable.
  - apply demo_store_contents.
  - vm_compute. reflexivity.
  - reflexivity.
Defined.

(** X12.  A garbage collection without a pending operation keeps the
    contents of the store: after it has succeeded the invariant holds
    with the same keys and data, the two areas have changed roles, the
    new active area is compact ([free_space_offset] equals
    [consumed_size], which has not changed), and the bytes outside the
    former spare area, those of the former active area among them, are
    untouched. *)
Theorem collection_keeps_contents {D : Type} (bd : mtb_kvstore_bd_t D) (peek : D → Z → Z)
    p d obj m d' obj' :
  reliable_flash bd peek → store_ok bd p (peek d) obj m →
  _mtb_kvstore_garbage_collection bd d obj None = Some (CY_RSLT_SUCCESS, d', obj') →
  store_ok bd p (peek d') obj' m
  ∧ active_area_addr obj' = gc_area_addr obj ∧ gc_area_addr obj' = active_area_addr obj
  ∧ free_space_offset obj' = consumed_size obj'
  ∧ consumed_size obj' = consumed_size obj
  ∧ ∀ x, ¬ (gc_area_addr obj ≤ x < gc_area_addr obj + _MTB_KVSTORE_AREA_SIZE obj) →
         peek d' x = peek d x.
Proof.
  intros Hrf Hok Hrun.
  pose proof (store_bounds bd p _ obj m Hok) as (Hlen & _ & _).
  pose proof Hok as [Hgeo Hents Hsorted Hkeys Hcons Hfree].
  destruct (garbage_collection_ok bd peek Hrf p d obj m None (free_space_offset obj) d' obj'
              Hgeo Hents ltac:(lia) Hsorted Hlen I Hrun)
    as (Hgeo' & Hact & Hgc & Harea & Hents' & Hsorted' & Hfso & Hfit & Hcons' & Hframe).
  cbn [gc_contents] in Hents', Hfso.
  split; [|repeat split; try done; lia].
  constructor; try done; rewrite ?Harea; lia.
Qed.

(** The collection of the store of three keys. *)
Lemma collection_keeps_contents_witness :
  let m := [([109], [6; 6]); ([108], [5; 5]); ([107], [1; 1])] in
  ∃ d' obj',
    _mtb_kvstore_garbage_collection demo_bd demo_store.1 demo_store.2 None
    = Some (CY_RSLT_SUCCESS, d', obj')
    ∧ store_ok demo_bd 8 (cells d') obj' m
    ∧ active_area_addr obj' = gc_area_addr demo_store.2
    ∧ gc_area_addr obj' = active_area_addr demo_store.2
    ∧ free_space_offset obj' = consumed_size obj'
    ∧ consumed_size obj' = consumed_size demo_store.2
    ∧ ∀ x, ¬ (gc_area_addr demo_store.2 ≤ x
              < gc_area_addr demo_store.2 + _MTB_KVSTORE_AREA_SIZE demo_store.2) →
           cells d' x = cells demo_store.1 x.
Proof.
  intros m.
  destruct (run_success
              (_mtb_kvstore_garbage_collection demo_bd demo_store.1 demo_store.2 None))
    as (d' & obj' & Hrun); [vm_compute; reflexivity|].
  exists d', obj'. split; [exact Hrun|].
  apply (collection_keeps_contents demo_bd cells 8 demo_store.1 demo_store.2 m d' obj').
  - apply sim_reliable.
  - apply demo_store_contents.
  - exact Hrun.
Defined.

(** ** The public functions *)

(** X13.  A successful [mtb_kvstore_write] on a store that satisfies the
    invariant leaves a store that satisfies it, in which the key has the
    data written and every other key is stored with its data exactly if
    it was before, whether the record was appended or a garbage
    collection was needed. *)
Theorem write_sets_key {D : Type} (bd : mtb_kvstore_bd_t D) (peek : D → Z → Z)
    (heap_alloc : Z → bool) p d obj m key data size d' obj' :
  reliable_flash bd peek → store_ok bd p (peek d) obj m → payload_ok data size →
  sizeof_record_header + strlen key + size ≤ _MTB_KVSTORE_AREA_SIZE obj →
  mtb_kvstore_write bd heap_alloc d obj (Some key) data size
  = Some (CY_RSLT_SUCCESS, d', obj') →
  ∃ m', store_ok bd p (peek d') obj' m'
        ∧ (key, payload data size) ∈ m'
        ∧ ∀ K Dat, K ≠ key → ((K, Dat) ∈ m' ↔ (K, Dat) ∈ m).
Proof.
  intros Hrf Hok Hpay Hfits Hrun.
  destruct (write_ok bd peek Hrf heap_alloc p d obj m key data size d' obj' Hok Hpay Hfits
              Hrun) as (m' & Hok' & Hin & Hothers).
  by exists m'.
Qed.

(** An update of "l" in the store of three keys with four bytes: the
    record does not fit behind the others and the store is collected. *)
Lemma write_sets_key_witness :
  let m := [([109], [6; 6]); ([108], [5; 5]); ([107], [1; 1])] in
  let data := Some (replicate 4 7) in
  ∃ d' obj' m',
    mtb_kvstore_write demo_bd alloc_ok demo_store.1 demo_store.2 (Some [108]) data 4
    = Some (CY_RSLT_SUCCESS, d', obj')
    ∧ store_ok demo_bd 8 (cells d') obj' m'
    ∧ ([108], payload data 4) ∈ m'
    ∧ ∀ K Dat, K ≠ [108] → ((K, Dat) ∈ m' ↔ (K, Dat) ∈ m).
Proof.
  intros m data.
  destruct (run_success
              (mtb_kvstore_write demo_bd alloc_ok demo_store.1 demo_store.2 (Some [108])
                 data 4))
    as (d' & obj' & Hrun); [vm_compute; reflexivity|].
  destruct (write_sets_key demo_bd cells alloc_ok 8 demo_store.1 demo_store.2 m [108] data 4
              d' obj') as (m' & Hok' & Hin & Hothers).
  - apply sim_reliable.
  - apply demo_store_contents.
  - split; [lia|]. vm_compute. discriminate.
  - vm_compute. discriminate.
  - exact Hrun.
  - exists d', obj', m'. split; [exact Hrun|]. split; [exact Hok'|].
    split; [exact Hin|exact Hothers].
Defined.

(** X14.  Write, then read: after a successful [mtb_kvstore_write] of
    [size] bytes under a key, [mtb_kvstore_read] of that key with a
    buffer of at least [size] bytes ([*size] not 0) succeeds, returns the
    bytes written at the start of the buffer and sets [*size] to
    [size]. *)
Theorem write_then_read {D : Type} (bd : mtb_kvstore_bd_t D) (peek : D → Z → Z)
    (heap_alloc : Z → bool) p d obj m key data size d' obj' buf sz :
  reliable_flash bd peek → store_ok bd p (peek d) obj m → payload_ok data size →
  sizeof_record_header + strlen key + size ≤ _MTB_KVSTORE_AREA_SIZE obj →
  mtb_kvstore_write bd heap_alloc d obj (Some key) data size
  = Some (CY_RSLT_SUCCESS, d', obj') →
  size ≤ sz → sz ≠ 0 →
  ∃ obj'',
    mtb_kvstore_read bd d' obj' (Some key) (Some buf) (Some sz)
    = Some (CY_RSLT_SUCCESS, obj'',
            Some (payload data size ++ drop (Z.to_nat size) buf), Some size)
    ∧ obj_rel obj'' obj'.
Proof.
  intros Hrf Hok Hpay Hfits Hrun Hsz Hnz.
  destruct (write_ok bd peek Hrf heap_alloc p d obj m key data size d' obj' Hok Hpay Hfits
              Hrun) as (m' & Hok' & Hin & _).
  pose proof (payload_ok_length data size Hpay) as Hlen.
  destruct (read_present bd peek Hrf p d' obj' m' key (payload data size) (Some buf) (Some sz)
              Hok' Hin) as (obj'' & Hread & Hrel & _).
  { right. by exists sz. }
  exists obj''. split; [|done]. rewrite Hread. unfold read_outcome, too_small.
  rewrite Hlen, (proj2 (Z.ltb_ge sz size) Hsz), decide_True by done.
  cbn [fst snd]. replace (length (payload data size)) with (Z.to_nat size); [done|].
  unfold strlen in Hlen. lia.
Qed.

(** Four bytes written under "l" in the store of three keys, which takes
    a garbage collection, and read back into a buffer of six bytes. *)
Lemma write_then_read_witness :
  ∃ d' obj' obj'',
    mtb_kvstore_write demo_bd alloc_ok demo_store.1 demo_store.2 (Some [108])
      (Some [3; 4; 5; 6]) 4
    = Some (CY_RSLT_SUCCESS, d', obj')
    ∧ mtb_kvstore_read demo_bd d' obj' (Some [108]) (Some [9; 9; 9; 9; 9; 9]) (Some 6)
      = Some (CY_RSLT_SUCCESS, obj'',
              Some (payload (Some [3; 4; 5; 6]) 4 ++ drop (Z.to_nat 4) [9; 9; 9; 9; 9; 9]),
              Some 4)
    ∧ obj_rel obj'' obj'.
Proof.
  destruct (run_success
              (mtb_kvstore_write demo_bd alloc_ok demo_store.1 demo_store.2 (Some [108])
                 (Some [3; 4; 5; 6]) 4))
    as (d' & obj' & Hrun); [vm_compute; reflexivity|].
  destruct (write_then_read demo_bd cells alloc_ok 8 demo_store.1 demo_store.2
              [([109], [6; 6]); ([108], [5; 5]); ([107], [1; 1])] [108]
              (Some [3; 4; 5; 6]) 4 d' obj' [9; 9; 9; 9; 9; 9] 6) as (obj'' & Hread & Hrel).
  - apply sim_reliable.
  - apply demo_store_contents.
  - split; [lia|]. vm_compute. discriminate.
  - vm_compute. discriminate.
  - exact Hrun.
  - lia.
  - lia.
  - exists d', obj', obj''. split; [exact Hrun|]. split; [exact Hread|exact Hrel].
Defined.

(** X15.  A successful [mtb_kvstore_write] of one key does not change what
    [mtb_kvstore_read] returns for another: a key that was stored is read
    with the data it had, a key that was not stored is still not
    found. *)
Theorem write_keeps_other_keys {D : Type} (bd : mtb_kvstore_bd_t D) (peek : D → Z → Z)
    (heap_alloc : Z → bool) p d obj m key data size d' obj' K buf sz :
  reliable_flash bd peek → store_ok bd p (peek d) obj m → payload_ok data size →
  sizeof_record_header + strlen key + size ≤ _MTB_KVSTORE_AREA_SIZE obj →
  mtb_kvstore_write bd heap_alloc d obj (Some key) data size
  = Some (CY_RSLT_SUCCESS, d', obj') →
  K ≠ key → 0 < strlen K < MTB_KVSTORE_MAX_KEY_SIZE → sz ≠ 0 →
  (∀ Dat, (K, Dat) ∈ m → strlen Dat ≤ sz →
     ∃ obj'',
       mtb_kvstore_read bd d' obj' (Some K) (Some buf) (Some sz)
       = Some (CY_RSLT_SUCCESS, obj'', Some (Dat ++ drop (length Dat) buf),
               Some (strlen Dat)))
  ∧ (K ∉ m.*1 →
     ∃ obj'',
       mtb_kvstore_read bd d' obj' (Some K) (Some buf) (Some sz)
       = Some (MTB_KVSTORE_ITEM_NOT_FOUND_ERROR, obj'', Some buf, Some sz)).
Proof.
  intros Hrf Hok Hpay Hfits Hrun Hne HK Hnz.
  destruct (write_ok bd peek Hrf heap_alloc p d obj m key data size d' obj' Hok Hpay Hfits
              Hrun) as (m' & Hok' & _ & Hothers).
  split.
  - intros Dat Hin Hsz. apply (Hothers K Dat Hne) in Hin.
    destruct (read_present bd peek Hrf p d' obj' m' K Dat (Some buf) (Some sz) Hok' Hin)
      as (obj'' & Hread & _).
    { right. by exists sz. }
    exists obj''. rewrite Hread. unfold read_outcome, too_small.
    by rewrite (proj2 (Z.ltb_ge sz (strlen Dat)) Hsz), decide_True.
  - intros Hnotin.
    destruct (read_absent bd peek Hrf p d' obj' m' K (Some buf) (Some sz) Hok')
      as (obj'' & Hread & _); [|done| |by exists obj''].
    + intros ([K' Dat] & HK' & Hin)%list_elem_of_fmap. cbn in HK'. subst K'.
      apply (Hothers K Dat Hne) in Hin. apply Hnotin, list_elem_of_fmap.
      by exists (K, Dat).
    + right. by exists sz.
Qed.

(** After "l" is updated in the store of three keys, "k" is read with its
    two bytes. *)
Lemma write_keeps_other_keys_witness :
  ∃ d' obj' obj'',
    mtb_kvstore_write demo_bd alloc_ok demo_store.1 demo_store.2 (Some [108])
      (Some [3; 4; 5; 6]) 4
    = Some (CY_RSLT_SUCCESS, d', obj')
    ∧ mtb_kvstore_read demo_bd d' obj' (Some [107]) (Some [9; 9; 9; 9]) (Some 4)
      = Some (CY_RSLT_SUCCESS, obj'', Some ([1; 1] ++ drop (length [1; 1]) [9; 9; 9; 9]),
              Some (strlen [1; 1])).
Proof.
  destruct (run_success
              (mtb_kvstore_write demo_bd alloc_ok demo_store.1 demo_store.2 (Some [108])
                 (Some [3; 4; 5; 6]) 4))
    as (d' & obj' & Hrun); [vm_compute; reflexivity|].
  destruct (write_keeps_other_keys demo_bd cells alloc_ok 8 demo_store.1 demo_store.2
              [([109], [6; 6]); ([108], [5; 5]); ([107], [1; 1])] [108]
              (Some [3; 4; 5; 6]) 4 d' obj' [107] [9; 9; 9; 9] 4) as [Hstored _].
  - apply sim_reliable.
  - apply demo_store_contents.
  - split; [lia|]. vm_compute. discriminate.
  - vm_compute. discriminate.
  - exact Hrun.
  - discriminate.
  - vm_compute. split; reflexivity.
  - lia.
  - destruct (Hstored [1; 1]) as (obj'' & Hread).
    + apply list_elem_of_further, list_elem_of_further, list_elem_of_here.
    + vm_compute. discriminate.
    + exists d', obj', obj''. split; [exact Hrun|exact Hread].
Defined.

(** X16.  [mtb_kvstore_read] of a stored key with a buffer: if [*size] is
    less than the size of the data the result is invalid-data, the buffer
    is left as it is and [*size] is set to the size of the data;
    otherwise the data is copied to the start of the buffer, [*size] is
    its size and the result is success.  The store object is unchanged
    but for the transaction buffer. *)
Theorem read_stored_key {D : Type} (bd : mtb_kvstore_bd_t D) (peek : D → Z → Z)
    p d obj m key dat buf sz :
  reliable_flash bd peek → store_ok bd p (peek d) obj m → (key, dat) ∈ m → sz ≠ 0 →
  ∃ obj',
    mtb_kvstore_read bd d obj (Some key) (Some buf) (Some sz)
    = Some (if sz <? strlen dat
            then (MTB_KVSTORE_INVALID_DATA_ERROR, obj', Some buf, Some (strlen dat))
            else (CY_RSLT_SUCCESS, obj', Some (dat ++ drop (length dat) buf),
                  Some (strlen dat)))
    ∧ obj_rel obj' obj.
Proof.
  intros Hrf Hok Hin Hnz.
  destruct (read_present bd peek Hrf p d obj m key dat (Some buf) (Some sz) Hok Hin)
    as (obj' & Hread & Hrel & _).
  { right. by exists sz. }
  exists obj'. split; [|done]. rewrite Hread. unfold read_outcome, too_small.
  destruct (sz <? strlen dat); [done|]. by rewrite decide_True.
Qed.

(** "m" of the store of three keys read into a buffer of one byte. *)
Lemma read_stored_key_witness :
  ∃ obj',
    mtb_kvstore_read demo_bd demo_store.1 demo_store.2 (Some [109]) (Some [9]) (Some 1)
    = Some (if 1 <? strlen [6; 6]
            then (MTB_KVSTORE_INVALID_DATA_ERROR, obj', Some [9], Some (strlen [6; 6]))
            else (CY_RSLT_SUCCESS, obj', Some ([6; 6] ++ drop (length [6; 6]) [9]),
                  Some (strlen [6; 6])))
    ∧ obj_rel obj' demo_store.2.
Proof.
  apply (read_stored_key demo_bd cells 8 demo_store.1 demo_store.2
           [([109], [6; 6]); ([108], [5; 5]); ([107], [1; 1])] [109] [6; 6] [9] 1).
  - apply sim_reliable.
  - apply demo_store_contents.
  - apply list_elem_of_here.
  - lia.
Defined.

(** X17.  [mtb_kvstore_read] of a valid key that is not stored returns
    item-not-found and leaves the buffer and [*size] as they are. *)
Theorem read_missing_key {D : Type} (bd : mtb_kvstore_bd_t D) (peek : D → Z → Z)
    p d obj m key data size :
  reliable_flash bd peek → store_ok bd p (peek d) obj m → key ∉ m.*1 →
  0 < strlen key < MTB_KVSTORE_MAX_KEY_SIZE →
  (data = None ∨ ∃ sz, size = Some sz ∧ sz ≠ 0) →
  ∃ obj',
    mtb_kvstore_read bd d obj (Some key) data size
    = Some (MTB_KVSTORE_ITEM_NOT_FOUND_ERROR, obj', data, size)
    ∧ obj_rel obj' obj.
Proof.
  intros Hrf Hok Hnotin Hkey Hargs.
  destruct (read_absent bd peek Hrf p d obj m key data size Hok Hnotin Hkey Hargs)
    as (obj' & Hread & Hrel & _).
  by exists obj'.
Qed.

(** "n" is not in the store of three keys. *)
Lemma read_missing_key_witness :
  ∃ obj',
    mtb_kvstore_read demo_bd demo_store.1 demo_store.2 (Some [110]) (Some [9; 9]) (Some 2)
    = Some (MTB_KVSTORE_ITEM_NOT_FOUND_ERROR, obj', Some [9; 9], Some 2)
    ∧ obj_rel obj' demo_store.2.
Proof.
  apply (read_missing_key demo_bd cells 8 demo_store.1 demo_store.2
           [([109], [6; 6]); ([108], [5; 5]); ([107], [1; 1])] [110] (Some [9; 9]) (Some 2)).
  - apply sim_reliable.
  - apply demo_store_contents.
  - cbn. intros H. repeat (apply elem_of_cons in H as [H|H]; [discriminate|]).
    by apply elem_of_nil in H.
  - vm_compute. split; reflexivity.
  - right. exists 2. split; [reflexivity|lia].
Defined.

(** X18.  The argument checks of [mtb_kvstore_read]: a key that is empty
    or has 64 characters or more, and a buffer that comes without a size
    or with [*size] 0, give bad-param; the device is not read and the
    object, the buffer and [*size] are as before. *)
Theorem read_bad_arguments {D : Type} (bd : mtb_kvstore_bd_t D) d obj key data size :
  strlen key < 2 ^ 32 →
  strlen key = 0 ∨ MTB_KVSTORE_MAX_KEY_SIZE ≤ strlen key
  ∨ (data ≠ None ∧ (size = None ∨ size = Some 0)) →
  mtb_kvstore_read bd d obj (Some key) data size
  = Some (MTB_KVSTORE_BAD_PARAM_ERROR, obj, data, size).
Proof.
  intros Hlen Hbad. pose proof (strlen_nonneg key) as H0.
  unfold mtb_kvstore_read, _mtb_kvstore_is_valid_key. cbn [mbind option_bind].
  rewrite (u32_small (strlen key)) by lia.
  destruct ((0 <? strlen key) && (strlen key <? MTB_KVSTORE_MAX_KEY_SIZE)) eqn:Hvalid;
    cbn [negb]; [|done].
  apply andb_true_iff in Hvalid as [Hv1 Hv2].
  apply Z.ltb_lt in Hv1, Hv2.
  destruct Hbad as [Hbad|[Hbad|[Hdata Hsize]]]; [lia|lia|].
  rewrite bool_decide_eq_false_2 by done. cbn [negb andb].
  by destruct Hsize as [->| ->].
Qed.

Lemma read_bad_arguments_witness :
  mtb_kvstore_read demo_bd demo_store.1 demo_store.2 (Some [107]) (Some [9; 9]) (Some 0)
  = Some (MTB_KVSTORE_BAD_PARAM_ERROR, demo_store.2, Some [9; 9], Some 0).
Proof.
  apply (read_bad_arguments demo_bd demo_store.1 demo_store.2 [107] (Some [9; 9]) (Some 0)).
  - vm_compute. reflexivity.
  - right. right. split; [discriminate|]. right. reflexivity.
Defined.

(** X19.  A successful [mtb_kvstore_delete] on a store that satisfies the
    invariant leaves a store that satisfies it, without the key, in which
    every other key is stored with its data exactly if it was before. *)
Theorem delete_removes_key {D : Type} (bd : mtb_kvstore_bd_t D) (peek : D → Z → Z)
    (heap_alloc : Z → bool) p d obj m key d' obj' :
  reliable_flash bd peek → store_ok bd p (peek d) obj m → strlen key < 2 ^ 32 →
  mtb_kvstore_delete bd heap_alloc d obj (Some key) = Some (CY_RSLT_SUCCESS, d', obj') →
  ∃ m', store_ok bd p (peek d') obj' m'
        ∧ (key ∉ m'.*1)
        ∧ ∀ K Dat, K ≠ key → ((K, Dat) ∈ m' ↔ (K, Dat) ∈ m).
Proof.
  intros Hrf Hok Hkey Hrun.
  destruct (delete_ok bd peek Hrf heap_alloc p d obj m key d' obj' Hok Hkey Hrun)
    as (m' & Hok' & [Hgone Hothers] & _).
  by exists m'.
Qed.

(** "l" deleted from the store of three keys. *)
Lemma delete_removes_key_witness :
  ∃ d' obj' m',
    mtb_kvstore_delete demo_bd alloc_ok demo_store.1 demo_store.2 (Some [108])
    = Some (CY_RSLT_SUCCESS, d', obj')
    ∧ store_ok demo_bd 8 (cells d') obj' m'
    ∧ ([108] ∉ m'.*1)
    ∧ ∀ K Dat, K ≠ [108] →
        ((K, Dat) ∈ m' ↔ (K, Dat) ∈ [([109], [6; 6]); ([108], [5; 5]); ([107], [1; 1])]).
Proof.
  destruct (run_success
              (mtb_kvstore_delete demo_bd alloc_ok demo_store.1 demo_store.2 (Some [108])))
    as (d' & obj' & Hrun); [vm_compute; reflexivity|].
  destruct (delete_removes_key demo_bd cells alloc_ok 8 demo_store.1 demo_store.2
              [([109], [6; 6]); ([108], [5; 5]); ([107], [1; 1])] [108] d' obj')
    as (m' & Hok' & Hgone & Hothers).
  - apply sim_reliable.
  - apply demo_store_contents.
  - vm_compute. reflexivity.
  - exact Hrun.
  - exists d', obj', m'. split; [exact Hrun|]. split; [exact Hok'|].
    split; [exact Hgone|exact Hothers].
Defined.

(** X20.  [mtb_kvstore_delete] of a key that is not stored succeeds and
    writes nothing: the device is as before, and so is the object but for
    the transaction buffer.  The key is not validated: this holds for the
    empty key and for keys of 64 characters and more as well. *)
Theorem delete_missing_key {D : Type} (bd : mtb_kvstore_bd_t D) (peek : D → Z → Z)
    (heap_alloc : Z → bool) p d obj m key :
  reliable_flash bd peek → store_ok bd p (peek d) obj m → key ∉ m.*1 →
  strlen key < 2 ^ 32 →
  ∃ obj',
    mtb_kvstore_delete bd heap_alloc d obj (Some key) = Some (CY_RSLT_SUCCESS, d, obj')
    ∧ obj_rel obj' obj.
Proof.
  intros Hrf Hok Hnotin Hkey.
  destruct (delete_absent bd peek Hrf heap_alloc p d obj m key Hok Hnotin Hkey)
    as (obj' & Hrun & Hrel & _).
  by exists obj'.
Qed.

(** The empty key deleted from the store of three keys. *)
Lemma delete_missing_key_witness :
  ∃ obj',
    mtb_kvstore_delete demo_bd alloc_ok demo_store.1 demo_store.2 (Some [])
    = Some (CY_RSLT_SUCCESS, demo_store.1, obj')
    ∧ obj_rel obj' demo_store.2.
Proof.
  apply (delete_missing_key demo_bd cells alloc_ok 8 demo_store.1 demo_store.2
           [([109], [6; 6]); ([108], [5; 5]); ([107], [1; 1])] []).
  - apply sim_reliable.
  - apply demo_store_contents.
  - cbn. intros H. repeat (apply elem_of_cons in H as [H|H]; [discriminate|]).
    by apply elem_of_nil in H.
  - vm_compute. reflexivity.
Defined.

(** X21.  Delete, then read: after a successful [mtb_kvstore_delete] of a
    key, [mtb_kvstore_read] of that key returns item-not-found, and a
    second [mtb_kvstore_delete] succeeds without writing to the device. *)
Theorem delete_then_read {D : Type} (bd : mtb_kvstore_bd_t D) (peek : D → Z → Z)
    (heap_alloc : Z → bool) p d obj m key d' obj' buf sz :
  reliable_flash bd peek → store_ok bd p (peek d) obj m →
  0 < strlen key < MTB_KVSTORE_MAX_KEY_SIZE → sz ≠ 0 →
  mtb_kvstore_delete bd heap_alloc d obj (Some key) = Some (CY_RSLT_SUCCESS, d', obj') →
  (∃ obj'',
     mtb_kvstore_read bd d' obj' (Some key) (Some buf) (Some sz)
     = Some (MTB_KVSTORE_ITEM_NOT_FOUND_ERROR, obj'', Some buf, Some sz))
  ∧ (∃ obj'',
       mtb_kvstore_delete bd heap_alloc d' obj' (Some key)
       = Some (CY_RSLT_SUCCESS, d', obj'')).
Proof.
  intros Hrf Hok Hkey Hnz Hrun.
  assert (MTB_KVSTORE_MAX_KEY_SIZE = 64) as Hmax by done.
  destruct (delete_ok bd peek Hrf heap_alloc p d obj m key d' obj' Hok ltac:(lia) Hrun)
    as (m' & Hok' & [Hgone _] & _).
  split.
  - destruct (read_absent bd peek Hrf p d' obj' m' key (Some buf) (Some sz) Hok' Hgone Hkey)
      as (obj'' & Hread & _); [|by exists obj''].
    right. by exists sz.
  - destruct (delete_absent bd peek Hrf heap_alloc p d' obj' m' key Hok' Hgone ltac:(lia))
      as (obj'' & Hdel & _).
    by exists obj''.
Qed.

(** "l" deleted from the store of three keys and read. *)
Lemma delete_then_read_witness :
  ∃ d' obj',
    mtb_kvstore_delete demo_bd alloc_ok demo_store.1 demo_store.2 (Some [108])
    = Some (CY_RSLT_SUCCESS, d', obj')
    ∧ (∃ obj'',
         mtb_kvstore_read demo_bd d' obj' (Some [108]) (Some [9; 9]) (Some 2)
         = Some (MTB_KVSTORE_ITEM_NOT_FOUND_ERROR, obj'', Some [9; 9], Some 2))
    ∧ (∃ obj'',
         mtb_kvstore_delete demo_bd alloc_ok d' obj' (Some [108])
         = Some (CY_RSLT_SUCCESS, d', obj'')).
Proof.
  destruct (run_success
              (mtb_kvstore_delete demo_bd alloc_ok demo_store.1 demo_store.2 (Some [108])))
    as (d' & obj' & Hrun); [vm_compute; reflexivity|].
  exists d', obj'. split; [exact Hrun|].
  apply (delete_then_read demo_bd cells alloc_ok 8 demo_store.1 demo_store.2
           [([109], [6; 6]); ([108], [5; 5]); ([107], [1; 1])] [108] d' obj' [9; 9] 2).
  - apply sim_reliable.
  - apply demo_store_contents.
  - vm_compute. split; reflexivity.
  - lia.
  - exact Hrun.
Defined.

(** X22.  A successful [mtb_kvstore_reset] leaves an empty store that
    satisfies the invariant, in the former spare area, with
    [consumed_size] and [free_space_offset] at the size of the area
    record; [mtb_kvstore_read] then finds no key. *)
Theorem reset_empties_store {D : Type} (bd : mtb_kvstore_bd_t D) (peek : D → Z → Z)
    p d obj m d' obj' :
  reliable_flash bd peek → store_ok bd p (peek d) obj m →
  mtb_kvstore_reset bd d obj = Some (CY_RSLT_SUCCESS, d', obj') →
  store_ok bd p (peek d') obj' []
  ∧ mtb_kvstore_size obj' = anchor_size p ∧ free_space_offset obj' = anchor_size p
  ∧ active_area_addr obj' = gc_area_addr obj ∧ gc_area_addr obj' = active_area_addr obj
  ∧ ∀ key buf sz, 0 < strlen key < MTB_KVSTORE_MAX_KEY_SIZE → sz ≠ 0 →
      ∃ obj'',
        mtb_kvstore_read bd d' obj' (Some key) (Some buf) (Some sz)
        = Some (MTB_KVSTORE_ITEM_NOT_FOUND_ERROR, obj'', Some buf, Some sz).
Proof.
  intros Hrf Hok Hrun.
  destruct (reset_ok bd peek Hrf p d obj m d' obj' Hok Hrun)
    as (Hok' & Hsize & Hfso & Hact & Hgc).
  do 5 (split; [done|]). intros key buf sz Hkey Hnz.
  destruct (read_absent bd peek Hrf p d' obj' [] key (Some buf) (Some sz) Hok')
    as (obj'' & Hread & _); [|done| |by exists obj''].
  - cbn. apply not_elem_of_nil.
  - right. by exists sz.
Qed.

(** The store of three keys reset. *)
Lemma reset_empties_store_witness :
  ∃ d' obj',
    mtb_kvstore_reset demo_bd demo_store.1 demo_store.2 = Some (CY_RSLT_SUCCESS, d', obj')
    ∧ store_ok demo_bd 8 (cells d') obj' []
    ∧ mtb_kvstore_size obj' = anchor_size 8 ∧ free_space_offset obj' = anchor_size 8
    ∧ active_area_addr obj' = gc_area_addr demo_store.2
    ∧ gc_area_addr obj' = active_area_addr demo_store.2
    ∧ ∀ key buf sz, 0 < strlen key < MTB_KVSTORE_MAX_KEY_SIZE → sz ≠ 0 →
        ∃ obj'',
          mtb_kvstore_read demo_bd d' obj' (Some key) (Some buf) (Some sz)
          = Some (MTB_KVSTORE_ITEM_NOT_FOUND_ERROR, obj'', Some buf, Some sz).
Proof.
  destruct (run_success (mtb_kvstore_reset demo_bd demo_store.1 demo_store.2))
    as (d' & obj' & Hrun); [vm_compute; reflexivity|].
  exists d', obj'. split; [exact Hrun|].
  apply (reset_empties_store demo_bd cells 8 demo_store.1 demo_store.2
           [([109], [6; 6]); ([108], [5; 5]); ([107], [1; 1])] d' obj').
  - apply sim_reliable.
  - apply demo_store_contents.
  - exact Hrun.
Defined.

(** X23.  The size accounting of a store that satisfies the invariant:
    [mtb_kvstore_size] is the padded size of the area record plus the
    padded sizes of the records of the stored keys, garbage not counted,
    and [mtb_kvstore_remaining_size] is what is left of the area, without
    wrap-around. *)
Theorem size_accounting {D : Type} (bd : mtb_kvstore_bd_t D) p f obj m :
  store_ok bd p f obj m →
  mtb_kvstore_size obj = anchor_size p + live_size p m
  ∧ mtb_kvstore_remaining_size obj = _MTB_KVSTORE_AREA_SIZE obj - mtb_kvstore_size obj
  ∧ 0 ≤ mtb_kvstore_remaining_size obj ≤ _MTB_KVSTORE_AREA_SIZE obj - anchor_size p.
Proof.
  intros Hok. pose proof (store_bounds bd p f obj m Hok) as (_ & _ & Hlive).
  pose proof Hok as [Hgeo _ _ _ Hcons Hfree].
  pose proof (geometry_areas bd p obj Hgeo) as (Hp & _ & Hgc & _ & Hgctop & _).
  assert (0 ≤ anchor_size p) by (unfold anchor_size, _mtb_kvstore_align_up; apply u32_range).
  unfold mtb_kvstore_size, mtb_kvstore_remaining_size.
  split; [done|]. rewrite u32_small by lia. lia.
Qed.

(** The store of three keys: 40 + 3 * 24 bytes used, 16 left. *)
Lemma size_accounting_witness :
  let m := [([109], [6; 6]); ([108], [5; 5]); ([107], [1; 1])] in
  mtb_kvstore_size demo_store.2 = anchor_size 8 + live_size 8 m
  ∧ mtb_kvstore_remaining_size demo_store.2
    = _MTB_KVSTORE_AREA_SIZE demo_store.2 - mtb_kvstore_size demo_store.2
  ∧ 0 ≤ mtb_kvstore_remaining_size demo_store.2
      ≤ _MTB_KVSTORE_AREA_SIZE demo_store.2 - anchor_size 8.
Proof.
  intros m.
  apply (size_accounting demo_bd 8 (cells demo_store.1) demo_store.2 m).
  apply demo_store_contents.
Defined.

(** ** Sizes, arguments and initialisation *)

(** X24.  The record header takes 20 bytes on the medium, which is what
    [_mtb_kvstore_setup_record_header] stores in [header_size]; and as
    long as the sum stays within 32 bits [_mtb_kvstore_get_record_size]
    is 20 plus the sizes of key and data, rounded up to the program
    size. *)
Theorem record_size_formula {D : Type} (bd : mtb_kvstore_bd_t D) p record_offset key data
    dsize op :
  (∀ x, bd_program_size bd x = p) → 0 < p → 0 ≤ dsize →
  sizeof_record_header + strlen key + dsize + p ≤ 2 ^ 32 →
  length (header_bytes (_mtb_kvstore_setup_record_header key data dsize
                          _MTB_KVSTORE_FORMAT_VERSION op)) = 20%nat
  ∧ header_size (_mtb_kvstore_setup_record_header key data dsize
                   _MTB_KVSTORE_FORMAT_VERSION op) = 20
  ∧ _mtb_kvstore_get_record_size bd record_offset (strlen key) dsize
    = _mtb_kvstore_align_up (20 + strlen key + dsize) p
  ∧ 20 + strlen key + dsize
    ≤ _mtb_kvstore_get_record_size bd record_offset (strlen key) dsize
    < 20 + strlen key + dsize + p
  ∧ _mtb_kvstore_get_record_size bd record_offset (strlen key) dsize mod p = 0.
Proof.
  intros Hp Hp0 Hd Hb. pose proof (strlen_nonneg key) as Hk.
  assert (sizeof_record_header = 20) as Hhs by done. rewrite Hhs in Hb.
  split; [apply header_bytes_length|]. split; [done|].
  rewrite (record_size_exact bd p record_offset (strlen key) dsize Hp Hk Hd) by lia.
  rewrite Hhs. split; [done|].
  destruct (align_up_bounds (20 + strlen key + dsize) p) as [Hr Hm]; [lia|done|lia|].
  done.
Qed.

(** The record of "k" with two bytes on the simulated flash: 24 bytes. *)
Lemma record_size_formula_witness :
  length (header_bytes (_mtb_kvstore_setup_record_header [107] (Some [1; 1]) 2
                          _MTB_KVSTORE_FORMAT_VERSION _MTB_KVSTORE_OPER_ADD)) = 20%nat
  ∧ header_size (_mtb_kvstore_setup_record_header [107] (Some [1; 1]) 2
                   _MTB_KVSTORE_FORMAT_VERSION _MTB_KVSTORE_OPER_ADD) = 20
  ∧ _mtb_kvstore_get_record_size demo_bd 40 (strlen [107]) 2
    = _mtb_kvstore_align_up (20 + strlen [107] + 2) 8
  ∧ 20 + strlen [107] + 2
    ≤ _mtb_kvstore_get_record_size demo_bd 40 (strlen [107]) 2
    < 20 + strlen [107] + 2 + 8
  ∧ _mtb_kvstore_get_record_size demo_bd 40 (strlen [107]) 2 mod 8 = 0.
Proof.
  apply (record_size_formula demo_bd 8 40 [107] (Some [1; 1]) 2 _MTB_KVSTORE_OPER_ADD).
  - intros x. reflexivity.
  - lia.
  - lia.
  - vm_compute. discriminate.
Defined.

(** X25.  The argument checks of [mtb_kvstore_write]: a key that is empty
    or has 64 characters or more, and a null data pointer with a size
    other than 0, give bad-param, with the device and the object as
    before. *)
Theorem write_bad_arguments {D : Type} (bd : mtb_kvstore_bd_t D) (heap_alloc : Z → bool)
    d obj key data size :
  strlen key < 2 ^ 32 →
  strlen key = 0 ∨ MTB_KVSTORE_MAX_KEY_SIZE ≤ strlen key ∨ (data = None ∧ size ≠ 0) →
  mtb_kvstore_write bd heap_alloc d obj (Some key) data size
  = Some (MTB_KVSTORE_BAD_PARAM_ERROR, d, obj).
Proof.
  intros Hlen Hbad. pose proof (strlen_nonneg key) as H0.
  unfold mtb_kvstore_write, _mtb_kvstore_is_valid_key. cbn [mbind option_bind].
  rewrite (u32_small (strlen key)) by lia.
  destruct ((0 <? strlen key) && (strlen key <? MTB_KVSTORE_MAX_KEY_SIZE)) eqn:Hvalid;
    cbn [negb orb]; [|done].
  apply andb_true_iff in Hvalid as [Hv1 Hv2].
  apply Z.ltb_lt in Hv1, Hv2.
  destruct Hbad as [Hbad|[Hbad|[-> Hsize]]]; [lia|lia|].
  rewrite bool_decide_eq_true_2 by done. apply Z.eqb_neq in Hsize. by rewrite Hsize.
Qed.

Lemma write_bad_arguments_witness :
  mtb_kvstore_write demo_bd alloc_ok demo_store.1 demo_store.2 (Some [107]) None 2
  = Some (MTB_KVSTORE_BAD_PARAM_ERROR, demo_store.1, demo_store.2).
Proof.
  apply (write_bad_arguments demo_bd alloc_ok demo_store.1 demo_store.2 [107] None 2).
  - vm_compute. reflexivity.
  - right. right. split; [reflexivity|lia].
Defined.

(** X26.  What [mtb_kvstore_init] rejects, for sectors of a power of two:
    a length of 0 gives bad-param; a start address or a length that is
    not a multiple of the sector size, and an odd number of sectors, give
    the alignment error.  Nothing is read or written and the caller's
    object is left as it is. *)
Theorem init_rejects_geometry {D : Type} (bd : mtb_kvstore_bd_t D) (heap_alloc : Z → bool)
    d obj start length k :
  bd_erase_size bd start = 2 ^ k → 0 ≤ k < 32 →
  0 ≤ start → 0 ≤ length → start + length < 2 ^ 32 →
  (length = 0 →
   mtb_kvstore_init bd heap_alloc d obj start length
   = Some (MTB_KVSTORE_BAD_PARAM_ERROR, d, obj))
  ∧ (length ≠ 0 →
     start mod 2 ^ k ≠ 0 ∨ length mod 2 ^ k ≠ 0 ∨ Z.odd (length / 2 ^ k) = true →
     mtb_kvstore_init bd heap_alloc d obj start length
     = Some (MTB_KVSTORE_ALIGNMENT_ERROR, d, obj)).
Proof.
  intros Hes Hk Hstart Hlength Htop.
  assert (0 < 2 ^ k) as Hpos by (apply Z.pow_pos_nonneg; lia).
  split.
  - intros ->. done.
  - intros Hnz Hbad. unfold mtb_kvstore_init.
    rewrite (proj2 (Z.eqb_neq length 0) Hnz), Hes.
    rewrite (u32_small (start + length)) by lia.
    rewrite !is_aligned_mod by lia.
    destruct (decide (start mod 2 ^ k = 0)) as [Hs|Hs].
    2: { by rewrite (bool_decide_eq_false_2 _ Hs). }
    destruct (decide (length mod 2 ^ k = 0)) as [Hl|Hl].
    2: { rewrite (bool_decide_eq_true_2 _ Hs), bool_decide_eq_false_2; [done|].
         rewrite Z.add_mod, Hs, Z.add_0_l, Z.mod_mod by lia. done. }
    destruct Hbad as [?|[?|Hodd]]; [done|done|].
    rewrite (bool_decide_eq_true_2 _ Hs), bool_decide_eq_true_2.
    2: { rewrite Z.add_mod, Hs, Hl by lia. done. }
    cbn [negb orb]. rewrite (proj2 (Z.eqb_neq (2 ^ k) 0)) by lia.
    assert (0 ≤ length / 2 ^ k) as Hn by (apply Z.div_pos; lia).
    assert (Z.land (length / 2 ^ k) 1 = 1) as Hland.
    { change 1 with (Z.ones 1) at 1. rewrite Z.land_ones by lia.
      change (2 ^ 1) with 2. rewrite Zmod_odd, Hodd. done. }
    rewrite Hland.
    destruct (length / 2 ^ k =? 0) eqn:E0; [done|]. apply Z.eqb_neq in E0.
    rewrite (proj2 (Z.ltb_lt 0 (length / 2 ^ k))) by lia. done.
Qed.

(** Three sectors of 128 bytes on the simulated flash. *)
Lemma init_rejects_geometry_witness :
  mtb_kvstore_init demo_bd alloc_ok blank_flash zero_obj 0 384
  = Some (MTB_KVSTORE_ALIGNMENT_ERROR, blank_flash, zero_obj).
Proof.
  apply (init_rejects_geometry demo_bd alloc_ok blank_flash zero_obj 0 384 7).
  - reflexivity.
  - lia.
  - lia.
  - lia.
  - lia.
  - lia.
  - right. right. reflexivity.
Defined.

(** X27.  When the RAM table is full and cannot grow, [mtb_kvstore_write]
    of a key that is not stored returns the allocation error before it
    touches the device; the object is as before but for the transaction
    buffer. *)
Theorem write_table_full {D : Type} (bd : mtb_kvstore_bd_t D) (peek : D → Z → Z)
    (heap_alloc : Z → bool) p d obj m key data size :
  reliable_flash bd peek → store_ok bd p (peek d) obj m →
  0 < strlen key < MTB_KVSTORE_MAX_KEY_SIZE → (data = None → size = 0) →
  key ∉ m.*1 →
  max_entries obj ≤ num_entries obj →
  heap_alloc (u32 (u32 (max_entries obj * 2) * sizeof_ram_table_entry)) = false →
  ∃ obj',
    mtb_kvstore_write bd heap_alloc d obj (Some key) data size
    = Some (MTB_KVSTORE_MEM_ALLOC_ERROR, d, obj')
    ∧ obj_rel obj' obj.
Proof.
  intros Hrf Hok Hkey Hdata Hnotin Hfull Halloc.
  assert (MTB_KVSTORE_MAX_KEY_SIZE = 64) as Hmax by done.
  pose proof (store_hashes bd p _ obj m Hok) as Hhashes.
  pose proof Hok as [_ _ Hsorted _ _ _].
  destruct (valid_key_strlen key Hkey) as [Hvalid _].
  unfold mtb_kvstore_write. rewrite Hvalid. cbn [mbind option_bind negb orb].
  assert ((bool_decide (data = None) && negb (size =? 0)) = false) as ->.
  { destruct data as [bytes|]; [done|]. by rewrite Hdata. }
  unfold _mtb_kvstore_write_with_flags.
  destruct (store_find bd peek Hrf p d obj m key (Some 0) Hok ltac:(lia))
    as (o1 & -> & Hrel & _).
  cbn [mbind option_bind].
  destruct (find_spec_absent key _ m Hhashes Hsorted Hnotin 0 (Some 0)) as (n & -> & _).
  cbn [fst snd default]. rewrite bool_decide_eq_true_2 by done.
  cbn [negb andb is_success]. rewrite andb_false_r.
  unfold write_operation. rewrite bool_decide_eq_true_2 by done. cbn [andb].
  pose proof (obj_rel_fields _ _ Hrel) as (_ & _ & Htab & Hme & _).
  unfold num_entries in *. rewrite Htab, Hme.
  rewrite (proj2 (Z.geb_le _ _) Hfull).
  unfold _mtb_kvstore_increment_max_keys. rewrite Hme, Halloc.
  exists o1. done.
Qed.

(** The store of three keys with a table of three entries that cannot
    grow. *)
Lemma write_table_full_witness :
  ∃ obj',
    mtb_kvstore_write demo_bd (λ _, false) demo_store.1 (set_max_entries 3 demo_store.2)
      (Some [110]) (Some [1]) 1
    = Some (MTB_KVSTORE_MEM_ALLOC_ERROR, demo_store.1, obj')
    ∧ obj_rel obj' (set_max_entries 3 demo_store.2).
Proof.
  apply (write_table_full demo_bd cells (λ _, false) 8 demo_store.1
           (set_max_entries 3 demo_store.2)
           [([109], [6; 6]); ([108], [5; 5]); ([107], [1; 1])] [110] (Some [1]) 1).
  - apply sim_reliable.
  - apply store_ok_max_entries, demo_store_contents.
  - vm_compute. split; reflexivity.
  - discriminate.
  - cbn. intros H. repeat (apply elem_of_cons in H as [H|H]; [discriminate|]).
    by apply elem_of_nil in H.
  - vm_compute. discriminate.
  - reflexivity.
Defined.

(** X28.  The first initialisation: on a medium that is erased, with a
    device of uniform geometry whose erase leaves 0xFF, a successful
    [mtb_kvstore_init] formats the first area: the medium then holds, at
    the start of the first half, an intact area record of version 1
    ([anchor_at]: header, the key of the area record, the version and
    the format, with a matching CRC), and every byte behind the area
    record up to the end of the store reads 0xFF.  The store it leaves is
    empty and satisfies the invariant, with the first half as the active
    area and [consumed_size] and [free_space_offset] at the size of the
    area record; the second half of the medium is not touched. *)
Theorem init_formats_erased_medium {D : Type} (bd : mtb_kvstore_bd_t D) (peek : D → Z → Z)
    (heap_alloc : Z → bool) p r es d obj0 start length d' obj' :
  reliable_flash bd peek → erases_to_ff bd peek →
  (∀ a, bd_program_size bd a = p) → (∀ a, bd_read_size bd a = r) →
  (∀ a, bd_erase_size bd a = es) →
  0 < p → 0 < r < 2 ^ 32 → r ≤ p ∨ r mod p = 0 → 0 < es →
  0 ≤ start → start + length + p < 2 ^ 32 →
  anchor_size p ≤ length / 2 →
  (∀ x, start ≤ x < start + length → peek d x = 0xFF) →
  mtb_kvstore_init bd heap_alloc d obj0 start length = Some (CY_RSLT_SUCCESS, d', obj') →
  store_ok bd p (peek d') obj' []
  ∧ start_addr obj' = start ∧ obj_length obj' = length
  ∧ active_area_addr obj' = start ∧ gc_area_addr obj' = start + length / 2
  ∧ active_area_version obj' = _MTB_KVSTORE_INITIAL_AREA_VERSION
  ∧ mtb_kvstore_size obj' = anchor_size p ∧ free_space_offset obj' = anchor_size p
  ∧ (∀ x, ¬ (start ≤ x < start + length / 2) → peek d' x = peek d x)
  ∧ anchor_at (peek d') start _MTB_KVSTORE_INITIAL_AREA_VERSION
  ∧ ∀ x, start + anchor_size p ≤ x < start + length → peek d' x = 0xFF.
Proof.
  intros Hrf Hff. by apply init_erased.
Qed.

(** The fresh store on the blank simulated flash. *)
Lemma init_formats_erased_medium_witness :
  ∃ d' obj',
    mtb_kvstore_init demo_bd alloc_ok blank_flash zero_obj 0 256
    = Some (CY_RSLT_SUCCESS, d', obj')
    ∧ store_ok demo_bd 8 (cells d') obj' []
    ∧ start_addr obj' = 0 ∧ obj_length obj' = 256
    ∧ active_area_addr obj' = 0 ∧ gc_area_addr obj' = 0 + 256 / 2
    ∧ active_area_version obj' = _MTB_KVSTORE_INITIAL_AREA_VERSION
    ∧ mtb_kvstore_size obj' = anchor_size 8 ∧ free_space_offset obj' = anchor_size 8
    ∧ (∀ x, ¬ (0 ≤ x < 0 + 256 / 2) → cells d' x = cells blank_flash x)
    ∧ anchor_at (cells d') 0 _MTB_KVSTORE_INITIAL_AREA_VERSION
    ∧ ∀ x, 0 + anchor_size 8 ≤ x < 0 + 256 → cells d' x = 0xFF.
Proof.
  destruct (run_success (mtb_kvstore_init demo_bd alloc_ok blank_flash zero_obj 0 256))
    as (d' & obj' & Hrun); [vm_compute; reflexivity|].
  exists d', obj'. split; [exact Hrun|].
  apply (init_formats_erased_medium demo_bd cells alloc_ok 8 1 128 blank_flash zero_obj
           0 256 d' obj').
  - apply sim_reliable.
  - apply sim_erases.
  - intros a. reflexivity.
  - intros a. reflexivity.
  - intros a. reflexivity.
  - lia.
  - lia.
  - left. lia.
  - lia.
  - lia.
  - lia.
  - vm_compute. discriminate.
  - intros x Hx. reflexivity.
  - exact Hrun.
Defined.

(** X29.  Initialisation on a medium that holds a store.  If one area
    starts with an intact area record of the version [v], the other area
    has no area record or one that loses against [v] by the rule of
    [_mtb_kvstore_setup_areas], and the area record is followed by a log
    of intact records and then by an erased header or the end of the
    area, then a successful [mtb_kvstore_init] writes nothing, takes
    that area as the active one and rebuilds the store from the log: the
    invariant holds, [free_space_offset] is the end of the log, and a
    key is stored with some data exactly if the last record of the key
    in the log has that data and is not a tombstone. *)
Theorem init_replays_log {D : Type} (bd : mtb_kvstore_bd_t D) (peek : D → Z → Z)
    (heap_alloc : Z → bool) p r es d obj0 start length (second : bool) v log d' obj' :
  reliable_flash bd peek →
  (∀ a, bd_program_size bd a = p) → (∀ a, bd_read_size bd a = r) →
  (∀ a, bd_erase_size bd a = es) →
  0 < p → 0 < r < 2 ^ 32 → r ≤ p ∨ r mod p = 0 → 0 < es →
  0 ≤ start → start + length + p < 2 ^ 32 →
  anchor_size p ≤ length / 2 →
  let active := if second then start + length / 2 else start in
  let spare := if second then start else start + length / 2 in
  anchor_at (peek d) active v → spare_ok (peek d) spare second v →
  log_at (peek d) p active (length / 2) (anchor_size p) log →
  log_end p (anchor_size p) log ≤ length / 2 →
  (log_end p (anchor_size p) log + sizeof_record_header < length / 2 →
   ∀ x, active + log_end p (anchor_size p) log ≤ x
        < active + log_end p (anchor_size p) log + sizeof_record_header →
        peek d x = 0xFF) →
  mtb_kvstore_init bd heap_alloc d obj0 start length = Some (CY_RSLT_SUCCESS, d', obj') →
  d' = d
  ∧ active_area_addr obj' = active
  ∧ active_area_version obj' = v
  ∧ free_space_offset obj' = log_end p (anchor_size p) log
  ∧ ∃ m, store_ok bd p (peek d) obj' m
         ∧ ∀ K Dat, (K, Dat) ∈ m ↔ log_get K log None = Some Dat.
Proof.
  intros Hrf Hp Hr Hes Hp0 Hr0 Hrp Hes0 Hstart Htop Hanchor active spare.
  by apply (init_replay bd peek Hrf heap_alloc p r es).
Qed.

(** A restart on the medium of the store of three keys. *)
Lemma init_replays_log_witness :
  let hdr K Dat := _mtb_kvstore_setup_record_header K (Some Dat) (strlen Dat)
                     _MTB_KVSTORE_FORMAT_VERSION _MTB_KVSTORE_OPER_ADD in
  let log := [(hdr [107] [1; 1], [107], [1; 1]); (hdr [108] [5; 5], [108], [5; 5]);
              (hdr [109] [6; 6], [109], [6; 6])] in
  ∃ d' obj',
    mtb_kvstore_init demo_bd alloc_ok demo_store.1 zero_obj 0 256
    = Some (CY_RSLT_SUCCESS, d', obj')
    ∧ d' = demo_store.1
    ∧ active_area_addr obj' = 0
    ∧ active_area_version obj' = 1
    ∧ free_space_offset obj' = log_end 8 (anchor_size 8) log
    ∧ ∃ m, store_ok demo_bd 8 (cells demo_store.1) obj' m
           ∧ ∀ K Dat, (K, Dat) ∈ m ↔ log_get K log None = Some Dat.
Proof.
  intros hdr log.
  destruct (run_success (mtb_kvstore_init demo_bd alloc_ok demo_store.1 zero_obj 0 256))
    as (d' & obj' & Hrun); [vm_compute; reflexivity|].
  exists d', obj'. split; [exact Hrun|].
  apply (init_replays_log demo_bd cells alloc_ok 8 1 128 demo_store.1 zero_obj 0 256 false 1
           log d' obj').
  - apply sim_reliable.
  - intros a. reflexivity.
  - intros a. reflexivity.
  - intros a. reflexivity.
  - lia.
  - lia.
  - left. lia.
  - lia.
  - lia.
  - lia.
  - vm_compute. discriminate.
  - exists (_mtb_kvstore_setup_record_header _mtb_kvstore_area_rec_key
              (Some (area_record_data_bytes 1 0)) (strlen (area_record_data_bytes 1 0))
              _MTB_KVSTORE_FORMAT_VERSION _MTB_KVSTORE_OPER_ADD), 0.
    destruct (record_at_intro (cells demo_store.1) 0 _mtb_kvstore_area_rec_key
                (area_record_data_bytes 1 0)) as [Hrec Hcrc].
    + lia.
    + vm_compute. split; reflexivity.
    + vm_compute. reflexivity.
    + vm_compute. reflexivity.
    + split; [exact Hrec|]. split; [exact Hcrc|]. lia.
  - left. apply erased_of_bytes; [vm_compute; discriminate|].
    vm_compute. reflexivity.
  - repeat split.
    all: try (intros H; repeat (apply elem_of_cons in H as [H|H]; [discriminate|]);
              by apply elem_of_nil in H).
    all: try (vm_compute; discriminate).
    all: apply record_at_intro;
      [vm_compute; discriminate|vm_compute; split; reflexivity|vm_compute; reflexivity
      |vm_compute; reflexivity].
  - vm_compute. discriminate.
  - intros Hc. vm_compute in Hc. discriminate Hc.
  - exact Hrun.
Defined.

(** X30.  A write or a deletion survives a restart.  Let the medium hold
    the store ([medium_ok]: the area record, the log of the records up to
    [free_space_offset], erased bytes behind it, the contents of the
    store being what the log gives), and let the record of the operation
    fit behind the others in the active area.  A successful
    [_mtb_kvstore_write_with_flags] (the body of [mtb_kvstore_write] and
    [mtb_kvstore_delete]) then leaves the store on the medium in the same
    sense, with the key written or deleted and the other keys as before;
    and a successful [mtb_kvstore_init] over the same addresses on that
    medium writes nothing and rebuilds a store that satisfies the
    invariant with the same contents.  The device has uniform read and
    erase sizes, and the key is valid and holds no NUL byte. *)
Theorem append_survives_restart {D : Type} (bd : mtb_kvstore_bd_t D) (peek : D → Z → Z)
    (heap_alloc : Z → bool) p r es d obj m (second : bool) v log key data size
    (delete : bool) d1 obj1 obj0 d2 obj2 :
  reliable_flash bd peek →
  (∀ a, bd_read_size bd a = r) → (∀ a, bd_erase_size bd a = es) →
  0 < r < 2 ^ 32 → r ≤ p ∨ r mod p = 0 →
  medium_ok bd p (peek d) obj m second v log →
  0 < strlen key < MTB_KVSTORE_MAX_KEY_SIZE → (0 ∉ key) → payload_ok data size →
  sizeof_record_header + strlen key + size ≤ _MTB_KVSTORE_AREA_SIZE obj →
  free_space_offset obj + rec_size p (key, payload data size) ≤ _MTB_KVSTORE_AREA_SIZE obj →
  _mtb_kvstore_write_with_flags bd heap_alloc d obj key data size delete
  = Some (CY_RSLT_SUCCESS, d1, obj1) →
  mtb_kvstore_init bd heap_alloc d1 obj0 (start_addr obj) (obj_length obj)
  = Some (CY_RSLT_SUCCESS, d2, obj2) →
  d2 = d1
  ∧ ∃ m1 log1 m2,
      medium_ok bd p (peek d1) obj1 m1 second v log1
      ∧ updated delete key (payload data size) m m1
      ∧ store_ok bd p (peek d1) obj2 m2
      ∧ ∀ K Dat, (K, Dat) ∈ m2 ↔ (K, Dat) ∈ m1.
Proof.
  intros Hrf Hr Hes Hr0 Hrp Hmed Hklen Hzero Hpay Hfits Hroom Hwrite Hinit.
  destruct (append_keeps_medium bd peek Hrf heap_alloc p d obj m second v log key data size
              delete d1 obj1 Hmed Hklen Hzero Hpay Hfits Hroom Hwrite)
    as (m1 & log1 & Hmed1 & Hupd & Hs & Hl).
  rewrite <- Hs, <- Hl in Hinit.
  destruct (restart_on_medium bd peek Hrf heap_alloc p r es d1 obj1 m1 second v log1 obj0 d2
              obj2 Hr Hes Hr0 Hrp Hmed1 Hinit) as (Hd2 & m2 & Hok2 & Hm2).
  split; [done|]. by exists m1, log1, m2.
Qed.

(** The store of the key "k": an update of the key, whose record fits
    behind the first, and a restart. *)
Lemma append_survives_restart_witness :
  _mtb_kvstore_write_with_flags demo_bd alloc_ok demo_one.1 demo_one.2 [107]
    (Some [2; 2]) 2 false
  = Some (CY_RSLT_SUCCESS, demo_updated.1, demo_updated.2)
  ∧ ∃ d2 obj2,
      mtb_kvstore_init demo_bd alloc_ok demo_updated.1 zero_obj (start_addr demo_one.2)
        (obj_length demo_one.2)
      = Some (CY_RSLT_SUCCESS, d2, obj2)
      ∧ d2 = demo_updated.1
      ∧ ∃ m1 log1 m2,
          medium_ok demo_bd 8 (cells demo_updated.1) demo_updated.2 m1 false 1 log1
          ∧ updated false [107] (payload (Some [2; 2]) 2) [([107], [1; 1])] m1
          ∧ store_ok demo_bd 8 (cells demo_updated.1) obj2 m2
          ∧ ∀ K Dat, (K, Dat) ∈ m2 ↔ (K, Dat) ∈ m1.
Proof.
  split; [exact demo_updated_run|].
  destruct (run_success
              (mtb_kvstore_init demo_bd alloc_ok demo_updated.1 zero_obj
                 (start_addr demo_one.2) (obj_length demo_one.2)))
    as (d2 & obj2 & Hinit); [vm_compute; reflexivity|].
  exists d2, obj2. split; [exact Hinit|].
  set (hdr := _mtb_kvstore_setup_record_header [107] (Some [1; 1]) (strlen [1; 1])
                _MTB_KVSTORE_FORMAT_VERSION _MTB_KVSTORE_OPER_ADD).
  apply (append_survives_restart demo_bd cells alloc_ok 8 1 128 demo_one.1 demo_one.2
           [([107], [1; 1])] false 1 [(hdr, [107], [1; 1])] [107] (Some [2; 2]) 2 false
           demo_updated.1 demo_updated.2 zero_obj d2 obj2).
  - apply sim_reliable.
  - intros a. reflexivity.
  - intros a. reflexivity.
  - lia.
  - left. lia.
  - constructor;
      rewrite ?(proj1 (proj2 demo_one_fields)), ?(proj1 (proj2 (proj2 demo_one_fields))),
        ?(proj1 (proj2 (proj2 (proj2 demo_one_fields)))),
        ?(proj2 (proj2 (proj2 (proj2 demo_one_fields)))).
    + apply demo_one_contents.
    + vm_compute. reflexivity.
    + exists (_mtb_kvstore_setup_record_header _mtb_kvstore_area_rec_key
                (Some (area_record_data_bytes 1 0)) (strlen (area_record_data_bytes 1 0))
                _MTB_KVSTORE_FORMAT_VERSION _MTB_KVSTORE_OPER_ADD), 0.
      destruct (record_at_intro (cells demo_one.1) 0 _mtb_kvstore_area_rec_key
                  (area_record_data_bytes 1 0)) as [Hrec Hcrc].
      * lia.
      * vm_compute. split; reflexivity.
      * vm_compute. reflexivity.
      * vm_compute. reflexivity.
      * split; [exact Hrec|]. split; [exact Hcrc|]. lia.
    + left. apply erased_of_bytes; [vm_compute; discriminate|].
      vm_compute. reflexivity.
    + destruct (record_at_intro (cells demo_one.1) (0 + anchor_size 8) [107] [1; 1])
        as [Hrec Hcrc].
      * vm_compute. discriminate.
      * vm_compute. split; reflexivity.
      * vm_compute. reflexivity.
      * vm_compute. reflexivity.
      * split; [exact Hrec|]. split; [exact Hcrc|]. split.
        -- intros H. apply elem_of_cons in H as [H|H]; [discriminate H|].
           apply elem_of_nil in H. destruct H.
        -- split; [vm_compute; discriminate|exact I].
    + vm_compute. reflexivity.
    + intros K Dat. cbn [log_get].
      assert (is_tombstone hdr = false) as -> by (vm_compute; reflexivity).
      split.
      * intros H. apply elem_of_cons in H as [H|H];
          [|apply elem_of_nil in H; destruct H].
        injection H as -> ->. rewrite decide_True by reflexivity. reflexivity.
      * destruct (decide ([107] = K)) as [<-|]; [|discriminate].
        intros [= <-]. apply list_elem_of_here.
    + intros x Hx.
      apply (erased_of_bytes (cells demo_one.1) 64 64); [lia|vm_compute; reflexivity|lia].
  - vm_compute. split; reflexivity.
  - intros H. apply elem_of_cons in H as [H|H]; [discriminate H|].
    apply elem_of_nil in H. destruct H.
  - split; [lia|]. vm_compute. discriminate.
  - vm_compute. discriminate.
  - vm_compute. discriminate.
  - exact demo_updated_run.
  - exact Hinit.
Defined.
